(* ===== verification/_CoqProject ===== *)
-Q . S2P
Prelude.v
Arith.v
ListLib.v
RingBuf.v
Bitfield.v
UtAllocator.v
UtRefine.v
UtClaims.v
UtTable.v
Pq.v
Clock.v
Memory.v
SosState.v
Partial.v
Cspace.v
CspaceProofs.v
CspaceClaims.v
CspaceBoot.v
CspaceLife.v
CspaceDemo.v
FrameTable.v
FrameProofs.v
UtInterface.v
PageTable.v
AddrSpace.v
Nfs.v
Pager.v
FrameClaims.v
Boot.v
Dma.v
Morecore.v
Cpio.v
Pbuf.v
Rpc.v
RpcProofs.v
RpcClaims.v
NfsLib.v
NfsClaims.v
Victim.v
Vm.v
Serial.v
Vfs.v
ElfFile.v
Elf.v
Proc.v
Syscalls.v
VmClaims.v
CopyClaims.v
Picoro.v
ProcClaims.v
Sync.v
SyncClaims.v
