(* ===== verification/Prelude.v ===== *)
(** * DreamyOS: a verification of the SOS operating system personality

    The program is SOS, a small multi-process operating system in C that runs
    as the root task of the seL4 microkernel on a 32-bit ARM machine
    (apps/sos/src), with the libraries it is built from (libs/).  This library
    is a shallow embedding of it: each C function is a definition of the same
    name, over an explicit state, and the theorems are about those definitions.

    ** The program and its files

    - Utilities (libs/libutils): file Arith (arith.h, page.h, math.h, time.h),
      ListLib (list.c, list.h), RingBuf (ringbuf.c, ringbuf.h).
    - Physical memory (apps/sos/src/ut_manager): Bitfield (bitfield.c),
      UtAllocator, UtRefine and UtClaims (ut_allocator.c), UtTable (ut.c); Boot
      (the division of memory in main.c), Dma (dma.c), Morecore
      (sys/sys_morecore.c, the heap of the C library).
    - Capabilities (libs/libsel4cspace): Cspace (all functions), CspaceProofs,
      CspaceClaims, CspaceBoot, CspaceLife, CspaceDemo.
    - Time (libs/libclock): Pq (pq.c), Clock (clock.c).
    - The state of SOS: SosState gathers the structs and static variables of
      all modules in one record [sos]; the heap objects of each struct are a
      finite map from addresses.  Memory models the bytes of the frames.
    - Virtual memory (apps/sos/src/vm, mapping.c): FrameTable, FrameProofs and
      FrameClaims (frametable.c), PageTable, Vm and VmClaims (vm.c,
      mapping.c), CopyClaims (copies between SOS and a process), AddrSpace
      (addrspace.c, sys_vm.c), Pager and Victim (pager.c).
    - Files (apps/sos/src/fs, vfs, dev): Nfs (sos_nfs.c), Serial (device.c,
      sos_serial.c), Vfs (vfs.c, file.c).
    - Processes (apps/sos/src/proc): ElfFile (libs/libelf), Elf (elf.c), Proc
      and ProcClaims (proc.c).
    - The top: Syscalls (syscall/, [vm_fault] of vm.c, event.c), Picoro
      (coro/picoro.c).
    - Archives (libs/libcpio): Cpio.
    - Network files (libs/libnfs, and the packet buffers of libs/liblwip):
      Pbuf (pbuf.c, pbuf_helpers.c), Rpc, RpcProofs and RpcClaims (rpc.c,
      time.c), NfsLib and NfsClaims (nfs.c, mountd.c, portmapper.c).
    - Threads (libs/libsel4sync): Sync and SyncClaims (mutex.c, sem.c over the
      asynchronous endpoints of kernel/src/object/asyncendpoint.c), as steps of
      any number of threads.

    A system call arrives in [event_loop], which starts a coroutine for
    [handle_syscall]; the handler works on the process, its address space and
    its files, which call the pager, the frame table and the untyped
    allocator.  The definitions are composed the same way.

    ** Conventions

    Every component is written in one small monad [M S]: a computation over a
    state [S] that either returns a value and the new state or stops with a
    [fault].  A fault is never a value the C code returns; it stands for a
    failed [assert], an access outside an array, the dereference of a null
    pointer, or (for loops that the source does not bound) the exhaustion of
    the fuel the model runs the loop with.  Integers of the C program are [Z]
    values; the places where the source relies on a width apply the wrap-around
    functions [u32], [u64], [i32].  A result that C returns through a pointer
    is part of the returned value; [None] is the failure code.

    Code below the modelled part is a class: [Kernel], [Threads] (the system
    calls of seL4, the serial line and the timer as SOS uses them), [Nfs] (the
    file server behind libnfs, as sos_nfs.c sees it), [Net] (UDP of lwip, the
    network and memory as libnfs sees them), [CspaceEnv] (kernel and untyped
    memory as libsel4cspace sees them), [GPT] (the timer device), [Cache], and
    [World] (what other coroutines do while one is suspended).  What the proofs
    rely on are the laws of classes such as [KernelLaws], [NfsLaws], [GPTLaws],
    [CspaceLaws] and [FuncLaws]; [UtLaws] is what the frame table needs of the
    untyped allocator, and is proved of it in UtInterface, which also has a
    kernel and a file server that satisfy the laws.  File Partial has the
    calculus [wpf R] for code that may stop with a fault of [R], mostly a failed
    [assert] on an error of the kernel, and otherwise reaches its postcondition.

    ** What the theorems show

    - UtRefine: the allocator refines a set of disjoint, aligned live blocks as
      long as its search hints are in range; it fails only when memory is
      exhausted.  UtClaims: any sequence of allocations and releases, followed
      by the release of everything, restores every slab; after a failed
      allocation of a page the hint is lost, and what follows reads outside the
      bit array.  Bitfield, ListLib and RingBuf: refinement of a set of bits,
      of sequences and of a bounded queue.
    - UtTable: every address of the memory reported at boot is translated to
      the object that contains it; stolen blocks do not overlap what remains.
    - Boot: the parts memory is divided into are aligned and disjoint, up to the
      memory of the board and beyond.  Dma, Morecore: blocks are disjoint, and
      what happens past the end of the pool.
    - Pq, Clock: the queue keeps its elements; [time_stamp] is exact when the
      counter wraps between its readings and one period early when it wraps
      before the first; examples of lost heap order, endless interrupt handling
      and early timers.
    - Cspace: slots handed out are distinct over every sequence of calls, a
      space created and destroyed gives back its slot and untyped memory (the
      tables on the heap are not tracked), and what the bootstrap establishes.
    - FrameClaims: frames handed out are zeroed, owned by nobody else and
      within the limit, and paging starts only at the limit or when no frame can
      be made; freeing keeps the invariant.  PageTable: the tables
      are a map from pages to entries.  AddrSpace, VmClaims: regions never
      overlap.  CopyClaims: copies to resident pages come back.  Victim: the scan for a victim ends unless all frames are
      pinned.
    - Nfs: transfers in the first 2^31 bytes of a file, which the [int] offset of
      a request can reach, come back as written; a failed read is taken for a
      short one.  Rpc, NfsLib: the queue of pending calls stays well formed,
      blocking calls end, requests and replies are encoded and decoded as the
      protocol has them, on packets split in any way.  Cpio: archives are read
      back.
    - Picoro: the coroutine lists over all reachable states.  ProcClaims:
      pids, message routing, exit, descriptors out of range.  SyncClaims: mutual
      exclusion and no lost wake-up, over every interleaving.

    ** Fuel and bounds

    [while_fuel] runs loops the source does not bound: the transfers of Nfs
    have one round for each byte, the copies and the program loader one for
    each page, list traversals one for each allocated node, the queue of pending
    calls one for each item and one more, a blocking call its 302 rounds, the
    names of a directory reply one for each byte of the packet, [next_victim]
    two for each frame; the theorems show that these suffice.  The reading of a
    directory takes the number of rounds as an argument, since the server
    decides it.

    ** Not modelled

    - The saved contexts and stacks of coroutines, and the machine code of the
      C compiler: control transfer is direct.
    - seL4 (kernel/) but for its asynchronous endpoints, the C library
      (libs/libmuslc), the network stack but for its packet buffers, the drivers
      (libs/liblwip, libs/libethdrivers, libs/libplatsupport, libs/libserial):
      code the sources call, behind the classes.
    - The rest of main.c and network.c, which start these parts, and of
      apps/sos/src/sys: entry points the C library calls (write to the debug
      console, abort, unimplemented system calls); tests.c: a test program.
    - The user programs of apps/, their library libs/libsos, and the build tools
      of tools/. *)


From Stdlib Require Export ZArith Lia Bool.
From stdpp Require Export base numbers gmap list.
Export list_basics.list list_relations.list list_misc.list list_monad.list.
#[global] Open Scope Z_scope.

Declare Scope sos_scope.
Delimit Scope sos_scope with sos.
#[global] Open Scope sos_scope.

(** ** Faults and the monad *)

Inductive fault := FAssert | FBounds | FNull | FFuel.

Inductive res (A : Type) := Ok (a : A) | Err (f : fault).
Arguments Ok {A} _.
Arguments Err {A} _.

Definition M (S A : Type) : Type := S -> res (A * S).

Section monad.
Context {S : Type}.

Definition ret {A} (a : A) : M S A := fun s => Ok (a, s).
Definition bind {A B} (m : M S A) (k : A -> M S B) : M S B := fun s =>
  match m s with
  | Ok (a, s') => k a s'
  | Err f => Err f
  end.
Definition fail {A} (f : fault) : M S A := fun _ => Err f.
Definition get : M S S := fun s => Ok (s, s).
Definition put (s : S) : M S unit := fun _ => Ok (tt, s).
Definition gets {A} (f : S -> A) : M S A := fun s => Ok (f s, s).
Definition modify (f : S -> S) : M S unit := fun s => Ok (tt, f s).
(** [assert(b)]: the C library aborts the program when [b] is false. *)
Definition c_assert (b : bool) : M S unit := if b then ret tt else fail FAssert.
End monad.

Notation "x <- m ;; k" := (bind m (fun x => k))
  (at level 100, m at next level, right associativity) : sos_scope.
Notation "'let!' p := m 'in' k" := (bind m (fun x => match x with p => k end))
  (at level 100, p pattern, m at next level, right associativity) : sos_scope.
Notation "m ;;; k" := (bind m (fun _ => k))
  (at level 100, right associativity) : sos_scope.

(** Run a computation over a part of the state. *)
Definition zoom {S T A} (g : S -> T) (p : T -> S -> S) (m : M T A) : M S A := fun s =>
  match m (g s) with
  | Ok (a, t) => Ok (a, p t s)
  | Err f => Err f
  end.

(** Runs a computation on an object of its own, beside the state. *)
Definition run_on {S T A} (m : M T A) (t : T) : M S (A * T) := fun s =>
  match m t with
  | Ok r => Ok (r, s)
  | Err f => Err f
  end.

(** ** Machine integers *)

Definition u32 (z : Z) : Z := z mod 2 ^ 32.
Definition u64 (z : Z) : Z := z mod 2 ^ 64.
Definition i32 (z : Z) : Z := (z + 2 ^ 31) mod 2 ^ 32 - 2 ^ 31.

Definition is_u32 (z : Z) : Prop := 0 <= z < 2 ^ 32.
Definition is_u64 (z : Z) : Prop := 0 <= z < 2 ^ 64.

Lemma u32_small z : is_u32 z -> u32 z = z.
Proof. unfold u32, is_u32. intros. apply Z.mod_small. lia. Qed.

Lemma u64_small z : is_u64 z -> u64 z = z.
Proof. unfold u64, is_u64. intros. apply Z.mod_small. lia. Qed.

Lemma u32_range z : is_u32 (u32 z).
Proof. unfold u32, is_u32. apply Z.mod_pos_bound. lia. Qed.

Lemma u64_range z : is_u64 (u64 z).
Proof. unfold u64, is_u64. apply Z.mod_pos_bound. lia. Qed.

Lemma i32_small z : - 2 ^ 31 <= z < 2 ^ 31 -> i32 z = z.
Proof. unfold i32. intros. rewrite Z.mod_small; lia. Qed.

(** ** Arrays: lists indexed by [Z] *)

Definition lookupZ {A} (l : list A) (i : Z) : option A :=
  if 0 <=? i then l !! Z.to_nat i else None.
Definition insertZ {A} (i : Z) (x : A) (l : list A) : list A :=
  if 0 <=? i then <[Z.to_nat i := x]> l else l.

Notation "l !z i" := (lookupZ l i) (at level 20) : sos_scope.

(** Reading an array: outside its bounds the C program has no defined value. *)
Definition rd {S A} (l : list A) (i : Z) : M S A :=
  match l !z i with Some x => ret x | None => fail FBounds end.

(** The bounds check of an array store. *)
Definition in_bounds {S A} (l : list A) (i : Z) : M S unit :=
  match l !z i with Some _ => ret tt | None => fail FBounds end.

Lemma lookupZ_is_Some {A} (l : list A) i :
  is_Some (l !z i) <-> 0 <= i < Z.of_nat (length l).
Proof.
  unfold lookupZ. destruct (Z.leb_spec 0 i).
  - rewrite lookup_lt_is_Some. lia.
  - split; [intros [? ?]; done | lia].
Qed.

Lemma lookupZ_lt {A} (l : list A) i x :
  l !z i = Some x -> 0 <= i < Z.of_nat (length l).
Proof. intros H. apply lookupZ_is_Some. eauto. Qed.

Lemma lookupZ_in_range {A} (l : list A) i :
  0 <= i < Z.of_nat (length l) -> exists x, l !z i = Some x.
Proof. intros H. apply lookupZ_is_Some in H as [x Hx]. eauto. Qed.

Lemma lookupZ_None {A} (l : list A) i :
  l !z i = None <-> ~ (0 <= i < Z.of_nat (length l)).
Proof.
  rewrite <- lookupZ_is_Some. destruct (l !z i); split; intros H.
  - done.
  - destruct H. eauto.
  - intros [? ?]. done.
  - done.
Qed.

Lemma length_insertZ {A} (l : list A) i x : length (insertZ i x l) = length l.
Proof. unfold insertZ. destruct (0 <=? i); [apply length_insert | done]. Qed.

Lemma lookupZ_insertZ_eq {A} (l : list A) i x :
  0 <= i < Z.of_nat (length l) -> insertZ i x l !z i = Some x.
Proof.
  intros. unfold insertZ, lookupZ. destruct (Z.leb_spec 0 i); [|lia].
  apply list_lookup_insert_eq. lia.
Qed.

Lemma lookupZ_insertZ_ne {A} (l : list A) i j x :
  i <> j -> insertZ i x l !z j = l !z j.
Proof.
  intros. unfold insertZ, lookupZ.
  destruct (Z.leb_spec 0 i), (Z.leb_spec 0 j); try done.
  apply list_lookup_insert_ne. lia.
Qed.

Lemma lookupZ_insertZ {A} (l : list A) i j x :
  0 <= i < Z.of_nat (length l) ->
  insertZ i x l !z j = if decide (i = j) then Some x else l !z j.
Proof.
  intros. case_decide; subst.
  - by apply lookupZ_insertZ_eq.
  - by apply lookupZ_insertZ_ne.
Qed.

Lemma insertZ_id {A} (l : list A) i x : l !z i = Some x -> insertZ i x l = l.
Proof.
  unfold lookupZ, insertZ. destruct (0 <=? i); [|done]. apply list_insert_id.
Qed.

Lemma insertZ_insertZ {A} (l : list A) i x y :
  insertZ i x (insertZ i y l) = insertZ i x l.
Proof.
  unfold insertZ. destruct (0 <=? i); [|done]. apply list_insert_insert_eq.
Qed.

Lemma lookupZ_app_l {A} (l k : list A) i : i < Z.of_nat (length l) -> (l ++ k) !z i = l !z i.
Proof. intros H. unfold lookupZ. destruct (Z.leb_spec 0 i); [|done]. apply lookup_app_l. lia. Qed.

Lemma lookupZ_app_r {A} (l k : list A) i : Z.of_nat (length l) <= i -> (l ++ k) !z i = k !z (i - Z.of_nat (length l)).
Proof.
  intros H. unfold lookupZ. destruct (Z.leb_spec 0 i), (Z.leb_spec 0 (i - Z.of_nat (length l))); try lia.
  rewrite lookup_app_r by lia. f_equal. lia.
Qed.

Lemma lookupZ_take {A} (l : list A) n i : i < Z.of_nat n -> take n l !z i = l !z i.
Proof. intros H. unfold lookupZ. destruct (Z.leb_spec 0 i); [|done]. apply lookup_take_lt. lia. Qed.

Lemma lookupZ_drop {A} (l : list A) n i : 0 <= i -> drop n l !z i = l !z (Z.of_nat n + i).
Proof.
  intros H. unfold lookupZ. destruct (Z.leb_spec 0 i), (Z.leb_spec 0 (Z.of_nat n + i)); try lia.
  rewrite lookup_drop. f_equal. lia.
Qed.

Lemma lookupZ_replicate {A} (n : nat) (x : A) i :
  0 <= i < Z.of_nat n -> replicate n x !z i = Some x.
Proof.
  intros. unfold lookupZ. destruct (Z.leb_spec 0 i); [|lia].
  apply lookup_replicate_2. lia.
Qed.

Lemma lookupZ_replicate_inv {A} (n : nat) (x y : A) i :
  replicate n x !z i = Some y -> y = x.
Proof.
  unfold lookupZ. destruct (0 <=? i); [|done].
  intros H. by apply lookup_replicate in H as [? _].
Qed.

Lemma Forall_lookupZ {A} (P : A -> Prop) l i x :
  Forall P l -> l !z i = Some x -> P x.
Proof.
  unfold lookupZ. destruct (0 <=? i); [|done].
  intros. by eapply Forall_lookup_1.
Qed.

Lemma Forall_insertZ {A} (P : A -> Prop) l i x :
  Forall P l -> P x -> Forall P (insertZ i x l).
Proof.
  unfold insertZ. destruct (0 <=? i); [|done]. intros. by apply Forall_insert.
Qed.

Lemma listZ_eq {A} (l k : list A) :
  length l = length k ->
  (forall i, 0 <= i < Z.of_nat (length l) -> l !z i = k !z i) -> l = k.
Proof.
  intros Hlen H. apply list_eq. intros i.
  destruct (decide (i < length l)%nat) as [Hi|Hi].
  - specialize (H (Z.of_nat i)). unfold lookupZ in H.
    rewrite Nat2Z.id in H. destruct (Z.leb_spec 0 (Z.of_nat i)); [|lia].
    apply H. lia.
  - rewrite !lookup_ge_None_2; [done | lia | lia].
Qed.

(** ** Loops of the source

    [for_up lo hi body] is [for (i = lo; i < hi; i++) body(i)].
    [for_find lo hi body] is the same loop whose body may leave the function
    with a value.  [while_fuel] runs a loop the source does not bound. *)

Section loops.
Context {S : Type}.

Fixpoint for_n (n : nat) (i : Z) (body : Z -> M S unit) : M S unit :=
  match n with
  | O => ret tt
  | Datatypes.S n' => body i ;;; for_n n' (i + 1) body
  end.
Definition for_up (lo hi : Z) (body : Z -> M S unit) : M S unit :=
  for_n (Z.to_nat (hi - lo)) lo body.

Fixpoint for_find_n {A} (n : nat) (i : Z) (body : Z -> M S (option A)) : M S (option A) :=
  match n with
  | O => ret None
  | Datatypes.S n' =>
      r <- body i ;;
      match r with
      | Some a => ret (Some a)
      | None => for_find_n n' (i + 1) body
      end
  end.
Definition for_find {A} (lo hi : Z) (body : Z -> M S (option A)) : M S (option A) :=
  for_find_n (Z.to_nat (hi - lo)) lo body.

(** The counted loop whose body carries a local variable. *)
Fixpoint for_carry_n {A} (n : nat) (i : Z) (body : Z -> A -> M S A) (a : A) : M S A :=
  match n with
  | O => ret a
  | Datatypes.S n' => a' <- body i a ;; for_carry_n n' (i + 1) body a'
  end.

Definition for_carry {A} (lo hi : Z) (body : Z -> A -> M S A) (a : A) : M S A :=
  for_carry_n (Z.to_nat (hi - lo)) lo body a.

(** One round returns [inl] the next loop variables or [inr] the result. *)
Fixpoint while_fuel {L A} (fuel : nat) (round : L -> M S (L + A)) (l : L) : M S A :=
  match fuel with
  | O => fail FFuel
  | Datatypes.S fuel' =>
      r <- round l ;;
      match r with
      | inl l' => while_fuel fuel' round l'
      | inr a => ret a
      end
  end.
End loops.

(** ** Weakest preconditions

    [wp m Q s]: started in [s], [m] stops without a fault and its value and
    final state satisfy [Q]; so [wp] is total correctness and memory safety.  *)

Definition wp {S A} (m : M S A) (Q : A -> S -> Prop) (s : S) : Prop :=
  match m s with
  | Ok (a, s') => Q a s'
  | Err _ => False
  end.

Section wp.
Context {S : Type}.
Implicit Types s : S.

Lemma wp_ok {A} (m : M S A) Q s :
  wp m Q s <-> exists a s', m s = Ok (a, s') /\ Q a s'.
Proof.
  unfold wp. destruct (m s) as [[a s']|]; split; try done.
  - eauto.
  - intros (a0 & s0 & [= <- <-] & H). done.
  - intros (? & ? & ? & _). done.
Qed.

Lemma wp_run {A} (m : M S A) Q s a s' : wp m Q s -> m s = Ok (a, s') -> Q a s'.
Proof. unfold wp. intros H E. by rewrite E in H. Qed.

Lemma wp_eq {A} (m : M S A) Q s a s' : m s = Ok (a, s') -> Q a s' -> wp m Q s.
Proof. unfold wp. by intros ->. Qed.

Lemma wp_mono {A} (m : M S A) (Q R : A -> S -> Prop) s :
  wp m Q s -> (forall a s', Q a s' -> R a s') -> wp m R s.
Proof. unfold wp. destruct (m s) as [[a s']|]; eauto. Qed.

Lemma wp_ret {A} (a : A) Q s : Q a s -> wp (ret a) Q s.
Proof. done. Qed.

Lemma wp_bind {A B} (m : M S A) (k : A -> M S B) Q s :
  wp m (fun a s' => wp (k a) Q s') s -> wp (bind m k) Q s.
Proof. unfold wp, bind. destruct (m s) as [[a s']|]; done. Qed.

Lemma wp_bind_inv {A B} (m : M S A) (k : A -> M S B) Q s :
  wp (bind m k) Q s -> wp m (fun a s' => wp (k a) Q s') s.
Proof. unfold wp, bind. destruct (m s) as [[a s']|]; done. Qed.

Lemma wp_get Q s : Q s s -> wp get Q s.
Proof. done. Qed.

Lemma wp_gets {A} (f : S -> A) Q s : Q (f s) s -> wp (gets f) Q s.
Proof. done. Qed.

Lemma wp_put t Q s : Q tt t -> wp (put t) Q s.
Proof. done. Qed.

Lemma wp_modify f Q s : Q tt (f s) -> wp (modify f) Q s.
Proof. done. Qed.

Lemma wp_assert b Q s : b = true -> Q tt s -> wp (c_assert b) Q s.
Proof. intros -> H. done. Qed.

Lemma wp_rd {A} (l : list A) i x Q s :
  l !z i = Some x -> Q x s -> wp (rd l i) Q s.
Proof. unfold rd, wp. by intros ->. Qed.

Lemma wp_in_bounds {A} (l : list A) i Q s :
  0 <= i < Z.of_nat (length l) -> Q tt s -> wp (in_bounds l i) Q s.
Proof.
  intros H HQ. apply lookupZ_in_range in H as [x Hx].
  unfold in_bounds, wp. by rewrite Hx.
Qed.

(** The invariant rule of the counted loop: [I i] holds before round [i]. *)
Lemma wp_for_up (I : Z -> S -> Prop) lo hi body Q s :
  lo <= hi ->
  I lo s ->
  (forall i s', lo <= i < hi -> I i s' -> wp (body i) (fun _ => I (i + 1)) s') ->
  (forall s', I hi s' -> Q tt s') ->
  wp (for_up lo hi body) Q s.
Proof.
  intros Hle HI Hbody HQ. unfold for_up.
  assert (forall n i s, Z.of_nat n = hi - i -> lo <= i -> I i s ->
                        wp (for_n n i body) Q s) as H.
  { induction n as [|n IH]; intros i s' Hn Hi HIi; simpl.
    - apply HQ. by replace hi with i by lia.
    - apply wp_bind. eapply wp_mono; [apply Hbody; [lia|done]|].
      intros [] s'' HI'. apply IH; [lia | lia | done]. }
  apply H; [lia | lia | done].
Qed.

(** The rule of the searching loop: [I i] says that no round before [i] left
    the loop. *)
Lemma wp_for_find {A} (I : Z -> S -> Prop) lo hi (body : Z -> M S (option A)) Q s :
  lo <= hi ->
  I lo s ->
  (forall i s', lo <= i < hi -> I i s' ->
     wp (body i) (fun r s'' =>
       match r with Some a => Q (Some a) s'' | None => I (i + 1) s'' end) s') ->
  (forall s', I hi s' -> Q None s') ->
  wp (for_find lo hi body) Q s.
Proof.
  intros Hle HI Hbody HQ. unfold for_find.
  assert (forall n i s, Z.of_nat n = hi - i -> lo <= i -> I i s ->
                        wp (for_find_n n i body) Q s) as H.
  { induction n as [|n IH]; intros i s' Hn Hi HIi; simpl.
    - apply HQ. by replace hi with i by lia.
    - apply wp_bind. eapply wp_mono; [apply Hbody; [lia|done]|].
      intros [a|] s'' HI'; [done|]. apply IH; [lia | lia | done]. }
  apply H; [lia | lia | done].
Qed.

Lemma for_up_nil lo hi (body : Z -> M S unit) : hi <= lo -> for_up lo hi body = ret tt.
Proof. intros. unfold for_up. by replace (Z.to_nat (hi - lo)) with O by lia. Qed.

Lemma for_up_step lo hi (body : Z -> M S unit) :
  lo < hi -> for_up lo hi body = (body lo ;;; for_up (lo + 1) hi body).
Proof.
  intros. unfold for_up.
  replace (Z.to_nat (hi - lo)) with (Datatypes.S (Z.to_nat (hi - (lo + 1)))) by lia.
  done.
Qed.

(** The rule of the fuelled loop: a measure that decreases every round shows
    that the fuel is not exhausted. *)
Lemma wp_while_fuel {L A} (I : L -> S -> Prop) (meas : L -> S -> nat)
    fuel (round : L -> M S (L + A)) l Q s :
  I l s -> (meas l s < fuel)%nat ->
  (forall l s', I l s' ->
     wp (round l) (fun r s'' =>
       match r with
       | inl l' => I l' s'' /\ (meas l' s'' < meas l s')%nat
       | inr a => Q a s''
       end) s') ->
  wp (while_fuel fuel round l) Q s.
Proof.
  intros HI Hm Hround. revert l s HI Hm.
  induction fuel as [|fuel IH]; intros l s HI Hm; [lia|].
  simpl. apply wp_bind. eapply wp_mono; [by apply Hround|].
  intros [l'|a] s'' H; [|done]. destruct H as [HI' Hlt].
  apply IH; [done | lia].
Qed.
End wp.

Lemma wp_zoom {S T A} (g : S -> T) (p : T -> S -> S) (m : M T A) Q s :
  wp m (fun a t => Q a (p t s)) (g s) -> wp (zoom g p m) Q s.
Proof. unfold wp, zoom. destruct (m (g s)) as [[a t]|]; done. Qed.

Lemma wp_run_on {S T A} (m : M T A) (t : T) (Q : A * T -> S -> Prop) s :
  wp m (fun a t' => Q (a, t') s) t -> wp (run_on m t) Q s.
Proof. unfold wp, run_on. destruct (m t) as [[a t']|]; done. Qed.

(** ** Automation *)

Create HintDb sos.
Create Rewrite HintDb sos.
#[export] Hint Resolve u32_range u64_range : sos.
#[export] Hint Rewrite @length_insertZ @length_insert @length_replicate : sos.

(** One step of symbolic execution. *)
Ltac wp_step :=
  lazymatch goal with
  | |- wp (bind _ _) _ _ => apply wp_bind
  | |- wp (ret _) _ _ => apply wp_ret
  | |- wp get _ _ => apply wp_get
  | |- wp (gets _) _ _ => apply wp_gets
  | |- wp (put _) _ _ => apply wp_put
  | |- wp (modify _) _ _ => apply wp_modify
  | |- wp (zoom _ _ _) _ _ => apply wp_zoom
  | |- wp (run_on _ _) _ _ => apply wp_run_on
  end.
Ltac wp_steps := repeat (wp_step; cbv beta).

(** Reduces the tests whose outcome is known. *)
Ltac bred := cbn [negb andb orb fst snd]; cbv iota beta.

(** Case analysis on the boolean tests the source branches on. *)
Ltac case_bool :=
  match goal with
  | |- context [Z.eqb ?a ?b] => destruct (Z.eqb_spec a b)
  | |- context [Z.leb ?a ?b] => destruct (Z.leb_spec a b)
  | |- context [Z.ltb ?a ?b] => destruct (Z.ltb_spec a b)
  | H : context [Z.eqb ?a ?b] |- _ => destruct (Z.eqb_spec a b)
  | H : context [Z.leb ?a ?b] |- _ => destruct (Z.leb_spec a b)
  | H : context [Z.ltb ?a ?b] |- _ => destruct (Z.ltb_spec a b)
  end.

(** ** Bit-level lemmas on [Z] *)

Lemma land_pow2_mask x n : 0 <= n -> Z.land x (2 ^ n - 1) = x mod 2 ^ n.
Proof. intros. rewrite <- Z.land_ones by lia. f_equal. rewrite Z.ones_equiv. lia. Qed.

Lemma ldiff_mask x n : 0 <= n -> Z.ldiff x (2 ^ n - 1) = x - x mod 2 ^ n.
Proof.
  intros. replace (2 ^ n - 1) with (Z.ones n) by (rewrite Z.ones_equiv; lia).
  rewrite Z.ldiff_ones_r, Z.shiftl_mul_pow2, Z.shiftr_div_pow2 by lia.
  pose proof (Z.div_mod x (2 ^ n)). lia.
Qed.

Lemma testbit_bounded x n i : 0 <= x < 2 ^ n -> n <= i -> Z.testbit x i = false.
Proof.
  intros Hx Hi. destruct (decide (x = 0)) as [->|]; [apply Z.testbit_0_l|].
  apply Z.bits_above_log2; [lia|]. apply Z.log2_lt_pow2; [lia|].
  pose proof (Z.pow_le_mono_r 2 n i). lia.
Qed.

Lemma bits_bounded x n : 0 <= n -> 0 <= x ->
  (forall i, n <= i -> Z.testbit x i = false) -> x < 2 ^ n.
Proof.
  intros Hn Hx H. destruct (Z.lt_ge_cases x (2 ^ n)) as [|Hge]; [done|].
  exfalso. assert (0 < x) by (pose proof (Z.pow_pos_nonneg 2 n); lia).
  assert (n <= Z.log2 x) as Hl.
  { rewrite <- (Z.log2_pow2 n) by lia. by apply Z.log2_le_mono. }
  specialize (H _ Hl). rewrite Z.bit_log2 in H by lia. done.
Qed.

Lemma testbit_1_shiftl n i : 0 <= n -> Z.testbit (Z.shiftl 1 n) i = (n =? i).
Proof.
  intros. rewrite Z.shiftl_1_l. destruct (Z.eqb_spec n i) as [->|].
  - by rewrite Z.pow2_bits_true.
  - apply Z.pow2_bits_false. lia.
Qed.

Lemma lor_pow2_bounded x y n :
  0 <= n -> 0 <= x < 2 ^ n -> 0 <= y < 2 ^ n -> 0 <= Z.lor x y < 2 ^ n.
Proof.
  intros Hn Hx Hy. assert (0 <= Z.lor x y) by (apply Z.lor_nonneg; lia).
  split; [done|]. apply bits_bounded; [done|done|]. intros i Hi.
  rewrite Z.lor_spec, (testbit_bounded x n), (testbit_bounded y n); done.
Qed.

Lemma ldiff_bounded x y n :
  0 <= n -> 0 <= x < 2 ^ n -> 0 <= Z.ldiff x y < 2 ^ n.
Proof.
  intros Hn Hx. assert (0 <= Z.ldiff x y) by (apply Z.ldiff_nonneg; lia).
  split; [done|]. apply bits_bounded; [done|done|]. intros i Hi.
  rewrite Z.ldiff_spec, (testbit_bounded x n); done.
Qed.

(** Two disjoint bit fields add up. *)
Lemma lor_disjoint_add x y n :
  0 <= n -> 0 <= x < 2 ^ n -> Z.lor x (y * 2 ^ n) = x + y * 2 ^ n.
Proof.
  intros Hn Hx. rewrite Z.add_nocarry_lor; [done|].
  apply Z.bits_inj'. intros i Hi. rewrite Z.land_spec, Z.testbit_0_l.
  destruct (Z.lt_ge_cases i n).
  - rewrite Z.mul_pow2_bits_low by lia. apply andb_false_r.
  - by rewrite (testbit_bounded x n).
Qed.

(** ** Addresses of heap objects *)

(** An address above every address in use. *)
Definition new_ptr {A} (h : gmap Z A) : Z := 1 + map_fold (fun k _ acc => Z.max k acc) 0 h.

Lemma new_ptr_above {A} (h : gmap Z A) p : is_Some (h !! p) -> p < new_ptr h.
Proof.
  intros Hp. unfold new_ptr.
  enough (p <= map_fold (fun k _ acc => Z.max k acc) 0 h) by lia.
  revert Hp. apply (map_fold_weak_ind (fun r h => is_Some (h !! p) -> p <= r)).
  - intros [x Hx]. by rewrite lookup_empty in Hx.
  - intros i x h' r Hi IH Hp. destruct (decide (p = i)) as [->|Hne]; [lia|].
    rewrite lookup_insert_ne in Hp by done. specialize (IH Hp). lia.
Qed.

Lemma new_ptr_pos {A} (h : gmap Z A) : 0 < new_ptr h.
Proof.
  unfold new_ptr. enough (0 <= map_fold (fun k _ acc => Z.max k acc) 0 h) by lia.
  apply (map_fold_weak_ind (fun r _ => 0 <= r)); [lia|]. intros. lia.
Qed.

Lemma new_ptr_fresh {A} (h : gmap Z A) : h !! new_ptr h = None.
Proof.
  destruct (h !! new_ptr h) eqn:E; [|done]. exfalso.
  assert (new_ptr h < new_ptr h); [|lia]. apply new_ptr_above. eauto.
Qed.
