(* ===== verification/Arith.v ===== *)
(** * Arith: the arithmetic, page and time macros of libutils

    Models libs/libutils/include/utils/arith.h, page.h, math.h and time.h on
    the 32-bit ARM target ([unsigned long] and [seL4_Word] are 32 bits wide).
    The functional theorems give each macro its arithmetic meaning; the other
    files reason about addresses through them. *)

From S2P Require Import Prelude.

(** ** arith.h *)

(** [~x] on a 32-bit unsigned operand. *)
Definition not32 (x : Z) : Z := u32 (Z.lnot x).

Definition BIT (n : Z) : Z := u32 (Z.shiftl 1 n).
Definition MASK_UNSAFE (x : Z) : Z := u32 (BIT x - 1).
Definition MASK {S} (n : Z) : M S Z := c_assert (n <=? 31) ;;; ret (MASK_UNSAFE n).
Definition IS_ALIGNED (n b : Z) : bool := Z.land n (MASK_UNSAFE b) =? 0.

(** [__builtin_clz] of a non-zero 32-bit operand. *)
Definition CLZ (n : Z) : Z := 31 - Z.log2 n.
Definition LOG_BASE_2 (n : Z) : Z := 32 - CLZ n - 1.

Definition IS_POWER_OF_2_OR_ZERO (x : Z) : bool := 0 =? Z.land x (u32 (x - 1)).
Definition IS_POWER_OF_2 (x : Z) : bool := negb (x =? 0) && IS_POWER_OF_2_OR_ZERO x.
Definition ALIGN_UP (x n : Z) : Z := Z.land (u32 (x + n - 1)) (not32 (n - 1)).
Definition ALIGN_DOWN (x n : Z) : Z := Z.land x (not32 (n - 1)).
Definition ROUND_DOWN (n b : Z) : Z := n - n mod b.
Definition ROUND_UP (n b : Z) : Z := u32 (n + (if n mod b =? 0 then 0 else b - n mod b)).

Definition MIN (a b : Z) : Z := if a <? b then a else b.
Definition MAX (a b : Z) : Z := if b <? a then a else b.
Definition INRANGE (a x b : Z) : Z := MIN (MAX x a) b.
Definition ISINRANGE (a x b : Z) : bool := x =? INRANGE a x b.

Definition CLAMP (min value max : Z) : Z :=
  if max <? value then max else if value <? min then min else value.

Definition UPPER32BITS (n : Z) : Z := u32 (Z.shiftr (Z.land n 0xFFFFFFFF00000000) 32).
Definition LOWER32BITS (n : Z) : Z := u32 (Z.land n 0xFFFFFFFF).

(** ** page.h *)

Definition PAGE_BITS_4K : Z := 12.
Definition PAGE_SIZE_4K : Z := BIT PAGE_BITS_4K.
Definition PAGE_MASK_4K : Z := PAGE_SIZE_4K - 1.
Definition PAGE_ALIGN_4K (addr : Z) : Z := Z.land addr (not32 PAGE_MASK_4K).
Definition IS_ALIGNED_4K (addr : Z) : bool := IS_ALIGNED addr PAGE_BITS_4K.
Definition BYTES_TO_4K_PAGES (b : Z) : Z :=
  b / PAGE_SIZE_4K + (if 0 <? b mod PAGE_SIZE_4K then 1 else 0).

(** ** time.h *)

Definition US_IN_MS : Z := 1000.
Definition MILLISECONDS (t : Z) : Z := u64 (t * US_IN_MS).
Definition U_TO_MS (t : Z) : Z := t / US_IN_MS.

(** ** math.h *)

(** One round of the loop of [muldivu64]; the loop variables are
    [(a, quotient, remainder, cur_quotient, cur_remainder)]. *)
Definition muldiv_vars : Type := (Z * Z * Z * Z * Z).

Definition muldivu64_round {S} (c : Z) (v : muldiv_vars) : M S (muldiv_vars + Z) :=
  let '(a, quotient, remainder, cur_quotient, cur_remainder) := v in
  if a =? 0 then ret (inr quotient)
  else
    let '(quotient, remainder) :=
      if Z.odd a then
        let quotient := u64 (quotient + cur_quotient) in
        let remainder := u64 (remainder + cur_remainder) in
        if c <=? remainder then (u64 (quotient + 1), u64 (remainder - c))
        else (quotient, remainder)
      else (quotient, remainder) in
    let a := Z.shiftr a 1 in
    let cur_quotient := u64 (Z.shiftl cur_quotient 1) in
    let cur_remainder := u64 (Z.shiftl cur_remainder 1) in
    let '(cur_quotient, cur_remainder) :=
      if c <=? cur_remainder then (u64 (cur_quotient + 1), u64 (cur_remainder - c))
      else (cur_quotient, cur_remainder) in
    ret (inl (a, quotient, remainder, cur_quotient, cur_remainder)).

(** [a] has at most 64 bits and loses one per round: 65 rounds are enough. *)
Definition muldivu64 {S} (a b c : Z) : M S Z :=
  while_fuel 66 (muldivu64_round c) (a, 0, 0, b / c, b mod c).

Definition nearest_power_of_two (v : Z) : Z :=
  let v := u32 (v - 1) in
  let v := Z.lor v (Z.shiftr v 1) in
  let v := Z.lor v (Z.shiftr v 2) in
  let v := Z.lor v (Z.shiftr v 4) in
  let v := Z.lor v (Z.shiftr v 8) in
  let v := Z.lor v (Z.shiftr v 16) in
  u32 (v + 1).

(** ** Meaning of the macros *)

Lemma PAGE_SIZE_4K_eq : PAGE_SIZE_4K = 4096.
Proof. reflexivity. Qed.

Lemma BIT_pow n : 0 <= n < 32 -> BIT n = 2 ^ n.
Proof.
  intros. unfold BIT. rewrite Z.shiftl_1_l. apply u32_small. split.
  - apply Z.pow_nonneg. lia.
  - apply Z.pow_lt_mono_r; lia.
Qed.

(** [x & ~(2^k - 1)] clears the low [k] bits. *)
Lemma land_not32_mask x k :
  is_u32 x -> 0 <= k <= 32 -> Z.land x (not32 (2 ^ k - 1)) = x - x mod 2 ^ k.
Proof.
  intros Hx Hk. rewrite <- ldiff_mask by lia.
  apply Z.bits_inj'. intros i Hi.
  unfold not32, u32. rewrite Z.land_spec, Z.ldiff_spec.
  destruct (Z.lt_ge_cases i 32).
  - by rewrite Z.mod_pow2_bits_low, Z.lnot_spec by lia.
  - by rewrite (testbit_bounded x 32).
Qed.

Lemma PAGE_ALIGN_4K_spec a : is_u32 a -> PAGE_ALIGN_4K a = a - a mod 4096.
Proof. intros. unfold PAGE_ALIGN_4K. apply (land_not32_mask a 12); [done | lia]. Qed.

Lemma PAGE_ALIGN_4K_range a : is_u32 a -> is_u32 (PAGE_ALIGN_4K a).
Proof.
  intros Ha. rewrite PAGE_ALIGN_4K_spec by done. unfold is_u32 in *.
  pose proof (Z.mod_pos_bound a 4096). pose proof (Z.mod_le a 4096). lia.
Qed.

Lemma PAGE_ALIGN_4K_mod a : is_u32 a -> PAGE_ALIGN_4K a mod 4096 = 0.
Proof.
  intros Ha. rewrite PAGE_ALIGN_4K_spec by done.
  rewrite Zminus_mod_idemp_r, Z.sub_diag. done.
Qed.

Lemma PAGE_ALIGN_4K_bounds a :
  is_u32 a -> PAGE_ALIGN_4K a <= a < PAGE_ALIGN_4K a + 4096.
Proof.
  intros Ha. rewrite PAGE_ALIGN_4K_spec by done.
  pose proof (Z.mod_pos_bound a 4096). lia.
Qed.

Lemma page_offset_spec a : Z.land a PAGE_MASK_4K = a mod 4096.
Proof. apply (land_pow2_mask a 12). lia. Qed.

Lemma IS_ALIGNED_spec n b :
  0 <= b <= 31 -> IS_ALIGNED n b = true <-> n mod 2 ^ b = 0.
Proof.
  intros Hb. unfold IS_ALIGNED, MASK_UNSAFE. rewrite BIT_pow by lia.
  assert (0 < 2 ^ b <= 2 ^ 31).
  { split; [apply Z.pow_pos_nonneg | apply Z.pow_le_mono_r]; lia. }
  rewrite u32_small by (unfold is_u32; lia).
  rewrite land_pow2_mask by lia. apply Z.eqb_eq.
Qed.

Lemma IS_ALIGNED_4K_spec a : IS_ALIGNED_4K a = true <-> a mod 4096 = 0.
Proof. apply (IS_ALIGNED_spec a 12). lia. Qed.

Lemma PAGE_ALIGN_4K_aligned a : is_u32 a -> IS_ALIGNED_4K (PAGE_ALIGN_4K a) = true.
Proof. intros. apply IS_ALIGNED_4K_spec. by apply PAGE_ALIGN_4K_mod. Qed.

Lemma PAGE_ALIGN_4K_idemp a : is_u32 a -> a mod 4096 = 0 -> PAGE_ALIGN_4K a = a.
Proof. intros Ha H. rewrite PAGE_ALIGN_4K_spec by done. lia. Qed.

Lemma ISINRANGE_spec a x b : a <= b -> ISINRANGE a x b = true <-> a <= x <= b.
Proof.
  intros. unfold ISINRANGE, INRANGE, MIN, MAX. rewrite Z.eqb_eq.
  destruct (Z.ltb_spec a x); destruct (Z.ltb_spec x b);
    destruct (Z.ltb_spec a b); lia.
Qed.

Lemma ISINRANGE_false a x b : a <= b -> ISINRANGE a x b = false <-> ~ (a <= x <= b).
Proof. intros. rewrite <- ISINRANGE_spec by done. by rewrite not_true_iff_false. Qed.

Lemma MIN_spec a b : MIN a b = Z.min a b.
Proof. unfold MIN. destruct (Z.ltb_spec a b); lia. Qed.

Lemma MAX_spec a b : MAX a b = Z.max a b.
Proof. unfold MAX. destruct (Z.ltb_spec b a); lia. Qed.

Lemma BYTES_TO_4K_PAGES_spec b n :
  0 <= b -> BYTES_TO_4K_PAGES b = n -> (n - 1) * 4096 < b <= n * 4096.
Proof.
  intros Hb <-. unfold BYTES_TO_4K_PAGES. rewrite PAGE_SIZE_4K_eq.
  pose proof (Z.div_mod b 4096). pose proof (Z.mod_pos_bound b 4096).
  destruct (Z.ltb_spec 0 (b mod 4096)); lia.
Qed.

Lemma LOG_BASE_2_log2 n : LOG_BASE_2 n = Z.log2 n.
Proof. unfold LOG_BASE_2, CLZ. lia. Qed.

Lemma UPPER32BITS_spec n : is_u64 n -> UPPER32BITS n = n / 2 ^ 32.
Proof.
  intros Hn. unfold UPPER32BITS, is_u64 in *.
  assert (Z.shiftr (Z.land n 0xFFFFFFFF00000000) 32 = n / 2 ^ 32) as ->.
  { rewrite <- Z.shiftr_div_pow2 by lia. apply Z.bits_inj'. intros i Hi.
    rewrite !Z.shiftr_spec, Z.land_spec by lia.
    destruct (Z.lt_ge_cases i 32).
    - change 0xFFFFFFFF00000000 with (Z.shiftl (Z.ones 32) 32).
      rewrite Z.shiftl_spec, Z.ones_spec_low by lia. apply andb_true_r.
    - by rewrite (testbit_bounded n 64) by lia. }
  apply u32_small. unfold is_u32. split; [apply Z.div_pos; lia|].
  apply Z.div_lt_upper_bound; lia.
Qed.

Lemma LOWER32BITS_spec n : LOWER32BITS n = n mod 2 ^ 32.
Proof.
  unfold LOWER32BITS. change 0xFFFFFFFF with (Z.ones 32).
  rewrite Z.land_ones by lia. apply u32_small, Z.mod_pos_bound. lia.
Qed.

(** ** [nearest_power_of_two]: smearing the top bit downwards *)

Definition any_bit (w i n : Z) : Prop := exists j, i <= j < i + n /\ Z.testbit w j = true.

Lemma smear_step w v n :
  0 <= n ->
  (forall i, 0 <= i -> Z.testbit v i = true <-> any_bit w i n) ->
  forall i, 0 <= i -> Z.testbit (Z.lor v (Z.shiftr v n)) i = true <-> any_bit w i (n + n).
Proof.
  intros Hn H i Hi. rewrite Z.lor_spec, Z.shiftr_spec, orb_true_iff by lia.
  rewrite !H by lia. unfold any_bit. split.
  - intros [(j & ? & ?)|(j & ? & ?)]; exists j; split; (lia || done).
  - intros (j & ? & ?). destruct (Z.lt_ge_cases j (i + n)).
    + left. exists j. split; [lia|done].
    + right. exists j. split; [lia|done].
Qed.

Lemma any_bit_log2 w n i :
  0 < w < 2 ^ n -> 0 <= i -> any_bit w i n <-> i <= Z.log2 w.
Proof.
  intros Hw Hi. split.
  - intros (j & Hj & Hb). destruct (Z.le_gt_cases i (Z.log2 w)); [done|].
    rewrite Z.bits_above_log2 in Hb; (lia || done).
  - intros Hle. exists (Z.log2 w). split; [|apply Z.bit_log2; lia].
    assert (Z.log2 w < n) by (apply Z.log2_lt_pow2; lia). lia.
Qed.

Lemma smear_ones w v :
  0 < w < 2 ^ 32 -> (forall i, 0 <= i -> Z.testbit v i = true <-> any_bit w i 32) ->
  v = Z.ones (Z.log2 w + 1).
Proof.
  intros Hw H. apply Z.bits_inj'. intros i Hi. apply eq_true_iff_eq.
  rewrite H, (any_bit_log2 w 32) by lia.
  pose proof (Z.log2_nonneg w). rewrite Z.testbit_ones_nonneg by lia.
  rewrite Z.ltb_lt. lia.
Qed.

(** [nearest_power_of_two v] is the least power of two that is at least
    [v], for every [v] whose power of two is representable. *)
Theorem nearest_power_of_two_spec v :
  1 <= v <= 2 ^ 31 ->
  nearest_power_of_two v = 2 ^ Z.log2_up v /\
  v <= nearest_power_of_two v /\ (1 < v -> nearest_power_of_two v < 2 * v).
Proof.
  intros Hv.
  assert (nearest_power_of_two v = 2 ^ Z.log2_up v) as ->.
  { destruct (decide (v = 1)) as [->|]; [reflexivity|].
    unfold nearest_power_of_two. rewrite (u32_small (v - 1)) by (unfold is_u32; lia).
    cbv zeta. match goal with |- u32 (?x + 1) = _ => rewrite (smear_ones (v - 1) x) end.
    - rewrite Z.ones_equiv, Z.log2_up_eqn by lia. unfold Z.pred, Z.succ.
      replace (v + -1) with (v - 1) by lia.
      rewrite u32_small; [lia|]. unfold is_u32.
      assert (Z.log2 (v - 1) < 31) by (apply Z.log2_lt_pow2; lia).
      pose proof (Z.log2_nonneg (v - 1)).
      pose proof (Z.pow_le_mono_r 2 (Z.log2 (v - 1) + 1) 31).
      pose proof (Z.pow_pos_nonneg 2 (Z.log2 (v - 1) + 1)). lia.
    - lia.
    - apply (smear_step (v - 1) _ 16); [lia|].
      apply (smear_step (v - 1) _ 8); [lia|].
      apply (smear_step (v - 1) _ 4); [lia|].
      apply (smear_step (v - 1) _ 2); [lia|].
      apply (smear_step (v - 1) _ 1); [lia|].
      intros i Hi. unfold any_bit. split; [intros; exists i; split; [lia|done]|].
      intros (j & ? & ?). by replace i with j by lia. }
  split; [done|]. split.
  - destruct (decide (v = 1)) as [->|]; [done|]. apply Z.log2_up_spec. lia.
  - intros. pose proof (Z.log2_up_spec v ltac:(lia)) as [Hlt _].
    pose proof (Z.log2_up_pos v ltac:(lia)).
    replace (Z.log2_up v) with (Z.succ (Z.pred (Z.log2_up v))) by lia.
    rewrite Z.pow_succ_r by lia. lia.
Qed.

Lemma nearest_power_of_two_spec_witness :
  nearest_power_of_two 2560 = 2 ^ Z.log2_up 2560 /\
  2560 <= nearest_power_of_two 2560 /\ (1 < 2560 -> nearest_power_of_two 2560 < 2 * 2560).
Proof. apply (nearest_power_of_two_spec 2560). lia. Defined.

(** ** [muldivu64] *)

Section muldiv.
Context {S : Type} (a0 b c : Z).
Hypothesis Hc : 0 < c <= 2 ^ 63.
Hypothesis Hfit : a0 * b / c < 2 ^ 64.

(** What is left to add plus what was accumulated is [a0 * b]. *)
Definition muldiv_inv (v : muldiv_vars) : Prop :=
  let '(a, q, r, cq, cr) := v in
  0 <= a < 2 ^ 64 /\ 0 <= q /\ 0 <= r < c /\ 0 <= cr < c /\ 0 <= cq /\
  (a <> 0 -> (q * c + r) + a * (cq * c + cr) = a0 * b) /\
  (a = 0 -> q * c + r = a0 * b).

Definition muldiv_meas (v : muldiv_vars) : nat :=
  let '(a, _, _, _, _) := v in
  if a =? 0 then 0%nat else Datatypes.S (Z.to_nat (Z.log2 a)).

(** A part of the product is small enough not to wrap. *)
Lemma muldiv_part x r : 0 <= r -> x * c + r <= a0 * b -> x < 2 ^ 64.
Proof.
  intros Hr H. destruct (Z.lt_ge_cases x (2 ^ 64)); [done|]. exfalso.
  assert (2 ^ 64 <= a0 * b / c); [|lia]. apply Z.div_le_lower_bound; nia.
Qed.

Lemma muldiv_accumulate a q r cq cr :
  muldiv_inv (a, q, r, cq, cr) -> Z.odd a = true ->
  let q1 := u64 (q + cq) in let r1 := u64 (r + cr) in
  let '(q', r') := if c <=? r1 then (u64 (q1 + 1), u64 (r1 - c)) else (q1, r1) in
  0 <= q' /\ 0 <= r' < c /\ q' * c + r' = q * c + r + (cq * c + cr).
Proof.
  intros (Ha & Hq & Hr & Hcr & Hcq & Hinv & _) Hodd. cbv zeta.
  assert (1 <= a) by (destruct (decide (a = 0)) as [->|]; [done|lia]).
  specialize (Hinv ltac:(lia)).
  assert (q * c + r + (cq * c + cr) <= a0 * b) as Hsum by nia.
  assert (q + cq < 2 ^ 64) by (apply (muldiv_part _ (r + cr)); nia).
  rewrite (u64_small (q + cq)), (u64_small (r + cr)) by (unfold is_u64; lia).
  destruct (Z.leb_spec c (r + cr)).
  - assert (q + cq + 1 < 2 ^ 64) by (apply (muldiv_part _ (r + cr - c)); nia).
    rewrite !u64_small by (unfold is_u64; lia). nia.
  - nia.
Qed.

Lemma muldiv_double cq cr :
  0 <= cr < c -> 0 <= cq -> 2 * (cq * c + cr) <= a0 * b ->
  let cq1 := u64 (Z.shiftl cq 1) in let cr1 := u64 (Z.shiftl cr 1) in
  let '(cq', cr') := if c <=? cr1 then (u64 (cq1 + 1), u64 (cr1 - c)) else (cq1, cr1) in
  0 <= cq' /\ 0 <= cr' < c /\ cq' * c + cr' = 2 * (cq * c + cr).
Proof.
  intros Hcr Hcq Hle. cbv zeta. rewrite !Z.shiftl_mul_pow2 by lia.
  change (2 ^ 1) with 2.
  assert (cq * 2 < 2 ^ 64) by (apply (muldiv_part _ (2 * cr)); nia).
  rewrite (u64_small (cq * 2)), (u64_small (cr * 2)) by (unfold is_u64; lia).
  destruct (Z.leb_spec c (cr * 2)).
  - assert (cq * 2 + 1 < 2 ^ 64) by (apply (muldiv_part _ (cr * 2 - c)); nia).
    rewrite !u64_small by (unfold is_u64; lia). nia.
  - nia.
Qed.

Lemma muldiv_double_range cq cr :
  0 <= cr < c ->
  let cq1 := u64 (Z.shiftl cq 1) in let cr1 := u64 (Z.shiftl cr 1) in
  let '(cq', cr') := if c <=? cr1 then (u64 (cq1 + 1), u64 (cr1 - c)) else (cq1, cr1) in
  0 <= cq' /\ 0 <= cr' < c.
Proof.
  intros Hcr. cbv zeta. rewrite !Z.shiftl_mul_pow2 by lia. change (2 ^ 1) with 2.
  rewrite (u64_small (cr * 2)) by (unfold is_u64; lia).
  pose proof (u64_range (cq * 2)). pose proof (u64_range (u64 (cq * 2) + 1)).
  unfold is_u64 in *. destruct (Z.leb_spec c (cr * 2)); [|lia].
  rewrite (u64_small (cr * 2 - c)) by (unfold is_u64; lia). lia.
Qed.

Lemma muldiv_meas_half a q r cq cr q' r' cq' cr' : 0 < a ->
  (muldiv_meas (Z.shiftr a 1, q', r', cq', cr') < muldiv_meas (a, q, r, cq, cr))%nat.
Proof.
  intros Ha. simpl. destruct (Z.eqb_spec a 0); [lia|].
  destruct (Z.eqb_spec (Z.shiftr a 1) 0); [lia|].
  rewrite Z.log2_shiftr, Z.shiftr_div_pow2 in * by lia.
  assert (2 <= a).
  { destruct (Z.lt_ge_cases a 2); [|done]. rewrite Z.div_small in *; lia. }
  assert (1 <= Z.log2 a) by (apply (Z.log2_le_mono 2); done). lia.
Qed.

Lemma muldivu64_round_wp v s :
  muldiv_inv v ->
  wp (S := S) (muldivu64_round c v) (fun r s' =>
    s' = s /\ match r with
    | inl v' => muldiv_inv v' /\ (muldiv_meas v' < muldiv_meas v)%nat
    | inr q => q = a0 * b / c
    end) s.
Proof.
  destruct v as [[[[a q] r] cq] cr]. intros HI. pose proof HI as HI'.
  destruct HI' as (Ha & Hq & Hr & Hcr & Hcq & Hne & Hz).
  unfold muldivu64_round. destruct (Z.eqb_spec a 0) as [->|Hnz].
  { apply wp_ret. split; [done|]. apply (Z.div_unique_pos _ _ _ r); [lia|].
    rewrite <- Hz by done. ring. }
  specialize (Hne Hnz).
  pose proof (Z.div_mod a 2 ltac:(lia)) as Hdm.
  assert (Z.shiftr a 1 = a / 2) as Hsh by (rewrite Z.shiftr_div_pow2 by lia; done).
  assert (0 <= a / 2 < 2 ^ 64).
  { split; [apply Z.div_pos; lia | apply Z.div_lt_upper_bound; lia]. }
  rewrite Hsh.
  match goal with |- context [let '(_, _) := ?x in _] => destruct x as [q' r'] eqn:Eqr end.
  assert (0 <= q' /\ 0 <= r' < c /\ q' * c + r' = q * c + r + (a mod 2) * (cq * c + cr))
    as (Hq' & Hr' & Hacc).
  { rewrite Zmod_odd. destruct (Z.odd a) eqn:Ho.
    - pose proof (muldiv_accumulate a q r cq cr HI Ho) as Ht. cbv zeta in *.
      rewrite Eqr in Ht. lia.
    - injection Eqr as <- <-. lia. }
  match goal with |- context [let '(_, _) := ?x in _] => destruct x as [cq' cr'] eqn:Ec end.
  pose proof (muldiv_double_range cq cr Hcr) as Hrg. cbv zeta in Hrg. rewrite Ec in Hrg.
  apply wp_ret. split; [done|].
  split; [|rewrite <- Hsh; apply muldiv_meas_half; lia].
  repeat split; try lia.
  - intros Hhalf. assert (1 <= a / 2) by lia.
    assert (2 * (cq * c + cr) <= a0 * b) as Hle by nia.
    pose proof (muldiv_double cq cr Hcr Hcq Hle) as Hd. cbv zeta in Hd.
    rewrite Ec in Hd. destruct Hd as (_ & _ & Hd). rewrite Hd. nia.
Qed.
End muldiv.

(** [muldivu64 a b c] returns [a * b / c] without overflow whenever the
    quotient is representable and the divisor is at most [2^63], although the
    product itself may need 128 bits; the loop always stops. *)
Theorem muldivu64_spec {S} (a b c : Z) (s : S) :
  is_u64 a -> is_u64 b -> 0 < c <= 2 ^ 63 -> a * b / c < 2 ^ 64 ->
  muldivu64 a b c s = Ok (a * b / c, s).
Proof.
  unfold is_u64. intros Ha Hb Hc Hfit.
  assert (wp (muldivu64 a b c) (fun q s' => q = a * b / c /\ s' = s) s) as H.
  { unfold muldivu64.
    eapply (wp_while_fuel (fun v s' => muldiv_inv a b c v /\ s' = s) (fun v _ => muldiv_meas v)).
    - pose proof (Z.div_mod b c ltac:(lia)). pose proof (Z.mod_pos_bound b c ltac:(lia)).
      pose proof (Z.div_pos b c ltac:(lia) ltac:(lia)).
      split; [|done]. repeat split; try lia; try nia.
    - simpl. destruct (Z.eqb_spec a 0); [lia|].
      assert (Z.log2 a < 64) by (apply Z.log2_lt_pow2; lia). lia.
    - intros v s' [HI ->].
      eapply wp_mono; [by apply (muldivu64_round_wp a b c)|].
      intros [v'|q] s' [-> H]; [destruct H|]; auto. }
  apply wp_ok in H as (q & s' & E & -> & ->). done.
Qed.

Lemma muldivu64_spec_witness :
  muldivu64 (2 ^ 60) (2 ^ 40 + 3) (2 ^ 45) tt = Ok (2 ^ 60 * (2 ^ 40 + 3) / 2 ^ 45, tt).
Proof. apply (muldivu64_spec (2 ^ 60) (2 ^ 40 + 3) (2 ^ 45) tt); vm_compute; intuition congruence. Defined.
