(* ===== verification/ListLib.v ===== *)
(** * ListLib: the singly linked list of libutils

    Models libs/libutils/src/list.c and list.h over an explicit heap of nodes.
    A [list_t] object is an address whose [head] field is kept in [lists]; the
    nodes are kept in [nodes].  The null pointer is [0].  [malloc] is an
    argument: the address it returned, [0] when it failed.  Traversals run
    with one unit of fuel per allocated node, which the theorems show to be
    enough for every list that is not cyclic.

    [rep s l ps] says that the list object [l] holds the sequence [ps] of
    (address, data) pairs.  The theorems show that every operation implements
    the sequence operation it names, and leaves every node outside the list
    and every other list object unchanged. *)

From S2P Require Import Prelude.

Record list_node := Node { data : Z; next : Z }.

Record lheap := Lheap { nodes : gmap Z list_node; lists : gmap Z Z }.

(** ** Pointer access *)

Definition deref (p : Z) : M lheap list_node := fun s =>
  if p =? 0 then Err FNull
  else match nodes s !! p with Some n => Ok (n, s) | None => Err FBounds end.

Definition set_next (p q : Z) : M lheap unit :=
  n <- deref p ;;
  modify (fun s => Lheap (<[p := Node (data n) q]> (nodes s)) (lists s)).

Definition free_node (p : Z) : M lheap unit :=
  deref p ;;; modify (fun s => Lheap (delete p (nodes s)) (lists s)).

Definition get_head (l : Z) : M lheap Z := fun s =>
  match lists s !! l with Some h => Ok (h, s) | None => Err FNull end.

Definition set_head (l h : Z) : M lheap unit :=
  get_head l ;;; modify (fun s => Lheap (nodes s) (<[l := h]> (lists s))).

(** A loop over the nodes, from the address [p]: the body sees the address and
    the node and may leave the loop with a value. *)
Fixpoint walk {A} (fuel : nat) (p : Z) (body : Z -> list_node -> M lheap (option A))
    : M lheap (option A) :=
  match fuel with
  | O => fail FFuel
  | S fuel' =>
      if p =? 0 then ret None
      else
        n <- deref p ;;
        r <- body p n ;;
        match r with
        | Some a => ret (Some a)
        | None => walk fuel' (next n) body
        end
  end.

Definition walk_fuel : M lheap nat := gets (fun s => S (size (nodes s))).

(** ** Operations *)

Definition list_init (l : Z) : M lheap Z :=
  c_assert (negb (l =? 0)) ;;;
  modify (fun s => Lheap (nodes s) (<[l := 0]> (lists s))) ;;;
  ret 0.

Definition make_node (malloc_ret d : Z) : M lheap Z :=
  if malloc_ret =? 0 then ret 0
  else modify (fun s => Lheap (<[malloc_ret := Node d 0]> (nodes s)) (lists s)) ;;;
       ret malloc_ret.

Definition list_prepend_node (l node : Z) : M lheap Z :=
  c_assert (negb (l =? 0)) ;;;
  c_assert (negb (node =? 0)) ;;;
  h <- get_head l ;;
  set_next node h ;;;
  set_head l node ;;;
  ret 0.

Definition list_append_node (l node : Z) : M lheap Z :=
  c_assert (negb (l =? 0)) ;;;
  c_assert (negb (node =? 0)) ;;;
  set_next node 0 ;;;
  h <- get_head l ;;
  if h =? 0 then set_head l node ;;; ret 0
  else
    fuel <- walk_fuel ;;
    e <- walk fuel h (fun p n => if next n =? 0 then ret (Some p) else ret None) ;;
    match e with
    | Some p => set_next p node ;;; ret 0
    | None => fail FNull
    end.

Definition list_prepend (l d malloc_ret : Z) : M lheap Z :=
  n <- make_node malloc_ret d ;;
  if n =? 0 then ret (-1) else list_prepend_node l n.

Definition list_append (l d malloc_ret : Z) : M lheap Z :=
  n <- make_node malloc_ret d ;;
  if n =? 0 then ret (-1) else list_append_node l n.

Definition list_is_empty (l : Z) : M lheap bool :=
  c_assert (negb (l =? 0)) ;;;
  h <- get_head l ;; ret (h =? 0).

Definition list_exists (l d : Z) (cmp : Z -> Z -> Z) : M lheap bool :=
  c_assert (negb (l =? 0)) ;;;
  h <- get_head l ;;
  fuel <- walk_fuel ;;
  r <- walk fuel h (fun _ n => ret (if cmp (data n) d =? 0 then Some tt else None)) ;;
  ret (match r with Some _ => true | None => false end).

(** The loops that count carry the counter beside the pointer. *)
Fixpoint count_nodes (fuel : nat) (p i : Z) : M lheap Z :=
  match fuel with
  | O => fail FFuel
  | S fuel' => if p =? 0 then ret i else n <- deref p ;; count_nodes fuel' (next n) (i + 1)
  end.

Definition list_length (l : Z) : M lheap Z :=
  c_assert (negb (l =? 0)) ;;;
  h <- get_head l ;; fuel <- walk_fuel ;; count_nodes fuel h 0.

Fixpoint index_nodes (fuel : nat) (p i d : Z) (cmp : Z -> Z -> Z) : M lheap Z :=
  match fuel with
  | O => fail FFuel
  | S fuel' =>
      if p =? 0 then ret (-1)
      else
        n <- deref p ;;
        if cmp (data n) d =? 0 then ret i else index_nodes fuel' (next n) (i + 1) d cmp
  end.

Definition list_index (l d : Z) (cmp : Z -> Z -> Z) : M lheap Z :=
  c_assert (negb (l =? 0)) ;;;
  h <- get_head l ;; fuel <- walk_fuel ;; index_nodes fuel h 0 d cmp.

Definition list_foreach (l : Z) (action : Z -> M lheap Z) : M lheap Z :=
  c_assert (negb (l =? 0)) ;;;
  h <- get_head l ;;
  fuel <- walk_fuel ;;
  r <- walk fuel h (fun _ n =>
         res <- action (data n) ;; ret (if res =? 0 then None else Some res)) ;;
  ret (match r with Some res => res | None => 0 end).

Definition list_action (l d : Z) (cmp : Z -> Z -> Z) (action : Z -> M lheap unit) : M lheap Z :=
  c_assert (negb (l =? 0)) ;;;
  h <- get_head l ;;
  fuel <- walk_fuel ;;
  r <- walk fuel h (fun _ n =>
         if cmp (data n) d =? 0 then action (data n) ;;; ret (Some tt) else ret None) ;;
  ret (match r with Some _ => 0 | None => 1 end).

Fixpoint remove_nodes (fuel : nat) (l prev p d : Z) (cmp : Z -> Z -> Z) (should_free : bool)
    : M lheap Z :=
  match fuel with
  | O => fail FFuel
  | S fuel' =>
      if p =? 0 then ret (-1)
      else
        n <- deref p ;;
        if cmp (data n) d =? 0 then
          (if prev =? 0 then set_head l (next n) else set_next prev (next n)) ;;;
          (if should_free then free_node p else ret tt) ;;;
          ret 0
        else remove_nodes fuel' l p (next n) d cmp should_free
  end.

Definition remove (l d : Z) (cmp : Z -> Z -> Z) (should_free : bool) : M lheap Z :=
  c_assert (negb (l =? 0)) ;;;
  h <- get_head l ;; fuel <- walk_fuel ;; remove_nodes fuel l 0 h d cmp should_free.

Definition list_remove (l d : Z) (cmp : Z -> Z -> Z) : M lheap Z := remove l d cmp true.
Definition list_remove_node (l d : Z) (cmp : Z -> Z -> Z) : M lheap Z := remove l d cmp false.

Fixpoint free_nodes (fuel : nat) (p : Z) : M lheap unit :=
  match fuel with
  | O => fail FFuel
  | S fuel' =>
      if p =? 0 then ret tt
      else n <- deref p ;; free_node p ;;; free_nodes fuel' (next n)
  end.

Definition list_remove_all (l : Z) : M lheap Z :=
  c_assert (negb (l =? 0)) ;;;
  h <- get_head l ;; fuel <- walk_fuel ;; free_nodes fuel h ;;;
  set_head l 0 ;;; ret 0.

Definition list_remove_all_nodes (l : Z) : M lheap Z :=
  c_assert (negb (l =? 0)) ;;; set_head l 0 ;;; ret 0.

Definition list_destroy (l : Z) : M lheap Z := ret 0.

Definition list_cmp_equality (a b : Z) : Z := if a =? b then 0 else 1.

(** ** The sequence a list object represents *)

(** [chain ns p ps]: following [next] from [p] visits exactly [ps]. *)
Fixpoint chain (ns : gmap Z list_node) (p : Z) (ps : list (Z * Z)) : Prop :=
  match ps with
  | [] => p = 0
  | (q, d) :: ps' => p = q /\ q <> 0 /\ exists nx, ns !! q = Some (Node d nx) /\ chain ns nx ps'
  end.

Definition rep (s : lheap) (l : Z) (ps : list (Z * Z)) : Prop :=
  l <> 0 /\ exists h, lists s !! l = Some h /\ chain (nodes s) h ps.

(** Everything outside the node set [touched] and the list object [l] is as before. *)
Definition unchanged (s s' : lheap) (l : Z) (touched : list Z) : Prop :=
  (forall q, q ∉ touched -> nodes s' !! q = nodes s !! q) /\
  (forall l', l' <> l -> lists s' !! l' = lists s !! l').

Lemma chain_frame ns ns' p ps :
  chain ns p ps -> (forall q, q ∈ ps.*1 -> ns' !! q = ns !! q) -> chain ns' p ps.
Proof.
  revert p. induction ps as [|[q d] ps IH]; intros p; simpl; [done|].
  intros (-> & Hq & nx & E & Hc) H. split; [done|]. split; [done|].
  exists nx. split.
  - rewrite H; [done|]. constructor.
  - apply IH; [done|]. intros. apply H. by constructor.
Qed.

Lemma rep_frame s s' l l' ps touched :
  rep s l ps -> l <> l' -> unchanged s s' l' touched ->
  (forall q, q ∈ ps.*1 -> q ∉ touched) -> rep s' l ps.
Proof.
  intros (Hl & h & E & Hc) Hne [Hn Hh] Hd. split; [done|].
  exists h. split; [by rewrite Hh|]. eapply chain_frame; [done|]. auto.
Qed.

Lemma chain_lookup ns p ps q d :
  chain ns p ps -> (q, d) ∈ ps -> q <> 0 /\ exists nx, ns !! q = Some (Node d nx).
Proof.
  revert p. induction ps as [|[q' d'] ps IH]; intros p; simpl; [by intros _ ?%not_elem_of_nil|].
  intros (-> & Hq & nx & E & Hc) [[= <- <-]|H]%elem_of_cons; [eauto|]. by eapply IH.
Qed.

(** A chain is determined by the heap, so it never visits a node twice. *)
Lemma chain_det ns p ps ps' : chain ns p ps -> chain ns p ps' -> ps = ps'.
Proof.
  revert p ps'. induction ps as [|[q d] ps IH]; intros p [|[q' d'] ps']; simpl; try done.
  - intros -> (<- & ? & _). done.
  - intros (-> & ? & _) ->. done.
  - intros (-> & Hq & nx & E & Hc) (<- & _ & nx' & E' & Hc').
    rewrite E in E'. injection E' as <- <-. f_equal. by eapply IH.
Qed.

Lemma chain_suffix ns p ps1 q d ps2 :
  chain ns p (ps1 ++ (q, d) :: ps2) -> chain ns q ((q, d) :: ps2).
Proof.
  revert p. induction ps1 as [|[q' d'] ps1 IH]; intros p; simpl.
  - intros (-> & H). done.
  - intros (-> & _ & nx & _ & Hc). by eapply IH.
Qed.

Lemma chain_NoDup ns p ps : chain ns p ps -> NoDup ps.*1.
Proof.
  revert p. induction ps as [|[q d] ps IH]; intros p; simpl; [constructor|].
  intros H. pose proof H as (-> & Hq & nx & E & Hc). constructor; [|by eapply IH].
  intros ([q' d'] & Heq & Hin)%list_elem_of_fmap. simpl in Heq. subst q'.
  apply list_elem_of_split in Hin as (ps1 & ps2 & ->).
  pose proof (chain_suffix _ _ _ _ _ _ Hc) as Hs.
  assert (chain ns q ((q, d) :: ps1 ++ (q, d') :: ps2)) as H1 by (simpl; eauto).
  pose proof (chain_det _ _ _ _ Hs H1) as Heq. apply (f_equal length) in Heq.
  simpl in Heq. rewrite length_app in Heq. simpl in Heq. lia.
Qed.

Lemma chain_length ns p ps : chain ns p ps -> (length ps <= size ns)%nat.
Proof.
  intros H. pose proof (chain_NoDup _ _ _ H) as Hnd.
  rewrite <- (length_fmap fst), <- (size_list_to_set (C := gset Z)) by done.
  rewrite <- (size_dom ns). apply subseteq_size. intros q Hq.
  apply elem_of_list_to_set, list_elem_of_fmap in Hq as ([q' d] & -> & Hin).
  apply (chain_lookup _ _ _ q' d) in H as [_ [nx E]]; [|done].
  apply elem_of_dom. eauto.
Qed.

(** ** Symbolic execution of the pointer operations *)

Lemma wp_deref p n Q s : p <> 0 -> nodes s !! p = Some n -> Q n s -> wp (deref p) Q s.
Proof. intros Hp E HQ. unfold wp, deref. destruct (Z.eqb_spec p 0); [done|]. by rewrite E. Qed.

Lemma wp_get_head l h Q s : lists s !! l = Some h -> Q h s -> wp (get_head l) Q s.
Proof. intros E HQ. unfold wp, get_head. by rewrite E. Qed.

Lemma wp_set_next p q d nx Q s :
  p <> 0 -> nodes s !! p = Some (Node d nx) ->
  Q tt (Lheap (<[p := Node d q]> (nodes s)) (lists s)) -> wp (set_next p q) Q s.
Proof. intros Hp E HQ. apply wp_bind. eapply wp_deref; [done|done|]. apply HQ. Qed.

Lemma wp_set_head l h h' Q s :
  lists s !! l = Some h -> Q tt (Lheap (nodes s) (<[l := h']> (lists s))) ->
  wp (set_head l h') Q s.
Proof. intros E HQ. apply wp_bind. eapply wp_get_head; [done|]. apply HQ. Qed.

Lemma wp_free_node p n Q s :
  p <> 0 -> nodes s !! p = Some n ->
  Q tt (Lheap (delete p (nodes s)) (lists s)) -> wp (free_node p) Q s.
Proof. intros Hp E HQ. apply wp_bind. eapply wp_deref; [done|done|]. apply HQ. Qed.

Lemma wp_not_null p Q (s : lheap) : p <> 0 -> Q tt s -> wp (c_assert (negb (p =? 0))) Q s.
Proof. intros. apply wp_assert; [|done]. by destruct (Z.eqb_spec p 0). Qed.

(** A walk whose body only looks at the data finds the first hit. *)
Lemma walk_find {A} (f : Z -> option A) fuel p ps s :
  chain (nodes s) p ps -> (length ps < fuel)%nat ->
  walk fuel p (fun _ n => ret (f (data n))) s = Ok (head (omap f ps.*2), s).
Proof.
  revert fuel p. induction ps as [|[q d] ps IH]; intros [|fuel] p Hc Hf; simpl in *; try lia.
  - subst p. done.
  - destruct Hc as (-> & Hq & nx & E & Hc).
    destruct (Z.eqb_spec q 0); [done|]. unfold bind, deref.
    destruct (Z.eqb_spec q 0); [done|]. rewrite E. simpl.
    destruct (f d) eqn:Ef; [done|]. apply IH; [done | lia].
Qed.

(** The walk of [list_append_node] stops at the last node. *)
Lemma walk_last fuel p ps q d s :
  chain (nodes s) p (ps ++ [(q, d)]) -> (length ps + 1 < fuel)%nat ->
  walk fuel p (fun p n => if next n =? 0 then ret (Some p) else ret None) s = Ok (Some q, s).
Proof.
  revert fuel p. induction ps as [|[q' d'] ps IH]; intros [|fuel] p Hc Hf; simpl in *; try lia.
  - destruct Hc as (-> & Hq & nx & E & ->). unfold bind, deref.
    destruct (Z.eqb_spec q 0); [done|]. by rewrite E.
  - destruct Hc as (-> & Hq & nx & E & Hc). unfold bind, deref.
    destruct (Z.eqb_spec q' 0); [done|]. rewrite E. simpl.
    assert (nx <> 0). { destruct ps as [|[??]]; simpl in Hc; destruct Hc as (-> & ? & _); done. }
    destruct (Z.eqb_spec nx 0); [done|]. simpl. apply IH; [done | lia].
Qed.

(** Redirecting the last node extends the chain. *)
Lemma chain_extend ns p ps q d r e :
  chain ns p (ps ++ [(q, d)]) -> r ∉ (ps ++ [(q, d)]).*1 -> r <> 0 ->
  ns !! r = Some (Node e 0) ->
  chain (<[q := Node d r]> ns) p (ps ++ [(q, d); (r, e)]).
Proof.
  intros Hc Hr Hr0 Er. pose proof (chain_NoDup _ _ _ Hc) as Hnd.
  revert p Hc Hnd Hr. induction ps as [|[q' d'] ps IH]; intros p Hc Hnd Hr; simpl in *.
  - destruct Hc as (-> & Hq & nx & E & ->). split; [done|]. split; [done|].
    exists r. split; [apply lookup_insert_eq|]. split; [done|]. split; [done|].
    exists 0. split; [|done]. rewrite lookup_insert_ne; [done|].
    intros ->. apply Hr. constructor.
  - destruct Hc as (-> & Hq & nx & E & Hc). apply list.NoDup_cons in Hnd as [Hni Hnd].
    split; [done|]. split; [done|]. exists nx. split.
    + rewrite lookup_insert_ne; [done|]. intros ->. apply Hni.
      rewrite fmap_app. apply elem_of_app. right. simpl. constructor.
    + apply IH; [done|done|]. intros ?. apply Hr. by constructor.
Qed.

(** [list_append_node] of a node that is in no list. *)
Lemma list_append_node_wp l r e nx ps s :
  rep s l ps -> r <> 0 -> nodes s !! r = Some (Node e nx) -> r ∉ ps.*1 ->
  wp (list_append_node l r) (fun v s' =>
    v = 0 /\ rep s' l (ps ++ [(r, e)]) /\ unchanged s s' l (r :: ps.*1)) s.
Proof.
  intros (Hl & h & Eh & Hc) Hr Er Hni. unfold list_append_node.
  apply wp_bind, wp_not_null; [done|]. apply wp_bind, wp_not_null; [done|].
  apply wp_bind. eapply wp_set_next; [done|done|].
  set (s1 := Lheap (<[r := Node e 0]> (nodes s)) (lists s)).
  assert (chain (nodes s1) h ps) as Hc1.
  { eapply chain_frame; [exact Hc|]. intros q Hq. apply lookup_insert_ne. by intros ->. }
  assert (nodes s1 !! r = Some (Node e 0)) as Er1 by apply lookup_insert_eq.
  apply wp_bind. eapply wp_get_head; [done|].
  destruct (Z.eqb_spec h 0) as [->|Hh].
  - assert (ps = []) as ->. { destruct ps as [|[??]]; [done|]. destruct Hc as (<- & ? & _). done. }
    apply wp_bind. eapply wp_set_head; [done|]. apply wp_ret. split; [done|]. split.
    + split; [done|]. exists r. split; [apply lookup_insert_eq|]. simpl. eauto.
    + split; intros q Hq; simpl.
      * apply lookup_insert_ne. intros ->. apply Hq. constructor.
      * by apply lookup_insert_ne.
  - induction ps as [|[q d] ps _] using rev_ind; [by simpl in Hc|].
    apply wp_bind, wp_gets. apply wp_bind. unfold wp at 1.
    rewrite (walk_last _ _ ps q d s1); [|done|].
    2: { apply chain_length in Hc1. rewrite length_app in Hc1. simpl in *. lia. }
    destruct (chain_lookup _ _ _ q d Hc1) as [Hq [nx' Eq]]; [set_solver|].
    apply wp_bind. eapply wp_set_next; [done|done|]. apply wp_ret. split; [done|]. split.
    + split; [done|]. exists h. split; [done|]. rewrite <- app_assoc.
      by apply chain_extend.
    + split; [|done]. intros x Hx. simpl.
      apply not_elem_of_cons in Hx as [? Hx]. rewrite fmap_app in Hx.
      apply not_elem_of_app in Hx as [_ [? _]%not_elem_of_cons].
      by rewrite !lookup_insert_ne.
Qed.

(** [list_append] turns the sequence of the list into the same sequence
    with the new value at its end, in the node [malloc] returned; it touches
    no other list, and when [malloc] fails it returns [-1] and changes
    nothing. *)
Theorem list_append_refines s l ps d p :
  rep s l ps -> nodes s !! p = None ->
  wp (list_append l d p) (fun v s' =>
    if p =? 0 then v = -1 /\ s' = s
    else v = 0 /\ rep s' l (ps ++ [(p, d)]) /\ unchanged s s' l (p :: ps.*1)) s.
Proof.
  intros Hrep Hfresh. unfold list_append, make_node.
  apply wp_bind. destruct (Z.eqb_spec p 0) as [->|Hp]; [done|].
  apply wp_bind, wp_modify, wp_ret. destruct (Z.eqb_spec p 0); [done|].
  set (s1 := Lheap (<[p := Node d 0]> (nodes s)) (lists s)).
  assert (p ∉ ps.*1) as Hni.
  { intros ([q e] & -> & Hin)%list_elem_of_fmap. destruct Hrep as (_ & h & _ & Hc).
    destruct (chain_lookup _ _ _ q e Hc Hin) as (_ & nx & E). simpl in *. congruence. }
  assert (rep s1 l ps) as Hrep1.
  { destruct Hrep as (Hl & h & Eh & Hc). split; [done|]. exists h. split; [done|].
    eapply chain_frame; [exact Hc|]. intros q Hq. apply lookup_insert_ne. by intros ->. }
  eapply wp_mono; [apply (list_append_node_wp l p d 0 ps s1); [done|done|apply lookup_insert_eq|done]|].
  intros v s' (-> & Hr & Hn & Hl). split; [done|]. split; [done|]. split; [|done].
  intros q Hq. rewrite Hn by done. apply lookup_insert_ne. set_solver.
Qed.

Lemma list_append_refines_witness :
  let s := Lheap {[5 := Node 70 0]} {[9 := 5]} in
  wp (list_append 9 71 6) (fun v s' =>
    if 6 =? 0 then v = -1 /\ s' = s
    else v = 0 /\ rep s' 9 ([(5, 70)] ++ [(6, 71)]) /\ unchanged s s' 9 (6 :: [(5, 70)].*1)) s.
Proof.
  apply (list_append_refines (Lheap {[5 := Node 70 0]} {[9 := 5]}) 9 [(5, 70)] 71 6).
  - split; [lia|]. exists 5. split; [reflexivity|]. simpl. split; [lia|]. split; [lia|].
    exists 0. split; reflexivity.
  - reflexivity.
Defined.

(** ** Unlinking *)

(** The nodes [ps] lead from [p] to [e]. *)
Fixpoint seg (ns : gmap Z list_node) (p : Z) (ps : list (Z * Z)) (e : Z) : Prop :=
  match ps with
  | [] => p = e
  | (q, d) :: ps' => p = q /\ q <> 0 /\ exists nx, ns !! q = Some (Node d nx) /\ seg ns nx ps' e
  end.

Lemma chain_app ns p ps1 ps2 :
  chain ns p (ps1 ++ ps2) <-> exists m, seg ns p ps1 m /\ chain ns m ps2.
Proof.
  revert p. induction ps1 as [|[q d] ps1 IH]; intros p; simpl; [naive_solver|].
  setoid_rewrite IH. naive_solver.
Qed.

Lemma seg_snoc ns p ps q d e :
  seg ns p (ps ++ [(q, d)]) e <-> seg ns p ps q /\ q <> 0 /\ ns !! q = Some (Node d e).
Proof.
  revert p. induction ps as [|[q' d'] ps IH]; intros p; simpl; [naive_solver|].
  setoid_rewrite IH. naive_solver.
Qed.

Lemma seg_frame ns ns' p ps e :
  seg ns p ps e -> (forall q, q ∈ ps.*1 -> ns' !! q = ns !! q) -> seg ns' p ps e.
Proof.
  revert p. induction ps as [|[q d] ps IH]; intros p; simpl; [done|].
  intros (-> & Hq & nx & E & Hs) H. split; [done|]. split; [done|].
  exists nx. split; [rewrite H; [done|constructor]|]. apply IH; [done|].
  intros. apply H. by constructor.
Qed.

(** Bypassing the node [q]: the predecessor, or the head, points past it. *)
Lemma chain_unlink ns h pre a da q e post :
  chain ns h ((pre ++ [(a, da)]) ++ (q, e) :: post) ->
  exists nx, ns !! q = Some (Node e nx) /\
  chain (<[a := Node da nx]> ns) h ((pre ++ [(a, da)]) ++ post).
Proof.
  intros Hc. pose proof (chain_NoDup _ _ _ Hc) as Hnd.
  apply chain_app in Hc as (m & Hs & -> & Hq & nx & Eq & Hp). exists nx. split; [done|].
  apply seg_snoc in Hs as (Hs & Ha & Ea).
  rewrite !fmap_app, list.NoDup_app in Hnd. simpl in Hnd.
  destruct Hnd as (Hnd1 & Hd & Hnd2). apply list.NoDup_app in Hnd1 as (_ & Hd1 & _).
  apply chain_app. exists nx. split.
  - apply seg_snoc. split; [|split; [done|apply lookup_insert_eq]].
    eapply seg_frame; [done|]. intros x Hx. apply lookup_insert_ne. intros ->.
    eapply Hd1; [done|]. constructor.
  - eapply chain_frame; [done|]. intros x Hx. apply lookup_insert_ne. intros ->.
    apply (Hd x); [set_solver|]. by constructor.
Qed.

Lemma not_in_addrs_app x (ps qs : list (Z * Z)) :
  x ∉ (fst <$> (ps ++ qs)) <-> (x ∉ ps.*1) /\ (x ∉ qs.*1).
Proof. rewrite fmap_app. apply not_elem_of_app. Qed.

Lemma not_in_addrs_cons x (q d : Z) (ps : list (Z * Z)) :
  x ∉ (fst <$> ((q, d) :: ps)) <-> x <> q /\ x ∉ ps.*1.
Proof. apply not_elem_of_cons. Qed.

(** The first element whose data satisfies [f], and the rest. *)
Fixpoint remove_first (f : Z -> bool) (ps : list (Z * Z)) : option (Z * list (Z * Z)) :=
  match ps with
  | [] => None
  | (q, d) :: ps' =>
      if f d then Some (q, ps')
      else match remove_first f ps' with
           | Some (q', r) => Some (q', (q, d) :: r)
           | None => None
           end
  end.

Definition last_addr (ps : list (Z * Z)) : Z :=
  match last ps with Some (q, _) => q | None => 0 end.

Lemma remove_nodes_wp fuel l d cmp sf pre rest p s h :
  l <> 0 -> lists s !! l = Some h ->
  seg (nodes s) h pre p -> chain (nodes s) p rest -> (length rest < fuel)%nat ->
  wp (remove_nodes fuel l (last_addr pre) p d cmp sf) (fun v s' =>
    match remove_first (fun x => cmp x d =? 0) rest with
    | None => v = -1 /\ s' = s
    | Some (q, rest') =>
        v = 0 /\ rep s' l (pre ++ rest') /\ unchanged s s' l (fst <$> (pre ++ rest)) /\
        nodes s' !! q = (if sf then None else nodes s !! q)
    end) s.
Proof.
  intros Hl Eh. revert pre p rest. induction fuel as [|fuel IH]; intros pre p rest Hs Hc Hf; [lia|].
  destruct rest as [|[q e] rest]; simpl in *; [by subst p|].
  destruct Hc as (-> & Hq & nx & E & Hc). destruct (Z.eqb_spec q 0); [done|].
  apply wp_bind. eapply wp_deref; [done|done|]. simpl.
  assert (chain (nodes s) h (pre ++ (q, e) :: rest)) as Hall.
  { apply chain_app. exists q. split; [done|]. simpl. eauto. }
  pose proof (chain_NoDup _ _ _ Hall) as Hnd. rewrite fmap_app in Hnd. simpl in Hnd.
  apply list.NoDup_app in Hnd as (_ & Hd & Hnd). apply list.NoDup_cons in Hnd as [Hni _].
  assert (q ∉ pre.*1) as Hni' by (intros ?; eapply Hd; [done|constructor]).
  destruct (Z.eqb_spec (cmp e d) 0).
  - (* found: unlink *)
    assert (wp (if last_addr pre =? 0 then set_head l nx else set_next (last_addr pre) nx)
      (fun _ s1 => rep s1 l (pre ++ rest) /\ nodes s1 !! q = Some (Node e nx) /\
                   unchanged s s1 l pre.*1) s) as Hunlink.
    { induction pre as [|[a da] pre _] using rev_ind.
      - simpl. eapply wp_set_head; [done|]. split; [|split; [done|]].
        + split; [done|]. exists nx. split; [apply lookup_insert_eq|done].
        + split; [done|]. intros. by apply lookup_insert_ne.
      - unfold last_addr. rewrite last_snoc.
        apply seg_snoc in Hs as (Hs & Ha & Ea). destruct (Z.eqb_spec a 0); [done|].
        eapply wp_set_next; [done|done|].
        apply chain_unlink in Hall as (nx' & Eq' & Hall).
        rewrite E in Eq'. injection Eq' as <-.
        split; [|split].
        + split; [done|]. exists h. done.
        + simpl. apply not_in_addrs_app in Hni' as [_ [? _]%not_in_addrs_cons].
          by rewrite lookup_insert_ne.
        + split; [|done]. intros x [_ [? _]%not_in_addrs_cons]%not_in_addrs_app.
          by apply lookup_insert_ne. }
    apply wp_bind. eapply wp_mono; [exact Hunlink|].
    intros _ s1 (Hrep & Eq & Hu1 & Hu2). apply wp_bind.
    assert (forall x, x ∉ (fst <$> (pre ++ (q, e) :: rest)) -> (x ∉ pre.*1) /\ x <> q) as Hout.
    { intros x [? [? _]%not_in_addrs_cons]%not_in_addrs_app. done. }
    destruct sf.
    + eapply wp_free_node; [done|done|]. apply wp_ret. split; [done|]. split; [|split].
      * destruct Hrep as (_ & h' & Eh' & Hc'). split; [done|]. exists h'. split; [done|].
        eapply chain_frame; [done|]. intros x Hx. simpl. apply lookup_delete_ne.
        intros <-. rewrite fmap_app in Hx. by apply elem_of_app in Hx as [?|?].
      * split; [|done]. intros x [Hx Hxq]%Hout. simpl.
        rewrite lookup_delete_ne by done. by apply Hu1.
      * apply lookup_delete_eq.
    + apply wp_ret, wp_ret. split; [done|]. split; [done|]. split; [|congruence].
      split; [|done]. intros x [Hx _]%Hout. by apply Hu1.
  - (* not found here: go on with [q] as the predecessor *)
    assert (q = last_addr (pre ++ [(q, e)])) as Hlast by (unfold last_addr; by rewrite last_snoc).
    rewrite Hlast at 1. eapply wp_mono; [apply (IH (pre ++ [(q, e)]) nx rest)|].
    + apply seg_snoc. done.
    + done.
    + lia.
    + intros v s'. destruct (remove_first _ rest) as [[q' rest']|]; [|done].
      rewrite <- !app_assoc. done.
Qed.

(** [list_remove] deletes the first element that compares equal, frees
    exactly its node and keeps the order of the others; when there is none it
    returns [-1] and changes nothing. *)
Theorem list_remove_refines s l ps d cmp :
  rep s l ps ->
  wp (list_remove l d cmp) (fun v s' =>
    match remove_first (fun x => cmp x d =? 0) ps with
    | None => v = -1 /\ s' = s
    | Some (q, ps') =>
        v = 0 /\ rep s' l ps' /\ unchanged s s' l ps.*1 /\ nodes s' !! q = None
    end) s.
Proof.
  intros (Hl & h & Eh & Hc). unfold list_remove, remove.
  apply wp_bind, wp_not_null; [done|]. apply wp_bind. eapply wp_get_head; [done|].
  apply wp_bind, wp_gets. apply (remove_nodes_wp _ l d cmp true [] ps h s h); [done|done|done|done|].
  apply chain_length in Hc. lia.
Qed.

Lemma list_remove_refines_witness :
  let s := Lheap (<[5 := Node 70 6]> {[6 := Node 71 0]}) {[9 := 5]} in
  wp (list_remove 9 71 list_cmp_equality) (fun v s' =>
    match remove_first (fun x => list_cmp_equality x 71 =? 0) [(5, 70); (6, 71)] with
    | None => v = -1 /\ s' = s
    | Some (q, ps') =>
        v = 0 /\ rep s' 9 ps' /\ unchanged s s' 9 [(5, 70); (6, 71)].*1 /\ nodes s' !! q = None
    end) s.
Proof.
  apply (list_remove_refines (Lheap (<[5 := Node 70 6]> {[6 := Node 71 0]}) {[9 := 5]})).
  split; [lia|]. exists 5. split; [reflexivity|]. simpl. repeat (split; [lia|]).
  exists 6. split; [reflexivity|]. repeat (split; [lia|]). exists 0. split; reflexivity.
Defined.

(** ** The remaining operations *)

Lemma list_exists_spec s l ps d cmp :
  rep s l ps ->
  wp (list_exists l d cmp)
     (fun b s' => b = existsb (fun x => cmp x d =? 0) ps.*2 /\ s' = s) s.
Proof.
  intros (Hl & h & Eh & Hc). unfold list_exists.
  apply wp_bind, wp_not_null; [done|]. apply wp_bind. eapply wp_get_head; [done|].
  apply wp_bind, wp_gets. apply wp_bind. unfold wp at 1.
  rewrite (walk_find (fun x => if cmp x d =? 0 then Some tt else None) _ _ ps);
    [|done|apply chain_length in Hc; lia].
  apply wp_ret. split; [|done]. clear. induction ps as [|[q e] ps IH]; simpl; [done|].
  destruct (cmp e d =? 0); [done|exact IH].
Qed.

Lemma list_is_empty_spec s l ps :
  rep s l ps -> wp (list_is_empty l) (fun b s' => b = bool_decide (ps = []) /\ s' = s) s.
Proof.
  intros (Hl & h & Eh & Hc). unfold list_is_empty.
  apply wp_bind, wp_not_null; [done|]. apply wp_bind. eapply wp_get_head; [done|].
  apply wp_ret. split; [|done]. destruct ps as [|[q e] ps]; simpl in Hc; [by subst|].
  destruct Hc as (-> & ? & _). by destruct (Z.eqb_spec q 0).
Qed.

Lemma count_nodes_spec fuel p ps i s :
  chain (nodes s) p ps -> (length ps < fuel)%nat ->
  count_nodes fuel p i s = Ok (i + Z.of_nat (length ps), s).
Proof.
  revert fuel p i. induction ps as [|[q d] ps IH]; intros [|fuel] p i Hc Hf; simpl in *; try lia.
  - subst p. by rewrite Z.add_0_r.
  - destruct Hc as (-> & Hq & nx & E & Hc). destruct (Z.eqb_spec q 0); [done|].
    unfold bind, deref. destruct (Z.eqb_spec q 0); [done|]. rewrite E. simpl.
    rewrite IH; [|done|lia]. f_equal. f_equal. lia.
Qed.

Lemma list_length_spec s l ps :
  rep s l ps -> wp (list_length l) (fun n s' => n = Z.of_nat (length ps) /\ s' = s) s.
Proof.
  intros (Hl & h & Eh & Hc). unfold list_length.
  apply wp_bind, wp_not_null; [done|]. apply wp_bind. eapply wp_get_head; [done|].
  apply wp_bind, wp_gets. unfold wp.
  rewrite (count_nodes_spec _ _ ps); [done|done|]. apply chain_length in Hc. lia.
Qed.

Lemma list_prepend_spec s l ps d p :
  rep s l ps -> nodes s !! p = None -> p <> 0 ->
  wp (list_prepend l d p) (fun v s' => v = 0 /\ rep s' l ((p, d) :: ps)) s.
Proof.
  intros (Hl & h & Eh & Hc) Hf Hp. unfold list_prepend, make_node.
  destruct (Z.eqb_spec p 0); [done|]. apply wp_bind, wp_bind, wp_modify, wp_ret.
  destruct (Z.eqb_spec p 0); [done|]. unfold list_prepend_node.
  apply wp_bind, wp_not_null; [done|]. apply wp_bind, wp_not_null; [done|].
  apply wp_bind. eapply wp_get_head; [done|]. apply wp_bind.
  eapply wp_set_next; [done|apply lookup_insert_eq|]. apply wp_bind.
  eapply wp_set_head; [done|]. apply wp_ret. split; [done|]. split; [done|].
  exists p. split; [apply lookup_insert_eq|]. simpl. split; [done|]. split; [done|].
  exists h. split; [apply lookup_insert_eq|]. eapply chain_frame; [done|].
  intros q Hq. rewrite !lookup_insert_ne; [done| |].
  all: intros <-; apply list_elem_of_fmap in Hq as ([q e] & -> & Hin);
    destruct (chain_lookup _ _ _ q e Hc Hin) as (_ & nx & E); simpl in *; congruence.
Qed.

Lemma free_nodes_wp fuel p ps s :
  chain (nodes s) p ps -> (length ps < fuel)%nat ->
  wp (free_nodes fuel p) (fun _ s' => lists s' = lists s /\
    (forall q, nodes s' !! q = if decide (q ∈ ps.*1) then None else nodes s !! q)) s.
Proof.
  revert fuel p s. induction ps as [|[q d] ps IH]; intros [|fuel] p s Hc Hf; simpl in *; try lia.
  - subst p. apply wp_ret. done.
  - pose proof (chain_NoDup _ _ ((q, d) :: ps) Hc) as Hnd. apply list.NoDup_cons in Hnd as [Hni _].
    destruct Hc as (-> & Hq & nx & E & Hc). destruct (Z.eqb_spec q 0); [done|].
    apply wp_bind. eapply wp_deref; [done|done|]. apply wp_bind.
    eapply wp_free_node; [done|done|]. simpl. eapply wp_mono; [apply IH|].
    + eapply chain_frame; [exact Hc|]. intros x Hx. apply lookup_delete_ne. by intros ->.
    + lia.
    + simpl. intros _ s' [-> Hn]. split; [done|]. intros x. rewrite Hn.
      destruct (decide (x = q)) as [->|].
      * rewrite lookup_delete_eq. repeat case_decide; try done.
        exfalso. eauto using list_elem_of_here.
      * rewrite lookup_delete_ne by done.
        rewrite (decide_ext (x ∈ q :: list_fmap _ _ fst ps) (x ∈ ps.*1)); [done|].
        rewrite elem_of_cons. naive_solver.
Qed.

Lemma list_remove_all_spec s l ps :
  rep s l ps ->
  wp (list_remove_all l) (fun v s' => v = 0 /\ rep s' l [] /\ unchanged s s' l ps.*1 /\
    forall q, q ∈ ps.*1 -> nodes s' !! q = None) s.
Proof.
  intros (Hl & h & Eh & Hc). unfold list_remove_all.
  apply wp_bind, wp_not_null; [done|]. apply wp_bind. eapply wp_get_head; [done|].
  apply wp_bind, wp_gets. apply wp_bind.
  eapply wp_mono; [apply (free_nodes_wp _ h ps); [done|apply chain_length in Hc; lia]|].
  simpl. intros _ s' [El Hn]. apply wp_bind. eapply wp_set_head; [by rewrite El|].
  apply wp_ret. split; [done|]. split; [|split].
  - split; [done|]. exists 0. split; [apply lookup_insert_eq|done].
  - split; simpl.
    + intros q Hq. rewrite Hn. by rewrite decide_False.
    + intros. rewrite El. by apply lookup_insert_ne.
  - simpl. intros q Hq. rewrite Hn. by rewrite decide_True.
Qed.
