(* ===== verification/RingBuf.v ===== *)
(** * RingBuf: the character ring buffer of libutils

    Models libs/libutils/src/ringbuf.c.  The buffer keeps [RING_BUFFER_SIZE]
    bytes and two 32-bit indices; at most [RING_BUFFER_SIZE - 1] bytes are in
    use.  [items] reads the buffer as a sequence, oldest byte first; the
    theorems show that the operations implement a bounded FIFO queue that
    drops its oldest byte when it is full. *)

From S2P Require Import Prelude.

Definition RING_BUFFER_SIZE : Z := 0x1000.
Definition RING_BUFFER_MASK : Z := RING_BUFFER_SIZE - 1.

Record ring_buffer_t := RingBuffer {
  buffer : list Z;
  tail_index : Z;
  head_index : Z
}.

Definition set_buffer (b : list Z) (r : ring_buffer_t) := RingBuffer b (tail_index r) (head_index r).
Definition set_tail_index (t : Z) (r : ring_buffer_t) := RingBuffer (buffer r) t (head_index r).
Definition set_head_index (h : Z) (r : ring_buffer_t) := RingBuffer (buffer r) (tail_index r) h.

Definition ring_buffer_init : M ring_buffer_t unit :=
  modify (set_tail_index 0) ;;; modify (set_head_index 0).

Definition ring_buffer_num_items : M ring_buffer_t Z :=
  gets (fun r => Z.land (u32 (head_index r - tail_index r)) RING_BUFFER_MASK).

Definition ring_buffer_is_empty : M ring_buffer_t bool :=
  gets (fun r => head_index r =? tail_index r).

Definition ring_buffer_is_full : M ring_buffer_t bool :=
  gets (fun r => Z.land (u32 (head_index r - tail_index r)) RING_BUFFER_MASK =? RING_BUFFER_MASK).

Definition ring_buffer_queue (data : Z) : M ring_buffer_t unit :=
  full <- ring_buffer_is_full ;;
  (if (full : bool) then
     modify (fun r => set_tail_index (Z.land (u32 (tail_index r + 1)) RING_BUFFER_MASK) r)
   else ret tt) ;;;
  r <- get ;;
  in_bounds (buffer r) (head_index r) ;;;
  modify (fun r => set_buffer (insertZ (head_index r) data (buffer r)) r) ;;;
  modify (fun r => set_head_index (Z.land (u32 (head_index r + 1)) RING_BUFFER_MASK) r).

Definition ring_buffer_queue_arr (data : list Z) (size : Z) : M ring_buffer_t unit :=
  for_up 0 size (fun i => d <- rd data i ;; ring_buffer_queue d).

(** The result is the return value and the byte stored through [data]. *)
Definition ring_buffer_dequeue : M ring_buffer_t (Z * option Z) :=
  empty <- ring_buffer_is_empty ;;
  if (empty : bool) then ret (0, None)
  else
    r <- get ;;
    d <- rd (buffer r) (tail_index r) ;;
    modify (fun r => set_tail_index (Z.land (u32 (tail_index r + 1)) RING_BUFFER_MASK) r) ;;;
    ret (1, Some d).

(** The loop of [ring_buffer_dequeue_arr]: [cnt] bytes are copied already. *)
Fixpoint dequeue_loop (n : nat) (acc : list Z) : M ring_buffer_t (list Z) :=
  match n with
  | O => ret acc
  | S n' =>
      let! (ok, d) := ring_buffer_dequeue in
      match d with
      | Some d => if ok =? 0 then ret acc else dequeue_loop n' (acc ++ [d])
      | None => ret acc
      end
  end.

Definition ring_buffer_dequeue_arr (len : Z) : M ring_buffer_t (Z * list Z) :=
  empty <- ring_buffer_is_empty ;;
  if (empty : bool) then ret (0, [])
  else out <- dequeue_loop (Z.to_nat len) [] ;; ret (Z.of_nat (length out), out).

Definition ring_buffer_peek (index : Z) : M ring_buffer_t (Z * option Z) :=
  n <- ring_buffer_num_items ;;
  if n <=? index then ret (0, None)
  else
    r <- get ;;
    d <- rd (buffer r) (Z.land (u32 (tail_index r + index)) RING_BUFFER_MASK) ;;
    ret (1, Some d).

(** ** Well-formed buffers and the sequence they hold *)

Definition ring_wf (r : ring_buffer_t) : Prop :=
  length (buffer r) = Z.to_nat RING_BUFFER_SIZE /\
  0 <= tail_index r < RING_BUFFER_SIZE /\ 0 <= head_index r < RING_BUFFER_SIZE.

Definition cell (b : list Z) (i : Z) : Z := default 0 (b !z (i mod RING_BUFFER_SIZE)).
Definition slice (b : list Z) (t n : Z) : list Z := (fun i => cell b (t + i)) <$> seqZ 0 n.
Definition count (r : ring_buffer_t) : Z := (head_index r - tail_index r) mod RING_BUFFER_SIZE.
Definition items (r : ring_buffer_t) : list Z := slice (buffer r) (tail_index r) (count r).

Lemma land_mask x : Z.land x RING_BUFFER_MASK = x mod RING_BUFFER_SIZE.
Proof. apply (land_pow2_mask x 12). lia. Qed.

Lemma u32_land_mask x : Z.land (u32 x) RING_BUFFER_MASK = x mod RING_BUFFER_SIZE.
Proof.
  rewrite land_mask. unfold u32. apply Z.mod_mod_divide. by exists (2 ^ 20).
Qed.

Lemma cell_mod b i : cell b (i mod RING_BUFFER_SIZE) = cell b i.
Proof. unfold cell. by rewrite Z.mod_mod. Qed.

Lemma length_slice b t n : length (slice b t n) = Z.to_nat n.
Proof. unfold slice. by rewrite length_fmap, length_seqZ. Qed.

Lemma slice_tail_mod b t n : slice b (t mod RING_BUFFER_SIZE) n = slice b t n.
Proof.
  apply list_fmap_ext. intros k i _. unfold cell. by rewrite Zplus_mod_idemp_l.
Qed.

Lemma slice_cons b t n : 0 < n -> slice b t n = cell b t :: slice b (t + 1) (n - 1).
Proof.
  intros. unfold slice. rewrite seqZ_cons by lia. rewrite fmap_cons. f_equal.
  - by rewrite Z.add_0_r.
  - rewrite <- (fmap_add_seqZ 1 0). rewrite <- list_fmap_compose.
    replace (Z.pred n) with (n - 1) by lia. apply list_fmap_ext. intros k i _. simpl.
    f_equal. lia.
Qed.

Lemma slice_snoc b t n : 0 <= n -> slice b t (n + 1) = slice b t n ++ [cell b (t + n)].
Proof. intros. unfold slice. rewrite seqZ_app by lia. by rewrite fmap_app. Qed.

(** Storing at a position the slice does not read leaves it unchanged. *)
Lemma slice_insert b t n h d :
  (forall i, 0 <= i < n -> (t + i) mod RING_BUFFER_SIZE <> h) ->
  slice (insertZ h d b) t n = slice b t n.
Proof.
  intros H. apply list_fmap_ext. intros k i Hk. apply lookup_seqZ in Hk as [-> Hk].
  unfold cell. rewrite lookupZ_insertZ_ne; [done|]. intros E. apply (H (0 + Z.of_nat k)); lia.
Qed.

Lemma cell_insert b h d :
  length b = Z.to_nat RING_BUFFER_SIZE -> 0 <= h < RING_BUFFER_SIZE ->
  cell (insertZ h d b) h = d.
Proof.
  intros Hl Hh. unfold cell. rewrite Z.mod_small by done.
  rewrite lookupZ_insertZ_eq; [done|]. rewrite Hl. lia.
Qed.

Lemma count_range r : 0 <= count r < RING_BUFFER_SIZE.
Proof. apply Z.mod_pos_bound. done. Qed.

Lemma length_items r : Z.of_nat (length (items r)) = count r.
Proof. unfold items. rewrite length_slice. pose proof (count_range r). lia. Qed.

(** The head is [count] positions after the tail. *)
Lemma head_of_count r : ring_wf r -> (tail_index r + count r) mod RING_BUFFER_SIZE = head_index r.
Proof.
  intros (_ & Ht & Hh). unfold count. rewrite Zplus_mod_idemp_r.
  replace (tail_index r + (head_index r - tail_index r)) with (head_index r) by lia.
  by apply Z.mod_small.
Qed.

(** Positions of a slice that is not longer than the buffer are distinct. *)
Lemma slot_ne t i j :
  0 <= i < RING_BUFFER_SIZE -> 0 <= j < RING_BUFFER_SIZE -> i <> j ->
  (t + i) mod RING_BUFFER_SIZE <> (t + j) mod RING_BUFFER_SIZE.
Proof.
  intros Hi Hj Hne E.
  assert ((i - j) mod RING_BUFFER_SIZE = 0) as H.
  { replace (i - j) with ((t + i) - (t + j)) by lia. by rewrite Zminus_mod, E, Z.sub_diag. }
  apply Z.mod_divide in H as [k Hk]; [|done]. unfold RING_BUFFER_SIZE in *. nia.
Qed.

Lemma next_index_range i :
  0 <= Z.land (u32 (i + 1)) RING_BUFFER_MASK < RING_BUFFER_SIZE.
Proof. rewrite u32_land_mask. apply Z.mod_pos_bound. done. Qed.

(** ** Functional behaviour *)

Lemma num_items_spec r :
  ring_buffer_num_items r = Ok (Z.of_nat (length (items r)), r).
Proof.
  unfold ring_buffer_num_items, gets. by rewrite u32_land_mask, length_items.
Qed.

Lemma is_empty_spec r :
  ring_wf r -> ring_buffer_is_empty r = Ok (bool_decide (items r = []), r).
Proof.
  intros (_ & Ht & Hh). unfold ring_buffer_is_empty, gets. f_equal. f_equal.
  pose proof (length_items r) as Hl.
  destruct (Z.eqb_spec (head_index r) (tail_index r)) as [E|E].
  - rewrite bool_decide_true; [done|]. unfold count in Hl. rewrite E, Z.sub_diag in Hl.
    destruct (items r); [done|]. simpl in Hl. rewrite Zmod_0_l in Hl. lia.
  - rewrite bool_decide_false; [done|]. intros E'. rewrite E' in Hl. simpl in Hl.
    symmetry in Hl. unfold count in Hl. apply Z.mod_divide in Hl as [k Hk]; [|done].
    unfold RING_BUFFER_SIZE in *. nia.
Qed.

Lemma is_full_spec r :
  ring_buffer_is_full r = Ok (Z.of_nat (length (items r)) =? RING_BUFFER_MASK, r).
Proof. unfold ring_buffer_is_full, gets. by rewrite u32_land_mask, length_items. Qed.

(** The second half of [ring_buffer_queue], when there is room. *)
Lemma queue_room r d :
  ring_wf r -> count r < RING_BUFFER_MASK ->
  let r' := set_head_index (Z.land (u32 (head_index r + 1)) RING_BUFFER_MASK)
              (set_buffer (insertZ (head_index r) d (buffer r)) r) in
  ring_wf r' /\ items r' = items r ++ [d].
Proof.
  intros Hwf Hroom. pose proof Hwf as (Hl & Ht & Hh). pose proof (count_range r).
  pose proof (head_of_count r Hwf) as Hhead.
  set (r' := set_head_index _ _). cbv zeta.
  assert (count r' = count r + 1) as Hcount.
  { set (c := count r) in *. unfold count, r'. simpl. rewrite u32_land_mask.
    rewrite Zminus_mod_idemp_l. rewrite <- Hhead at 1.
    replace ((tail_index r + c) mod RING_BUFFER_SIZE + 1 - tail_index r)
      with ((tail_index r + c) mod RING_BUFFER_SIZE + (1 - tail_index r)) by lia.
    rewrite Zplus_mod_idemp_l.
    replace (tail_index r + c + (1 - tail_index r)) with (c + 1) by lia.
    apply Z.mod_small. unfold RING_BUFFER_MASK in *. lia. }
  split.
  - split; [|split]; simpl; [by rewrite length_insertZ|done|apply next_index_range].
  - unfold items. rewrite Hcount. simpl. rewrite slice_snoc by lia. f_equal.
    + apply slice_insert. intros i Hi. rewrite <- Hhead. apply slot_ne; lia.
    + rewrite <- cell_mod, Hhead. by rewrite cell_insert.
Qed.

(** Dropping the oldest byte, as both a full queue and [ring_buffer_dequeue] do. *)
Lemma drop_oldest r :
  ring_wf r -> 0 < count r ->
  let r' := set_tail_index (Z.land (u32 (tail_index r + 1)) RING_BUFFER_MASK) r in
  ring_wf r' /\ count r' = count r - 1 /\ items r = cell (buffer r) (tail_index r) :: items r'.
Proof.
  intros (Hl & Ht & Hh) Hpos. pose proof (count_range r). set (r' := set_tail_index _ _). cbv zeta.
  assert (count r' = count r - 1) as Hcount.
  { set (c := count r) in *. unfold count, r'. simpl. rewrite u32_land_mask.
    rewrite Zminus_mod_idemp_r.
    replace (head_index r - (tail_index r + 1)) with ((head_index r - tail_index r) - 1) by lia.
    rewrite <- Zminus_mod_idemp_l. apply Z.mod_small. unfold c, count in *. lia. }
  split; [|split; [done|]].
  - split; [done|]. split; [apply next_index_range|done].
  - unfold items. rewrite Hcount. simpl. rewrite slice_cons by done. f_equal.
    by rewrite u32_land_mask, slice_tail_mod.
Qed.

(** [ring_buffer_queue] appends the byte; a full buffer first drops its oldest
    byte. *)
Lemma queue_step r d :
  ring_wf r ->
  wp (ring_buffer_queue d) (fun _ r' =>
    ring_wf r' /\
    items r' = (if Z.of_nat (length (items r)) =? RING_BUFFER_MASK
                then tail (items r) else items r) ++ [d]) r.
Proof.
  intros Hwf. unfold ring_buffer_queue. apply wp_bind. unfold wp at 1.
  rewrite is_full_spec, length_items. pose proof (count_range r).
  assert (forall r1, ring_wf r1 -> count r1 < RING_BUFFER_MASK ->
    wp (r <- get ;; in_bounds (buffer r) (head_index r) ;;;
        modify (fun r => set_buffer (insertZ (head_index r) d (buffer r)) r) ;;;
        modify (fun r => set_head_index (Z.land (u32 (head_index r + 1)) RING_BUFFER_MASK) r))
       (fun _ r' => ring_wf r' /\ items r' = items r1 ++ [d]) r1) as Hstore.
  { intros r1 Hwf1 Hroom. apply wp_bind, wp_get, wp_bind, wp_in_bounds.
    - destruct Hwf1 as (-> & _ & ?). lia.
    - apply wp_bind, wp_modify, wp_modify. by apply (queue_room r1 d). }
  apply wp_bind. destruct (Z.eqb_spec (count r) RING_BUFFER_MASK) as [E|E].
  - apply wp_modify. destruct (drop_oldest r Hwf) as (Hwf' & Hc' & Hi); [by rewrite E|].
    rewrite Hi. apply Hstore; [done|]. rewrite Hc'. lia.
  - apply wp_ret, Hstore; [done|]. unfold RING_BUFFER_MASK in *. lia.
Qed.

Definition ring_empty : ring_buffer_t := RingBuffer (replicate 4096 0) 0 0.

Lemma ring_empty_wf : ring_wf ring_empty.
Proof. split; [apply length_replicate|]. done. Qed.

(** [ring_buffer_dequeue] returns the oldest byte and removes it; on an empty
    buffer it returns 0 and stores nothing. *)
Lemma dequeue_step r :
  ring_wf r ->
  wp ring_buffer_dequeue (fun res r' =>
    ring_wf r' /\
    match items r with
    | [] => res = (0, None) /\ r' = r
    | d :: rest => res = (1, Some d) /\ items r' = rest
    end) r.
Proof.
  intros Hwf. unfold ring_buffer_dequeue. apply wp_bind. unfold wp at 1.
  rewrite is_empty_spec by done. pose proof (length_items r) as Hlen.
  destruct (items r) as [|d rest] eqn:Hi; simpl in *; [done|].
  apply wp_bind, wp_get, wp_bind.
  destruct (drop_oldest r Hwf) as (Hwf' & _ & Hi'); [lia|].
  rewrite Hi in Hi'. injection Hi' as -> Hrest.
  pose proof Hwf as (Hl & Ht & _).
  destruct (lookupZ_in_range (buffer r) (tail_index r)) as [x Hx]; [rewrite Hl; lia|].
  eapply wp_rd; [exact Hx|]. apply wp_bind, wp_modify, wp_ret.
  split; [done|]. split; [|done]. unfold cell. rewrite Z.mod_small by done. by rewrite Hx.
Qed.

Lemma ring_buffer_init_spec r :
  length (buffer r) = Z.to_nat RING_BUFFER_SIZE ->
  wp ring_buffer_init (fun _ r' => ring_wf r' /\ items r' = []) r.
Proof. intros Hl. unfold ring_buffer_init. wp_steps. by split; [split|]. Qed.

(** Dequeuing many bytes takes a prefix of the sequence. *)
Lemma dequeue_loop_spec n acc r :
  ring_wf r ->
  wp (dequeue_loop n acc) (fun out r' =>
    ring_wf r' /\ out = acc ++ take n (items r) /\ items r' = drop n (items r)) r.
Proof.
  revert acc r. induction n as [|n IH]; intros acc r Hwf; simpl.
  - apply wp_ret. rewrite app_nil_r. done.
  - apply wp_bind. eapply wp_mono; [by apply dequeue_step|].
    intros res r' [Hwf' Hres]. destruct (items r) as [|d rest] eqn:Hi.
    + destruct Hres as [-> ->]. apply wp_ret. rewrite app_nil_r, Hi. done.
    + destruct Hres as [-> Hrest]. simpl. eapply wp_mono; [by apply IH|].
      intros out r'' (Hwf'' & -> & ->). rewrite Hrest, <- app_assoc. done.
Qed.

(** ** Refinement of a bounded FIFO queue *)

Inductive rb_op := Queue (c : Z) | Dequeue.

(** The abstract queue: at most [RING_BUFFER_MASK] bytes, oldest first. *)
Definition fifo_step (op : rb_op) (q : list Z) : option Z * list Z :=
  match op with
  | Queue c =>
      (None, (if Z.of_nat (length q) =? RING_BUFFER_MASK then tail q else q) ++ [c])
  | Dequeue => (head q, tail q)
  end.

Fixpoint fifo_run (ops : list rb_op) (q : list Z) : list (option Z) * list Z :=
  match ops with
  | [] => ([], q)
  | op :: ops' =>
      let (o, q1) := fifo_step op q in
      let (os, q2) := fifo_run ops' q1 in (o :: os, q2)
  end.

Definition ring_step (op : rb_op) : M ring_buffer_t (option Z) :=
  match op with
  | Queue c => ring_buffer_queue c ;;; ret None
  | Dequeue => let! (_, d) := ring_buffer_dequeue in ret d
  end.

Fixpoint ring_run (ops : list rb_op) : M ring_buffer_t (list (option Z)) :=
  match ops with
  | [] => ret []
  | op :: ops' => o <- ring_step op ;; os <- ring_run ops' ;; ret (o :: os)
  end.

Lemma ring_step_fifo op r :
  ring_wf r ->
  wp (ring_step op) (fun o r' => ring_wf r' /\ (o, items r') = fifo_step op (items r)) r.
Proof.
  intros Hwf. destruct op as [c|]; simpl.
  - apply wp_bind. eapply wp_mono; [by apply queue_step|].
    intros _ r' [Hwf' Hi]. apply wp_ret. by rewrite Hi.
  - apply wp_bind. eapply wp_mono; [by apply dequeue_step|].
    intros res r' [Hwf' H]. destruct (items r) as [|d rest] eqn:Hi.
    + destruct H as [-> ->]. apply wp_ret. by rewrite Hi.
    + destruct H as [-> Hr]. apply wp_ret. by rewrite Hr.
Qed.

(** C27: every sequence of [ring_buffer_queue] and [ring_buffer_dequeue] calls
    on a well-formed buffer runs without an access outside the buffer, returns
    exactly the bytes a FIFO queue of capacity [RING_BUFFER_SIZE - 1] that
    overwrites its oldest byte returns, and ends holding that queue. *)
Theorem ring_buffer_refines_fifo ops r :
  ring_wf r ->
  wp (ring_run ops) (fun outs r' => ring_wf r' /\ (outs, items r') = fifo_run ops (items r)) r.
Proof.
  revert r. induction ops as [|op ops IH]; intros r Hwf; [by apply wp_ret|].
  simpl. apply wp_bind. eapply wp_mono; [by apply ring_step_fifo|].
  intros o r1 [Hwf1 H1]. rewrite <- H1. apply wp_bind. eapply wp_mono; [by apply IH|].
  intros os r2 [Hwf2 H2]. apply wp_ret. by rewrite <- H2.
Qed.

Lemma ring_buffer_refines_fifo_witness :
  wp (ring_run [Queue 65; Queue 66; Dequeue; Dequeue; Dequeue]) (fun outs r' => ring_wf r' /\
    (outs, items r') = fifo_run [Queue 65; Queue 66; Dequeue; Dequeue; Dequeue] (items ring_empty))
    ring_empty.
Proof. apply (ring_buffer_refines_fifo _ ring_empty). apply ring_empty_wf. Defined.
