(* ===== verification/Bitfield.v ===== *)
(** * Bitfield: the bit array of the untyped memory manager

    Models apps/sos/src/ut_manager/bitfield.c and bitfield.h.  A [char] is an
    unsigned byte on the ARM target, so [b] holds values in [0, 256).  A set
    bit is a unit in use.  [malloc] is an argument: whether it succeeded.

    [bf_wf] is the invariant: the array has one byte per eight units, the
    padding bits are set, [available] counts the clear bits.  The theorems
    show that [bf_set_next_free] hands out a free unit exactly when there is
    one, and that the invariant is kept by every operation. *)

From S2P Require Import Prelude.

Record bitfield_t := Bitfield { next_free : Z; available : Z; size : Z; b : list Z }.

Inductive bf_init_state := BITFIELD_INIT_FILLED | BITFIELD_INIT_EMPTY.

Definition set_next_free (n : Z) (f : bitfield_t) := Bitfield n (available f) (size f) (b f).
Definition set_available (n : Z) (f : bitfield_t) := Bitfield (next_free f) n (size f) (b f).
Definition set_b (l : list Z) (f : bitfield_t) := Bitfield (next_free f) (available f) (size f) l.

Definition BITS_PER_BYTE : Z := 8.
Definition FLOOR (x : Z) : Z := Z.land x (Z.lnot (BITS_PER_BYTE - 1)).
Definition CEILING (x : Z) : Z := FLOOR (x + (BITS_PER_BYTE - 1)).

(** [while (bit-- > 0) *bitmask <<= 1;] *)
Fixpoint shift_mask (bit : nat) (bitmask : Z) : Z :=
  match bit with O => bitmask | S bit' => shift_mask bit' (Z.shiftl bitmask 1) end.

Definition _bf_decode (offset : Z) : Z * Z :=
  (Z.shiftr offset 3, shift_mask (Z.to_nat (Z.land offset 0x7)) 1).

Definition bf_get (offset : Z) : M bitfield_t bool :=
  let '(byte, bitmask) := _bf_decode offset in
  bf <- get ;;
  c_assert (byte <? Z.quot (CEILING (size bf)) BITS_PER_BYTE) ;;;
  x <- rd (b bf) byte ;;
  ret (negb (Z.land x bitmask =? 0)).

Definition bf_set (offset : Z) : M bitfield_t unit :=
  g <- bf_get offset ;;
  c_assert (negb g) ;;;
  let '(byte, bitmask) := _bf_decode offset in
  bf <- get ;;
  c_assert (byte <? Z.quot (CEILING (size bf)) BITS_PER_BYTE) ;;;
  x <- rd (b bf) byte ;;
  modify (fun bf => set_b (insertZ byte (Z.lor x bitmask) (b bf)) bf) ;;;
  modify (fun bf => set_available (available bf - 1) bf).

Definition bf_clr (offset : Z) : M bitfield_t unit :=
  g <- bf_get offset ;;
  c_assert g ;;;
  let '(byte, bitmask) := _bf_decode offset in
  bf <- get ;;
  c_assert (byte <? Z.quot (CEILING (size bf)) BITS_PER_BYTE) ;;;
  x <- rd (b bf) byte ;;
  modify (fun bf => set_b (insertZ byte (Z.land x (Z.lnot bitmask)) (b bf)) bf) ;;;
  modify (fun bf => set_available (available bf + 1) bf).

(** [None] when [malloc] fails; [memset] fills the whole array. *)
Definition new_bitfield {S} (malloc_ok : bool) (size : Z) (state : bf_init_state)
    : M S (option bitfield_t) :=
  if malloc_ok then
    let bytes := Z.quot (CEILING size) BITS_PER_BYTE in
    match state with
    | BITFIELD_INIT_FILLED =>
        ret (Some (Bitfield 0 0 size (replicate (Z.to_nat bytes) 0xff)))
    | BITFIELD_INIT_EMPTY =>
        let! (_, bf) := run_on (for_up size (bytes * BITS_PER_BYTE) bf_set)
                          (Bitfield 0 size size (replicate (Z.to_nat bytes) 0x00)) in
        ret (Some bf)
    end
  else ret None.

(** The search for a byte that is not completely marked; [-1] when all are. *)
Definition _bf_find_next_free_byte {S} (field : list Z) (next size : Z) : M S Z :=
  let next := Z.quot (FLOOR next) BITS_PER_BYTE in
  let size := Z.quot (CEILING size) BITS_PER_BYTE in
  let probe current :=
    x <- rd field current ;; ret (if negb (x =? 0xff) then Some current else None) in
  r <- for_find next size probe ;;
  match r with
  | Some current => ret current
  | None =>
      r <- for_find 0 next probe ;;
      ret (match r with Some current => current | None => -1 end)
  end.

Definition _bf_find_next_free_bit {S} (field : Z) : M S Z :=
  c_assert (negb (field =? 0xff)) ;;;
  r <- for_find 0 BITS_PER_BYTE (fun i =>
         ret (if Z.land field (Z.shiftl 1 i) =? 0 then Some i else None)) ;;
  ret (match r with Some i => i | None => -1 end).

Definition bf_set_next_free : M bitfield_t Z :=
  bf <- get ;;
  if negb (available bf =? 0) then
    byte <- _bf_find_next_free_byte (b bf) (next_free bf) (size bf) ;;
    if negb (byte =? -1) then
      x <- rd (b bf) byte ;;
      bit <- _bf_find_next_free_bit x ;;
      let offset := byte * BITS_PER_BYTE + bit in
      bf_set offset ;;;
      modify (fun bf => set_next_free (offset + 1) bf) ;;;
      modify (fun bf => if size bf <? next_free bf then set_next_free 0 bf else bf) ;;;
      ret offset
    else ret (-1)
  else ret (-1).

(** ** Rounding to bytes *)

Lemma FLOOR_spec x : FLOOR x = x - x mod 8.
Proof. unfold FLOOR. rewrite <- Z.ldiff_land. apply (ldiff_mask x 3). lia. Qed.

(** Bytes of a field of [n] units. *)
Definition nbytes (n : Z) : Z := (n + 7) / 8.

Lemma CEILING_bytes n : 0 <= n -> Z.quot (CEILING n) BITS_PER_BYTE = nbytes n.
Proof.
  intros. unfold CEILING, BITS_PER_BYTE. rewrite FLOOR_spec.
  change (n + (8 - 1)) with (n + 7). pose proof (Z.div_mod (n + 7) 8 ltac:(lia)).
  replace (n + 7 - (n + 7) mod 8) with ((n + 7) / 8 * 8) by lia.
  unfold nbytes. rewrite Z.quot_mul by lia. done.
Qed.

Lemma FLOOR_byte n : Z.quot (FLOOR n) BITS_PER_BYTE = n / 8.
Proof.
  unfold BITS_PER_BYTE. rewrite FLOOR_spec. pose proof (Z.div_mod n 8 ltac:(lia)).
  replace (n - n mod 8) with (n / 8 * 8) by lia. by rewrite Z.quot_mul by lia.
Qed.

Lemma nbytes_bounds n : 0 <= n -> 0 <= nbytes n /\ n <= 8 * nbytes n < n + 8.
Proof.
  intros. unfold nbytes. pose proof (Z.div_mod (n + 7) 8 ltac:(lia)).
  pose proof (Z.mod_pos_bound (n + 7) 8 ltac:(lia)). lia.
Qed.

(** ** Bits of the array *)

Definition bit_at (l : list Z) (i : Z) : bool :=
  match l !z (i / 8) with Some x => Z.testbit x (i mod 8) | None => true end.

Definition is_byte (x : Z) : Prop := 0 <= x < 256.

Lemma shift_mask_spec n m : 0 <= m -> shift_mask n m = m * 2 ^ Z.of_nat n.
Proof.
  revert m. induction n as [|n IH]; intros m Hm; simpl shift_mask; [lia|].
  rewrite IH by (apply Z.shiftl_nonneg; lia). rewrite Z.shiftl_mul_pow2 by lia.
  rewrite Nat2Z.inj_succ, Z.pow_succ_r by lia. lia.
Qed.

Lemma _bf_decode_spec i : 0 <= i -> _bf_decode i = (i / 8, 2 ^ (i mod 8)).
Proof.
  intros. unfold _bf_decode. f_equal.
  - rewrite Z.shiftr_div_pow2 by lia. done.
  - rewrite shift_mask_spec by lia. change 0x7 with (2 ^ 3 - 1).
    rewrite land_pow2_mask by lia. change (2 ^ 3) with 8.
    pose proof (Z.mod_pos_bound i 8 ltac:(lia)). rewrite Z2Nat.id by lia. lia.
Qed.

Lemma land_pow2_testbit x k : 0 <= k -> negb (Z.land x (2 ^ k) =? 0) = Z.testbit x k.
Proof.
  intros Hk. destruct (Z.testbit x k) eqn:E.
  - destruct (Z.eqb_spec (Z.land x (2 ^ k)) 0) as [H|]; [|done].
    assert (Z.testbit (Z.land x (2 ^ k)) k = true) as H'
      by (rewrite Z.land_spec, E, Z.pow2_bits_true by lia; done).
    by rewrite H, Z.testbit_0_l in H'.
  - destruct (Z.eqb_spec (Z.land x (2 ^ k)) 0) as [H|H]; [done|]. destruct H.
    apply Z.bits_inj'. intros i Hi. rewrite Z.land_spec, Z.testbit_0_l.
    destruct (decide (i = k)) as [->|]; [by rewrite E|].
    rewrite Z.pow2_bits_false by lia. apply andb_false_r.
Qed.

Lemma div_mod_8_inj i j : i / 8 = j / 8 -> i mod 8 = j mod 8 -> i = j.
Proof.
  intros. pose proof (Z.div_mod i 8 ltac:(lia)). pose proof (Z.div_mod j 8 ltac:(lia)). lia.
Qed.

Lemma byte_index (l : list Z) i :
  0 <= i < 8 * Z.of_nat (length l) -> 0 <= i / 8 < Z.of_nat (length l) /\ 0 <= i mod 8 < 8.
Proof.
  intros. pose proof (Z.mod_pos_bound i 8 ltac:(lia)).
  pose proof (Z.div_mod i 8 ltac:(lia)). lia.
Qed.

Section bit_update.
Context (l : list Z) (i x : Z).
Hypothesis Hi : 0 <= i < 8 * Z.of_nat (length l).
Hypothesis Hx : l !z (i / 8) = Some x.

Lemma bit_at_lor j :
  bit_at (insertZ (i / 8) (Z.lor x (2 ^ (i mod 8))) l) j = (if decide (i = j) then true else bit_at l j).
Proof.
  destruct (byte_index l i Hi) as [Hb Hm]. unfold bit_at. rewrite lookupZ_insertZ by done.
  case_decide as Hbyte.
  - rewrite Z.lor_spec, <- Hbyte, Hx. case_decide as Hij.
    + subst j. rewrite Z.pow2_bits_true by lia. apply orb_true_r.
    + rewrite Z.pow2_bits_false; [apply orb_false_r|].
      intros ?. apply Hij. by apply div_mod_8_inj.
  - case_decide; [|done]. subst j. done.
Qed.

Lemma bit_at_land j :
  bit_at (insertZ (i / 8) (Z.land x (Z.lnot (2 ^ (i mod 8)))) l) j
  = (if decide (i = j) then false else bit_at l j).
Proof.
  destruct (byte_index l i Hi) as [Hb Hm]. unfold bit_at. rewrite lookupZ_insertZ by done.
  pose proof (Z.mod_pos_bound j 8 ltac:(lia)).
  case_decide as Hbyte.
  - rewrite Z.land_spec, Z.lnot_spec, <- Hbyte, Hx by lia. case_decide as Hij.
    + subst j. rewrite Z.pow2_bits_true by lia. apply andb_false_r.
    + rewrite Z.pow2_bits_false; [apply andb_true_r|].
      intros ?. apply Hij. by apply div_mod_8_inj.
  - case_decide; [|done]. subst j. done.
Qed.
End bit_update.

(** ** Counting the free units *)

Fixpoint count_free (l : list Z) (ixs : list Z) : Z :=
  match ixs with [] => 0 | i :: ixs' => (if bit_at l i then 0 else 1) + count_free l ixs' end.

Definition nfree (l : list Z) (n : Z) : Z := count_free l (seqZ 0 n).

Lemma count_free_ext l l' ixs :
  (forall i, i ∈ ixs -> bit_at l' i = bit_at l i) -> count_free l' ixs = count_free l ixs.
Proof.
  induction ixs as [|i ixs IH]; intros H; simpl; [done|].
  rewrite H by constructor. f_equal. apply IH. intros. apply H. by constructor.
Qed.

Lemma count_free_change l l' ixs k :
  NoDup ixs -> k ∈ ixs -> bit_at l k = false -> bit_at l' k = true ->
  (forall i, i <> k -> bit_at l' i = bit_at l i) ->
  count_free l' ixs = count_free l ixs - 1.
Proof.
  intros Hnd Hk H0 H1 Hext. induction ixs as [|i ixs IH]; [by apply not_elem_of_nil in Hk|].
  apply NoDup_cons in Hnd as [Hni Hnd]. simpl.
  apply elem_of_cons in Hk as [<-|Hk].
  - rewrite H0, H1, (count_free_ext l l'); [lia|]. intros i Hi. apply Hext. by intros ->.
  - rewrite (Hext i) by (intros ->; done). rewrite IH by done. lia.
Qed.

Lemma nfree_change l l' n k :
  0 <= k < n -> bit_at l k = false -> bit_at l' k = true ->
  (forall i, i <> k -> bit_at l' i = bit_at l i) -> nfree l' n = nfree l n - 1.
Proof.
  intros. eapply count_free_change; try done; [apply NoDup_seqZ|]. by apply elem_of_seqZ.
Qed.

Lemma count_free_nonneg l ixs : 0 <= count_free l ixs.
Proof. induction ixs as [|i ixs IH]; simpl; [done|]. destruct (bit_at l i); lia. Qed.

Lemma count_free_zero l ixs i : count_free l ixs = 0 -> i ∈ ixs -> bit_at l i = true.
Proof.
  induction ixs as [|j ixs IH]; intros H Hi; [by apply not_elem_of_nil in Hi|].
  simpl in H. pose proof (count_free_nonneg l ixs).
  apply elem_of_cons in Hi as [->|Hi].
  - destruct (bit_at l j); [done | lia].
  - apply IH; [|done]. destruct (bit_at l j); lia.
Qed.

Lemma nfree_zero l n i : nfree l n = 0 -> 0 <= i < n -> bit_at l i = true.
Proof. intros H Hi. eapply count_free_zero; [exact H|]. by apply elem_of_seqZ. Qed.

Lemma nfree_all l n : (forall i, 0 <= i < n -> bit_at l i = true) -> nfree l n = 0.
Proof.
  intros H. unfold nfree.
  assert (forall ixs, (forall i, i ∈ ixs -> bit_at l i = true) -> count_free l ixs = 0) as Hc.
  { induction ixs as [|i ixs IH]; intros Hall; simpl; [done|].
    rewrite Hall by constructor. rewrite IH; [done|]. intros. apply Hall. by constructor. }
  apply Hc. intros i Hi%elem_of_seqZ. apply H. lia.
Qed.

Lemma count_free_le l ixs : count_free l ixs <= Z.of_nat (length ixs).
Proof. induction ixs as [|i ixs IH]; simpl; [done|]. destruct (bit_at l i); lia. Qed.

(** Either every unit is free, or one is in use. *)
Lemma nfree_cases l n : 0 <= n ->
  (nfree l n = n /\ forall i, 0 <= i < n -> bit_at l i = false) \/
  (nfree l n <> n /\ exists i, 0 <= i < n /\ bit_at l i = true).
Proof.
  intros Hn. unfold nfree.
  assert (forall ixs, (count_free l ixs = Z.of_nat (length ixs) /\ forall i, i ∈ ixs -> bit_at l i = false) \/
    (count_free l ixs <> Z.of_nat (length ixs) /\ exists i, i ∈ ixs /\ bit_at l i = true)) as Hc.
  { induction ixs as [|i ixs IH]; [left; split; [done | by intros i ?%not_elem_of_nil]|]. simpl.
    pose proof (count_free_le l ixs). destruct (bit_at l i) eqn:E.
    - right. split; [lia|]. exists i. split; [constructor | done].
    - destruct IH as [[He Hall]|[Hne (j & Hj & Hb)]]; [left | right].
      + split; [lia|]. intros j Hj. apply elem_of_cons in Hj as [->|?]; auto.
      + split; [lia|]. exists j. split; [by constructor | done]. }
  specialize (Hc (seqZ 0 n)). rewrite length_seqZ, Z2Nat.id in Hc by done.
  destruct Hc as [[He Hall]|[Hne (j & Hj%elem_of_seqZ & Hb)]]; [left | right].
  - split; [done|]. intros i Hi. apply Hall. by apply elem_of_seqZ.
  - split; [done|]. exists j. split; [lia | done].
Qed.

(** ** The invariant *)

Definition units (bf : bitfield_t) : Z := 8 * nbytes (size bf).

(** The part of the invariant that does not speak of the search hint. *)
Record bf_wf0 (bf : bitfield_t) : Prop := {
  wf_size : 0 <= size bf;
  wf_length : Z.of_nat (length (b bf)) = nbytes (size bf);
  wf_bytes : Forall is_byte (b bf);
  wf_padding : forall i, size bf <= i < units bf -> bit_at (b bf) i = true;
  wf_available : available bf = nfree (b bf) (size bf)
}.

Record bf_wf (bf : bitfield_t) : Prop := {
  wf_base : bf_wf0 bf;
  wf_next : 0 <= next_free bf <= size bf
}.

Lemma is_byte_bit x k : is_byte x -> 0 <= k < 8 -> is_byte (Z.lor x (2 ^ k)).
Proof.
  intros Hx Hk. apply (lor_pow2_bounded x (2 ^ k) 8); [lia | exact Hx |].
  split; [apply Z.pow_nonneg; lia | apply Z.pow_lt_mono_r; lia].
Qed.

Lemma is_byte_land x y : is_byte x -> is_byte (Z.land x (Z.lnot y)).
Proof. intros Hx. rewrite <- Z.ldiff_land. by apply (ldiff_bounded x y 8). Qed.

Section bit_ops.
Context (bf : bitfield_t) (i : Z).
Hypothesis Hsize : 0 <= size bf.
Hypothesis Hlen : Z.of_nat (length (b bf)) = nbytes (size bf).
Hypothesis Hi : 0 <= i < units bf.

Lemma byte_of_unit : exists x, b bf !z (i / 8) = Some x /\
  (i / 8 <? Z.quot (CEILING (size bf)) BITS_PER_BYTE) = true /\
  bit_at (b bf) i = Z.testbit x (i mod 8).
Proof.
  destruct (byte_index (b bf) i) as [Hb ?]; [unfold units in Hi; lia|].
  destruct (lookupZ_in_range _ _ Hb) as [x Hx]. exists x. split; [done|]. split.
  - rewrite CEILING_bytes by done. apply Z.ltb_lt. lia.
  - unfold bit_at. by rewrite Hx.
Qed.

Lemma bf_get_spec Q : Q (bit_at (b bf) i) bf -> wp (bf_get i) Q bf.
Proof.
  intros HQ. destruct byte_of_unit as (x & Hx & Hlt & Hbit).
  pose proof (Z.mod_pos_bound i 8 ltac:(lia)).
  unfold bf_get. rewrite _bf_decode_spec by lia. wp_steps.
  apply wp_assert; [done|]. wp_steps. eapply wp_rd; [done|]. wp_steps.
  rewrite land_pow2_testbit by lia. by rewrite <- Hbit.
Qed.

Lemma bf_set_run Q :
  bit_at (b bf) i = false ->
  (forall l, length l = length (b bf) -> (Forall is_byte (b bf) -> Forall is_byte l) ->
     (forall j, bit_at l j = if decide (i = j) then true else bit_at (b bf) j) ->
     Q tt (Bitfield (next_free bf) (available bf - 1) (size bf) l)) ->
  wp (bf_set i) Q bf.
Proof.
  intros Hclear HQ. destruct byte_of_unit as (x & Hx & Hlt & Hbit).
  pose proof (Z.mod_pos_bound i 8 ltac:(lia)).
  unfold bf_set. wp_steps. apply bf_get_spec. wp_steps. rewrite Hclear.
  apply wp_assert; [done|]. rewrite _bf_decode_spec by lia. wp_steps.
  apply wp_assert; [done|]. wp_steps. eapply wp_rd; [done|]. wp_steps.
  apply HQ.
  - apply length_insertZ.
  - intros HF. apply Forall_insertZ; [done|].
    apply is_byte_bit; [by eapply Forall_lookupZ | lia].
  - intros j. apply bit_at_lor; [unfold units in Hi; lia | done].
Qed.

Lemma bf_clr_run Q :
  bit_at (b bf) i = true ->
  (forall l, length l = length (b bf) -> (Forall is_byte (b bf) -> Forall is_byte l) ->
     (forall j, bit_at l j = if decide (i = j) then false else bit_at (b bf) j) ->
     Q tt (Bitfield (next_free bf) (available bf + 1) (size bf) l)) ->
  wp (bf_clr i) Q bf.
Proof.
  intros Hset HQ. destruct byte_of_unit as (x & Hx & Hlt & Hbit).
  pose proof (Z.mod_pos_bound i 8 ltac:(lia)).
  unfold bf_clr. wp_steps. apply bf_get_spec. wp_steps. rewrite Hset.
  apply wp_assert; [done|]. rewrite _bf_decode_spec by lia. wp_steps.
  apply wp_assert; [done|]. wp_steps. eapply wp_rd; [done|]. wp_steps.
  apply HQ.
  - apply length_insertZ.
  - intros HF. apply Forall_insertZ; [done|].
    apply is_byte_land. by eapply Forall_lookupZ.
  - intros j. apply bit_at_land; [unfold units in Hi; lia | done].
Qed.
End bit_ops.

(** ** The operations keep the invariant *)

(** [bf'] is [bf] with unit [i] changed to [v]. *)
Definition changed (bf bf' : bitfield_t) (i : Z) (v : bool) : Prop :=
  size bf' = size bf /\
  (forall j, bit_at (b bf') j = if decide (i = j) then v else bit_at (b bf) j) /\
  available bf' = available bf + (if v then -1 else 1).

Lemma unit_in_units bf i : bf_wf0 bf -> 0 <= i < size bf -> 0 <= i < units bf.
Proof.
  intros Hwf Hi. destruct (nbytes_bounds (size bf)); [apply Hwf | unfold units; lia].
Qed.

Lemma bf_set_spec bf i :
  bf_wf0 bf -> 0 <= i < size bf -> bit_at (b bf) i = false ->
  wp (bf_set i) (fun _ bf' => bf_wf0 bf' /\ changed bf bf' i true /\ next_free bf' = next_free bf) bf.
Proof.
  intros Hwf Hi Hclear. pose proof (unit_in_units bf i Hwf Hi).
  destruct Hwf as [Hs Hl Hb Hp Ha]. apply bf_set_run; try done.
  intros l Hll HF Hbits. repeat split; simpl; try done; try lia; auto.
  - intros j Hj. rewrite Hbits. case_decide; [done|]. by apply Hp.
  - rewrite Ha. symmetry. apply (nfree_change _ _ _ i); try done.
    + by rewrite Hbits, decide_True.
    + intros j Hj. by rewrite Hbits, decide_False by congruence.
Qed.

Lemma bf_clr_spec bf i :
  bf_wf0 bf -> 0 <= i < size bf -> bit_at (b bf) i = true ->
  wp (bf_clr i) (fun _ bf' => bf_wf0 bf' /\ changed bf bf' i false /\ next_free bf' = next_free bf) bf.
Proof.
  intros Hwf Hi Hset. pose proof (unit_in_units bf i Hwf Hi).
  destruct Hwf as [Hs Hl Hb Hp Ha]. apply bf_clr_run; try done.
  intros l Hll HF Hbits. repeat split; simpl; try done; try lia; auto.
  - intros j Hj. rewrite Hbits. case_decide; [lia|]. by apply Hp.
  - rewrite Ha. rewrite (nfree_change l (b bf) (size bf) i); try done; [lia | |].
    + by rewrite Hbits, decide_True.
    + intros j Hj. by rewrite Hbits, decide_False by congruence.
Qed.

(** ** The search for a free unit *)

(** Bytes [lo, hi) are completely marked. *)
Definition marked (field : list Z) (lo hi : Z) : Prop :=
  forall k, lo <= k < hi -> field !z k = Some 0xff.

Lemma probe_spec {S} (field : list Z) lo hi (s : S) (Q : option Z -> S -> Prop) :
  0 <= lo <= hi -> hi <= Z.of_nat (length field) ->
  (forall k x, lo <= k < hi -> field !z k = Some x -> x <> 0xff -> Q (Some k) s) ->
  (marked field lo hi -> Q None s) ->
  wp (for_find lo hi (fun current =>
    x <- rd field current ;; ret (if negb (x =? 0xff) then Some current else None))) Q s.
Proof.
  intros Hlo Hhi Hfound Hnone.
  apply (wp_for_find (fun k s' => s' = s /\ marked field lo k)); [lia | | |].
  - split; [done|]. intros k ?. lia.
  - intros k s' Hk [-> Hm]. destruct (lookupZ_in_range field k ltac:(lia)) as [x Hx].
    wp_steps. eapply wp_rd; [done|]. wp_steps.
    destruct (Z.eqb_spec x 0xff) as [->|Hne]; simpl; [|by eapply Hfound].
    split; [done|]. intros j Hj. destruct (decide (j = k)) as [->|]; [done|]. apply Hm. lia.
  - intros s' [-> Hm]. auto.
Qed.

Lemma _bf_find_next_free_byte_spec {S} bf (s : S) :
  bf_wf bf ->
  wp (_bf_find_next_free_byte (b bf) (next_free bf) (size bf)) (fun r s' => s' = s /\
    ((exists x, 0 <= r < nbytes (size bf) /\ b bf !z r = Some x /\ x <> 0xff) \/
     (r = -1 /\ marked (b bf) 0 (nbytes (size bf))))) s.
Proof.
  intros [[Hs Hl Hb Hp Ha] Hn]. unfold _bf_find_next_free_byte.
  rewrite FLOOR_byte, CEILING_bytes by done.
  assert (0 <= next_free bf / 8 <= nbytes (size bf)) as Hstart.
  { split; [apply Z.div_pos; lia|]. apply Z.div_le_mono; lia. }
  wp_steps. apply probe_spec; [lia | lia | |].
  - intros k x Hk Hx Hne. wp_steps. split; [done|]. left. exists x. split; [lia | done].
  - intros Hm. wp_steps. apply probe_spec; [lia | lia | |].
    + intros k x Hk Hx Hne. wp_steps. split; [done|]. left. exists x. split; [lia | done].
    + intros Hm'. wp_steps. split; [done|]. right. split; [done|].
      intros k Hk. destruct (decide (k < next_free bf / 8)); [apply Hm' | apply Hm]; lia.
Qed.

Lemma byte_all_ones x : is_byte x -> (forall k, 0 <= k < 8 -> Z.testbit x k = true) -> x = 0xff.
Proof.
  intros Hx Hall. apply Z.bits_inj'. intros k Hk.
  destruct (decide (k < 8)).
  - rewrite Hall by lia. assert (k = 0 \/ k = 1 \/ k = 2 \/ k = 3 \/ k = 4 \/ k = 5 \/ k = 6 \/ k = 7)
      as Hcases by lia. destruct_or! Hcases; by subst k.
  - rewrite !(testbit_bounded _ 8) by (unfold is_byte in Hx; lia). done.
Qed.

Lemma _bf_find_next_free_bit_spec {S} x (s : S) :
  is_byte x -> x <> 0xff ->
  wp (_bf_find_next_free_bit x) (fun r s' => s' = s /\ 0 <= r < 8 /\ Z.testbit x r = false) s.
Proof.
  intros Hx Hne. unfold _bf_find_next_free_bit. wp_steps.
  apply wp_assert; [by apply negb_true_iff, Z.eqb_neq|]. wp_steps.
  apply (wp_for_find (fun k s' => s' = s /\ forall j, 0 <= j < k -> Z.testbit x j = true)).
  - done.
  - split; [done|]. intros; lia.
  - intros k s' Hk [-> Hall]. unfold BITS_PER_BYTE in Hk. wp_steps.
    rewrite Z.shiftl_1_l. pose proof (land_pow2_testbit x k ltac:(lia)) as Ht.
    destruct (Z.land x (2 ^ k) =? 0); simpl in Ht; wp_steps; [done|].
    split; [done|]. intros j Hj. destruct (decide (j = k)) as [->|]; [done|]. apply Hall. lia.
  - intros s' [-> Hall]. destruct Hne. by apply byte_all_ones.
Qed.

Lemma marked_full bf : bf_wf bf -> marked (b bf) 0 (nbytes (size bf)) -> available bf = 0.
Proof.
  intros [[Hs Hl Hb Hp Ha] Hn] Hm. rewrite Ha. apply nfree_all. intros i Hi.
  destruct (nbytes_bounds (size bf) Hs) as [? ?].
  destruct (byte_index (b bf) i ltac:(lia)) as [Hbyte Hmod].
  unfold bit_at. rewrite (Hm (i / 8)) by lia.
  assert (i mod 8 = 0 \/ i mod 8 = 1 \/ i mod 8 = 2 \/ i mod 8 = 3 \/ i mod 8 = 4 \/
          i mod 8 = 5 \/ i mod 8 = 6 \/ i mod 8 = 7) as Hc by lia.
  by destruct_or! Hc; rewrite Hc.
Qed.

Lemma bit_of_byte (l : list Z) r x k :
  l !z r = Some x -> 0 <= k < 8 -> bit_at l (r * 8 + k) = Z.testbit x k.
Proof.
  intros Hx Hk. unfold bit_at. rewrite (Z.add_comm (r * 8)), Z_div_plus_full, Z_mod_plus_full by lia.
  rewrite Z.div_small, Z.mod_small by lia. by rewrite Z.add_0_l, Hx.
Qed.

(** A free unit is found exactly when [available] is not 0. *)
Lemma bf_set_next_free_run bf :
  bf_wf bf ->
  wp bf_set_next_free (fun r bf' => bf_wf bf' /\
    if available bf =? 0 then r = -1 /\ bf' = bf
    else 0 <= r < size bf /\ bit_at (b bf) r = false /\ changed bf bf' r true) bf.
Proof.
  intros Hwf. unfold bf_set_next_free. wp_steps.
  destruct (Z.eqb_spec (available bf) 0) as [H0|H0]; bred; [by wp_steps|].
  wp_steps. eapply wp_mono; [by apply _bf_find_next_free_byte_spec|].
  intros r s' [-> [(x & Hr & Hx & Hne) | [-> Hm]]]; [|by destruct H0; apply marked_full].
  destruct (Z.eqb_spec r (-1)); [lia|]. bred. wp_steps. eapply wp_rd; [done|]. wp_steps.
  assert (is_byte x) by (eapply Forall_lookupZ; [apply (wf_base _ Hwf) | done]).
  eapply wp_mono; [by apply _bf_find_next_free_bit_spec|].
  intros k s' (-> & Hk & Hbit). unfold BITS_PER_BYTE. wp_steps.
  assert (bit_at (b bf) (r * 8 + k) = false) as Hclear by by rewrite (bit_of_byte _ _ x).
  assert (0 <= r * 8 + k < size bf) as Hin.
  { split; [lia|]. destruct (Z_lt_le_dec (r * 8 + k) (size bf)); [done|].
    rewrite (wf_padding bf (wf_base _ Hwf)) in Hclear; [done|]. unfold units. lia. }
  eapply wp_mono; [by apply bf_set_spec; [apply Hwf|..]|]. intros [] bf' (Hwf' & Hch & Hnf).
  wp_steps. simpl. assert (size bf' = size bf) as Hsz by apply Hch.
  destruct (Z.ltb_spec (size bf') (r * 8 + k + 1)); [lia|].
  split; [|done]. split; [|simpl; lia]. by destruct Hwf'; split.
Qed.

(** ** Fresh bit fields *)

Lemma filled_byte i : Z.testbit 0xff (i mod 8) = true.
Proof.
  pose proof (Z.mod_pos_bound i 8 ltac:(lia)).
  assert (i mod 8 = 0 \/ i mod 8 = 1 \/ i mod 8 = 2 \/ i mod 8 = 3 \/ i mod 8 = 4 \/
          i mod 8 = 5 \/ i mod 8 = 6 \/ i mod 8 = 7) as Hc by lia.
  by destruct_or! Hc; rewrite Hc.
Qed.

Lemma bit_at_replicate n x i :
  bit_at (replicate n x) i = true \/ bit_at (replicate n x) i = Z.testbit x (i mod 8).
Proof.
  unfold bit_at. destruct (replicate n x !z (i / 8)) as [y|] eqn:E; [|by left].
  apply lookupZ_replicate_inv in E as ->. by right.
Qed.

Lemma new_bitfield_filled {S} n (s : S) :
  0 <= n ->
  wp (new_bitfield true n BITFIELD_INIT_FILLED) (fun r s' => s' = s /\
    exists bf, r = Some bf /\ bf_wf bf /\ size bf = n /\ available bf = 0) s.
Proof.
  intros Hn. unfold new_bitfield. rewrite CEILING_bytes by done. wp_steps.
  split; [done|]. eexists. split; [done|]. destruct (nbytes_bounds n Hn).
  assert (forall i, bit_at (replicate (Z.to_nat (nbytes n)) 0xff) i = true) as Hall.
  { intros i. destruct (bit_at_replicate (Z.to_nat (nbytes n)) 0xff i) as [->| ->]; [done|].
    apply filled_byte. }
  split; [|done]. split; [|simpl; lia]. split; simpl; auto; try lia.
  - rewrite length_replicate. lia.
  - by apply Forall_replicate.
  - symmetry. by apply nfree_all.
Qed.

Lemma nfree_none_used l n : 0 <= n -> (forall i, 0 <= i < n -> bit_at l i = false) -> nfree l n = n.
Proof.
  intros Hn H. unfold nfree.
  assert (forall ixs, (forall i, i ∈ ixs -> bit_at l i = false) ->
    count_free l ixs = Z.of_nat (length ixs)) as Hc.
  { induction ixs as [|i ixs IH]; intros Hall; simpl; [done|].
    rewrite Hall by constructor. rewrite IH; [lia|]. intros. apply Hall. by constructor. }
  rewrite Hc; [rewrite length_seqZ; lia|]. intros i Hi%elem_of_seqZ. apply H. lia.
Qed.

(** With whole bytes there is no padding to mark. *)
Lemma new_bitfield_empty {S} n (s : S) :
  0 <= n -> n mod 8 = 0 ->
  wp (new_bitfield true n BITFIELD_INIT_EMPTY) (fun r s' => s' = s /\
    exists bf, r = Some bf /\ bf_wf bf /\ size bf = n /\ available bf = n /\
      forall i, 0 <= i < n -> bit_at (b bf) i = false) s.
Proof.
  intros Hn Hmod. assert (8 * nbytes n = n) as Hbytes.
  { destruct (nbytes_bounds n Hn). pose proof (Z.div_mod n 8 ltac:(lia)). lia. }
  unfold new_bitfield. rewrite CEILING_bytes by done. unfold BITS_PER_BYTE.
  rewrite (Z.mul_comm (nbytes n)), Hbytes. wp_steps.
  rewrite for_up_nil by lia. wp_steps. split; [done|]. eexists. split; [done|].
  assert (forall i, 0 <= i < n -> bit_at (replicate (Z.to_nat (nbytes n)) 0) i = false) as Hbits.
  { intros i Hi. unfold bit_at. rewrite lookupZ_replicate; [apply Z.testbit_0_l|].
    pose proof (Z.div_mod i 8 ltac:(lia)). pose proof (Z.mod_pos_bound i 8 ltac:(lia)). lia. }
  split; [|done]. split; [|simpl; lia]. split; simpl; try done.
  - rewrite length_replicate. lia.
  - by apply Forall_replicate.
  - unfold units. simpl. lia.
  - symmetry. by apply nfree_none_used.
Qed.

(** ** The contract *)

(** [bf_set_next_free] on a well-formed field never faults; it returns -1
    and changes nothing exactly when no unit is free, and otherwise returns a
    unit of the field that was free, marks that unit and no other, and counts
    it; the field stays well formed. *)
Theorem bf_set_next_free_spec bf :
  bf_wf bf ->
  exists r bf', bf_set_next_free bf = Ok (r, bf') /\ bf_wf bf' /\
    ((forall i, 0 <= i < size bf -> bit_at (b bf) i = true) -> r = -1 /\ bf' = bf) /\
    ((exists i, 0 <= i < size bf /\ bit_at (b bf) i = false) ->
       0 <= r < size bf /\ bit_at (b bf) r = false /\ changed bf bf' r true).
Proof.
  intros Hwf. destruct (proj1 (wp_ok _ _ _) (bf_set_next_free_run bf Hwf)) as (r & bf' & E & Hwf' & H).
  exists r, bf'. split; [done|]. split; [done|].
  rewrite (wf_available bf (wf_base _ Hwf)) in H. split.
  - intros Hall. rewrite (nfree_all _ _ Hall) in H. done.
  - intros (i & Hi & Hfree). destruct (Z.eqb_spec (nfree (b bf) (size bf)) 0) as [H0|]; [|done].
    rewrite (nfree_zero _ _ _ H0 Hi) in Hfree. done.
Qed.

Definition example_field : bitfield_t := Bitfield 9 3 12 [0xfe; 0xfc].

Lemma example_field_wf : bf_wf example_field.
Proof.
  split; [|simpl; lia]. split; try done; simpl; try lia.
  - by repeat constructor.
  - change (units example_field) with 16. intros i Hi.
    assert (i = 12 \/ i = 13 \/ i = 14 \/ i = 15) as Hc by lia.
    by destruct_or! Hc; subst i.
Qed.

Lemma bf_set_next_free_spec_witness :
  bf_wf example_field /\
  exists r bf', bf_set_next_free example_field = Ok (r, bf') /\ bf_wf bf' /\
    ((forall i, 0 <= i < size example_field -> bit_at (b example_field) i = true) ->
       r = -1 /\ bf' = example_field) /\
    ((exists i, 0 <= i < size example_field /\ bit_at (b example_field) i = false) ->
       0 <= r < size example_field /\ bit_at (b example_field) r = false /\
       changed example_field bf' r true).
Proof. split; [apply example_field_wf | apply bf_set_next_free_spec; apply example_field_wf]. Defined.

(** A negative [next_free] sends the search to the byte before the array. *)
Lemma bf_set_next_free_negative bf :
  0 <= size bf -> available bf <> 0 -> next_free bf = -1 ->
  bf_set_next_free bf = Err FBounds.
Proof.
  intros Hs Ha Hn. unfold bf_set_next_free, bind, get.
  apply Z.eqb_neq in Ha. rewrite Ha. bred. unfold _bf_find_next_free_byte.
  rewrite Hn, CEILING_bytes by done. change (Z.quot (FLOOR (-1)) BITS_PER_BYTE) with (-1).
  destruct (nbytes_bounds (size bf) Hs).
  unfold for_find. replace (Z.to_nat (nbytes (size bf) - -1)) with (S (Z.to_nat (nbytes (size bf)))) by lia.
  done.
Qed.

(** With padding, marking it is counted against [available]: nine units are
    free and two can be handed out. *)
Lemma new_bitfield_padding_count :
  new_bitfield true 9 BITFIELD_INIT_EMPTY tt = Ok (Some (Bitfield 0 2 9 [0x00; 0xfe]), tt).
Proof. reflexivity. Qed.
