(* ===== verification/UtAllocator.v ===== *)
(** * UtAllocator: the untyped memory allocator

    Models apps/sos/src/ut_manager/ut_allocator.c over [Bitfield].  The memory
    is cut into slabs of 2^14 bytes tracked by [pool14]; a slab is handed out
    whole, split into units of the bit fields [pool12] and [pool10], or given
    to a suballocator node of the doubly linked lists [pool9] and [pool4].
    The nodes live in the heap [snodes]; their [prev] is, as in the source, the
    address of the pointer that points to the node.  Each call of [malloc] is
    an argument: the address it returned, 0 for failure.

    The theorems show that the allocator implements a set of live blocks that
    never overlap. *)

From S2P Require Import Prelude Bitfield.

Definition PRIMARY_POOL_SIZEBITS : Z := 14.

(** A [suballocator_t **]: the head variable of a list, or a node's [next]. *)
Inductive pool_ref := PoolHead (sizebits : Z) | NextOf (node : Z).

Record suballocator_t := Suballocator {
  prev : option pool_ref;
  next : Z;
  base : Z;
  bitfield : bitfield_t
}.

Record ut_state := UtState {
  pool14 : option bitfield_t;
  pool12 : option bitfield_t;
  pool10 : option bitfield_t;
  pool9 : Z;
  pool4 : Z;
  snodes : gmap Z suballocator_t;
  initialised : bool;
  pool_base : Z
}.

Definition set_pool14 x (s : ut_state) :=
  UtState (Some x) (pool12 s) (pool10 s) (pool9 s) (pool4 s) (snodes s) (initialised s) (pool_base s).
Definition set_pool12 x (s : ut_state) :=
  UtState (pool14 s) (Some x) (pool10 s) (pool9 s) (pool4 s) (snodes s) (initialised s) (pool_base s).
Definition set_pool10 x (s : ut_state) :=
  UtState (pool14 s) (pool12 s) (Some x) (pool9 s) (pool4 s) (snodes s) (initialised s) (pool_base s).
Definition set_pool9 x (s : ut_state) :=
  UtState (pool14 s) (pool12 s) (pool10 s) x (pool4 s) (snodes s) (initialised s) (pool_base s).
Definition set_pool4 x (s : ut_state) :=
  UtState (pool14 s) (pool12 s) (pool10 s) (pool9 s) x (snodes s) (initialised s) (pool_base s).
Definition set_snodes x (s : ut_state) :=
  UtState (pool14 s) (pool12 s) (pool10 s) (pool9 s) (pool4 s) x (initialised s) (pool_base s).

(** The bit field of the pool of [sizebits] units, through its pointer. *)
Inductive bf_pool := P14 | P12 | P10.

Definition get_pool (p : bf_pool) (s : ut_state) : option bitfield_t :=
  match p with P14 => pool14 s | P12 => pool12 s | P10 => pool10 s end.
Definition put_pool (p : bf_pool) (bf : bitfield_t) (s : ut_state) : ut_state :=
  match p with P14 => set_pool14 bf s | P12 => set_pool12 bf s | P10 => set_pool10 bf s end.

Definition on_pool {A} (p : bf_pool) (m : M bitfield_t A) : M ut_state A := fun s =>
  match get_pool p s with
  | None => Err FNull
  | Some bf =>
      match m bf with
      | Ok (a, bf') => Ok (a, put_pool p bf' s)
      | Err f => Err f
      end
  end.

(** [switch (sizebits)] of the bit field functions. *)
Definition select_pool (sizebits : Z) : M ut_state bf_pool :=
  if sizebits =? 14 then ret P14
  else if sizebits =? 12 then ret P12
  else if sizebits =? 10 then ret P10
  else fail FAssert.

(** ** The bit field pools *)

Definition _bitfield_fill_pool (bf : bf_pool) (sizebits : Z) : M ut_state unit :=
  if negb (sizebits =? PRIMARY_POOL_SIZEBITS) then
    offset <- on_pool P14 bf_set_next_free ;;
    offset <- (if negb (offset =? -1) then
                 let offset := Z.shiftl offset (PRIMARY_POOL_SIZEBITS - sizebits) in
                 let units := Z.shiftl 1 (PRIMARY_POOL_SIZEBITS - sizebits) in
                 for_up 0 units (fun i => on_pool bf (bf_clr (offset + i))) ;;;
                 ret offset
               else ret offset) ;;
    on_pool bf (modify (set_next_free offset))
  else ret tt.

Definition _bitfield_merge_up (pool : bf_pool) (sizebits offset : Z) : M ut_state unit :=
  if negb (sizebits =? PRIMARY_POOL_SIZEBITS) then
    let sublevel_units := Z.shiftl 1 (PRIMARY_POOL_SIZEBITS - sizebits) in
    let sublevel_base := Z.land offset (Z.lnot (sublevel_units - 1)) in
    let primary_base := Z.shiftr sublevel_base (PRIMARY_POOL_SIZEBITS - sizebits) in
    cannot <- for_find 0 sublevel_units (fun i =>
                g <- on_pool pool (bf_get (sublevel_base + i)) ;;
                ret (if (g : bool) then Some tt else None)) ;;
    match cannot with
    | Some tt => ret tt
    | None =>
        for_up 0 sublevel_units (fun i => on_pool pool (bf_set (sublevel_base + i))) ;;;
        on_pool P14 (bf_clr primary_base)
    end
  else ret tt.

Definition do_ut_alloc_from_bitfield (sizebits : Z) : M ut_state Z :=
  pool <- select_pool sizebits ;;
  offset <- on_pool pool bf_set_next_free ;;
  offset <- (if offset =? -1 then
               _bitfield_fill_pool pool sizebits ;;;
               on_pool pool bf_set_next_free
             else ret offset) ;;
  if offset =? -1 then ret 0
  else s <- get ;; ret (u32 (Z.shiftl offset sizebits + pool_base s)).

Definition do_ut_free_from_bitfield (addr sizebits : Z) : M ut_state unit :=
  pool <- select_pool sizebits ;;
  s <- get ;;
  let offset := Z.shiftr (u32 (addr - pool_base s)) sizebits in
  on_pool pool (bf_clr offset) ;;;
  _bitfield_merge_up pool sizebits offset.

(** ** The linked list pools *)

Definition deref (p : Z) : M ut_state suballocator_t := fun s =>
  if p =? 0 then Err FNull
  else match snodes s !! p with Some n => Ok (n, s) | None => Err FBounds end.

Definition store (p : Z) (n : suballocator_t) : M ut_state unit :=
  modify (fun s => set_snodes (<[p := n]> (snodes s)) s).
Definition set_prev (p : Z) (x : option pool_ref) : M ut_state unit :=
  n <- deref p ;; store p (Suballocator x (next n) (base n) (bitfield n)).
Definition set_next (p x : Z) : M ut_state unit :=
  n <- deref p ;; store p (Suballocator (prev n) x (base n) (bitfield n)).

(** [*r] and [*r = x] for a [suballocator_t **r]. *)
Definition load_ref (r : pool_ref) : M ut_state Z :=
  match r with
  | PoolHead sizebits => gets (fun s => if sizebits =? 9 then pool9 s else pool4 s)
  | NextOf node => n <- deref node ;; ret (next n)
  end.
Definition store_ref (r : pool_ref) (x : Z) : M ut_state unit :=
  match r with
  | PoolHead sizebits => modify (if sizebits =? 9 then set_pool9 x else set_pool4 x)
  | NextOf node => set_next node x
  end.
Definition the_ref (r : option pool_ref) : M ut_state pool_ref :=
  match r with Some r => ret r | None => fail FNull end.

Definition _pool_list_detach (node : Z) : M ut_state unit :=
  c_assert (negb (node =? 0)) ;;;
  n <- deref node ;;
  r <- the_ref (prev n) ;;
  p <- load_ref r ;;
  c_assert (negb (p =? 0)) ;;;
  (if negb (next n =? 0) then set_prev (next n) (prev n) else ret tt) ;;;
  n <- deref node ;;
  store_ref r (next n) ;;;
  set_prev node None ;;;
  set_next node 0.

Definition _pool_list_attach (pool : pool_ref) (node : Z) : M ut_state unit :=
  c_assert (negb (node =? 0)) ;;;
  n <- deref node ;;
  c_assert (next n =? 0) ;;;
  c_assert (match prev n with None => true | Some _ => false end) ;;;
  h <- load_ref pool ;;
  set_next node h ;;;
  (if negb (h =? 0) then set_prev h (Some (NextOf node)) else ret tt) ;;;
  set_prev node (Some pool) ;;;
  store_ref pool node.

Fixpoint find_node (fuel : nat) (pool : Z) (test : suballocator_t -> bool) : M ut_state Z :=
  match fuel with
  | O => fail FFuel
  | S fuel' =>
      if pool =? 0 then ret 0
      else
        n <- deref pool ;;
        if test n then ret pool else find_node fuel' (next n) test
  end.

Definition list_fuel : M ut_state nat := gets (fun s => S (base.size (snodes s))).

Definition _pool_list_find_base (pool bs : Z) : M ut_state Z :=
  fuel <- list_fuel ;; find_node fuel pool (fun n => base n =? bs).

Definition _pool_list_find_free (pool : Z) : M ut_state Z :=
  fuel <- list_fuel ;; find_node fuel pool (fun n => negb (available (bitfield n) =? 0)).

(** [malloc_node] is the address of the node, [malloc_bf] tells whether the bit
    field could be allocated. *)
Definition _new_suballocator (malloc_node : Z) (malloc_bf : bool) (sizebits : Z) : M ut_state Z :=
  primary_addr <- do_ut_alloc_from_bitfield PRIMARY_POOL_SIZEBITS ;;
  if primary_addr =? 0 then ret 0
  else
    let units := Z.shiftl 1 (PRIMARY_POOL_SIZEBITS - sizebits) in
    if malloc_node =? 0 then
      do_ut_free_from_bitfield primary_addr PRIMARY_POOL_SIZEBITS ;;; ret 0
    else
      bf <- new_bitfield malloc_bf units BITFIELD_INIT_EMPTY ;;
      match bf with
      | None => do_ut_free_from_bitfield primary_addr PRIMARY_POOL_SIZEBITS ;;; ret 0
      | Some bf => store malloc_node (Suballocator None 0 primary_addr bf) ;;; ret malloc_node
      end.

Definition on_node {A} (p : Z) (m : M bitfield_t A) : M ut_state A :=
  n <- deref p ;;
  let! (a, bf) := run_on m (bitfield n) in
  store p (Suballocator (prev n) (next n) (base n) bf) ;;;
  ret a.

(** [if (sizebits == 9) ... else if (sizebits == 4) ... else assert(0)] *)
Definition select_list (sizebits : Z) : M ut_state pool_ref :=
  if (sizebits =? 9) || (sizebits =? 4) then ret (PoolHead sizebits) else fail FAssert.

Definition do_ut_alloc_from_list (malloc_node : Z) (malloc_bf : bool) (sizebits : Z) : M ut_state Z :=
  pool <- select_list sizebits ;;
  h <- load_ref pool ;;
  pool_node <- _pool_list_find_free h ;;
  pool_node <- (if pool_node =? 0 then
                  n <- _new_suballocator malloc_node malloc_bf sizebits ;;
                  if n =? 0 then ret 0 else _pool_list_attach pool n ;;; ret n
                else ret pool_node) ;;
  if pool_node =? 0 then ret 0
  else
    offset <- on_node pool_node bf_set_next_free ;;
    c_assert (negb (offset =? -1)) ;;;
    n <- deref pool_node ;;
    ret (u32 (Z.shiftl offset sizebits + base n)).

Definition do_ut_free_from_list (addr sizebits : Z) : M ut_state unit :=
  pool <- select_list sizebits ;;
  h <- load_ref pool ;;
  let bs := Z.land addr (Z.lnot (Z.shiftl 1 PRIMARY_POOL_SIZEBITS - 1)) in
  let offset := Z.shiftr (addr - bs) sizebits in
  let units := Z.shiftl 1 (PRIMARY_POOL_SIZEBITS - sizebits) in
  pool_node <- _pool_list_find_base h bs ;;
  c_assert (negb (pool_node =? 0)) ;;;
  on_node pool_node (bf_clr offset) ;;;
  n <- deref pool_node ;;
  if available (bitfield n) =? units then
    _pool_list_detach pool_node ;;;
    n <- deref pool_node ;;
    do_ut_free_from_bitfield (base n) PRIMARY_POOL_SIZEBITS ;;;
    modify (fun s => set_snodes (delete pool_node (snodes s)) s)
  else ret tt.

(** ** Exported functions *)

Definition FLOOR14 (x : Z) : Z := Z.land x (Z.lnot (Z.shiftl 1 14 - 1)).
Definition CEILING14 (x : Z) : Z := FLOOR14 (u32 (x + Z.shiftl 1 14 - 1)).

(** The [malloc]s of the three bit fields; a null pool is dereferenced. *)
Definition ut_allocator_init (ok14 ok12 ok10 : bool) (low high : Z) : M ut_state unit :=
  s <- get ;;
  c_assert (negb (initialised s)) ;;;
  let low := FLOOR14 low in
  let high := CEILING14 high in
  let mem_size := u32 (high - low) in
  p14 <- new_bitfield ok14 (Z.shiftr mem_size 14) BITFIELD_INIT_FILLED ;;
  p12 <- new_bitfield ok12 (Z.shiftr mem_size 12) BITFIELD_INIT_FILLED ;;
  p10 <- new_bitfield ok10 (Z.shiftr mem_size 10) BITFIELD_INIT_FILLED ;;
  put (UtState p14 p12 p10 (pool9 s) (pool4 s) (snodes s) (initialised s) low) ;;;
  for_up 0 (Z.shiftr mem_size 14) (fun i => on_pool P14 (bf_clr i)) ;;;
  modify (set_pool9 0) ;;;
  modify (set_pool4 0) ;;;
  modify (fun s => UtState (pool14 s) (pool12 s) (pool10 s) (pool9 s) (pool4 s) (snodes s) true (pool_base s)).

Definition ut_alloc (malloc_node : Z) (malloc_bf : bool) (sizebits : Z) : M ut_state Z :=
  s <- get ;;
  c_assert (initialised s) ;;;
  c_assert (match pool14 s with Some _ => true | None => false end) ;;;
  if (sizebits =? 4) || (sizebits =? 9) then do_ut_alloc_from_list malloc_node malloc_bf sizebits
  else if (sizebits =? 10) || (sizebits =? 12) || (sizebits =? 14)
       then do_ut_alloc_from_bitfield sizebits
  else fail FAssert.

Definition ut_free (addr sizebits : Z) : M ut_state unit :=
  c_assert (negb (addr =? 0)) ;;;
  c_assert (Z.land addr (Z.shiftl 1 sizebits - 1) =? 0) ;;;
  if (sizebits =? 4) || (sizebits =? 9) then do_ut_free_from_list addr sizebits
  else if (sizebits =? 10) || (sizebits =? 12) || (sizebits =? 14)
       then do_ut_free_from_bitfield addr sizebits
  else fail FAssert.

(** ** The invariant

    A ghost [own] tells what each slab of 2^14 bytes is used for. *)

#[export] Instance bf_pool_eq_dec : EqDecision bf_pool.
Proof. solve_decision. Defined.

Inductive owner := OFree | OWhole | OSplit (p : bf_pool) | OSub (sizebits : Z).

Definition bits (p : bf_pool) : Z := match p with P14 => 14 | P12 => 12 | P10 => 10 end.
(** Units of a pool in one slab. *)
Definition upp (p : bf_pool) : Z := match p with P14 => 1 | P12 => 4 | P10 => 16 end.

Lemma upp_pos p : 0 < upp p.
Proof. by destruct p. Qed.
Lemma upp_shift p : Z.shiftl 1 (PRIMARY_POOL_SIZEBITS - bits p) = upp p.
Proof. by destruct p. Qed.
Lemma upp_bits p : 2 ^ 14 = upp p * 2 ^ bits p.
Proof. by destruct p. Qed.
Lemma select_pool_bits p : select_pool (bits p) = ret p.
Proof. by destruct p. Qed.

Definition pbit (s : ut_state) (p : bf_pool) (j : Z) : bool :=
  match get_pool p s with Some bf => bit_at (b bf) j | None => true end.

(** [s'] differs from [s] in the bit fields only. *)
Definition same_lists (s s' : ut_state) : Prop :=
  pool9 s' = pool9 s /\ pool4 s' = pool4 s /\ snodes s' = snodes s /\
  initialised s' = initialised s /\ pool_base s' = pool_base s.

Lemma get_put_pool p q bf s :
  get_pool q (put_pool p bf s) = if decide (p = q) then Some bf else get_pool q s.
Proof. by destruct p, q. Qed.

Lemma same_lists_put p bf s : same_lists s (put_pool p bf s).
Proof. by destruct p. Qed.

#[export] Instance same_lists_preorder : PreOrder same_lists.
Proof.
  split; [done|]. intros s1 s2 s3 (? & ? & ? & ? & ?) (? & ? & ? & ? & ?).
  repeat split; congruence.
Qed.

Lemma wp_on_pool {A} p (m : M bitfield_t A) Q s bf :
  get_pool p s = Some bf ->
  wp m (fun a bf' => Q a (put_pool p bf' s)) bf ->
  wp (on_pool p m) Q s.
Proof. unfold wp, on_pool. intros -> H. by destruct (m bf) as [[a bf']|]. Qed.

(** The shape of the three bit fields. *)
Record shape (N : Z) (s : ut_state) : Prop := {
  sh_pos : 0 <= N;
  sh_pool : forall p, exists bf, get_pool p s = Some bf /\ bf_wf0 bf /\ size bf = N * upp p;
  sh_next : forall bf, pool14 s = Some bf -> 0 <= next_free bf <= size bf
}.

(** A pool whose search hint is in range. *)
Definition healthy (s : ut_state) (p : bf_pool) : Prop :=
  forall bf, get_pool p s = Some bf -> 0 <= next_free bf <= size bf.

Lemma shape_put N s p bf bf' :
  shape N s -> get_pool p s = Some bf -> bf_wf0 bf' -> size bf' = size bf ->
  (p = P14 -> 0 <= next_free bf' <= size bf') ->
  shape N (put_pool p bf' s).
Proof.
  intros [H0 Hp Hn] Hget Hwf Hsz Hnext. split; [done| |].
  - intros q. rewrite get_put_pool. case_decide as Hpq.
    + subst q. destruct (Hp p) as (bf0 & Hg & _ & Hs0). exists bf'. split; [done|].
      rewrite Hget in Hg. injection Hg as <-. rewrite Hsz. done.
    + apply Hp.
  - intros bf0 Hbf0. change (get_pool P14 (put_pool p bf' s) = Some bf0) in Hbf0.
    rewrite get_put_pool in Hbf0. case_decide; [|by apply Hn].
    injection Hbf0 as <-. auto.
Qed.

(** *** The bit operations on a pool *)

(** [s'] has unit [j] of pool [p] set to [v]; all other units are as in [s]. *)
Definition pchanged (s s' : ut_state) (p : bf_pool) (j : Z) (v : bool) : Prop :=
  forall q i, pbit s' q i = if decide (p = q /\ j = i) then v else pbit s q i.

Lemma pbit_put p bf s q i :
  pbit (put_pool p bf s) q i = if decide (p = q) then bit_at (b bf) i else pbit s q i.
Proof. unfold pbit. rewrite get_put_pool. by case_decide. Qed.

Lemma changed_pchanged s p bf bf' j v :
  get_pool p s = Some bf -> changed bf bf' j v -> pchanged s (put_pool p bf' s) p j v.
Proof.
  intros Hget (_ & Hbits & _) q i. rewrite pbit_put. case_decide as Hpq.
  - subst q. rewrite Hbits. unfold pbit. rewrite Hget.
    case_decide; [by rewrite decide_True | by rewrite decide_False by naive_solver].
  - by rewrite decide_False by naive_solver.
Qed.

Lemma shape_next N s p bf bf' :
  shape N s -> get_pool p s = Some bf -> next_free bf' = next_free bf -> size bf' = size bf ->
  p = P14 -> 0 <= next_free bf' <= size bf'.
Proof. intros [_ _ Hn] Hget Hnf Hsz ->. rewrite Hnf, Hsz. by apply Hn. Qed.

(** What every bit operation leaves unchanged. *)
Definition kept (N : Z) (s s' : ut_state) : Prop :=
  shape N s' /\ same_lists s s' /\ (forall q, healthy s q -> healthy s' q).

Lemma kept_trans N s1 s2 s3 : kept N s1 s2 -> kept N s2 s3 -> kept N s1 s3.
Proof. intros (? & ? & ?) (? & ? & ?). split; [done|]. split; [by etrans | auto]. Qed.

Lemma kept_put N s p bf bf' :
  shape N s -> get_pool p s = Some bf -> bf_wf0 bf' -> size bf' = size bf ->
  next_free bf' = next_free bf -> kept N s (put_pool p bf' s).
Proof.
  intros Hsh Hget Hwf Hsz Hnf. split.
  { eapply shape_put; eauto. intros ->. by eapply shape_next. }
  split; [apply same_lists_put|]. intros q Hh bf0. rewrite get_put_pool.
  case_decide as Hpq; [|apply Hh]. intros [= <-]. subst q. rewrite Hnf, Hsz. by apply Hh.
Qed.

Lemma pool_bf_clr N s p j :
  shape N s -> 0 <= j < N * upp p -> pbit s p j = true ->
  wp (on_pool p (bf_clr j)) (fun _ s' => kept N s s' /\ pchanged s s' p j false) s.
Proof.
  intros Hsh Hj Hbit. destruct (sh_pool N s Hsh p) as (bf & Hget & Hwf & Hsz).
  unfold pbit in Hbit. rewrite Hget in Hbit.
  eapply wp_on_pool; [done|]. eapply wp_mono; [apply bf_clr_spec; [done | lia | done]|].
  intros _ bf' (Hwf' & Hch & Hnf). split; [|by eapply changed_pchanged].
  eapply kept_put; eauto. apply Hch.
Qed.

Lemma pool_bf_set N s p j :
  shape N s -> 0 <= j < N * upp p -> pbit s p j = false ->
  wp (on_pool p (bf_set j)) (fun _ s' => kept N s s' /\ pchanged s s' p j true) s.
Proof.
  intros Hsh Hj Hbit. destruct (sh_pool N s Hsh p) as (bf & Hget & Hwf & Hsz).
  unfold pbit in Hbit. rewrite Hget in Hbit.
  eapply wp_on_pool; [done|]. eapply wp_mono; [apply bf_set_spec; [done | lia | done]|].
  intros _ bf' (Hwf' & Hch & Hnf). split; [|by eapply changed_pchanged].
  eapply kept_put; eauto. apply Hch.
Qed.

Lemma put_pool_id s p bf : get_pool p s = Some bf -> put_pool p bf s = s.
Proof. destruct p, s; cbn; by intros ->. Qed.

Lemma pool_bf_get N s p j :
  shape N s -> 0 <= j < N * upp p ->
  wp (on_pool p (bf_get j)) (fun g s' => s' = s /\ g = pbit s p j) s.
Proof.
  intros Hsh Hj. destruct (sh_pool N s Hsh p) as (bf & Hget & Hwf & Hsz).
  eapply wp_on_pool; [done|]. apply bf_get_spec; [apply Hwf | apply Hwf | |].
  - apply unit_in_units; [done | lia].
  - split; [by apply put_pool_id|]. unfold pbit. by rewrite Hget.
Qed.

(** All units of pool [p] are in use. *)
Definition full (N : Z) (s : ut_state) (p : bf_pool) : Prop :=
  forall j, 0 <= j < N * upp p -> pbit s p j = true.

Lemma pool_bf_set_next_free N s p :
  shape N s -> healthy s p \/ full N s p ->
  wp (on_pool p bf_set_next_free) (fun r s' =>
    (r = -1 /\ s' = s /\ full N s p) \/
    (0 <= r < N * upp p /\ pbit s p r = false /\ pchanged s s' p r true /\
     shape N s' /\ same_lists s s' /\ forall q, healthy s q -> healthy s' q)) s.
Proof.
  intros Hsh Hh. destruct (sh_pool N s Hsh p) as (bf & Hget & Hwf & Hsz).
  destruct (decide (available bf = 0)) as [H0|H0].
  { eapply wp_on_pool; [done|]. unfold bf_set_next_free. wp_steps. rewrite H0. bred. wp_steps.
    left. split; [done|]. split; [by apply put_pool_id|]. intros j Hj. unfold pbit. rewrite Hget.
    apply (nfree_zero _ (size bf)); [|lia]. rewrite <- (wf_available _ Hwf). done. }
  assert (healthy s p) as Hhp.
  { destruct Hh as [|Hf]; [done|]. destruct H0. rewrite (wf_available _ Hwf). apply nfree_all.
    intros i Hi. specialize (Hf i ltac:(lia)). unfold pbit in Hf. by rewrite Hget in Hf. }
  eapply wp_on_pool; [done|].
  eapply wp_mono; [apply bf_set_next_free_run; split; [done | by apply Hhp]|].
  intros r bf' [Hwf' H]. destruct (Z.eqb_spec (available bf) 0); [done|].
  destruct H as (Hr & Hfree & Hch). destruct Hwf' as [Hwf0 Hnext].
  right. split; [lia|]. split; [unfold pbit; by rewrite Hget|].
  split; [by eapply changed_pchanged|]. split.
  { eapply shape_put; eauto. apply Hch. }
  split; [apply same_lists_put|]. intros q Hq bf0. rewrite get_put_pool.
  case_decide; [|apply Hq]. intros [= <-]. done.
Qed.

(** *** Slabs *)

Definition upd (own : Z -> owner) (k : Z) (o : owner) : Z -> owner :=
  fun x => if decide (x = k) then o else own x.

Lemma upd_eq own k o : upd own k o k = o.
Proof. unfold upd. by rewrite decide_True. Qed.
Lemma upd_ne own k o x : x <> k -> upd own k o x = own x.
Proof. intros. unfold upd. by rewrite decide_False. Qed.

Record pools_inv (N : Z) (own : Z -> owner) (s : ut_state) : Prop := {
  pi_shape : shape N s;
  pi_free : forall k, 0 <= k < N -> (pbit s P14 k = false <-> own k = OFree);
  pi_split : forall p j, p <> P14 -> 0 <= j < N * upp p -> pbit s p j = false ->
             own (j / upp p) = OSplit p;
  pi_used : forall p k, 0 <= k < N -> own k = OSplit p ->
            p <> P14 /\ exists j, 0 <= j < N * upp p /\ j / upp p = k /\ pbit s p j = true
}.

(** Unit [j] of pool [p] is handed out. *)
Definition live_unit (N : Z) (own : Z -> owner) (s : ut_state) (p : bf_pool) (j : Z) : Prop :=
  0 <= j < N * upp p /\
  if decide (p = P14) then own j = OWhole
  else own (j / upp p) = OSplit p /\ pbit s p j = true.

Lemma live_14 N own s j : live_unit N own s P14 j <-> 0 <= j < N * upp P14 /\ own j = OWhole.
Proof. done. Qed.

Lemma live_sub N own s p j : p <> P14 ->
  live_unit N own s p j <->
  0 <= j < N * upp p /\ own (j / upp p) = OSplit p /\ pbit s p j = true.
Proof. intros. unfold live_unit. by rewrite decide_False. Qed.

Lemma slab_of_unit N p j : 0 <= j < N * upp p -> 0 <= j / upp p < N.
Proof.
  pose proof (upp_pos p). intros. split; [apply Z.div_pos; lia|].
  apply Z.div_lt_upper_bound; lia.
Qed.

Lemma unit_of_slab N p k i :
  0 <= k < N -> 0 <= i < upp p -> 0 <= k * upp p + i < N * upp p /\ (k * upp p + i) / upp p = k.
Proof.
  pose proof (upp_pos p). intros. split; [nia|].
  rewrite Z.div_add_l by lia. rewrite Z.div_small by lia. lia.
Qed.

Lemma slab_range p k x : x / upp p = k <-> k * upp p <= x < k * upp p + upp p.
Proof.
  pose proof (upp_pos p). pose proof (Z.div_mod x (upp p) ltac:(lia)).
  pose proof (Z.mod_pos_bound x (upp p) ltac:(lia)). split; [intros <-; lia|].
  intros. symmetry. apply (Z.div_unique_pos _ _ _ (x - k * upp p)); lia.
Qed.

(** [s'] has all units of slab [k] of pool [p] set to [v]. *)
Definition slab_set (s s' : ut_state) (p : bf_pool) (k : Z) (v : bool) : Prop :=
  forall q i, pbit s' q i = if decide (p = q /\ i / upp p = k) then v else pbit s q i.

Section slab_loop.
Context (N : Z) (p : bf_pool) (k : Z) (v : bool) (op : Z -> M bitfield_t unit).
Hypothesis Hk : 0 <= k < N.
Hypothesis Hop : forall s j, shape N s -> 0 <= j < N * upp p -> pbit s p j = negb v ->
  wp (on_pool p (op j)) (fun _ s' => kept N s s' /\ pchanged s s' p j v) s.

Lemma slab_loop s :
  shape N s -> (forall i, i / upp p = k -> pbit s p i = negb v) ->
  wp (for_up 0 (upp p) (fun i => on_pool p (op (k * upp p + i))))
     (fun _ s' => kept N s s' /\ slab_set s s' p k v) s.
Proof.
  intros Hsh Hall. pose proof (upp_pos p).
  apply (wp_for_up (fun n s' => kept N s s' /\ forall q i,
    pbit s' q i = if decide (p = q /\ k * upp p <= i < k * upp p + n) then v else pbit s q i)).
  - lia.
  - split; [done|]. intros q i. by rewrite decide_False by lia.
  - intros n s' Hn [Hkept Hbits].
    destruct (unit_of_slab N p k n Hk ltac:(lia)) as [Hj Hdiv].
    eapply wp_mono; [apply Hop; [apply Hkept | done |]|].
    { rewrite Hbits, decide_False by lia. by apply Hall. }
    intros _ s'' [Hkept' Hch]. split; [by eapply kept_trans|].
    intros q i. rewrite Hch, Hbits.
    destruct (decide (p = q)) as [<-|]; [|by rewrite !decide_False by naive_solver].
    destruct (decide (k * upp p + n = i)) as [<-|Hne].
    + rewrite !decide_True by (split; [done | lia]). done.
    + rewrite (decide_False (P := p = p /\ _ = i)) by naive_solver.
      repeat case_decide; (done || (exfalso; intuition lia)).
  - intros s' [Hkept Hbits]. split; [done|]. intros q i. rewrite Hbits.
    apply decide_ext. by rewrite slab_range.
Qed.
End slab_loop.

(** Taking a slab from the primary pool. *)
Lemma primary_alloc N own s :
  pools_inv N own s ->
  wp (on_pool P14 bf_set_next_free) (fun k s' =>
    (k = -1 /\ s' = s /\ full N s P14) \/
    (0 <= k < N /\ own k = OFree /\ pchanged s s' P14 k true /\ kept N s s')) s.
Proof.
  intros [Hsh Hfree Hsplit Hused].
  eapply wp_mono; [apply (pool_bf_set_next_free N); [done|]|].
  { left. intros bf Hbf. by apply (sh_next N s Hsh). }
  intros k s' [?|(Hk & Hbit & Hch & Hsh' & Hsame & Hh)]; [by left|]. right.
  simpl in Hk. assert (0 <= k < N) by lia. split; [done|]. split; [by apply Hfree|].
  split; [done|]. done.
Qed.

(** The slab [k] changes from [OFree] to a use that has no bit field. *)
Lemma pools_inv_take N own s s' k o :
  pools_inv N own s -> 0 <= k < N -> own k = OFree ->
  o <> OFree -> (forall p, o <> OSplit p) ->
  pchanged s s' P14 k true -> shape N s' ->
  pools_inv N (upd own k o) s'.
Proof.
  intros [Hsh Hfree Hsplit Hused] Hk Hown Ho1 Ho2 Hch Hsh'. split; [done| | |].
  - intros x Hx. rewrite Hch. unfold upd. destruct (decide (x = k)) as [->|].
    + rewrite decide_True by done. naive_solver.
    + rewrite decide_False by naive_solver. by apply Hfree.
  - intros p j Hp Hj. rewrite Hch, decide_False by naive_solver. intros Hbit.
    specialize (Hsplit p j Hp Hj Hbit). rewrite upd_ne; [done|]. intros <-. congruence.
  - intros p x Hx. unfold upd. case_decide; [naive_solver|]. intros Hox.
    destruct (Hused p x Hx Hox) as (Hp & j & Hj & Hdiv & Hbit). split; [done|]. exists j.
    rewrite Hch, decide_False by naive_solver. done.
Qed.

(** The slab [k] returns from such a use. *)
Lemma pools_inv_give N own s s' k :
  pools_inv N own s -> 0 <= k < N -> (forall p, own k <> OSplit p) ->
  pchanged s s' P14 k false -> shape N s' ->
  pools_inv N (upd own k OFree) s'.
Proof.
  intros [Hsh Hfree Hsplit Hused] Hk Hown Hch Hsh'. split; [done| | |].
  - intros x Hx. rewrite Hch. unfold upd. destruct (decide (x = k)) as [->|].
    + rewrite decide_True by done. naive_solver.
    + rewrite decide_False by naive_solver. by apply Hfree.
  - intros p j Hp Hj. rewrite Hch, decide_False by naive_solver. intros Hbit.
    specialize (Hsplit p j Hp Hj Hbit). rewrite upd_ne; [done|]. intros <-. by apply Hown in Hsplit.
  - intros p x Hx. unfold upd. case_decide; [naive_solver|]. intros Hox.
    destruct (Hused p x Hx Hox) as (Hp & j & Hj & Hdiv & Hbit). split; [done|]. exists j.
    rewrite Hch, decide_False by naive_solver. done.
Qed.

(** *** Allocation from a bit field *)

Definition heal (s s' : ut_state) : Prop := forall q, healthy s q -> healthy s' q.

(** The outcome of a successful allocation of unit [j] of pool [p]. *)
Record unit_taken (N : Z) (own own' : Z -> owner) (s s' : ut_state) (p : bf_pool) (j : Z) : Prop := {
  ut_range : 0 <= j < N * upp p;
  ut_inv' : pools_inv N own' s';
  ut_lists : same_lists s s';
  ut_heal : heal s s';
  ut_new : ~ live_unit N own s p j;
  ut_live : forall q i, live_unit N own' s' q i <-> live_unit N own s q i \/ (p = q /\ j = i);
  ut_own : forall k sz, own' k = OSub sz <-> own k = OSub sz
}.

(** A free unit of an already split slab. *)
Lemma take_split N own s s' p j :
  pools_inv N own s -> p <> P14 -> 0 <= j < N * upp p -> pbit s p j = false ->
  pchanged s s' p j true -> kept N s s' ->
  unit_taken N own own s s' p j.
Proof.
  intros [Hsh Hfree Hsplit Hused] Hp Hj Hbit Hch (Hsh' & Hsame & Hheal).
  assert (own (j / upp p) = OSplit p) as Hown by auto.
  split; try done.
  - split; [done| | |].
    + intros k Hk. rewrite Hch, decide_False by naive_solver. by apply Hfree.
    + intros q i Hq Hi. rewrite Hch. case_decide; [done|]. by apply Hsplit.
    + intros q k Hk Ho. destruct (Hused q k Hk Ho) as (Hq & i & Hi & Hdiv & Hb).
      split; [done|]. exists i. rewrite Hch. case_decide; done.
  - rewrite live_sub by done. intros (_ & _ & ?). congruence.
  - intros q i. destruct (decide (q = P14)) as [->|Hq]; [rewrite !live_14; intuition congruence|].
    rewrite !live_sub, Hch by done. case_decide as Hd.
    + destruct Hd as [<- <-]. intuition.
    + intuition congruence.
Qed.

Lemma alloc_primary N own s :
  pools_inv N own s ->
  wp (on_pool P14 bf_set_next_free) (fun k s' =>
    (k = -1 /\ s' = s /\ full N s P14) \/
    (own k = OFree /\ unit_taken N own (upd own k OWhole) s s' P14 k)) s.
Proof.
  intros Hinv. eapply wp_mono; [by eapply primary_alloc|].
  intros k s' [?|(Hk & Hown & Hch & Hsh' & Hsame & Hheal)]; [by left|]. right. split; [done|].
  split; try done.
  - simpl. lia.
  - eapply pools_inv_take; eauto; done.
  - rewrite live_14. intros [_ ?]. congruence.
  - intros q i. destruct (decide (q = P14)) as [->|Hq].
    + rewrite !live_14. unfold upd. simpl upp. case_decide; intuition (congruence || lia).
    + rewrite !live_sub, Hch, decide_False by (done || intuition congruence).
      unfold upd. case_decide as Hd; [rewrite Hd, Hown|]; intuition congruence.
  - intros x sz. unfold upd. case_decide; [subst; rewrite Hown; naive_solver | done].
Qed.

(** Splitting a fresh slab and taking its unit [j]. *)
Lemma take_fresh N own s s1 s2 s3 p k j :
  pools_inv N own s -> p <> P14 -> 0 <= k < N -> own k = OFree -> full N s p ->
  pchanged s s1 P14 k true -> slab_set s1 s2 p k false ->
  0 <= j < N * upp p -> pbit s2 p j = false -> pchanged s2 s3 p j true ->
  shape N s3 -> same_lists s s3 -> heal s s3 ->
  unit_taken N own (upd own k (OSplit p)) s s3 p j.
Proof.
  intros [Hsh Hfree Hsplit Hused] Hp Hk Hown Hfull H1 H2 Hj Hbit H3 Hsh3 Hsame Hheal.
  assert (j / upp p = k) as Hjk.
  { rewrite H2, H1 in Hbit. destruct (decide (p = p /\ j / upp p = k)); [naive_solver|].
    rewrite decide_False in Hbit by naive_solver. by rewrite Hfull in Hbit. }
  assert (forall q i, pbit s3 q i = if decide (p = q /\ j = i) then true
    else if decide (p = q /\ i / upp p = k) then false
    else if decide (P14 = q /\ k = i) then true else pbit s q i) as Hbits.
  { intros q i. by rewrite H3, H2, H1. }
  split; try done.
  - split; [done| | |].
    + intros x Hx. rewrite Hbits. rewrite !(decide_False (P := p = P14 /\ _)) by naive_solver.
      unfold upd. repeat case_decide; naive_solver.
    + intros q i Hq Hi. rewrite Hbits, !(decide_False (P := P14 = q /\ _)) by naive_solver.
      destruct (decide (p = q)) as [<-|].
      * unfold upd. repeat case_decide; naive_solver.
      * rewrite !decide_False by naive_solver. intros Hb. rewrite upd_ne; [by apply Hsplit|].
        intros Heq. pose proof (Hsplit q i Hq Hi Hb). congruence.
    + intros q x Hx. unfold upd. case_decide.
      * intros [= <-]. split; [done|]. exists j. subst x. rewrite Hbits, decide_True by done. done.
      * intros Ho. destruct (Hused q x Hx Ho) as (Hq & i & Hi & Hdiv & Hb). split; [done|].
        exists i. rewrite Hbits. repeat case_decide; naive_solver.
  - rewrite live_sub by done. rewrite Hjk, Hown. intros (_ & ? & _). done.
  - intros q i. destruct (decide (q = P14)) as [->|Hq].
    + rewrite !live_14. unfold upd. case_decide; [subst; rewrite Hown|]; intuition congruence.
    + rewrite !live_sub, Hbits, !(decide_False (P := P14 = q /\ _)) by (done || intuition congruence).
      unfold upd. destruct (decide (p = q)) as [<-|].
      * destruct (decide (p = p /\ j = i)) as [[_ <-]|]; [rewrite decide_True by done; intuition|].
        destruct (decide (i / upp p = k)) as [Hd|Hd].
        -- rewrite decide_True by done. rewrite Hd, Hown. intuition congruence.
        -- rewrite decide_False by intuition. intuition.
      * rewrite !(decide_False (P := p = q /\ _)) by intuition.
        case_decide as Hd; [rewrite Hd, Hown|]; intuition congruence.
  - intros x sz. unfold upd. case_decide; [subst; rewrite Hown|]; intuition congruence.
Qed.

(** [s'] differs from [s] at most in the search hint of pool [p]. *)
Definition only_hint (N : Z) (s s' : ut_state) (p : bf_pool) : Prop :=
  shape N s' /\ same_lists s s' /\ (forall q i, pbit s' q i = pbit s q i) /\
  (forall q, q <> p -> healthy s q -> healthy s' q).

Lemma only_hint_refl N s p : shape N s -> only_hint N s s p.
Proof. intros. split; [done|]. split; [done|]. done. Qed.

Lemma set_hint N s p h :
  shape N s -> p <> P14 ->
  wp (on_pool p (modify (set_next_free h))) (fun _ s' => only_hint N s s' p /\
    (0 <= h <= N * upp p -> healthy s' p)) s.
Proof.
  intros Hsh Hp. destruct (sh_pool N s Hsh p) as (bf & Hget & Hwf & Hsz).
  eapply wp_on_pool; [done|]. wp_steps. split.
  - split; [|split; [apply same_lists_put | split]].
    + eapply shape_put; eauto; [|done]. by destruct Hwf.
    + intros q i. rewrite pbit_put. case_decide; [|done]. subst q. unfold pbit. by rewrite Hget.
    + intros q Hq Hh bf'. rewrite get_put_pool, decide_False by congruence. apply Hh.
  - intros Hh bf'. rewrite get_put_pool, decide_True by done. intros [= <-]. simpl. lia.
Qed.

Lemma pools_inv_hint N own s s' p :
  pools_inv N own s -> only_hint N s s' p -> pools_inv N own s'.
Proof.
  intros [Hsh Hfree Hsplit Hused] (Hsh' & _ & Hbits & _). split; [done| | |].
  - intros k Hk. rewrite Hbits. by apply Hfree.
  - intros q j Hq Hj. rewrite Hbits. by apply Hsplit.
  - intros q k Hk Ho. destruct (Hused q k Hk Ho) as (Hq & j & Hj & Hd & Hb).
    split; [done|]. exists j. by rewrite Hbits.
Qed.

Lemma fill_pool N own s p :
  pools_inv N own s -> p <> P14 -> full N s p ->
  wp (_bitfield_fill_pool p (bits p)) (fun _ s' =>
    (full N s P14 /\ only_hint N s s' p) \/
    (exists k s1 s2, 0 <= k < N /\ own k = OFree /\ pchanged s s1 P14 k true /\
       slab_set s1 s2 p k false /\ kept N s s2 /\ only_hint N s2 s' p /\ healthy s' p)) s.
Proof.
  intros Hinv Hp Hfull. pose proof Hinv as [Hsh Hfree Hsplit Hused]. unfold _bitfield_fill_pool.
  destruct (Z.eqb_spec (bits p) PRIMARY_POOL_SIZEBITS); [by destruct p|]. bred.
  wp_steps. eapply wp_mono; [by eapply primary_alloc|].
  intros k s1 [(-> & -> & Hf14)|(Hk & Hown & Hch & Hkept)].
  - rewrite Z.eqb_refl. bred. wp_steps. eapply wp_mono; [by eapply set_hint|].
    intros _ s' [Hhint _]. by left.
  - destruct (Z.eqb_spec k (-1)); [lia|]. bred. rewrite upp_shift. wp_steps.
    replace (Z.shiftl k (PRIMARY_POOL_SIZEBITS - bits p)) with (k * upp p)
      by (by destruct p; rewrite Z.shiftl_mul_pow2).
    eapply wp_mono; [apply (slab_loop N p k false bf_clr); [done | | apply Hkept |]|].
    + intros s0 j ? ? ?. by apply pool_bf_clr.
    + intros i Hi. rewrite Hch, decide_False by naive_solver. apply Hfull.
      apply slab_range in Hi. nia.
    + intros [] s2 [Hkept2 Hslab]. wp_steps.
      eapply wp_mono; [apply (set_hint N); [apply Hkept2 | done]|].
      intros [] s' [Hhint Hh]. right. exists k, s1, s2.
      do 4 (split; [done|]). split; [by eapply kept_trans|].
      split; [done|]. apply Hh. pose proof (upp_pos p). nia.
Qed.

Lemma pchanged_hint N s s' s'' p j v :
  only_hint N s s' p -> pchanged s' s'' p j v -> pchanged s s'' p j v.
Proof. intros (_ & _ & Hb & _) Hch q i. rewrite Hch, Hb. done. Qed.

(** The allocation, in terms of units. *)
Definition alloc_unit_post (N : Z) (own : Z -> owner) (s : ut_state) (p : bf_pool)
    (r : Z) (s' : ut_state) : Prop :=
  (r = -1 /\ full N s P14 /\ only_hint N s s' p /\ (p = P14 -> s' = s)) \/
  (exists k own', k = r / upp p /\ unit_taken N own own' s s' p r /\
     (p = P14 -> own k = OFree /\ own' = upd own k OWhole)).

Lemma alloc_unit N own s p :
  pools_inv N own s -> healthy s p ->
  wp (offset <- on_pool p bf_set_next_free ;;
      (if offset =? -1 then _bitfield_fill_pool p (bits p) ;;; on_pool p bf_set_next_free
       else ret offset)) (alloc_unit_post N own s p) s.
Proof.
  intros Hinv Hh. wp_steps. destruct (decide (p = P14)) as [->|Hp].
  - eapply wp_mono; [by eapply alloc_primary|].
    intros k s' [(-> & -> & Hf)|[Hown Ht]].
    + rewrite Z.eqb_refl. unfold _bitfield_fill_pool. rewrite Z.eqb_refl. bred. wp_steps.
      eapply wp_mono; [by eapply alloc_primary|]. intros k s' [(-> & -> & _)|[Hown Ht]].
      * left. split; [done|]. split; [done|]. split; [apply only_hint_refl, Hinv | done].
      * exfalso. pose proof (ut_range _ _ _ _ _ _ _ Ht). rewrite <- (pi_free N own s Hinv) in Hown by (simpl in *; lia).
        rewrite Hf in Hown by done. done.
    + destruct (Z.eqb_spec k (-1)); [pose proof (ut_range _ _ _ _ _ _ _ Ht); lia|]. wp_steps.
      right. exists k, (upd own k OWhole). simpl upp. by rewrite Z.div_1_r.
  - eapply wp_mono; [apply (pool_bf_set_next_free N); [apply Hinv | by left]|].
    intros r s1 [(-> & -> & Hf)|(Hr & Hbit & Hch & Hsh & Hsame & Hheal)].
    + rewrite Z.eqb_refl. wp_steps. eapply wp_mono; [by eapply fill_pool|].
      intros [] s2 [[Hf14 Hhint]|(k & t1 & t2 & Hk & Hown & Ht1 & Ht2 & Hkept & Hhint & Hh2)].
      * eapply wp_mono; [apply (pool_bf_set_next_free N); [apply Hhint|]|].
        { right. intros j Hj. destruct Hhint as (_ & _ & Hb & _). rewrite Hb. by apply Hf. }
        intros r s3 [(-> & -> & _)|(Hr & Hbit & _)]; [by left|].
        destruct Hhint as (_ & _ & Hb & _). rewrite Hb, Hf in Hbit by done. done.
      * eapply wp_mono; [apply (pool_bf_set_next_free N); [apply Hhint | by left]|].
        intros r s3 [(-> & -> & Hf2)|(Hr & Hbit & Hch & Hsh & Hsame & Hheal)].
        { exfalso. pose proof (upp_pos p). destruct (unit_of_slab N p k 0 Hk ltac:(lia)) as [Hj Hd].
          specialize (Hf2 _ Hj). destruct Hhint as (_ & _ & Hb & _).
          rewrite Hb, Ht2, decide_True in Hf2 by done. done. }
        right. eexists _, _. split; [done|]. split; [|done].
        destruct Hhint as (Hshx & Hsamex & Hb & Hhx). rewrite Hb in Hbit.
        eapply take_fresh; try done.
        -- intros q i. rewrite Hch, Hb. done.
        -- etrans; [apply Hkept|]. by etrans.
        -- intros q Hq. apply Hheal. destruct (decide (q = p)) as [->|]; [done|].
           apply Hhx; [done|]. by apply Hkept.
    + destruct (Z.eqb_spec r (-1)); [lia|]. wp_steps. right. exists (r / upp p), own.
      split; [done|]. split; [|done]. by apply take_split.
Qed.

(** *** Addresses *)

(** The managed memory is a 16K aligned range of the 32-bit address space
    that does not contain the address 0. *)
Definition placed (N : Z) (s : ut_state) : Prop :=
  0 < pool_base s /\ pool_base s mod 2 ^ 14 = 0 /\ pool_base s + N * 2 ^ 14 <= 2 ^ 32.

Definition unit_addr (s : ut_state) (p : bf_pool) (j : Z) : Z := pool_base s + j * 2 ^ bits p.

Lemma unit_addr_range N s p j :
  placed N s -> 0 <= j < N * upp p ->
  pool_base s <= unit_addr s p j /\ unit_addr s p j + 2 ^ bits p <= pool_base s + N * 2 ^ 14.
Proof. intros Hp Hj. unfold unit_addr. rewrite (upp_bits p). destruct p; simpl in *; nia. Qed.

Lemma alloc_from_bitfield N own s p :
  pools_inv N own s -> placed N s -> healthy s p ->
  wp (do_ut_alloc_from_bitfield (bits p)) (fun addr s' =>
    (addr = 0 /\ full N s P14 /\ only_hint N s s' p /\ (p = P14 -> s' = s)) \/
    (exists j own', addr = unit_addr s p j /\ unit_taken N own own' s s' p j /\
       (p = P14 -> own j = OFree /\ own' = upd own j OWhole))) s.
Proof.
  intros Hinv Hpl Hh. unfold do_ut_alloc_from_bitfield. rewrite select_pool_bits. wp_steps.
  eapply wp_mono; [exact (wp_bind_inv _ _ _ _ (alloc_unit N own s p Hinv Hh))|]. intros r0 s0 H0. cbv beta in H0.
  wp_steps. eapply wp_mono; [exact H0|].
  intros r s' [(-> & Hf & Hhint & H14)|(k & own' & -> & Ht & H14)].
  - rewrite Z.eqb_refl. wp_steps. by left.
  - pose proof (ut_range _ _ _ _ _ _ _ Ht) as Hr.
    destruct (Z.eqb_spec r (-1)); [lia|]. wp_steps. right. exists r, own'.
    destruct (ut_lists _ _ _ _ _ _ _ Ht) as (_ & _ & _ & _ & ->). split; [|split; [done|]].
    + destruct (unit_addr_range N s p r Hpl Hr). destruct Hpl as (? & ? & ?).
      rewrite Z.shiftl_mul_pow2, Z.add_comm by (by destruct p). unfold unit_addr in *.
      apply u32_small. unfold is_u32. assert (0 < 2 ^ bits p) by (by destruct p). lia.
    + intros ->. simpl upp in H14. rewrite Z.div_1_r in H14. by apply H14.
Qed.

(** The outcome of freeing unit [j] of pool [p]. *)
Record unit_freed (N : Z) (own own' : Z -> owner) (s s' : ut_state) (p : bf_pool) (j : Z) : Prop := {
  uf_inv : pools_inv N own' s';
  uf_lists : same_lists s s';
  uf_heal : heal s s';
  uf_live : forall q i, live_unit N own' s' q i <-> live_unit N own s q i /\ ~ (p = q /\ j = i);
  uf_own : forall k sz, own' k = OSub sz -> own k = OSub sz;
  uf_own' : forall k sz, own k = OSub sz -> own' k = OSub sz \/ (p = P14 /\ k = j)
}.

(** A slab comes back whole: from its user, or from a suballocator. *)
Lemma free_primary N own s k :
  pools_inv N own s -> 0 <= k < N -> own k <> OFree -> (forall p, own k <> OSplit p) ->
  wp (on_pool P14 (bf_clr k)) (fun _ s' => unit_freed N own (upd own k OFree) s s' P14 k) s.
Proof.
  intros Hinv Hk Hnf Hns. assert (pbit s P14 k = true) as Hbit.
  { destruct (pbit s P14 k) eqn:E; [done|]. by apply (pi_free N own s Hinv) in E. }
  eapply wp_mono; [apply (pool_bf_clr N); [apply Hinv | simpl; lia | done]|].
  intros _ s' [(Hsh & Hsame & Hheal) Hch]. split; try done.
  - by eapply pools_inv_give.
  - intros q i. destruct (decide (q = P14)) as [->|Hq].
    + rewrite !live_14. unfold upd. case_decide; intuition congruence.
    + rewrite !live_sub, Hch, decide_False by (done || intuition congruence).
      unfold upd. case_decide as Hd; [|intuition congruence].
      split; [intuition congruence|]. intros ((_ & Ho & _) & _). rewrite Hd in Ho. by apply Hns in Ho.
  - intros x sz. unfold upd. by case_decide.
  - intros x sz. unfold upd. case_decide; auto.
Qed.

(** Freeing a unit of a slab that stays split. *)
Lemma give_split N own s s' p j i0 :
  pools_inv N own s -> p <> P14 -> 0 <= j < N * upp p -> own (j / upp p) = OSplit p ->
  pchanged s s' p j false -> kept N s s' ->
  i0 / upp p = j / upp p -> pbit s' p i0 = true ->
  unit_freed N own own s s' p j.
Proof.
  intros [Hsh Hfree Hsplit Hused] Hp Hj Hown Hch (Hsh' & Hsame & Hheal) Hi0 Hb0. split; try done; auto.
  - split; [done| | |].
    + intros k Hk. rewrite Hch, decide_False by intuition. by apply Hfree.
    + intros q i Hq Hi. rewrite Hch. case_decide as Hd; [|by apply Hsplit].
      destruct Hd as [<- <-]. done.
    + intros q k Hk Ho. destruct (Hused q k Hk Ho) as (Hq & i & Hi & Hd & Hb). split; [done|].
      destruct (decide (p = q /\ j = i)) as [[<- <-]|Hne].
      * exists i0. split; [|by rewrite Hi0]. apply slab_range in Hi0.
        pose proof (slab_of_unit N p j Hj). pose proof (upp_pos p). nia.
      * exists i. rewrite Hch, decide_False by done. done.
  - intros q i. destruct (decide (q = P14)) as [->|Hq]; [rewrite !live_14; intuition congruence|].
    rewrite !live_sub, Hch by done. case_decide; intuition congruence.
Qed.

(** Freeing the last unit of a slab merges it back into the primary pool. *)
Lemma give_merge N own s s1 s2 s3 p j :
  pools_inv N own s -> p <> P14 -> 0 <= j < N * upp p -> own (j / upp p) = OSplit p ->
  pchanged s s1 p j false -> (forall i, i / upp p = j / upp p -> pbit s1 p i = false) ->
  slab_set s1 s2 p (j / upp p) true -> pchanged s2 s3 P14 (j / upp p) false -> kept N s s3 ->
  unit_freed N own (upd own (j / upp p) OFree) s s3 p j.
Proof.
  intros [Hsh Hfree Hsplit Hused] Hp Hj Hown H1 Hall H2 H3 (Hsh' & Hsame & Hheal).
  set (k := j / upp p) in *.
  assert (forall q i, q <> P14 -> pbit s3 q i = if decide (p = q /\ i / upp p = k) then true else pbit s q i) as Hbits.
  { intros q i Hq. rewrite H3, H2, H1, decide_False by intuition.
    case_decide as Hd; [done|]. rewrite decide_False; [done|]. intros [<- <-]. by apply Hd. }
  assert (forall i, i / upp p = k -> i <> j -> pbit s p i = false) as Hclear.
  { intros i Hi Hne. specialize (Hall i Hi). rewrite H1, decide_False in Hall by intuition. done. }
  split; try done.
  - split; [done| | |].
    + intros x Hx. rewrite H3, H2, H1, (decide_False (P := p = P14 /\ _)), (decide_False (P := p = P14 /\ _)) by intuition.
      unfold upd. repeat case_decide; subst; try (intuition congruence). by apply Hfree.
    + intros q i Hq Hi. rewrite Hbits by done. case_decide as Hd; [done|]. intros Hb.
      pose proof (Hsplit q i Hq Hi Hb) as Ho. rewrite upd_ne; [done|]. intros Heq.
      rewrite Heq, Hown in Ho. injection Ho as <-. by apply Hd.
    + intros q x Hx. unfold upd. case_decide; [done|]. intros Ho.
      destruct (Hused q x Hx Ho) as (Hq & i & Hi & Hd & Hb). split; [done|]. exists i.
      rewrite Hbits by done. by case_decide.
  - intros q i. destruct (decide (q = P14)) as [->|Hq].
    + rewrite !live_14. unfold upd. case_decide; [subst; rewrite Hown|]; intuition congruence.
    + rewrite !live_sub, Hbits by done. unfold upd.
      destruct (decide (i / upp q = k)) as [Hd|Hd].
      * split; [intuition congruence|]. intros ((_ & Ho & Hb) & Hne). exfalso.
        rewrite Hd, Hown in Ho. injection Ho as <-. rewrite Hclear in Hb by intuition. done.
      * rewrite decide_False by (intros [<- ?]; done).
        split; [|tauto]. intros H. split; [done|]. intros [<- <-]. done.
  - intros x sz. unfold upd. by case_decide.
  - intros x sz. unfold upd. case_decide; [|auto]. subst x. rewrite Hown. done.
Qed.

Lemma free_offset N s p j :
  placed N s -> 0 <= j < N * upp p ->
  Z.shiftr (u32 (unit_addr s p j - pool_base s)) (bits p) = j.
Proof.
  intros Hpl Hj. destruct (unit_addr_range N s p j Hpl Hj). destruct Hpl as (? & ? & ?).
  unfold unit_addr in *. replace (pool_base s + j * 2 ^ bits p - pool_base s) with (j * 2 ^ bits p) by lia.
  assert (0 < 2 ^ bits p) by (by destruct p).
  rewrite u32_small by (unfold is_u32; nia).
  rewrite Z.shiftr_div_pow2 by (by destruct p). rewrite Z.div_mul; lia.
Qed.

Lemma merge_base p j :
  Z.land j (Z.lnot (upp p - 1)) = j / upp p * upp p /\
  Z.shiftr (j / upp p * upp p) (PRIMARY_POOL_SIZEBITS - bits p) = j / upp p.
Proof.
  assert (exists e, 0 <= e /\ upp p = 2 ^ e /\ PRIMARY_POOL_SIZEBITS - bits p = e) as (e & He & Hu & Hb)
    by (destruct p; [exists 0 | exists 2 | exists 4]; done).
  rewrite Hb, Hu. split.
  - rewrite <- Z.ldiff_land, ldiff_mask by done. pose proof (Z.div_mod j (2 ^ e) ltac:(lia)). lia.
  - rewrite Z.shiftr_div_pow2 by done. apply Z.div_mul. lia.
Qed.

Lemma merge_up N own s s1 p j :
  pools_inv N own s -> p <> P14 -> 0 <= j < N * upp p -> own (j / upp p) = OSplit p ->
  pchanged s s1 p j false -> kept N s s1 ->
  wp (_bitfield_merge_up p (bits p) j)
     (fun _ s' => exists own', unit_freed N own own' s s' p j) s1.
Proof.
  intros Hinv Hp Hj Hown Hch Hkept. unfold _bitfield_merge_up.
  destruct (Z.eqb_spec (bits p) PRIMARY_POOL_SIZEBITS); [by destruct p|]. bred.
  rewrite upp_shift. destruct (merge_base p j) as [-> ->].
  pose proof (slab_of_unit N p j Hj) as Hk. set (k := j / upp p) in *. wp_steps.
  pose proof (upp_pos p). assert (shape N s1) as Hsh1 by apply Hkept.
  apply (wp_for_find (fun i s' => s' = s1 /\ forall x, 0 <= x < i -> pbit s1 p (k * upp p + x) = false)).
  - lia.
  - split; [done | lia].
  - intros i s' Hi [-> Hclear]. destruct (unit_of_slab N p k i Hk Hi) as [Hx Hd]. wp_steps.
    eapply wp_mono; [by apply (pool_bf_get N)|]. intros g s' [-> ->]. wp_steps.
    destruct (pbit s1 p (k * upp p + i)) eqn:Hb.
    + wp_steps. exists own. by eapply give_split.
    + split; [done|]. intros x Hx'. destruct (decide (x = i)) as [->|]; [done|]. apply Hclear. lia.
  - intros s' [-> Hclear]. assert (forall i, i / upp p = k -> pbit s1 p i = false) as Hall.
    { intros i Hi. apply slab_range in Hi. replace i with (k * upp p + (i - k * upp p)) by lia.
      apply Hclear. lia. }
    wp_steps. eapply wp_mono; [apply (slab_loop N p k true bf_set); [done | | done | done]|].
    { intros. by apply pool_bf_set. }
    intros [] s2 [Hkept2 Hslab]. wp_steps.
    eapply wp_mono; [apply (pool_bf_clr N); [apply Hkept2 | simpl; lia |]|].
    { rewrite Hslab, Hch, !decide_False by intuition. destruct (pbit s P14 k) eqn:E; [done|].
      apply (pi_free N own s Hinv) in E; [congruence | done]. }
    intros _ s3 [Hkept3 Hch3]. exists (upd own k OFree). eapply give_merge; eauto using kept_trans.
Qed.

Lemma free_from_bitfield N own s p j :
  pools_inv N own s -> placed N s ->
  live_unit N own s p j \/ (p = P14 /\ 0 <= j < N /\ own j <> OFree /\ forall q, own j <> OSplit q) ->
  wp (do_ut_free_from_bitfield (unit_addr s p j) (bits p))
     (fun _ s' => exists own', unit_freed N own own' s s' p j /\ (p = P14 -> own' = upd own j OFree)) s.
Proof.
  intros Hinv Hpl Hlive. unfold do_ut_free_from_bitfield. rewrite select_pool_bits. wp_steps.
  destruct (decide (p = P14)) as [->|Hp].
  - assert (0 <= j < N /\ own j <> OFree /\ forall q, own j <> OSplit q) as (Hj & Hnf & Hns).
    { destruct Hlive as [Hlive|[_ H]]; [|exact H]. destruct (proj1 (live_14 N own s j) Hlive) as [Hj Ho]. rewrite Ho.
      simpl in Hj. split; [lia | done]. }
    rewrite (free_offset N s P14 j) by (done || (simpl; lia)).
    eapply wp_mono; [by apply free_primary|]. intros [] s' Hf.
    unfold _bitfield_merge_up. rewrite Z.eqb_refl. bred. wp_steps. eauto.
  - destruct Hlive as [Hlive|[? _]]; [|done]. apply live_sub in Hlive as (Hj & Ho & Hb); [|done].
    rewrite (free_offset N s p j) by done.
    eapply wp_mono; [apply (pool_bf_clr N); [apply Hinv | done | done]|].
    intros [] s1 [Hkept Hch]. eapply wp_mono; [by eapply merge_up|].
    intros [] s' [own' Hf]. by exists own'.
Qed.
