(* ===== verification/UtRefine.v ===== *)
(** * UtRefine: the allocator implements a set of live blocks

    The linked list pools of [UtAllocator] and the theorems about [ut_alloc],
    [ut_free] and [ut_allocator_init] as a whole. *)

From S2P Require Import Prelude Bitfield UtAllocator.

(** ** Doubly linked lists of suballocators *)

(** From the pointer [p], stored at [r], the heap [h] holds the nodes [l]. *)
Fixpoint dchain (h : gmap Z suballocator_t) (r : pool_ref) (p : Z) (l : list Z) : Prop :=
  match l with
  | [] => p = 0
  | a :: l' => p = a /\ a <> 0 /\
      exists n, h !! a = Some n /\ prev n = Some r /\ dchain h (NextOf a) (next n) l'
  end.

Definition with_prev (r : option pool_ref) (n : suballocator_t) :=
  Suballocator r (next n) (base n) (bitfield n).
Definition with_next (p : Z) (n : suballocator_t) :=
  Suballocator (prev n) p (base n) (bitfield n).
Definition with_bf (bf : bitfield_t) (n : suballocator_t) :=
  Suballocator (prev n) (next n) (base n) bf.

Lemma dchain_elem h r p l a : dchain h r p l -> a ∈ l -> a <> 0 /\ is_Some (h !! a).
Proof.
  revert r p. induction l as [|x l IH]; intros r p H Ha; [by apply not_elem_of_nil in Ha|].
  destruct H as (-> & Hx & n & Hn & _ & H). apply elem_of_cons in Ha as [->|Ha]; eauto.
Qed.

Lemma dchain_frame h h' r p l :
  (forall a, a ∈ l -> h' !! a = h !! a) -> dchain h r p l -> dchain h' r p l.
Proof.
  revert r p. induction l as [|x l IH]; intros r p Hf H; [done|].
  destruct H as (-> & Hx & n & Hn & Hp & H). split; [done|]. split; [done|]. exists n.
  rewrite Hf by constructor. split; [done|]. split; [done|].
  apply IH; [|done]. intros. apply Hf. by constructor.
Qed.

(** Changing the data of a node keeps the links. *)
Lemma dchain_data h r p l a n n' :
  h !! a = Some n -> prev n' = prev n -> next n' = next n ->
  dchain h r p l -> dchain (<[a := n']> h) r p l.
Proof.
  intros Ha Hp Hn. revert r p. induction l as [|x l IH]; intros r p H; [done|].
  destruct H as (-> & Hx & m & Hm & Hpm & H). split; [done|]. split; [done|].
  destruct (decide (x = a)) as [->|].
  - exists n'. rewrite lookup_insert_eq. rewrite Ha in Hm. injection Hm as <-.
    split; [done|]. split; [congruence|]. rewrite Hn. by apply IH.
  - exists m. rewrite lookup_insert_ne by done. auto.
Qed.

(** Redirecting the back pointer of the first node. *)
Lemma dchain_reprev h r r' p l :
  NoDup l -> h !! 0 = None -> dchain h r p l -> dchain (alter (with_prev (Some r')) p h) r' p l.
Proof.
  destruct l as [|a l]; [done|]. intros Hnd H0 (-> & Ha & n & Hn & Hp & H).
  apply NoDup_cons in Hnd as [Hna Hnd].
  split; [done|]. split; [done|]. exists (with_prev (Some r') n).
  rewrite lookup_alter_eq, Hn. split; [done|]. split; [done|]. simpl.
  eapply dchain_frame; [|exact H]. intros x Hx. apply lookup_alter_ne. congruence.
Qed.

(** Attaching a node at the head. *)
Lemma dchain_attach h r p l a bs bf :
  a <> 0 -> a ∉ l -> NoDup l -> h !! 0 = None -> dchain h r p l ->
  dchain (<[a := Suballocator (Some r) p bs bf]> (alter (with_prev (Some (NextOf a))) p h)) r a (a :: l).
Proof.
  intros Ha Hal Hnd H0 H. split; [done|]. split; [done|]. eexists.
  rewrite lookup_insert_eq. split; [done|]. split; [done|]. simpl.
  eapply dchain_frame; [|by eapply dchain_reprev].
  intros x Hx. apply lookup_insert_ne. congruence.
Qed.

Definition last_ref (r : pool_ref) (l1 : list Z) : pool_ref :=
  match last l1 with Some x => NextOf x | None => r end.

Lemma last_ref_cons r x l1 : last_ref r (x :: l1) = last_ref (NextOf x) l1.
Proof. unfold last_ref. rewrite last_cons. by destruct (last l1). Qed.

Lemma dchain_prev h r p l1 a l2 n :
  dchain h r p (l1 ++ a :: l2) -> h !! a = Some n ->
  prev n = Some (last_ref r l1) /\ dchain h (NextOf a) (next n) l2.
Proof.
  revert r p. induction l1 as [|x l1 IH]; intros r p H Hn.
  - destruct H as (_ & _ & m & Hm & Hp & H). rewrite Hn in Hm. injection Hm as <-. done.
  - destruct H as (_ & _ & m & Hm & Hp & H). rewrite last_ref_cons. by eapply IH.
Qed.

(** The heap after [node->next->prev = node->prev; *node->prev = node->next]. *)
Definition unlink (h : gmap Z suballocator_t) (n : suballocator_t) (r : pool_ref) : gmap Z suballocator_t :=
  let h1 := alter (with_prev (Some r)) (next n) h in
  match r with
  | PoolHead _ => h1
  | NextOf x => alter (with_next (next n)) x h1
  end.

Lemma last_ref_elem x l1 y : last_ref (NextOf x) l1 = NextOf y -> y = x \/ y ∈ l1.
Proof.
  unfold last_ref. destruct (last l1) eqn:E; intros [= <-]; [right | by left].
  apply last_Some_elem_of. done.
Qed.

Lemma dchain_next_head h r p l : dchain h r p l -> p = 0 \/ p ∈ l.
Proof. destruct l as [|a l]; [by left|]. intros (-> & _). right. constructor. Qed.

Lemma unlink_other h n r x :
  x <> next n -> r <> NextOf x -> unlink h n r !! x = h !! x.
Proof.
  intros Hx Hr. unfold unlink. destruct r as [?|y].
  - by rewrite lookup_alter_ne.
  - rewrite !lookup_alter_ne; [done | done | congruence].
Qed.

Lemma dchain_unlink h a l2 n : h !! 0 = None -> h !! a = Some n -> forall l1 r p,
  NoDup (l1 ++ a :: l2) -> (forall x, r = NextOf x -> x ∉ l1 ++ a :: l2) ->
  dchain h r p (l1 ++ a :: l2) ->
  dchain (unlink h n (last_ref r l1)) r (match l1 with [] => next n | _ => p end) (l1 ++ l2).
Proof.
  intros H0 Hn. induction l1 as [|x l1 IH]; intros r p Hnd Hr H.
  - destruct H as (-> & Ha & n' & Hn' & Hp & H). rewrite Hn in Hn'. injection Hn' as <-. simpl in *.
    apply NoDup_cons in Hnd as [Hna Hnd]. unfold last_ref. simpl last. cbv iota.
    eapply dchain_frame; [|by eapply dchain_reprev].
    intros y Hy. unfold unlink. destruct r as [?|z]; [done|].
    apply lookup_alter_ne. intros ->. apply (Hr y); [done|]. by constructor.
  - simpl in Hnd, Hr, H. destruct H as (-> & Hx & m & Hm & Hp & H).
    apply NoDup_cons in Hnd as [Hnx Hnd].
    assert (x <> next n) as Hxn.
    { destruct (dchain_prev h _ _ l1 a l2 n H Hn) as [_ H2].
      apply dchain_next_head in H2 as [->|H2]; [done|]. intros ->. apply Hnx.
      apply elem_of_app. right. by constructor. }
    rewrite last_ref_cons. split; [done|]. split; [done|].
    assert (forall y, NextOf x = NextOf y -> y ∉ l1 ++ a :: l2) as Hr' by (intros y [= <-]; done).
    specialize (IH (NextOf x) (next m) Hnd Hr' H). destruct l1 as [|y l1].
    + exists (with_next (next n) m). split; [|done].
      unfold last_ref, unlink. simpl. by rewrite lookup_alter_eq, lookup_alter_ne, Hm.
    + exists m. split; [|done]. rewrite unlink_other, Hm; [done | done |].
      rewrite last_ref_cons. intros Heq. apply last_ref_elem in Heq as [->|Hin]; apply Hnx.
      * constructor.
      * simpl. apply elem_of_cons. right. apply elem_of_app. by left.
Qed.

(** ** Pointer operations *)

Definition head_of (sz : Z) (s : ut_state) : Z := if sz =? 9 then pool9 s else pool4 s.
Definition set_head (sz x : Z) (s : ut_state) : ut_state :=
  if sz =? 9 then set_pool9 x s else set_pool4 x s.

Lemma set_head_id sz s : set_head sz (head_of sz s) s = s.
Proof. unfold set_head, head_of. destruct (sz =? 9); by destruct s. Qed.

Lemma alter_Some {A} (f : A -> A) (m : gmap Z A) i x :
  m !! i = Some x -> alter f i m = <[i := f x]> m.
Proof.
  intros H. apply map_eq. intros j. destruct (decide (i = j)) as [<-|].
  - by rewrite lookup_alter_eq, lookup_insert_eq, H.
  - by rewrite lookup_alter_ne, lookup_insert_ne.
Qed.

Lemma alter_None {A} (f : A -> A) (m : gmap Z A) i : m !! i = None -> alter f i m = m.
Proof.
  intros H. apply map_eq. intros j. destruct (decide (i = j)) as [<-|].
  - by rewrite lookup_alter_eq, H.
  - by rewrite lookup_alter_ne.
Qed.

Lemma wp_node_deref p n Q (s : ut_state) :
  p <> 0 -> snodes s !! p = Some n -> Q n s -> wp (deref p) Q s.
Proof. intros Hp Hn HQ. unfold wp, deref. apply Z.eqb_neq in Hp. by rewrite Hp, Hn. Qed.

Lemma wp_set_prev p x n Q (s : ut_state) :
  p <> 0 -> snodes s !! p = Some n ->
  Q tt (set_snodes (alter (with_prev x) p (snodes s)) s) -> wp (set_prev p x) Q s.
Proof.
  intros Hp Hn HQ. unfold set_prev. wp_steps. eapply wp_node_deref; [done..|].
  unfold store. wp_steps. by rewrite (alter_Some _ _ _ _ Hn) in HQ.
Qed.

Lemma wp_node_set_next p x n Q (s : ut_state) :
  p <> 0 -> snodes s !! p = Some n ->
  Q tt (set_snodes (alter (with_next x) p (snodes s)) s) -> wp (set_next p x) Q s.
Proof.
  intros Hp Hn HQ. unfold set_next. wp_steps. eapply wp_node_deref; [done..|].
  unfold store. wp_steps. by rewrite (alter_Some _ _ _ _ Hn) in HQ.
Qed.

(** [if (p) p->prev = x;] *)
Lemma wp_cond_set_prev p x Q (s : ut_state) :
  snodes s !! 0 = None -> (p = 0 \/ is_Some (snodes s !! p)) ->
  Q tt (set_snodes (alter (with_prev x) p (snodes s)) s) ->
  wp (if negb (p =? 0) then set_prev p x else ret tt) Q s.
Proof.
  intros H0 Hp HQ. destruct (Z.eqb_spec p 0) as [->|Hne]; bred.
  - wp_steps. rewrite alter_None in HQ by done. by destruct s.
  - destruct Hp as [?|[n Hn]]; [done|]. by eapply wp_set_prev.
Qed.

Lemma wp_load_head sz Q s : Q (head_of sz s) s -> wp (load_ref (PoolHead sz)) Q s.
Proof. done. Qed.

Lemma wp_store_head sz x Q s : Q tt (set_head sz x s) -> wp (store_ref (PoolHead sz) x) Q s.
Proof. unfold store_ref, set_head. intros H. wp_steps. by destruct (sz =? 9). Qed.

Lemma attach_spec sz l a bs bf s :
  dchain (snodes s) (PoolHead sz) (head_of sz s) l -> a <> 0 -> a ∉ l ->
  snodes s !! 0 = None -> snodes s !! a = Some (Suballocator None 0 bs bf) ->
  wp (_pool_list_attach (PoolHead sz) a) (fun _ s' =>
    s' = set_head sz a (set_snodes
      (<[a := Suballocator (Some (PoolHead sz)) (head_of sz s) bs bf]>
        (alter (with_prev (Some (NextOf a))) (head_of sz s) (snodes s))) s)) s.
Proof.
  intros Hc Ha Hal H0 Hn. unfold _pool_list_attach. wp_steps.
  assert (head_of sz s = 0 \/ (head_of sz s ∈ l /\ is_Some (snodes s !! head_of sz s))) as Hh.
  { destruct (dchain_next_head _ _ _ _ Hc) as [|Hin]; [by left|]. right. split; [done|].
    by apply (dchain_elem _ _ _ _ _ Hc Hin). }
  assert (head_of sz s <> a) as Hha by (destruct Hh as [->|[Hin _]]; congruence).
  apply wp_assert; [by apply negb_true_iff, Z.eqb_neq|]. wp_steps.
  eapply wp_node_deref; [done..|]. wp_steps. apply wp_assert; [done|]. wp_steps.
  apply wp_assert; [done|]. wp_steps. apply wp_load_head. wp_steps.
  eapply wp_node_set_next; [done..|]. wp_steps. apply wp_cond_set_prev.
  { simpl. by rewrite lookup_alter_ne. }
  { simpl. destruct Hh as [->|[_ ?]]; [by left | right]. by rewrite lookup_alter_ne by congruence. }
  wp_steps. eapply wp_set_prev; [done | |].
  { simpl. rewrite lookup_alter_ne by done. by rewrite lookup_alter_eq, Hn. }
  wp_steps. apply wp_store_head. f_equal. unfold set_snodes; simpl. f_equal.
  apply map_eq. intros x. destruct (decide (a = x)) as [<-|].
  - rewrite lookup_alter_eq, lookup_insert_eq. rewrite lookup_alter_ne by done.
    by rewrite lookup_alter_eq, Hn.
  - rewrite lookup_insert_ne, lookup_alter_ne by done.
    destruct (decide (head_of sz s = x)) as [<-|].
    + rewrite !lookup_alter_eq. by rewrite lookup_alter_ne by congruence.
    + rewrite !lookup_alter_ne by congruence. done.
Qed.

Lemma wp_store_ref_unlink sz l1 l2 a n s Q :
  NoDup (l1 ++ a :: l2) -> snodes s !! 0 = None -> snodes s !! a = Some n ->
  dchain (snodes s) (PoolHead sz) (head_of sz s) (l1 ++ a :: l2) ->
  Q tt (set_head sz (match l1 with [] => next n | _ => head_of sz s end)
          (set_snodes (unlink (snodes s) n (last_ref (PoolHead sz) l1)) s)) ->
  wp (store_ref (last_ref (PoolHead sz) l1) (next n)) Q
     (set_snodes (alter (with_prev (Some (last_ref (PoolHead sz) l1))) (next n) (snodes s)) s).
Proof.
  intros Hnd H0 Hn Hc HQ. destruct l1 as [|x l1]; [by apply wp_store_head|].
  rewrite last_ref_cons in *. unfold last_ref in *.
  assert (exists y, match last l1 with Some z => NextOf z | None => NextOf x end = NextOf y /\ y ∈ x :: l1)
    as (y & Ey & Hy).
  { destruct (last l1) as [z|] eqn:E; eexists; (split; [done|]); [|constructor].
    apply elem_of_cons. right. by apply last_Some_elem_of. }
  rewrite Ey in *. destruct (dchain_elem _ _ _ _ y Hc) as [Hy0 [m Hm]].
  { apply elem_of_app. by left. }
  destruct (decide (y = next n)) as [->|Hne].
  - destruct (dchain_prev _ _ _ (x :: l1) a l2 n Hc Hn) as [_ H2].
    apply dchain_next_head in H2 as [?|Hin]; [done|]. apply NoDup_app in Hnd as (_ & Hd & _).
    destruct (Hd _ Hy). by constructor.
  - eapply wp_node_set_next; [done | simpl; rewrite lookup_alter_ne by congruence; done |].
    simpl. unfold unlink in HQ. unfold set_head, head_of in HQ. by destruct s, (sz =? 9).
Qed.

Lemma dchain_last_next h r p l1 a l2 :
  dchain h r p (l1 ++ a :: l2) ->
  match last l1 with None => p = a | Some y => y <> 0 /\ exists m, h !! y = Some m /\ next m = a end.
Proof.
  revert r p. induction l1 as [|x l1 IH]; intros r p H; [by destruct H|].
  destruct H as (-> & Hx & m & Hm & _ & H). rewrite last_cons. specialize (IH _ _ H).
  destruct (last l1); [done|]. eauto.
Qed.

Lemma wp_load_last sz l1 a l2 Q s :
  dchain (snodes s) (PoolHead sz) (head_of sz s) (l1 ++ a :: l2) ->
  Q a s -> wp (load_ref (last_ref (PoolHead sz) l1)) Q s.
Proof.
  intros H HQ. apply dchain_last_next in H. unfold last_ref.
  destruct (last l1) as [y|]; [|apply wp_load_head; by rewrite H].
  destruct H as (Hy & m & Hm & <-). unfold load_ref. wp_steps. by eapply wp_node_deref.
Qed.

Lemma set_snodes_head h sz x s : set_snodes h (set_head sz x s) = set_head sz x (set_snodes h s).
Proof. unfold set_head. by destruct (sz =? 9). Qed.

Lemma snodes_head sz x s : snodes (set_head sz x s) = snodes s.
Proof. unfold set_head. by destruct (sz =? 9). Qed.

Lemma detach_spec sz l1 a l2 n s :
  NoDup (l1 ++ a :: l2) -> snodes s !! 0 = None -> snodes s !! a = Some n ->
  dchain (snodes s) (PoolHead sz) (head_of sz s) (l1 ++ a :: l2) ->
  wp (_pool_list_detach a) (fun _ s' => exists h',
    s' = set_head sz (match l1 with [] => next n | _ => head_of sz s end) (set_snodes h' s) /\
    (forall x, x <> a -> h' !! x = unlink (snodes s) n (last_ref (PoolHead sz) l1) !! x) /\
    h' !! a = Some (Suballocator None 0 (base n) (bitfield n))) s.
Proof.
  intros Hnd H0 Hn Hc. destruct (dchain_prev _ _ _ _ _ _ _ Hc Hn) as [Hprev H2].
  assert (a <> 0) as Ha0 by (intros ->; congruence).
  assert ((a ∉ l1) /\ (a ∉ l2)) as [Ha1 Ha2].
  { apply NoDup_app in Hnd as (_ & Hd & Hnd2). apply NoDup_cons in Hnd2 as [? _].
    split; [|done]. intros Hin. apply (Hd _ Hin). constructor. }
  assert (next n = 0 \/ next n ∈ l2) as Hnx by by eapply dchain_next_head.
  assert (next n <> a) as Hna by (destruct Hnx; congruence).
  assert (unlink (snodes s) n (last_ref (PoolHead sz) l1) !! a = Some n) as Hu.
  { rewrite unlink_other; [done | done |]. unfold last_ref. destruct (last l1) eqn:E; [|done].
    intros [= ->]. apply Ha1. by apply last_Some_elem_of. }
  unfold _pool_list_detach. wp_steps. apply wp_assert; [by apply negb_true_iff, Z.eqb_neq|].
  wp_steps. eapply wp_node_deref; [done..|]. wp_steps. rewrite Hprev. unfold the_ref. wp_steps.
  eapply wp_load_last; [done|]. wp_steps. apply wp_assert; [by apply negb_true_iff, Z.eqb_neq|].
  wp_steps. apply wp_cond_set_prev; [done | |].
  { destruct Hnx as [|Hin]; [by left | right]. by apply (dchain_elem _ _ _ _ _ H2). }
  wp_steps. eapply wp_node_deref; [done | simpl; rewrite lookup_alter_ne by done; done |].
  wp_steps. eapply wp_store_ref_unlink; [done..|]. wp_steps.
  eapply wp_set_prev; [done | rewrite snodes_head; done |].
  wp_steps. rewrite set_snodes_head, snodes_head. simpl.
  eapply wp_node_set_next; [done | rewrite snodes_head; simpl; rewrite lookup_alter_eq, Hu; done |].
  rewrite set_snodes_head, snodes_head. simpl. eexists. split; [done|]. split.
  - intros x Hx. by rewrite !lookup_alter_ne.
  - by rewrite !lookup_alter_eq, Hu.
Qed.

(** ** The searches *)

Lemma find_node_spec h test : forall l r p fuel s,
  snodes s = h -> dchain h r p l -> (length l < fuel)%nat ->
  wp (find_node fuel p test) (fun x s' => s' = s /\
    ((x = 0 /\ forall a n, a ∈ l -> h !! a = Some n -> test n = false) \/
     (x ∈ l /\ exists n, h !! x = Some n /\ test n = true))) s.
Proof.
  induction l as [|a l IH]; intros r p fuel s Hs H Hfuel; destruct fuel as [|fuel]; simpl in Hfuel;
    try lia; simpl find_node.
  - simpl in H. subst p. rewrite Z.eqb_refl. wp_steps. split; [done|]. left. split; [done|].
    intros a n Ha. by apply not_elem_of_nil in Ha.
  - destruct H as (-> & Ha & n & Hn & _ & H). destruct (Z.eqb_spec a 0); [done|]. wp_steps.
    eapply wp_node_deref; [done | by rewrite Hs |]. destruct (test n) eqn:Et.
    + wp_steps. split; [done|]. right. split; [constructor | eauto].
    + eapply wp_mono; [eapply IH; [done | done | lia]|]. intros x s' [-> Hx]. split; [done|].
      destruct Hx as [[-> Hall]|[Hin Hx]]; [left|right; split; [by constructor | done]].
      split; [done|]. intros y m Hy Hm. apply elem_of_cons in Hy as [->|Hy]; [|by eapply Hall].
      rewrite Hn in Hm. by injection Hm as <-.
Qed.

Lemma dchain_length h r p l : NoDup l -> dchain h r p l -> (length l <= base.size h)%nat.
Proof.
  intros Hnd H. rewrite <- (size_list_to_set (C := gset Z) l Hnd), <- (size_dom (D := gset Z) h).
  apply subseteq_size. intros a Ha. apply elem_of_list_to_set in Ha. apply elem_of_dom.
  by apply (dchain_elem _ _ _ _ _ H).
Qed.

(** ** The invariant of the whole allocator *)

Definition sub (sz : Z) : Prop := sz = 9 \/ sz = 4.

(** Units of a suballocator. *)
Definition sunits (sz : Z) : Z := 2 ^ (14 - sz).

Record node_ok (N : Z) (own : Z -> owner) (bs : Z) (sz : Z) (n : suballocator_t) (k : Z) : Prop := {
  no_slab : 0 <= k < N;
  no_base : base n = bs + k * 2 ^ 14;
  no_own : own k = OSub sz;
  no_wf : bf_wf (bitfield n);
  no_size : size (bitfield n) = sunits sz
}.

Record lists_inv (N : Z) (own : Z -> owner) (ls : Z -> list Z) (s : ut_state) : Prop := {
  li_chain : forall sz, sub sz -> dchain (snodes s) (PoolHead sz) (head_of sz s) (ls sz);
  li_nodup : forall sz, sub sz -> NoDup (ls sz);
  li_node : forall sz a n, sub sz -> a ∈ ls sz -> snodes s !! a = Some n ->
            exists k, node_ok N own (pool_base s) sz n k;
  li_dom : forall a n, snodes s !! a = Some n -> exists sz, sub sz /\ a ∈ ls sz;
  li_base : forall a1 a2 n1 n2, snodes s !! a1 = Some n1 -> snodes s !! a2 = Some n2 ->
            base n1 = base n2 -> a1 = a2;
  li_cover : forall k sz, own k = OSub sz ->
             sub sz /\ exists a n, snodes s !! a = Some n /\ node_ok N own (pool_base s) sz n k
}.

(** Every suballocator has a unit in use. *)
Definition node_used (n : suballocator_t) : Prop :=
  exists u, 0 <= u < size (bitfield n) /\ bit_at (b (bitfield n)) u = true.

Record ut_inv (N : Z) (own : Z -> owner) (ls : Z -> list Z) (s : ut_state) : Prop := {
  ui_init : initialised s = true;
  ui_placed : placed N s;
  ui_pools : pools_inv N own s;
  ui_lists : lists_inv N own ls s;
  ui_used : forall a n, snodes s !! a = Some n -> node_used n
}.

(** Unit [u] of the suballocator of slab [k], of size [sz], is handed out. *)
Definition live_sub_unit (s : ut_state) (k sz u : Z) : Prop :=
  exists a n, snodes s !! a = Some n /\ base n = pool_base s + k * 2 ^ 14 /\
    0 <= u < sunits sz /\ bit_at (b (bitfield n)) u = true.

(** The blocks handed out, as address and size. *)
Definition live (N : Z) (own : Z -> owner) (s : ut_state) (x : Z * Z) : Prop :=
  (exists p j, x = (unit_addr s p j, bits p) /\ live_unit N own s p j) \/
  (exists k sz u, x = (pool_base s + k * 2 ^ 14 + u * 2 ^ sz, sz) /\
     own k = OSub sz /\ live_sub_unit s k sz u).

(** *** Blocks do not overlap *)

Definition disjoint_blocks (x y : Z * Z) : Prop :=
  x.1 + 2 ^ x.2 <= y.1 \/ y.1 + 2 ^ y.2 <= x.1.

(** The slab of a live block, and its place in it. *)
Lemma live_slab N own ls s x :
  ut_inv N own ls s -> live N own s x ->
  exists k u, 0 <= k < N /\ own k <> OFree /\ x.1 = pool_base s + k * 2 ^ 14 + u * 2 ^ x.2 /\
    0 <= u < 2 ^ (14 - x.2) /\ 0 <= x.2 <= 14 /\
    (forall p, own k = OSplit p -> x.2 = bits p) /\ (own k = OWhole -> x.2 = 14) /\
    (forall sz, own k = OSub sz -> x.2 = sz).
Proof.
  intros Hinv [(p & j & -> & Hl)|(k & sz & u & -> & Hown & a & n & Hn & Hb & Hu & Hbit)]; simpl.
  - destruct (decide (p = P14)) as [->|Hp].
    + destruct (proj1 (live_14 N own s j) Hl) as [Hj Ho]. exists j, 0. rewrite Ho. simpl in *.
      unfold unit_addr. simpl. repeat split; try lia; try done.
    + apply live_sub in Hl as (Hj & Ho & Hbit); [|done].
      exists (j / upp p), (j mod upp p). rewrite Ho. split; [by apply slab_of_unit|].
      pose proof (upp_pos p). pose proof (Z.mod_pos_bound j (upp p) ltac:(lia)).
      pose proof (Z.div_mod j (upp p) ltac:(lia)). split; [done|].
      split; [unfold unit_addr; rewrite (upp_bits p); nia|].
      split; [by destruct p|]. split; [by destruct p|]. split; [by intros q [= <-] | done].
  - exists k, u. rewrite Hown.
    destruct (li_cover N own ls s (ui_lists _ _ _ _ Hinv) k sz Hown) as (Hsub & a' & n' & _ & Hok).
    split; [apply Hok|]. split; [done|]. split; [done|]. split; [done|].
    split; [destruct Hsub; lia|]. split; [done|]. split; [done|]. by intros ? [= ->].
Qed.

Lemma slab_split sz : 0 <= sz <= 14 -> 2 ^ 14 = 2 ^ (14 - sz) * 2 ^ sz.
Proof. intros. rewrite <- Z.pow_add_r by lia. f_equal. lia. Qed.

Lemma live_disjoint N own ls s x y :
  ut_inv N own ls s -> live N own s x -> live N own s y -> x <> y -> disjoint_blocks x y.
Proof.
  intros Hinv Hx Hy Hne.
  destruct (live_slab _ _ _ _ _ Hinv Hx) as (k & u & Hk & Hnf & Hxa & Hu & Hsx & Hs1 & Hs2 & Hs3).
  destruct (live_slab _ _ _ _ _ Hinv Hy) as (k' & u' & Hk' & _ & Hya & Hu' & Hsy & Hs1' & Hs2' & Hs3').
  destruct x as [xa xs], y as [ya ys]; simpl in *. unfold disjoint_blocks; simpl.
  pose proof (slab_split xs Hsx). pose proof (slab_split ys Hsy).
  assert (0 < 2 ^ xs /\ 0 < 2 ^ ys) as [? ?] by (split; apply Z.pow_pos_nonneg; lia).
  destruct (decide (k = k')) as [<-|Hkk]; [|destruct (Z.lt_total k k') as [|[|]]; [left|done|right]; nia].
  assert (xs = ys) as <-.
  { destruct (own k) eqn:E; [done | | |].
    - rewrite (Hs2 eq_refl), (Hs2' eq_refl). done.
    - rewrite (Hs1 _ eq_refl), (Hs1' _ eq_refl). done.
    - rewrite (Hs3 _ eq_refl), (Hs3' _ eq_refl). done. }
  assert (u <> u') by (intros <-; apply Hne; congruence).
  destruct (Z.lt_total u u') as [|[|]]; [left|done|right]; nia.
Qed.

Lemma live_range N own ls s x :
  ut_inv N own ls s -> live N own s x ->
  0 < pool_base s <= x.1 /\ x.1 + 2 ^ x.2 <= pool_base s + N * 2 ^ 14 <= 2 ^ 32 /\ x.1 mod 2 ^ x.2 = 0.
Proof.
  intros Hinv Hx.
  destruct (live_slab _ _ _ _ _ Hinv Hx) as (k & u & Hk & Hnf & Hxa & Hu & Hsx & _).
  destruct (ui_placed _ _ _ _ Hinv) as (Hb0 & Hbm & Hb).
  destruct x as [xa xs]; simpl in *. pose proof (slab_split xs Hsx) as Hs.
  assert (0 < 2 ^ xs) by (apply Z.pow_pos_nonneg; lia).
  split; [nia|]. split; [nia|].
  rewrite Hxa, Z_mod_plus_full. apply Z.mod_divide; [lia|].
  apply Z.mod_divide in Hbm as [c Hc]; [|lia]. rewrite Hc, Hs.
  exists ((c + k) * 2 ^ (14 - xs)). lia.
Qed.

(** *** The invariant moves along changes of the bit fields *)

Lemma lists_inv_same N own own' ls s s' :
  lists_inv N own ls s -> same_lists s s' ->
  (forall k sz, own' k = OSub sz <-> own k = OSub sz) ->
  lists_inv N own' ls s'.
Proof.
  intros [Hc Hnd Hn Hd Hb Hcov] (H9 & H4 & Hsn & Hi & Hpb) Hown.
  assert (forall sz, head_of sz s' = head_of sz s) as Hh by (intros; unfold head_of; by rewrite H9, H4).
  assert (forall sz n k, node_ok N own (pool_base s) sz n k -> node_ok N own' (pool_base s') sz n k) as Hok.
  { intros sz n k [? ? ? ? ?]. split; try done; [by rewrite Hpb | by apply Hown]. }
  split; rewrite ?Hsn; try done.
  - intros sz Hsz. rewrite Hh. auto.
  - intros sz a n Hsz Ha Hs. destruct (Hn sz a n Hsz Ha Hs) as [k Hk]. eauto.
  - intros k sz Ho. apply Hown in Ho. destruct (Hcov k sz Ho) as (Hsz & a & n & Hs & Hk). eauto 6.
Qed.

Lemma live_sub_same s s' k sz u :
  same_lists s s' -> live_sub_unit s' k sz u <-> live_sub_unit s k sz u.
Proof. intros (_ & _ & Hsn & _ & Hpb). unfold live_sub_unit. by rewrite Hsn, Hpb. Qed.

Lemma unit_addr_inj s p q i j :
  (unit_addr s p i, bits p) = (unit_addr s q j, bits q) -> p = q /\ i = j.
Proof.
  intros [= Ha Hb]. assert (p = q) as <- by (by destruct p, q). split; [done|].
  unfold unit_addr in Ha. assert (0 < 2 ^ bits p) by (by destruct p). nia.
Qed.

Lemma unit_addr_same s s' p j : same_lists s s' -> unit_addr s' p j = unit_addr s p j.
Proof. intros (_ & _ & _ & _ & Hpb). unfold unit_addr. by rewrite Hpb. Qed.

Lemma bits_not_sub p sz : sub sz -> bits p <> sz.
Proof. intros [-> | ->]; by destruct p. Qed.

Lemma ut_inv_same N own own' ls s s' :
  ut_inv N own ls s -> same_lists s s' -> pools_inv N own' s' ->
  (forall k sz, own' k = OSub sz <-> own k = OSub sz) ->
  ut_inv N own' ls s'.
Proof.
  intros [Hi Hpl Hp Hl Hu] Hsame Hp' Hown. pose proof Hsame as (_ & _ & Hsn & Hin & Hpb).
  split; [congruence | | done | by eapply lists_inv_same | by rewrite Hsn].
  unfold placed. by rewrite Hpb.
Qed.

(** The live blocks after a change of the pool units. *)
Lemma live_change N own own' s s' (P : bf_pool -> Z -> Prop) x :
  same_lists s s' -> (forall k sz, own' k = OSub sz <-> own k = OSub sz) ->
  (forall q i, live_unit N own' s' q i <-> P q i) ->
  live N own' s' x <->
  (exists p j, x = (unit_addr s p j, bits p) /\ P p j) \/
  (exists k sz u, x = (pool_base s + k * 2 ^ 14 + u * 2 ^ sz, sz) /\
     own k = OSub sz /\ live_sub_unit s k sz u).
Proof.
  intros Hsame Hown HP. pose proof Hsame as (_ & _ & _ & _ & Hpb). unfold live. rewrite Hpb. split.
  - intros [(p & j & -> & Hl)|(k & sz & u & -> & Ho & Hl)].
    + left. exists p, j. rewrite (unit_addr_same s s') by done. split; [done|]. by apply HP.
    + right. exists k, sz, u. split; [done|]. split; [by apply Hown | by apply (live_sub_same s s')].
  - intros [(p & j & -> & Hl)|(k & sz & u & -> & Ho & Hl)].
    + left. exists p, j. rewrite (unit_addr_same s s') by done. split; [done|]. by apply HP.
    + right. exists k, sz, u. split; [done|]. split; [by apply Hown | by apply (live_sub_same s s')].
Qed.

(** ** Allocation and release *)

(** The search hints stay in range, except that of a pool that ran dry. *)
Definition hints_kept (s s' : ut_state) (sz addr : Z) : Prop :=
  forall q, healthy s q -> (addr = 0 -> bits q = sz -> q = P14) -> healthy s' q.

(** The block [(addr, sz)] was handed out. *)
Definition took (N : Z) (own : Z -> owner) (s : ut_state) (sz addr : Z) (s' : ut_state) : Prop :=
  exists own' ls', ut_inv N own' ls' s' /\ heal s s' /\ pool_base s' = pool_base s /\
    addr <> 0 /\ ~ live N own s (addr, sz) /\
    forall x, live N own' s' x <-> live N own s x \/ x = (addr, sz).

(** Nothing was handed out: there was no slab left, or [W]. *)
Definition no_block (N : Z) (own : Z -> owner) (W : Prop) (s : ut_state) (sz addr : Z) (s' : ut_state) : Prop :=
  exists own' ls', ut_inv N own' ls' s' /\ hints_kept s s' sz addr /\ pool_base s' = pool_base s /\
    addr = 0 /\ (full N s P14 \/ W) /\
    forall x, live N own' s' x <-> live N own s x.

Definition alloc_post (N : Z) (own : Z -> owner) (W : Prop) (s : ut_state) (sz addr : Z)
    (s' : ut_state) : Prop :=
  took N own s sz addr s' \/ no_block N own W s sz addr s'.

Definition free_post (N : Z) (own : Z -> owner) (s : ut_state) (sz addr : Z) (s' : ut_state) : Prop :=
  exists own' ls', ut_inv N own' ls' s' /\ heal s s' /\ pool_base s' = pool_base s /\
  forall x, live N own' s' x <-> live N own s x /\ x <> (addr, sz).

Lemma healthy_hint N s s' p q :
  only_hint N s s' p -> (p = P14 -> s' = s) -> healthy s q -> (p = q -> q = P14) -> healthy s' q.
Proof.
  intros (_ & _ & _ & Hh) H14 Hq Hpq. destruct (decide (q = p)) as [->|]; [|by apply Hh].
  by rewrite H14 by (apply Hpq; done).
Qed.

Lemma bits_inj p q : bits p = bits q -> p = q.
Proof. by destruct p, q. Qed.

Lemma live_unit_hint N own s s' p q i :
  only_hint N s s' p -> live_unit N own s' q i <-> live_unit N own s q i.
Proof. intros (_ & _ & Hb & _). unfold live_unit. by rewrite Hb. Qed.

Lemma not_live_unit N own ls s p j :
  ut_inv N own ls s -> ~ live_unit N own s p j -> ~ live N own s (unit_addr s p j, bits p).
Proof.
  intros Hinv Hn [(q & i & Heq & Hl)|(k & sz & u & Heq & Ho & _)].
  - apply unit_addr_inj in Heq as [<- <-]. done.
  - injection Heq as _ Heq. destruct (li_cover _ _ _ _ (ui_lists _ _ _ _ Hinv) k sz Ho) as [Hsub _].
    by apply (bits_not_sub p sz).
Qed.

Lemma ut_alloc_bitfield N own ls s p :
  ut_inv N own ls s -> healthy s p ->
  wp (do_ut_alloc_from_bitfield (bits p)) (alloc_post N own False s (bits p)) s.
Proof.
  intros Hinv Hh. eapply wp_mono; [apply alloc_from_bitfield; [apply Hinv | apply Hinv | done]|].
  intros addr s' [(-> & Hf & Hhint & H14)|(j & own' & -> & Ht & _)].
  - right. exists own, ls. split; [|split; [|split; [apply Hhint|split; [done|split; [by left|]]]]].
    + eapply ut_inv_same; [done | apply Hhint | eapply pools_inv_hint; [apply Hinv | done] | done].
    + intros q Hq Hne. eapply healthy_hint; eauto. intros ->. by apply Hne.
    + intros x. rewrite (live_change N own own s s' (live_unit N own s) x); [done | apply Hhint | done |].
      intros q i. by apply (live_unit_hint N own s s' p).
  - destruct Ht as [Hr Hp' Hsame Hheal Hnew Hlive Hown]. left. exists own', ls.
    split; [by eapply ut_inv_same|]. split; [done|]. split; [apply Hsame|].
    destruct (unit_addr_range N s p j (ui_placed _ _ _ _ Hinv) Hr) as [Ha _].
    destruct (ui_placed _ _ _ _ Hinv) as [Hb _]. split; [lia|].
    split; [by eapply not_live_unit|]. intros x.
    rewrite (live_change N own own' s s' _ x Hsame Hown Hlive). unfold live. split.
    + intros [(q & i & -> & [Hl|[<- <-]])|Hs]; eauto 6.
    + intros [[(q & i & -> & Hl)|Hs]| ->]; eauto 8.
Qed.

Lemma ut_free_bitfield N own ls s p j :
  ut_inv N own ls s -> live_unit N own s p j ->
  wp (do_ut_free_from_bitfield (unit_addr s p j) (bits p))
     (fun _ => free_post N own s (bits p) (unit_addr s p j)) s.
Proof.
  intros Hinv Hl. eapply wp_mono; [apply (free_from_bitfield N own); [apply Hinv | apply Hinv | by left]|].
  intros _ s' (own' & [Hp' Hsame Hheal Hlive Ho1 Ho2] & H14).
  assert (forall k sz, own' k = OSub sz <-> own k = OSub sz) as Hown.
  { intros k sz. split; [apply Ho1|]. intros Ho. destruct (Ho2 k sz Ho) as [|[-> ->]]; [done|].
    destruct (proj1 (live_14 N own s j) Hl). congruence. }
  exists own', ls. split; [by eapply ut_inv_same|]. split; [done|]. split; [apply Hsame|].
  intros x. rewrite (live_change N own own' s s' _ x Hsame Hown Hlive). unfold live. split.
  - intros [(q & i & -> & Hl' & Hne)|(k & sz & u & -> & Ho & Hs)].
    + split; [eauto|]. intros Heq. apply unit_addr_inj in Heq as [<- <-]. by apply Hne.
    + split; [eauto 8|]. intros [= _ Heq].
      destruct (li_cover _ _ _ _ (ui_lists _ _ _ _ Hinv) k sz Ho) as [Hsub _].
      by apply (bits_not_sub p sz).
  - intros [[(q & i & -> & Hl')|Hs] Hne]; [left|by right]. exists q, i. split; [done|].
    split; [done|]. intros [<- <-]. by apply Hne.
Qed.

(** *** Changes of the suballocators *)

(** [s'] has the same bit field pools as [s]. *)
Definition same_pools (s s' : ut_state) : Prop :=
  (forall p, get_pool p s' = get_pool p s) /\ initialised s' = initialised s /\ pool_base s' = pool_base s.

Section same_pools.
Context (s s' : ut_state) (Hsame : same_pools s s').

Lemma pbit_same p j : pbit s' p j = pbit s p j.
Proof. unfold pbit. by rewrite (proj1 Hsame). Qed.

Lemma shape_same N : shape N s -> shape N s'.
Proof.
  intros [H0 Hp Hn]. destruct Hsame as [Hg _]. split; [done| |].
  - intros p. rewrite Hg. apply Hp.
  - intros bf. pose proof (Hg P14) as H. simpl in H. rewrite H. apply Hn.
Qed.

Lemma pools_inv_same N own : pools_inv N own s -> pools_inv N own s'.
Proof.
  intros [Hsh Hf Hs Hu]. split; [by apply shape_same| | |].
  - intros k Hk. rewrite pbit_same. auto.
  - intros p j Hp Hj. rewrite pbit_same. auto.
  - intros p k Hk Ho. destruct (Hu p k Hk Ho) as (Hp & j & Hj & Hd & Hb).
    split; [done|]. exists j. by rewrite pbit_same.
Qed.

Lemma live_unit_same N own p j : live_unit N own s' p j <-> live_unit N own s p j.
Proof. unfold live_unit. by rewrite pbit_same. Qed.

Lemma healthy_same p : healthy s p <-> healthy s' p.
Proof. unfold healthy. by rewrite (proj1 Hsame). Qed.

Lemma placed_same N : placed N s -> placed N s'.
Proof. unfold placed. by rewrite (proj2 (proj2 Hsame)). Qed.

Lemma live_same_pools N own x :
  live N own s' x <->
  (exists p j, x = (unit_addr s p j, bits p) /\ live_unit N own s p j) \/
  (exists k sz u, x = (pool_base s + k * 2 ^ 14 + u * 2 ^ sz, sz) /\
     own k = OSub sz /\ live_sub_unit s' k sz u).
Proof.
  unfold live, unit_addr. rewrite (proj2 (proj2 Hsame)). apply or_iff_compat_r.
  split; intros (p & j & -> & Hl); exists p, j; (split; [done|]); by apply live_unit_same.
Qed.
End same_pools.

Lemma same_pools_snodes s h : same_pools s (set_snodes h s).
Proof. split; [intros p; by destruct p | done]. Qed.

Lemma same_pools_head sz x s : same_pools s (set_head sz x s).
Proof. unfold set_head. destruct (sz =? 9); (split; [intros p; by destruct p | done]). Qed.

#[export] Instance same_pools_trans : Transitive same_pools.
Proof.
  intros s1 s2 s3 (H1 & H2 & H3) (H4 & H5 & H6). split; [intros p; congruence | split; congruence].
Qed.

(** The node at [a] gets the bit field [bf]. *)
Definition put_node (a : Z) (n : suballocator_t) (bf : bitfield_t) (s : ut_state) : ut_state :=
  set_snodes (<[a := with_bf bf n]> (snodes s)) s.

Section put_node.
Context (N : Z) (own : Z -> owner) (ls : Z -> list Z) (s : ut_state).
Context (a : Z) (n : suballocator_t) (bf : bitfield_t) (k : Z).
Hypothesis Hlists : lists_inv N own ls s.
Hypothesis Hn : snodes s !! a = Some n.
Hypothesis Hbase : base n = pool_base s + k * 2 ^ 14.

Lemma put_node_lookup x m :
  snodes (put_node a n bf s) !! x = Some m -> exists m', snodes s !! x = Some m' /\ base m = base m'.
Proof.
  simpl. destruct (decide (a = x)) as [<-|].
  - rewrite lookup_insert_eq. intros [= <-]. eauto.
  - rewrite lookup_insert_ne by done. eauto.
Qed.

Lemma put_node_lists : bf_wf bf -> size bf = size (bitfield n) -> lists_inv N own ls (put_node a n bf s).
Proof.
  intros Hwf Hsz. destruct Hlists as [Hc Hnd Hnode Hd Hb Hcov].
  assert (forall sz x m k, node_ok N own (pool_base s) sz m k -> snodes s !! x = Some m ->
    exists m', snodes (put_node a n bf s) !! x = Some m' /\ node_ok N own (pool_base s) sz m' k) as Hok.
  { intros sz x m k' [? ? ? ? ?] Hm. simpl. destruct (decide (a = x)) as [<-|].
    - rewrite lookup_insert_eq. rewrite Hn in Hm. injection Hm as <-.
      eexists. split; [done|]. split; simpl; try done. congruence.
    - rewrite lookup_insert_ne by done. eexists. split; [done|]. done. }
  split; try done.
  - intros sz Hs. simpl. eapply dchain_data; [done | done | done |]. by apply Hc.
  - intros sz x m Hs Hx Hm. destruct (put_node_lookup x m Hm) as (m' & Hm' & _).
    destruct (Hnode sz x m' Hs Hx Hm') as [k' Hk']. destruct (Hok _ _ _ _ Hk' Hm') as (m'' & Hm'' & Hk'').
    rewrite Hm in Hm''. injection Hm'' as <-. eauto.
  - intros x m Hm. destruct (put_node_lookup x m Hm) as (m' & Hm' & _). eauto.
  - intros x1 x2 m1 m2 H1 H2. destruct (put_node_lookup _ _ H1) as (m1' & H1' & ->).
    destruct (put_node_lookup _ _ H2) as (m2' & H2' & ->). eauto.
  - intros k' sz Ho. destruct (Hcov k' sz Ho) as (Hs & x & m & Hm & Hk'). split; [done|].
    destruct (Hok _ _ _ _ Hk' Hm) as (m' & Hm' & Hk''). eauto.
Qed.

Lemma live_sub_node sz u :
  live_sub_unit s k sz u <-> 0 <= u < sunits sz /\ bit_at (b (bitfield n)) u = true.
Proof.
  split.
  - intros (x & m & Hm & Hb & Hu & Hbit). assert (x = a) as ->.
    { eapply (li_base _ _ _ _ Hlists); [done | done | congruence]. }
    rewrite Hn in Hm. by injection Hm as <-.
  - intros [Hu Hbit]. by exists a, n.
Qed.

Lemma live_sub_put k' sz u :
  live_sub_unit (put_node a n bf s) k' sz u <->
  if decide (k' = k) then 0 <= u < sunits sz /\ bit_at (b bf) u = true else live_sub_unit s k' sz u.
Proof.
  unfold live_sub_unit. simpl. split.
  - intros (x & m & Hm & Hb & Hu & Hbit). destruct (decide (a = x)) as [<-|].
    + rewrite lookup_insert_eq in Hm. injection Hm as <-. simpl in *.
      rewrite decide_True by nia. done.
    + rewrite lookup_insert_ne in Hm by done. rewrite decide_False; [by exists x, m|].
      intros ->. destruct n0. symmetry. eapply (li_base _ _ _ _ Hlists); [done | done | congruence].
  - case_decide as Hk.
    + intros [Hu Hbit]. subst k'. eexists a, _. rewrite lookup_insert_eq. done.
    + intros (x & m & Hm & Hb & Hu & Hbit). exists x, m. rewrite lookup_insert_ne; [done|].
      intros <-. rewrite Hn in Hm. injection Hm as <-. nia.
Qed.
End put_node.

Lemma wp_on_node {A} a n (m : M bitfield_t A) Q s :
  a <> 0 -> snodes s !! a = Some n ->
  wp m (fun r bf => Q r (put_node a n bf s)) (bitfield n) -> wp (on_node a m) Q s.
Proof.
  intros Ha Hn Hm. unfold on_node. wp_steps. eapply wp_node_deref; [done..|]. wp_steps.
  eapply wp_mono; [exact Hm|]. intros r bf HQ. unfold store. wp_steps. done.
Qed.

Lemma changed_bit bf bf' u v : changed bf bf' u v -> bit_at (b bf') u = v.
Proof. intros (_ & Hb & _). by rewrite Hb, decide_True. Qed.

Lemma changed_live_sub bf bf' u v u' :
  changed bf bf' u v ->
  bit_at (b bf') u' = true <-> (if v then bit_at (b bf) u' = true \/ u = u'
                                else bit_at (b bf) u' = true /\ u <> u').
Proof. intros (_ & Hb & _). rewrite Hb. case_decide; destruct v; naive_solver. Qed.

(** What the two list operations need of the invariant; node [a] may be empty. *)
Record ut_inv_but (N : Z) (own : Z -> owner) (ls : Z -> list Z) (s : ut_state) (a : Z) : Prop := {
  ub_init : initialised s = true;
  ub_placed : placed N s;
  ub_pools : pools_inv N own s;
  ub_lists : lists_inv N own ls s;
  ub_used : forall x n, x <> a -> snodes s !! x = Some n -> node_used n
}.

Section put_node_inv.
Context (N : Z) (own : Z -> owner) (ls : Z -> list Z) (s : ut_state).
Context (a : Z) (n : suballocator_t) (k sz u : Z) (bf : bitfield_t).
Hypothesis Hinv : ut_inv_but N own ls s a.
Hypothesis Hn : snodes s !! a = Some n.
Hypothesis Hok : node_ok N own (pool_base s) sz n k.
Hypothesis Hwf : bf_wf bf.
Hypothesis Hsz : size bf = size (bitfield n).
Let addr := pool_base s + k * 2 ^ 14 + u * 2 ^ sz.

Lemma put_node_inv_but : ut_inv_but N own ls (put_node a n bf s) a.
Proof.
  destruct Hinv as [Hi Hpl Hp Hl Hu]. split; [done | done | | |].
  - eapply pools_inv_same; [apply same_pools_snodes | done].
  - by eapply put_node_lists.
  - intros x m Hx. simpl. rewrite lookup_insert_ne by done. by apply Hu.
Qed.

Lemma put_node_inv : node_used (with_bf bf n) -> ut_inv N own ls (put_node a n bf s).
Proof.
  intros Hused. destruct put_node_inv_but as [Hi Hpl Hp Hl Hu]. split; try done.
  intros x m Hm. destruct (decide (x = a)) as [->|]; [|by eapply Hu].
  simpl in Hm. rewrite lookup_insert_eq in Hm. by injection Hm as <-.
Qed.

Lemma addr_inj k' u' :
  (pool_base s + k' * 2 ^ 14 + u' * 2 ^ sz, sz) = (addr, sz) -> sub sz ->
  0 <= u < sunits sz -> 0 <= u' < sunits sz -> k' = k /\ u' = u.
Proof.
  unfold addr. intros [= Heq] [-> | ->] Hu Hu'; unfold sunits in *; simpl in *; lia.
Qed.

(** Unit [u] of node [a] is live exactly when its bit is set. *)
Lemma live_addr : sub sz -> 0 <= u < sunits sz ->
  live N own s (addr, sz) <-> bit_at (b (bitfield n)) u = true.
Proof.
  intros Hsub Hu. pose proof (no_base _ _ _ _ _ _ Hok) as Hb. split.
  - intros [(q & i & Heq & _)|(k' & sz' & u' & Heq & Ho & Hl)].
    + injection Heq as _ Heq. by destruct (bits_not_sub q sz).
    + assert (sz' = sz) as -> by congruence.
      assert (0 <= u' < sunits sz) by (destruct Hl as (? & ? & ? & ? & ? & ?); done).
      destruct (addr_inj k' u') as [-> ->]; [congruence | done | done | done |].
      by apply (live_sub_node N own ls s a n k (ub_lists _ _ _ _ _ Hinv) Hn Hb) in Hl as [_ ?].
  - intros Hbit. right. exists k, sz, u. split; [done|]. split; [apply Hok|].
    by apply (live_sub_node N own ls s a n k (ub_lists _ _ _ _ _ Hinv) Hn Hb).
Qed.

Lemma live_put v x : sub sz -> 0 <= u < sunits sz -> changed (bitfield n) bf u v ->
  live N own (put_node a n bf s) x <->
  if v then live N own s x \/ x = (addr, sz) else live N own s x /\ x <> (addr, sz).
Proof.
  intros Hsub Hu Hch. pose proof (no_base _ _ _ _ _ _ Hok) as Hb. pose proof (no_own _ _ _ _ _ _ Hok) as Ho.
  pose proof (ub_lists _ _ _ _ _ Hinv) as Hl.
  rewrite (live_same_pools s (put_node a n bf s)) by apply same_pools_snodes. unfold live.
  assert (forall k' sz' u', own k' = OSub sz' ->
    live_sub_unit (put_node a n bf s) k' sz' u' <->
    if v then live_sub_unit s k' sz' u' \/ (k' = k /\ u' = u)
    else live_sub_unit s k' sz' u' /\ ~ (k' = k /\ u' = u)) as Hsubl.
  { intros k' sz' u' Ho'. rewrite (live_sub_put N own ls s a n bf k Hl Hn Hb).
    case_decide as Hk; [|destruct v; naive_solver]. subst k'. assert (sz' = sz) as -> by congruence.
    pose proof (changed_live_sub _ _ _ _ u' Hch).
    destruct v; rewrite (live_sub_node N own ls s a n k Hl Hn Hb); naive_solver. }
  assert (forall k' sz' u', own k' = OSub sz' -> live_sub_unit s k' sz' u' ->
    (pool_base s + k' * 2 ^ 14 + u' * 2 ^ sz', sz') = (addr, sz) -> k' = k /\ u' = u) as Hinj.
  { intros k' sz' u' Ho' Hls Heq. assert (sz' = sz) as -> by congruence.
    apply addr_inj; try done. by destruct Hls as (? & ? & ? & ? & ? & ?). }
  destruct v; split.
  - intros [Hp|(k' & sz' & u' & -> & Ho' & Hls)]; [by left; left|].
    apply Hsubl in Hls as [Hls|[-> ->]]; [left; right; eauto 8 | right | done].
    assert (sz' = sz) as -> by congruence. done.
  - intros [[Hp|(k' & sz' & u' & -> & Ho' & Hls)]| ->]; [by left | right | right].
    + exists k', sz', u'. split; [done|]. split; [done|]. apply Hsubl; auto.
    + exists k, sz, u. split; [done|]. split; [done|]. apply Hsubl; auto.
  - intros [(q & i & -> & Hp)|(k' & sz' & u' & -> & Ho' & Hls)].
    + split; [eauto|]. intros [= _ Heq]. by apply (bits_not_sub q sz).
    + apply Hsubl in Hls as [Hls Hne]; [|done]. split; [eauto 8|]. intros Heq.
      by apply Hne, (Hinj k' sz' u').
  - intros [[Hp|(k' & sz' & u' & -> & Ho' & Hls)] Hne]; [by left | right].
    exists k', sz', u'. split; [done|]. split; [done|]. apply Hsubl; [done|]. split; [done|].
    intros [-> ->]. apply Hne. assert (sz' = sz) as -> by congruence. done.
Qed.
End put_node_inv.

(** *** Allocation from a suballocator *)

Lemma sub_shift sz : sub sz -> Z.shiftl 1 (PRIMARY_POOL_SIZEBITS - sz) = sunits sz.
Proof. by intros [-> | ->]. Qed.

Lemma sub_addr_range N own bs sz n k u :
  node_ok N own bs sz n k -> sub sz -> 0 <= u < sunits sz ->
  bs <= bs + k * 2 ^ 14 + u * 2 ^ sz /\ bs + k * 2 ^ 14 + u * 2 ^ sz + 2 ^ sz <= bs + N * 2 ^ 14.
Proof.
  intros [? _ _ _ _] [-> | ->] Hu; unfold sunits in Hu; simpl in *; lia.
Qed.

Lemma node_take N own ls s a n k sz :
  ut_inv_but N own ls s a -> snodes s !! a = Some n -> node_ok N own (pool_base s) sz n k ->
  sub sz -> a <> 0 -> available (bitfield n) <> 0 ->
  wp (offset <- on_node a bf_set_next_free ;;
      c_assert (negb (offset =? -1)) ;;;
      n <- deref a ;;
      ret (u32 (Z.shiftl offset sz + base n))) (took N own s sz) s.
Proof.
  intros Hinv Hn Hok Hsub Ha Hav. pose proof Hok as [Hk Hb Ho Hwf Hsz].
  wp_steps. eapply wp_on_node; [done..|].
  eapply wp_mono; [by apply bf_set_next_free_run|]. intros u bf [Hwf' H].
  destruct (Z.eqb_spec (available (bitfield n)) 0); [done|]. destruct H as (Hu & Hbit & Hch).
  assert (size bf = size (bitfield n)) as Hsz' by apply Hch.
  wp_steps. apply wp_assert; [apply negb_true_iff, Z.eqb_neq; lia|]. wp_steps.
  eapply wp_node_deref; [done | simpl; apply lookup_insert_eq |]. wp_steps. simpl base.
  rewrite Hsz in Hu. destruct (sub_addr_range _ _ _ _ _ _ u Hok Hsub Hu) as [Hlo Hhi].
  destruct (ub_placed _ _ _ _ _ Hinv) as (Hb0 & _ & Hb1).
  assert (0 <= sz /\ 0 < 2 ^ sz) as [? ?] by (by destruct Hsub as [-> | ->]).
  replace (u32 (Z.shiftl u sz + base n)) with (pool_base s + k * 2 ^ 14 + u * 2 ^ sz)
    by (rewrite Z.shiftl_mul_pow2, Hb, u32_small by (done || unfold is_u32; lia); lia).
  exists own, ls. split.
  { eapply put_node_inv; try done. exists u. simpl. rewrite Hsz', Hsz. split; [done|].
    by eapply changed_bit. }
  split; [intros q Hq; by apply (healthy_same s (put_node a n bf s)), Hq; apply same_pools_snodes|].
  split; [done|]. split; [lia|]. split.
  - rewrite (live_addr N own ls s a n k sz u) by done. congruence.
  - intros x. by apply (live_put N own ls s a n k sz u bf Hinv Hn Hok true x).
Qed.

(** *** Nodes without their links *)

Definition data_of (h : gmap Z suballocator_t) (x : Z) : option (Z * bitfield_t) :=
  (fun n => (base n, bitfield n)) <$> h !! x.

Lemma data_of_Some h h' x m :
  data_of h' x = data_of h x -> h' !! x = Some m ->
  exists m0, h !! x = Some m0 /\ base m = base m0 /\ bitfield m = bitfield m0.
Proof.
  unfold data_of. intros Hd Hm. rewrite Hm in Hd. destruct (h !! x) as [m0|]; [|done].
  injection Hd as ? ?. eauto.
Qed.

Lemma data_of_alter_prev h r x y : data_of (alter (with_prev r) x h) y = data_of h y.
Proof.
  unfold data_of. destruct (decide (x = y)) as [<-|]; [|by rewrite lookup_alter_ne].
  rewrite lookup_alter_eq. by destruct (h !! x).
Qed.

Lemma data_of_unlink h n r y : data_of (unlink h n r) y = data_of h y.
Proof.
  unfold unlink. destruct r as [?|x]; [apply data_of_alter_prev|].
  rewrite <- (data_of_alter_prev h (Some (NextOf x)) (next n)).
  unfold data_of. destruct (decide (x = y)) as [<-|]; [|by rewrite lookup_alter_ne].
  rewrite lookup_alter_eq. by destruct (alter _ _ h !! x).
Qed.

Lemma node_ok_data N own bs sz m m0 k :
  base m = base m0 -> bitfield m = bitfield m0 -> node_ok N own bs sz m0 k -> node_ok N own bs sz m k.
Proof. intros Hb Hbf [? ? ? ? ?]. split; try done; congruence. Qed.

Lemma node_slab_inj N own bs sz sz' n k k' :
  node_ok N own bs sz n k -> node_ok N own bs sz' n k' -> k = k' /\ sz = sz'.
Proof.
  intros [? H1 H2 _ _] [? H3 H4 _ _]. assert (k = k') as <- by lia. split; [done|]. congruence.
Qed.

Lemma lists_disjoint N own ls s a sz sz' :
  lists_inv N own ls s -> sub sz -> sub sz' -> a ∈ ls sz -> a ∈ ls sz' -> sz = sz'.
Proof.
  intros [Hc _ Hn _ _ _] Hs Hs' Ha Ha'.
  destruct (dchain_elem _ _ _ _ _ (Hc sz Hs) Ha) as [_ [n Hm]].
  destruct (Hn sz a n Hs Ha Hm) as [k Hk]. destruct (Hn sz' a n Hs' Ha' Hm) as [k' Hk'].
  by eapply node_slab_inj.
Qed.

Lemma lists_null N own ls s : lists_inv N own ls s -> snodes s !! 0 = None.
Proof.
  intros [Hc _ _ Hd _ _]. destruct (snodes s !! 0) as [n|] eqn:E; [|done].
  destruct (Hd 0 n E) as (sz & Hs & Hin). by destruct (dchain_elem _ _ _ _ _ (Hc sz Hs) Hin).
Qed.

Definition updl (ls : Z -> list Z) (sz : Z) (l : list Z) : Z -> list Z :=
  fun z => if decide (z = sz) then l else ls z.

Lemma head_set_head sz sz' x s : sub sz -> sub sz' ->
  head_of sz' (set_head sz x s) = if decide (sz' = sz) then x else head_of sz' s.
Proof. by intros [-> | ->] [-> | ->]. Qed.

Lemma head_of_snodes sz h s : head_of sz (set_snodes h s) = head_of sz s.
Proof. done. Qed.

Lemma pool_base_set_head sz x s : pool_base (set_head sz x s) = pool_base s.
Proof. unfold set_head. by destruct (sz =? 9). Qed.

Lemma node_ok_upd N own bs sz n k k0 o :
  k <> k0 -> node_ok N (upd own k0 o) bs sz n k <-> node_ok N own bs sz n k.
Proof.
  intros Hk. split; intros [? ? Ho ? ?]; split; try done.
  - by rewrite upd_ne in Ho.
  - by rewrite upd_ne.
Qed.

Section attach.
Context (N : Z) (own : Z -> owner) (ls : Z -> list Z) (s : ut_state).
Context (a sz k : Z) (bf : bitfield_t).
Hypothesis Hlists : lists_inv N own ls s.
Hypothesis Hsub : sub sz.
Hypothesis Hk : 0 <= k < N.
Hypothesis Hown : forall z, own k <> OSub z.
Hypothesis Ha : a <> 0.
Hypothesis Hfresh : snodes s !! a = None.
Hypothesis Hwf : bf_wf bf.
Hypothesis Hsz : size bf = sunits sz.

Definition new_node : suballocator_t :=
  Suballocator (Some (PoolHead sz)) (head_of sz s) (pool_base s + k * 2 ^ 14) bf.
Definition attached : gmap Z suballocator_t :=
  <[a := new_node]> (alter (with_prev (Some (NextOf a))) (head_of sz s) (snodes s)).

Lemma fresh_not_listed z : sub z -> a ∉ ls z.
Proof.
  intros Hz Hin. destruct (dchain_elem _ _ _ _ _ (li_chain _ _ _ _ Hlists z Hz) Hin) as [_ [n Hn]].
  congruence.
Qed.

Lemma attached_data x : x <> a -> data_of attached x = data_of (snodes s) x.
Proof.
  intros Hx. unfold attached. rewrite <- (data_of_alter_prev (snodes s) (Some (NextOf a)) (head_of sz s)).
  unfold data_of. by rewrite lookup_insert_ne.
Qed.

Lemma attached_cases x m :
  attached !! x = Some m -> (x = a /\ m = new_node) \/
  (x <> a /\ exists m0, snodes s !! x = Some m0 /\ base m = base m0 /\ bitfield m = bitfield m0).
Proof.
  intros Hm. destruct (decide (x = a)) as [->|Hx].
  - left. unfold attached in Hm. rewrite lookup_insert_eq in Hm. by injection Hm as <-.
  - right. split; [done|]. eapply data_of_Some; [by apply attached_data | done].
Qed.

Lemma old_slab z m k' : node_ok N own (pool_base s) z m k' -> k' <> k.
Proof. intros [_ _ Ho _ _] ->. by apply Hown in Ho. Qed.

Lemma new_node_ok : node_ok N (upd own k (OSub sz)) (pool_base s) sz new_node k.
Proof. split; try done. apply upd_eq. Qed.

Lemma attach_chain z : sub z ->
  dchain attached (PoolHead z) (head_of z (set_head sz a (set_snodes attached s))) (updl ls sz (a :: ls sz) z).
Proof.
  intros Hz. rewrite head_set_head by done. unfold updl. case_decide as Hzs.
  - subst z. apply dchain_attach; [done | by apply fresh_not_listed | | by eapply lists_null |];
      by apply Hlists.
  - eapply dchain_frame; [|by apply Hlists]. intros x Hx. unfold attached.
    rewrite lookup_insert_ne by (intros Heq; apply (fresh_not_listed z Hz); by rewrite Heq).
    apply lookup_alter_ne. intros Heq. rewrite <- Heq in Hx.
    destruct (dchain_next_head _ _ _ _ (li_chain _ _ _ _ Hlists sz Hsub)) as [H0|Hin].
    + rewrite H0 in Hx. by destruct (dchain_elem _ _ _ _ _ (li_chain _ _ _ _ Hlists z Hz) Hx).
    + apply Hzs. by eapply lists_disjoint.
Qed.

Lemma lists_attach :
  lists_inv N (upd own k (OSub sz)) (updl ls sz (a :: ls sz)) (set_head sz a (set_snodes attached s)).
Proof.
  destruct Hlists as [Hc Hnd Hn Hd Hb Hcov].
  split; rewrite ?snodes_head, ?pool_base_set_head; simpl.
  - apply attach_chain.
  - intros z Hz. unfold updl. case_decide; [|auto]. apply NoDup_cons.
    split; [by apply fresh_not_listed | auto].
  - intros z x m Hz Hx Hm. destruct (attached_cases x m Hm) as [[-> ->]|(Hxa & m0 & Hm0 & E1 & E2)].
    + unfold updl in Hx. case_decide; [subst z; exists k; apply new_node_ok|].
      by apply fresh_not_listed in Hx.
    + assert (x ∈ ls z) as Hx'.
      { unfold updl in Hx. case_decide; [subst z|done]. apply elem_of_cons in Hx as [?|?]; done. }
      destruct (Hn z x m0 Hz Hx' Hm0) as [k' Hk']. exists k'.
      apply node_ok_upd; [by eapply old_slab|]. by eapply node_ok_data.
  - intros x m Hm. destruct (attached_cases x m Hm) as [[-> _]|(Hxa & m0 & Hm0 & _)].
    + exists sz. split; [done|]. unfold updl. rewrite decide_True by done. constructor.
    + destruct (Hd x m0 Hm0) as (z & Hz & Hx). exists z. split; [done|]. unfold updl.
      case_decide; [subst z; by constructor | done].
  - intros x1 x2 m1 m2 H1 H2 Heq.
    destruct (attached_cases _ _ H1) as [[-> ->]|(Hx1 & n1 & Hn1 & E1 & _)];
    destruct (attached_cases _ _ H2) as [[-> ->]|(Hx2 & n2 & Hn2 & E2 & _)]; try done.
    + exfalso. destruct (Hd x2 n2 Hn2) as (z & Hz & Hx). destruct (Hn z x2 n2 Hz Hx Hn2) as [k' Hk'].
      apply (old_slab _ _ _ Hk'). destruct Hk' as [_ Hb' _ _ _]. simpl in Heq. lia.
    + exfalso. destruct (Hd x1 n1 Hn1) as (z & Hz & Hx). destruct (Hn z x1 n1 Hz Hx Hn1) as [k' Hk'].
      apply (old_slab _ _ _ Hk'). destruct Hk' as [_ Hb' _ _ _]. simpl in Heq. lia.
    + eapply Hb; [done | done | congruence].
  - intros k' z Ho. destruct (decide (k' = k)) as [->|Hkk].
    + rewrite upd_eq in Ho. injection Ho as <-. split; [done|]. exists a, new_node.
      split; [apply lookup_insert_eq | apply new_node_ok].
    + rewrite upd_ne in Ho by done. destruct (Hcov k' z Ho) as (Hz & x & m0 & Hm0 & Hk').
      split; [done|]. assert (x <> a) as Hxa by congruence.
      destruct (data_of_Some attached (snodes s) x m0) as (m & Hm & E1 & E2); [|done|].
      { by rewrite attached_data. }
      exists x, m. split; [done|]. apply node_ok_upd; [done|]. by eapply node_ok_data.
Qed.
End attach.

(** *** A new suballocator *)

Lemma pools_inv_retag N own s k o o' :
  pools_inv N (upd own k o) s -> o <> OFree -> o' <> OFree ->
  (forall p, o <> OSplit p) -> (forall p, o' <> OSplit p) ->
  pools_inv N (upd own k o') s.
Proof.
  intros [Hsh Hf Hs Hu] Ho Ho' Hp Hp'. split; [done| | |].
  - intros x Hx. rewrite (Hf x Hx). unfold upd. case_decide; naive_solver.
  - intros p j Hpp Hj Hb. specialize (Hs p j Hpp Hj Hb). unfold upd in *. case_decide; naive_solver.
  - intros p x Hx. specialize (Hu p x Hx). unfold upd in *. case_decide; naive_solver.
Qed.

Lemma live_unit_retag N own s k sz q i :
  0 <= k < N -> (forall p, own k <> OSplit p) ->
  live_unit N (upd own k (OSub sz)) s q i <->
  live_unit N (upd own k OWhole) s q i /\ ~ (P14 = q /\ k = i).
Proof.
  intros Hk Hns. destruct (decide (q = P14)) as [->|Hq].
  - rewrite !live_14. unfold upd. case_decide; naive_solver.
  - rewrite !live_sub by done. unfold upd. case_decide; naive_solver.
Qed.

Section new_sub.
Context (N : Z) (own : Z -> owner) (ls : Z -> list Z) (s s1 : ut_state).
Context (a sz k : Z) (bf : bitfield_t).
Hypothesis Hinv : ut_inv N own ls s.
Hypothesis Hk : 0 <= k < N.
Hypothesis Hown : own k = OFree.
Hypothesis Htaken : unit_taken N own (upd own k OWhole) s s1 P14 k.
Hypothesis Hsub : sub sz.
Hypothesis Ha : a <> 0.
Hypothesis Hfresh : snodes s !! a = None.
Hypothesis Hwf : bf_wf bf.
Hypothesis Hsz : size bf = sunits sz.
Hypothesis Hclear : forall u, 0 <= u < sunits sz -> bit_at (b bf) u = false.
Let s2 := set_head sz a (set_snodes (attached s1 a sz k bf) s1).

Lemma new_sub_lists1 : lists_inv N own ls s1 /\ snodes s1 !! a = None /\ pool_base s1 = pool_base s.
Proof.
  destruct Htaken as [_ _ Hsame _ _ _ _]. split; [|by destruct Hsame as (_ & _ & -> & _ & ->)].
  eapply lists_inv_same; [apply Hinv | done | done].
Qed.

Lemma new_sub_pools : same_pools s1 s2.
Proof. unfold s2. etrans; [apply same_pools_snodes | apply same_pools_head]. Qed.

Lemma new_sub_inv : ut_inv_but N (upd own k (OSub sz)) (updl ls sz (a :: ls sz)) s2 a.
Proof.
  destruct new_sub_lists1 as (Hl1 & Hf1 & Hpb1). pose proof new_sub_pools as Hsp.
  destruct Htaken as [_ Hp1 Hsame _ _ _ _]. pose proof Hsame as (_ & _ & Hsn & Hin & _). split.
  - rewrite (proj1 (proj2 Hsp)), Hin. apply Hinv.
  - eapply placed_same; [done|]. unfold placed. rewrite Hpb1. apply Hinv.
  - eapply pools_inv_same; [done|]. by eapply pools_inv_retag.
  - apply lists_attach; try done. intros z. by rewrite Hown.
  - intros x m Hx. unfold s2. rewrite snodes_head. simpl. intros Hm.
    destruct (attached_cases s1 a sz k bf x m Hm) as [[-> _]|(_ & m0 & Hm0 & _ & E)]; [done|].
    rewrite Hsn in Hm0. pose proof (ui_used _ _ _ _ Hinv x m0 Hm0) as Hu.
    unfold node_used in *. by rewrite E.
Qed.

Lemma new_sub_node : exists n, snodes s2 !! a = Some n /\ bitfield n = bf /\
  node_ok N (upd own k (OSub sz)) (pool_base s2) sz n k.
Proof.
  exists (new_node s1 sz k bf). unfold s2. rewrite snodes_head, pool_base_set_head. simpl.
  split; [apply lookup_insert_eq|]. split; [done|]. by apply new_node_ok.
Qed.

Lemma new_sub_live_sub k' z u :
  upd own k (OSub sz) k' = OSub z /\ live_sub_unit s2 k' z u <-> own k' = OSub z /\ live_sub_unit s k' z u.
Proof.
  destruct new_sub_lists1 as (Hl1 & Hf1 & Hpb1).
  pose proof (ut_lists _ _ _ _ _ _ _ Htaken) as (_ & _ & Hsn & _).
  unfold live_sub_unit, s2. rewrite snodes_head, pool_base_set_head. simpl. rewrite Hpb1. split.
  - intros (Ho & x & m & Hm & Hb & Hu & Hbit).
    destruct (attached_cases s1 a sz k bf x m Hm) as [[-> ->]|(_ & m0 & Hm0 & E1 & E2)].
    + exfalso. simpl in Hb, Hbit. assert (k' = k) as -> by lia. rewrite upd_eq in Ho.
      injection Ho as <-. by rewrite Hclear in Hbit.
    + rewrite Hsn in Hm0. rewrite E1, E2 in *.
      assert (k' <> k) as Hkk.
      { intros ->. destruct (li_dom _ _ _ _ (ui_lists _ _ _ _ Hinv) x m0 Hm0) as (y & Hy & Hx).
        destruct (li_node _ _ _ _ (ui_lists _ _ _ _ Hinv) y x m0 Hy Hx Hm0) as [k'' [_ Hb'' Ho'' _ _]].
        assert (k'' = k) as -> by lia. congruence. }
      rewrite upd_ne in Ho by done. split; [done|]. by exists x, m0.
  - intros (Ho & x & m0 & Hm0 & Hb & Hu & Hbit).
    assert (k' <> k) as Hkk by (intros ->; congruence). rewrite upd_ne by done. split; [done|].
    assert (x <> a) as Hxa by congruence.
    destruct (data_of_Some (attached s1 a sz k bf) (snodes s) x m0) as (m & Hm & E1 & E2); [|done|].
    { rewrite attached_data by done. by rewrite Hsn. }
    exists x, m. rewrite <- E1, <- E2. done.
Qed.

Lemma new_sub_live x : live N (upd own k (OSub sz)) s2 x <-> live N own s x.
Proof.
  destruct new_sub_lists1 as (_ & _ & Hpb1).
  rewrite (live_same_pools s1 s2) by apply new_sub_pools. unfold live, unit_addr. rewrite Hpb1.
  assert (forall q i, live_unit N (upd own k (OSub sz)) s1 q i <-> live_unit N own s q i) as Hlu.
  { intros q i. rewrite live_unit_retag by (done || (intros; by rewrite Hown)).
    rewrite (ut_live _ _ _ _ _ _ _ Htaken). split; [tauto|]. intros Hl. split; [by left|].
    intros [<- <-]. by apply (ut_new _ _ _ _ _ _ _ Htaken). }
  split.
  - intros [(p & j & -> & Hl)|(k' & z & u & -> & Hs)].
    + left. exists p, j. split; [done|]. by apply Hlu.
    + right. exists k', z, u. split; [done|]. by apply new_sub_live_sub.
  - intros [(p & j & -> & Hl)|(k' & z & u & -> & Hs)].
    + left. exists p, j. split; [done|]. by apply Hlu.
    + right. exists k', z, u. split; [done|]. by apply new_sub_live_sub.
Qed.

Lemma new_sub_heal : heal s s2.
Proof.
  intros q Hq. apply (healthy_same s1 s2 new_sub_pools). by apply (ut_heal _ _ _ _ _ _ _ Htaken).
Qed.
End new_sub.

(** Giving the slab back when there is no memory for the node. *)
Lemma give_back N own ls s s1 k sz :
  ut_inv N own ls s -> own k = OFree -> unit_taken N own (upd own k OWhole) s s1 P14 k ->
  wp (do_ut_free_from_bitfield (unit_addr s P14 k) PRIMARY_POOL_SIZEBITS ;;; ret 0)
     (fun r s' => r = 0 /\ forall W : Prop, W -> no_block N own W s sz 0 s') s1.
Proof.
  intros Hinv Hown Ht. pose proof (ut_range _ _ _ _ _ _ _ Ht) as Hk. simpl in Hk.
  pose proof Ht as [_ Hp1 Hsame Hheal Hnew Hlive Hosub]. wp_steps.
  rewrite <- (unit_addr_same s s1) by done.
  eapply wp_mono; [apply (ut_free_bitfield N (upd own k OWhole) ls s1 P14 k)|].
  - by eapply ut_inv_same.
  - apply live_14. rewrite upd_eq. simpl. split; [lia | done].
  - intros [] s' (own' & ls' & Hinv' & Hheal' & Hpb & Hl). wp_steps. split; [done|].
    assert (heal s s') as Hh by (intros q Hq; by apply Hheal', Hheal).
    intros W HW. exists own', ls'. split; [done|]. split; [intros q Hq _; by apply Hh|].
    split; [destruct Hsame as (_ & _ & _ & _ & ?); congruence|]. split; [done|]. split; [by right|].
    intros x. rewrite Hl.
    rewrite (unit_addr_same s s1) by done.
    rewrite (live_change N own (upd own k OWhole) s s1 _ x Hsame Hosub Hlive).
    pose proof (not_live_unit N own ls s P14 k Hinv Hnew) as Hnl. unfold live in *. split.
    + intros [[(q & i & -> & [Hlu|[<- <-]])|Hs] Hne]; eauto; done.
    + intros Hx. split; [|by intros ->]. destruct Hx as [(q & i & -> & Hlu)|Hs]; eauto 6.
Qed.

Lemma no_block_full N own ls W s sz : ut_inv N own ls s -> full N s P14 -> no_block N own W s sz 0 s.
Proof. intros Hinv Hf. exists own, ls. split; [done|]. split; [by intros q Hq _ | by auto]. Qed.

Lemma select_list_sub sz : sub sz -> select_list sz = ret (PoolHead sz).
Proof. by intros [-> | ->]. Qed.

Lemma ut_inv_but_any N own ls s a : ut_inv N own ls s -> ut_inv_but N own ls s a.
Proof. intros [? ? ? ? Hu]. split; try done. intros x n _. apply Hu. Qed.

Lemma attached_store s a sz k bf l :
  dchain (snodes s) (PoolHead sz) (head_of sz s) l -> a ∉ l -> a <> 0 ->
  <[a := new_node s sz k bf]> (alter (with_prev (Some (NextOf a))) (head_of sz s)
     (<[a := Suballocator None 0 (pool_base s + k * 2 ^ 14) bf]> (snodes s))) = attached s a sz k bf.
Proof.
  intros Hc Hal Ha. assert (head_of sz s <> a) as Hha.
  { apply dchain_next_head in Hc as [->|]; congruence. }
  unfold attached. apply map_eq. intros x. destruct (decide (a = x)) as [<-|].
  - by rewrite !lookup_insert_eq.
  - rewrite !lookup_insert_ne by done. destruct (decide (head_of sz s = x)) as [<-|].
    + rewrite !lookup_alter_eq. by rewrite lookup_insert_ne.
    + rewrite !lookup_alter_ne by done. by rewrite lookup_insert_ne.
Qed.

(** The slab [k] taken, the node is created, attached and used. *)
Lemma new_sub_take N own ls s s1 a sz k bf :
  ut_inv N own ls s -> 0 <= k < N -> own k = OFree ->
  unit_taken N own (upd own k OWhole) s s1 P14 k -> sub sz -> a <> 0 -> snodes s !! a = None ->
  bf_wf bf -> size bf = sunits sz -> available bf = sunits sz ->
  (forall u, 0 <= u < sunits sz -> bit_at (b bf) u = false) ->
  wp (offset <- on_node a bf_set_next_free ;;
      c_assert (negb (offset =? -1)) ;;;
      n <- deref a ;;
      ret (u32 (Z.shiftl offset sz + base n))) (took N own s sz)
     (set_head sz a (set_snodes (attached s1 a sz k bf) s1)).
Proof.
  intros Hinv Hk Hown Ht Hsub Ha Hf Hwf Hsz Hav Hcl.
  destruct (new_sub_node N own s1 a sz k bf Hk Hwf Hsz) as (n & Hn & Hbf & Hok).
  eapply wp_mono.
  { eapply node_take; [by eapply new_sub_inv | exact Hn | exact Hok | done | done |].
    rewrite Hbf, Hav. by destruct Hsub as [-> | ->]. }
  intros addr s' (own' & ls' & Hinv' & Hh & Hpb & Hne & Hnl & Hx). exists own', ls'. split; [done|].
  split. { intros q Hq. apply Hh. by eapply new_sub_heal. }
  split. { rewrite Hpb, pool_base_set_head. simpl. by destruct (ut_lists _ _ _ _ _ _ _ Ht) as (_ & _ & _ & _ & ->). }
  assert (forall x, live N (upd own k (OSub sz)) (set_head sz a (set_snodes (attached s1 a sz k bf) s1)) x
    <-> live N own s x) as Hl by (intros x; by eapply new_sub_live).
  split; [done|]. split; [by rewrite <- Hl|]. intros x. by rewrite Hx, Hl.
Qed.

Lemma healthy_primary N own ls s : ut_inv N own ls s -> healthy s P14.
Proof. intros Hinv bf Hbf. apply (sh_next N s); [apply Hinv | done]. Qed.

(** The state in which a new node [a] is stored but not attached. *)
Definition sub_created (N : Z) (own : Z -> owner) (s s' : ut_state) (a sz : Z) : Prop :=
  exists k s1 bf, 0 <= k < N /\ own k = OFree /\
    unit_taken N own (upd own k OWhole) s s1 P14 k /\
    bf_wf bf /\ size bf = sunits sz /\ available bf = sunits sz /\
    (forall u, 0 <= u < sunits sz -> bit_at (b bf) u = false) /\
    s' = set_snodes (<[a := Suballocator None 0 (pool_base s1 + k * 2 ^ 14) bf]> (snodes s1)) s1.

Lemma new_suballocator_spec N own ls s m ok sz :
  ut_inv N own ls s -> sub sz ->
  wp (_new_suballocator m ok sz) (fun r s' =>
    (r = 0 /\ no_block N own (m = 0 \/ ok = false) s sz 0 s') \/ (r = m /\ m <> 0 /\ sub_created N own s s' m sz)) s.
Proof.
  intros Hinv Hsub. unfold _new_suballocator. wp_steps.
  eapply wp_mono; [apply (alloc_from_bitfield N own s P14); [apply Hinv | apply Hinv | by eapply healthy_primary]|].
  intros addr s1 [(-> & Hf & _ & H14)|(k & own' & -> & Ht & H14)].
  { rewrite Z.eqb_refl. wp_steps. left. split; [done|]. rewrite H14 by done. by eapply no_block_full. }
  destruct H14 as [Hown ->]; [done|]. pose proof (ut_range _ _ _ _ _ _ _ Ht) as Hk.
  destruct (unit_addr_range N s P14 k (ui_placed _ _ _ _ Hinv) Hk). destruct (ui_placed _ _ _ _ Hinv).
  destruct (Z.eqb_spec (unit_addr s P14 k) 0); [lia|]. rewrite sub_shift by done.
  destruct (Z.eqb_spec m 0) as [->|Hm0].
  { eapply wp_mono; [by eapply give_back|]. intros r s2 [-> Hp]. left.
    split; [done|]. apply Hp. by left. }
  wp_steps. destruct ok.
  2: { unfold new_bitfield. apply wp_ret. cbv beta iota. eapply wp_mono; [by eapply give_back|].
       intros r s2 [-> Hp]. left. split; [done|]. apply Hp. by right. }
  eapply wp_mono; [apply (new_bitfield_empty (sunits sz)); by destruct Hsub as [-> | ->]|].
  intros r s2 [-> (bf & -> & Hwf & Hsz & Hav & Hcl)]. unfold store. wp_steps. right.
  split; [done|]. split; [done|]. exists k, s1, bf. simpl in Hk. split; [lia|].
  do 6 (split; [done|]). destruct (ut_lists _ _ _ _ _ _ _ Ht) as (_ & _ & _ & _ & ->). done.
Qed.

Lemma ut_alloc_list N own ls s m ok sz :
  ut_inv N own ls s -> sub sz -> (m <> 0 -> snodes s !! m = None) ->
  wp (do_ut_alloc_from_list m ok sz) (alloc_post N own (m = 0 \/ ok = false) s sz) s.
Proof.
  intros Hinv Hsub Hm. pose proof (ui_lists _ _ _ _ Hinv) as Hl.
  pose proof (li_chain _ _ _ _ Hl sz Hsub) as Hc.
  unfold do_ut_alloc_from_list. rewrite select_list_sub by done. wp_steps. apply wp_load_head.
  wp_steps. unfold _pool_list_find_free, list_fuel. wp_steps.
  eapply wp_mono; [eapply find_node_spec; [done | exact Hc |]|].
  { pose proof (dchain_length _ _ _ _ (li_nodup _ _ _ _ Hl sz Hsub) Hc). lia. }
  intros a s' [-> [[-> _]|[Hin (n & Hn & Hav)]]].
  2: { destruct (dchain_elem _ _ _ _ _ Hc Hin) as [Ha _]. destruct (Z.eqb_spec a 0); [done|]. wp_steps.
       destruct (Z.eqb_spec a 0); [done|]. destruct (li_node _ _ _ _ Hl sz a n Hsub Hin Hn) as [k Hk].
       eapply wp_mono; [|intros ? ? Ht; left; exact Ht].
       eapply node_take; [by apply ut_inv_but_any | done..|]. by apply negb_true_iff, Z.eqb_neq in Hav. }
  rewrite Z.eqb_refl. wp_steps. eapply wp_mono; [by eapply new_suballocator_spec|].
  intros r s2 [[-> Hp]|(-> & Hm0 & (k & s1 & bf & Hk & Hown & Ht & Hwf & Hsz & Hav & Hcl & ->))].
  { rewrite Z.eqb_refl. wp_steps. rewrite Z.eqb_refl. wp_steps. by right. }
  pose proof (ut_lists _ _ _ _ _ _ _ Ht) as Hsame. pose proof Hsame as (_ & _ & Hsn & _ & Hpb).
  assert (lists_inv N own ls s1) as Hl1 by (by eapply lists_inv_same).
  pose proof (li_chain _ _ _ _ Hl1 sz Hsub) as Hc1.
  assert (snodes s1 !! m = None) as Hfr by (rewrite Hsn; by apply Hm).
  assert (m ∉ ls sz) as Hml by (intros Hin; destruct (dchain_elem _ _ _ _ _ Hc1 Hin) as [_ [? ?]]; congruence).
  destruct (Z.eqb_spec m 0); [done|]. wp_steps.
  eapply wp_mono; [apply (attach_spec sz (ls sz)); [|done|done| | simpl; apply lookup_insert_eq]|].
  { simpl. eapply dchain_frame; [|exact Hc1]. intros x Hx. apply lookup_insert_ne. congruence. }
  { simpl. rewrite lookup_insert_ne by done. by eapply lists_null. }
  intros [] s2 Hs2. wp_steps. destruct (Z.eqb_spec m 0); [done|]. rewrite Hs2. simpl.
  pose proof (attached_store s1 m sz k bf (ls sz) Hc1 Hml Hm0) as Hst. unfold new_node in Hst.
  rewrite head_of_snodes, Hst. eapply wp_mono; [|intros ? ? Htk; left; exact Htk].
  apply (new_sub_take N own ls s s1 m sz k bf); try done. by apply Hm.
Qed.

(** *** Release to a suballocator *)

Section detach.
Context (N : Z) (own : Z -> owner) (ls : Z -> list Z) (s s' : ut_state).
Context (a sz k : Z) (n : suballocator_t) (l1 l2 : list Z).
Hypothesis Hlists : lists_inv N own ls s.
Hypothesis Hsub : sub sz.
Hypothesis Hls : ls sz = l1 ++ a :: l2.
Hypothesis Hn : snodes s !! a = Some n.
Hypothesis Hok : node_ok N own (pool_base s) sz n k.
Hypothesis Hother : forall x, x <> a -> snodes s' !! x = unlink (snodes s) n (last_ref (PoolHead sz) l1) !! x.
Hypothesis Hgone : snodes s' !! a = None.
Hypothesis Hhead : forall z, sub z -> head_of z s' =
  if decide (z = sz) then match l1 with [] => next n | _ => head_of sz s end else head_of z s.
Hypothesis Hpb : pool_base s' = pool_base s.

Lemma detach_nodup : NoDup (l1 ++ a :: l2).
Proof. rewrite <- Hls. by apply Hlists. Qed.

Lemma detach_rest x : x ∈ l1 ++ l2 <-> x ∈ ls sz /\ x <> a.
Proof.
  rewrite Hls, !elem_of_app, elem_of_cons. pose proof detach_nodup as Hnd.
  apply NoDup_app in Hnd as (_ & Hd & Hnd). apply NoDup_cons in Hnd as [Hna _]. split.
  - intros [Hx|Hx]; (split; [by auto|]); intros ->; [|done]. apply (Hd a Hx). constructor.
  - intros [[?|[?|?]] ?]; auto; done.
Qed.

Lemma detach_data x m : snodes s' !! x = Some m ->
  x <> a /\ exists m0, snodes s !! x = Some m0 /\ base m = base m0 /\ bitfield m = bitfield m0.
Proof.
  intros Hm. assert (x <> a) as Hx by congruence. split; [done|].
  eapply data_of_Some; [|done]. unfold data_of at 1. rewrite Hother by done. apply data_of_unlink.
Qed.

Lemma detach_data' x m0 : x <> a -> snodes s !! x = Some m0 ->
  exists m, snodes s' !! x = Some m /\ base m0 = base m /\ bitfield m0 = bitfield m.
Proof.
  intros Hx Hm. eapply data_of_Some; [|done]. symmetry. unfold data_of at 1.
  rewrite Hother by done. apply data_of_unlink.
Qed.

Lemma detach_chain z : sub z ->
  dchain (snodes s') (PoolHead z) (head_of z s') (updl ls sz (l1 ++ l2) z).
Proof.
  intros Hz. rewrite Hhead by done. unfold updl. pose proof (li_chain _ _ _ _ Hlists) as Hc.
  pose proof (Hc sz Hsub) as Hcs. rewrite Hls in Hcs. case_decide as Hzs.
  - subst z. eapply dchain_frame.
    + intros x Hx. apply detach_rest in Hx as [_ Hx]. by apply Hother.
    + apply (dchain_unlink (snodes s) a l2 n); try done.
      * by eapply lists_null.
      * apply detach_nodup.
  - eapply dchain_frame; [|by apply Hc]. intros x Hx.
    assert (x ∉ ls sz) as Hxs by (intros Hin; apply Hzs; by eapply lists_disjoint).
    assert (x <> 0) as Hx0 by (by destruct (dchain_elem _ _ _ _ _ (Hc z Hz) Hx)).
    rewrite Hls, elem_of_app, elem_of_cons in Hxs.
    rewrite Hother by (intros ->; apply Hxs; auto). apply unlink_other.
    + intros ->. destruct (dchain_prev _ _ _ _ _ _ _ Hcs Hn) as [_ H2].
      apply dchain_next_head in H2 as [?|?]; [done | auto].
    + unfold last_ref. destruct (last l1) as [y|] eqn:E; [|done]. intros [= ->].
      apply Hxs. left. by apply last_Some_elem_of.
Qed.

Lemma detach_slab x m0 z k' :
  x <> a -> snodes s !! x = Some m0 -> node_ok N own (pool_base s) z m0 k' -> k' <> k.
Proof.
  intros Hx Hm [_ Hb _ _ _] ->. apply Hx. eapply (li_base _ _ _ _ Hlists); [done | done |].
  destruct Hok. congruence.
Qed.

Lemma lists_detach : lists_inv N (upd own k OFree) (updl ls sz (l1 ++ l2)) s'.
Proof.
  pose proof Hlists as [Hc Hnd Hnode Hd Hb Hcov]. split; rewrite ?Hpb.
  - apply detach_chain.
  - intros z Hz. unfold updl. case_decide; [|auto]. pose proof detach_nodup as Hnd'.
    apply NoDup_app in Hnd' as (H1 & H2 & H3). apply NoDup_cons in H3 as [_ H3].
    apply NoDup_app. split; [done|]. split; [|done]. intros x Hx Hx2. apply (H2 x Hx). by constructor.
  - intros z x m Hz Hx Hm. destruct (detach_data x m Hm) as (Hxa & m0 & Hm0 & E1 & E2).
    assert (x ∈ ls z) as Hx'.
    { unfold updl in Hx. case_decide; [subst z|done]. by apply detach_rest in Hx as [? _]. }
    destruct (Hnode z x m0 Hz Hx' Hm0) as [k' Hk']. exists k'.
    apply node_ok_upd; [by eapply detach_slab|]. by eapply node_ok_data.
  - intros x m Hm. destruct (detach_data x m Hm) as (Hxa & m0 & Hm0 & _).
    destruct (Hd x m0 Hm0) as (z & Hz & Hx). exists z. split; [done|]. unfold updl.
    case_decide; [subst z; by apply detach_rest | done].
  - intros x1 x2 m1 m2 H1 H2 Heq. destruct (detach_data _ _ H1) as (_ & n1 & Hn1 & E1 & _).
    destruct (detach_data _ _ H2) as (_ & n2 & Hn2 & E2 & _). eapply Hb; [done | done | congruence].
  - intros k' z Ho. destruct (decide (k' = k)) as [->|Hkk]; [by rewrite upd_eq in Ho|].
    rewrite upd_ne in Ho by done. destruct (Hcov k' z Ho) as (Hz & x & m0 & Hm0 & Hk'). split; [done|].
    assert (x <> a) as Hxa.
    { intros ->. rewrite Hn in Hm0. injection Hm0 as <-. apply Hkk. by destruct (node_slab_inj _ _ _ _ _ _ _ _ Hk' Hok). }
    destruct (detach_data' x m0 Hxa Hm0) as (m & Hm & E1 & E2). exists x, m. split; [done|].
    apply node_ok_upd; [done|]. by eapply node_ok_data.
Qed.

(** The units of the other slabs are as before. *)
Lemma detach_live_sub k' z u :
  upd own k OFree k' = OSub z /\ live_sub_unit s' k' z u <->
  own k' = OSub z /\ k' <> k /\ live_sub_unit s k' z u.
Proof.
  unfold live_sub_unit. rewrite Hpb. split.
  - intros (Ho & x & m & Hm & Hbs & Hu & Hbit). destruct (decide (k' = k)) as [->|Hkk]; [by rewrite upd_eq in Ho|].
    rewrite upd_ne in Ho by done. split; [done|]. split; [done|].
    destruct (detach_data x m Hm) as (Hxa & m0 & Hm0 & E1 & E2). exists x, m0. rewrite <- E1, <- E2. done.
  - intros (Ho & Hkk & x & m0 & Hm0 & Hbs & Hu & Hbit). rewrite upd_ne by done. split; [done|].
    assert (x <> a) as Hxa.
    { intros ->. rewrite Hn in Hm0. injection Hm0 as <-. destruct Hok. lia. }
    destruct (detach_data' x m0 Hxa Hm0) as (m & Hm & E1 & E2). exists x, m. rewrite <- E1, <- E2. done.
Qed.
End detach.

Lemma free_list_offset N s k u sz :
  placed N s -> sub sz -> 0 <= k < N -> 0 <= u < sunits sz ->
  let addr := pool_base s + k * 2 ^ 14 + u * 2 ^ sz in
  let bs := pool_base s + k * 2 ^ 14 in
  Z.land addr (Z.lnot (Z.shiftl 1 PRIMARY_POOL_SIZEBITS - 1)) = bs /\ Z.shiftr (addr - bs) sz = u.
Proof.
  intros (Hb0 & Hbm & Hb1) Hsub Hk Hu addr bs. change (Z.shiftl 1 PRIMARY_POOL_SIZEBITS) with (2 ^ 14).
  assert (0 <= u * 2 ^ sz < 2 ^ 14 /\ 0 <= sz) as [Hr Hs].
  { destruct Hsub as [-> | ->]; unfold sunits in Hu; simpl in *; lia. }
  split.
  - rewrite <- Z.ldiff_land, ldiff_mask by lia. apply Z.mod_divide in Hbm as [c Hc]; [|lia].
    unfold addr, bs. rewrite Hc.
    replace ((c * 2 ^ 14 + k * 2 ^ 14 + u * 2 ^ sz) mod 2 ^ 14) with (u * 2 ^ sz); [lia|].
    replace (c * 2 ^ 14 + k * 2 ^ 14 + u * 2 ^ sz) with (u * 2 ^ sz + (c + k) * 2 ^ 14) by lia.
    by rewrite Z_mod_plus_full, Z.mod_small.
  - unfold addr, bs. replace (_ - _) with (u * 2 ^ sz) by lia.
    rewrite Z.shiftr_div_pow2 by done. apply Z.div_mul. by destruct Hsub as [-> | ->].
Qed.

(** Dropping a node without units in use does not change the live blocks. *)
Lemma drop_live N own ls s s' a n k sz l1 x :
  lists_inv N own ls s -> snodes s !! a = Some n -> node_ok N own (pool_base s) sz n k ->
  (forall u, 0 <= u < sunits sz -> bit_at (b (bitfield n)) u = false) ->
  (forall x, x <> a -> snodes s' !! x = unlink (snodes s) n (last_ref (PoolHead sz) l1) !! x) ->
  snodes s' !! a = None -> pool_base s' = pool_base s ->
  (forall q i, live_unit N (upd own k OFree) s' q i <-> live_unit N own s q i) ->
  live N (upd own k OFree) s' x <-> live N own s x.
Proof.
  intros Hl Hn Hok Hcl Hoth Hgone Hpb Hlu. pose proof Hok as [_ Hb Ho _ _].
  unfold live, unit_addr. rewrite Hpb.
  assert (forall k' z u, (own k' = OSub z /\ k' <> k /\ live_sub_unit s k' z u) <->
    own k' = OSub z /\ live_sub_unit s k' z u) as Hls'.
  { intros k' z u. split; [tauto|]. intros [Ho' Hlv]. split; [done|]. split; [|done]. intros ->.
    apply (live_sub_node N own ls s a n k Hl Hn Hb) in Hlv as [Hu' Hbit].
    assert (z = sz) as -> by congruence. by rewrite Hcl in Hbit. }
  pose proof (detach_live_sub N own s s' a sz k n l1 Hn Hok Hoth Hgone Hpb) as Hdl.
  split; (intros [(p & j & -> & Hlv)|(k' & z & u & -> & Hlv)];
    [left; exists p, j; split; [done|]; by apply Hlu |
     right; exists k', z, u; split; [done|]; by apply Hls', Hdl || apply Hdl, Hls' ]).
Qed.

(** The node [a] of slab [k] is empty: it goes, and so does its slab. *)
Lemma drop_node N own ls s a n k sz :
  ut_inv_but N own ls s a -> snodes s !! a = Some n -> node_ok N own (pool_base s) sz n k ->
  sub sz -> a ∈ ls sz -> a <> 0 ->
  (forall u, 0 <= u < sunits sz -> bit_at (b (bitfield n)) u = false) ->
  wp (_pool_list_detach a ;;;
      n <- deref a ;;
      do_ut_free_from_bitfield (base n) PRIMARY_POOL_SIZEBITS ;;;
      modify (fun s => set_snodes (delete a (snodes s)) s))
     (fun _ s' => exists own' ls', ut_inv N own' ls' s' /\ heal s s' /\ pool_base s' = pool_base s /\
        forall x, live N own' s' x <-> live N own s x) s.
Proof.
  intros Hinv Hn Hok Hsub Hin Ha Hcl. pose proof Hinv as [Hi Hpl Hp Hl Hu].
  pose proof Hok as [Hk Hb Ho Hwf Hsz]. apply list_elem_of_split in Hin as (l1 & l2 & Hls).
  pose proof (li_chain _ _ _ _ Hl sz Hsub) as Hc. rewrite Hls in Hc. wp_steps.
  eapply wp_mono; [apply (detach_spec sz l1 a l2 n); [|by eapply lists_null|done|done]|].
  { rewrite <- Hls. by apply Hl. }
  intros [] s1 (h' & Hs1 & Hrest & Hself).
  assert (same_pools s s1) as Hsp by (rewrite Hs1; etrans; [apply same_pools_snodes | apply same_pools_head]).
  assert (snodes s1 = h') as Hsn1 by (by rewrite Hs1, snodes_head).
  wp_steps. eapply wp_node_deref; [done | by rewrite Hsn1 |]. wp_steps. simpl base. rewrite Hb.
  pose proof (proj2 (proj2 Hsp)) as Hpb1.
  replace (pool_base s + k * 2 ^ 14) with (unit_addr s1 P14 k) by (unfold unit_addr; by rewrite Hpb1).
  eapply wp_mono; [apply (free_from_bitfield N own s1 P14 k)|].
  { by eapply pools_inv_same. } { by eapply placed_same. }
  { right. rewrite Ho. done. }
  intros [] s2 (own' & Hf & H14). rewrite (H14 eq_refl) in Hf. clear own' H14. wp_steps.
  destruct Hf as [Hp2 Hsame Hheal2 Hlive2 _ _]. pose proof Hsame as (H9 & H4 & Hsn2 & Hi2 & Hpb2).
  set (s3 := set_snodes (delete a (snodes s2)) s2).
  assert (same_pools s2 s3) as Hsp3 by apply same_pools_snodes.
  assert (pool_base s3 = pool_base s) as Hpb3 by (simpl; congruence).
  assert (forall x, x <> a -> snodes s3 !! x = unlink (snodes s) n (last_ref (PoolHead sz) l1) !! x) as Hoth.
  { intros x Hx. simpl. rewrite lookup_delete_ne, Hsn2, Hsn1 by congruence. by apply Hrest. }
  assert (snodes s3 !! a = None) as Hgone by apply lookup_delete_eq.
  assert (forall z, sub z -> head_of z s3 = if decide (z = sz) then
    match l1 with [] => next n | _ => head_of sz s end else head_of z s) as Hhd.
  { intros z Hz. transitivity (head_of z s1); [unfold head_of; simpl; by rewrite H9, H4|].
    rewrite Hs1, head_set_head by done. by case_decide. }
  exists (upd own k OFree), (updl ls sz (l1 ++ l2)). split; [split|split; [|split]].
  - rewrite (proj1 (proj2 Hsp3)), Hi2, (proj1 (proj2 Hsp)). done.
  - unfold placed. by rewrite Hpb3.
  - by eapply pools_inv_same.
  - by eapply lists_detach.
  - intros x m Hm. destruct (detach_data s s3 a sz n l1 Hoth Hgone x m Hm) as (Hx & m0 & Hm0 & _ & E).
    unfold node_used. rewrite E. by apply (Hu x).
  - intros q Hq. apply (healthy_same s2 s3 Hsp3), Hheal2, (healthy_same s s1 Hsp), Hq.
  - done.
  - intros x. eapply drop_live; try done. intros q i.
    rewrite (live_unit_same s2 s3 Hsp3), Hlive2, (live_unit_same s s1 Hsp).
    split; [tauto|]. intros Hq. split; [done|]. intros [<- <-].
    destruct (proj1 (live_14 N own s k) Hq). congruence.
Qed.

Lemma ut_free_list N own ls s k sz u :
  ut_inv N own ls s -> own k = OSub sz -> live_sub_unit s k sz u ->
  let addr := pool_base s + k * 2 ^ 14 + u * 2 ^ sz in
  wp (do_ut_free_from_list addr sz) (fun _ => free_post N own s sz addr) s.
Proof.
  intros Hinv Ho Hlive addr. pose proof (ui_lists _ _ _ _ Hinv) as Hl.
  destruct (li_cover _ _ _ _ Hl k sz Ho) as (Hsub & a & n & Hn & Hok).
  pose proof Hok as [Hk Hb _ Hwf Hsz].
  apply (live_sub_node N own ls s a n k Hl Hn Hb) in Hlive as [Hu Hbit].
  destruct (free_list_offset N s k u sz (ui_placed _ _ _ _ Hinv) Hsub Hk Hu) as [Hbs Hoff].
  destruct (li_dom _ _ _ _ Hl a n Hn) as (z & Hz & Hin).
  assert (z = sz) as ->.
  { destruct (li_node _ _ _ _ Hl z a n Hz Hin Hn) as [k' Hk']. by destruct (node_slab_inj _ _ _ _ _ _ _ _ Hk' Hok). }
  pose proof (li_chain _ _ _ _ Hl sz Hsub) as Hc. destruct (dchain_elem _ _ _ _ _ Hc Hin) as [Ha _].
  unfold do_ut_free_from_list. rewrite select_list_sub by done. wp_steps. apply wp_load_head. wp_steps.
  fold addr in Hbs, Hoff. rewrite Hbs, Hoff, sub_shift by done.
  unfold _pool_list_find_base, list_fuel. wp_steps.
  eapply wp_mono; [eapply find_node_spec; [done | exact Hc |]|].
  { pose proof (dchain_length _ _ _ _ (li_nodup _ _ _ _ Hl sz Hsub) Hc). lia. }
  intros a' s' [-> [[-> Hno]|[Hin' (n' & Hn' & Hb')]]].
  { specialize (Hno a n Hin Hn). apply Z.eqb_neq in Hno. congruence. }
  apply Z.eqb_eq in Hb'. assert (a' = a) as -> by (eapply (li_base _ _ _ _ Hl); [done | done | congruence]).
  rewrite Hn in Hn'. injection Hn' as <-.
  wp_steps. apply wp_assert; [by apply negb_true_iff, Z.eqb_neq|]. wp_steps.
  eapply wp_on_node; [done..|]. eapply wp_mono; [apply bf_clr_spec; [apply Hwf | lia | done]|].
  intros [] bf (Hwf0 & Hch & Hnf). assert (size bf = size (bitfield n)) as Hsz' by apply Hch.
  assert (bf_wf bf) as Hwf' by (split; [done | rewrite Hnf, Hsz'; apply Hwf]).
  pose proof (ut_inv_but_any _ _ _ _ a Hinv) as Hinvb.
  pose proof (same_pools_snodes s (<[a := with_bf bf n]> (snodes s))) as Hsp.
  pose proof (fun x => live_put N own ls s a n k sz u bf Hinvb Hn Hok false x Hsub Hu Hch) as Hlp.
  wp_steps. eapply wp_node_deref; [done | simpl; apply lookup_insert_eq |]. simpl bitfield.
  rewrite (wf_available _ Hwf0). rewrite Hsz', Hsz.
  assert (0 <= sunits sz) by (by destruct Hsub as [-> | ->]).
  destruct (nfree_cases (b bf) (sunits sz)) as [[-> Hcl]|[Hne (u' & Hu' & Hb'')]]; [done| |].
  - rewrite Z.eqb_refl. eapply wp_mono; [eapply drop_node|]; [by apply put_node_inv_but|simpl; apply lookup_insert_eq| |done..|].
    { split; simpl; try done. congruence. }
    intros [] s' (own' & ls' & Hinv' & Hh & Hpb & Hx). exists own', ls'. split; [done|].
    split; [intros q Hq; by apply Hh, (healthy_same s _ Hsp)|].
    split; [done|]. intros x. by rewrite Hx, Hlp.
  - apply Z.eqb_neq in Hne. rewrite Hne. wp_steps. exists own, ls. split.
    { apply (put_node_inv N own ls s a n bf); try done. exists u'. simpl. by rewrite Hsz', Hsz. }
    split; [intros q Hq; by apply (healthy_same s _ Hsp)|]. split; [done|].
    intros x. by rewrite Hlp.
Qed.

(** ** The abstract allocator: a finite set of blocks *)

Definition ut_rep (N : Z) (s : ut_state) (L : gset (Z * Z)) : Prop :=
  exists own ls, ut_inv N own ls s /\ forall x, x ∈ L <-> live N own s x.

Definition valid_size (sz : Z) : Prop := sz ∈ [4; 9; 10; 12; 14].

(** Some block of [L] lies in slab [k]. *)
Definition slab_busy (s : ut_state) (L : gset (Z * Z)) (k : Z) : Prop :=
  exists x, x ∈ L /\ pool_base s + k * 2 ^ 14 <= x.1 /\ x.1 + 2 ^ x.2 <= pool_base s + (k + 1) * 2 ^ 14.

Lemma valid_size_cases sz : valid_size sz -> sub sz \/ exists p, sz = bits p.
Proof.
  unfold valid_size, sub. rewrite !elem_of_cons.
  intros [->|[->|[->|[->|[->|[]%not_elem_of_nil]]]]]; auto; right; [by exists P10 | by exists P12 | by exists P14].
Qed.

(** No slab is held without a block in it. *)
Lemma owned_busy N own ls s k :
  ut_inv N own ls s -> 0 <= k < N -> own k <> OFree ->
  exists x, live N own s x /\ pool_base s + k * 2 ^ 14 <= x.1 /\
    x.1 + 2 ^ x.2 <= pool_base s + (k + 1) * 2 ^ 14.
Proof.
  intros Hinv Hk Hnf. destruct (own k) as [| |p|sz] eqn:Ho; [done| | |].
  - exists (unit_addr s P14 k, bits P14). split; [left; exists P14, k; split; [done|]|].
    + apply live_14. simpl. split; [lia | done].
    + unfold unit_addr. simpl. lia.
  - destruct (pi_used _ _ _ (ui_pools _ _ _ _ Hinv) p k Hk Ho) as (Hp & j & Hj & Hd & Hb).
    exists (unit_addr s p j, bits p). split; [left; exists p, j; split; [done|]|].
    + apply live_sub; [done|]. rewrite Hd. done.
    + apply slab_range in Hd. unfold unit_addr. simpl fst. simpl snd. rewrite (upp_bits p).
      assert (0 < 2 ^ bits p) by (by destruct p). nia.
  - pose proof (ui_lists _ _ _ _ Hinv) as Hl.
    destruct (li_cover _ _ _ _ Hl k sz Ho) as (Hsub & a & n & Hn & Hok).
    destruct (ui_used _ _ _ _ Hinv a n Hn) as (u & Hu & Hbit). pose proof Hok as [_ Hb _ _ Hsz].
    rewrite Hsz in Hu. exists (pool_base s + k * 2 ^ 14 + u * 2 ^ sz, sz). split; [right|].
    + exists k, sz, u. split; [done|]. split; [done|].
      by apply (live_sub_node N own ls s a n k Hl Hn Hb).
    + simpl fst. simpl snd. destruct Hsub as [-> | ->]; unfold sunits in Hu; simpl in *; lia.
Qed.

Lemma full_busy (N : Z) (own : Z -> owner) (ls : Z -> list Z) (s : ut_state) (L : gset (Z * Z)) :
  ut_inv N own ls s -> (forall x, x ∈ L <-> live N own s x) -> full N s P14 ->
  forall k, 0 <= k < N -> slab_busy s L k.
Proof.
  intros Hinv HL Hf k Hk. destruct (owned_busy N own ls s k Hinv Hk) as (x & Hx & Hr).
  - intros Ho. apply (pi_free _ _ _ (ui_pools _ _ _ _ Hinv)) in Ho; [|done].
    rewrite Hf in Ho; [done | simpl; lia].
  - exists x. split; [by apply HL | done].
Qed.

Lemma ut_alloc_inv N own ls s m ok sz :
  ut_inv N own ls s -> valid_size sz -> (forall p, sz = bits p -> healthy s p) ->
  (m <> 0 -> snodes s !! m = None) ->
  wp (ut_alloc m ok sz) (alloc_post N own (sub sz /\ (m = 0 \/ ok = false)) s sz) s.
Proof.
  intros Hinv Hsz Hh Hm. unfold ut_alloc. wp_steps. apply wp_assert; [apply Hinv|]. wp_steps.
  destruct (sh_pool _ _ (pi_shape _ _ _ (ui_pools _ _ _ _ Hinv)) P14) as (bf & Hbf & _).
  simpl in Hbf. rewrite Hbf. apply wp_assert; [done|].
  destruct (valid_size_cases sz Hsz) as [Hsub|[p ->]].
  - eapply wp_mono with (Q := alloc_post N own (m = 0 \/ ok = false) s sz).
    + pose proof Hsub as [-> | ->]; by eapply ut_alloc_list.
    + intros addr s' [Ht|(own' & ls' & H1 & H2 & H3 & H4 & H5 & H6)]; [by left | right].
      exists own', ls'. split; [done|]. split; [done|]. split; [done|]. split; [done|].
      split; [destruct H5; auto | done].
  - eapply wp_mono with (Q := alloc_post N own False s (bits p)).
    + specialize (Hh p eq_refl). destruct p; by eapply ut_alloc_bitfield.
    + intros addr s' [Ht|(own' & ls' & H1 & H2 & H3 & H4 & [H5|[]] & H6)]; [by left | right].
      exists own', ls'. split; [done|]. split; [done|]. split; [done|]. split; [done|]. auto.
Qed.

(** C1: [ut_alloc] on a valid size does not fault, provided that the search
    hint of the pool of this size is in range ([healthy]: true from the
    initialisation until an allocation from that pool fails, which loses the
    hint, see [ut_alloc_after_failure]) and that the node the heap returns for
    a small object, if any, is not in use.  It returns a block that is
    aligned to its size, lies in the managed memory and overlaps no live
    block, and adds exactly that block to the live ones; or it returns 0, with
    the live blocks unchanged, and then every 16K slab holds a live block or
    the heap had no memory for the bookkeeping node of a small object. *)
Theorem ut_alloc_refines N s L m ok sz :
  ut_rep N s L -> valid_size sz -> (forall p, sz = bits p -> healthy s p) ->
  (m <> 0 -> snodes s !! m = None) ->
  exists addr s', ut_alloc m ok sz s = Ok (addr, s') /\
    ((addr <> 0 /\ ut_rep N s' ({[(addr, sz)]} ∪ L) /\ heal s s' /\
      addr mod 2 ^ sz = 0 /\ pool_base s <= addr /\ addr + 2 ^ sz <= pool_base s + N * 2 ^ 14 /\
      forall y, y ∈ L -> disjoint_blocks (addr, sz) y) \/
     (addr = 0 /\ ut_rep N s' L /\
      ((forall k, 0 <= k < N -> slab_busy s L k) \/ ((sz = 9 \/ sz = 4) /\ (m = 0 \/ ok = false))))).
Proof.
  intros (own & ls & Hinv & HL) Hsz Hh Hm.
  destruct (proj1 (wp_ok _ _ _) (ut_alloc_inv N own ls s m ok sz Hinv Hsz Hh Hm)) as (addr & s' & E & Hpost).
  exists addr, s'. split; [done|].
  destruct Hpost as [(own' & ls' & Hinv' & Hheal & Hpb & Hne & Hnl & Hx)|(own' & ls' & Hinv' & _ & Hpb & -> & Hw & Hx)];
    [left | right].
  - assert (live N own' s' (addr, sz)) as Hnew by (apply Hx; by right).
    destruct (live_range _ _ _ _ _ Hinv' Hnew) as (H1 & H2 & H3). rewrite Hpb in H1, H2. simpl in *.
    split; [done|]. split; [|split; [done|split; [done|split; [lia|split; [lia|]]]]].
    + exists own', ls'. split; [done|]. intros x. rewrite Hx, elem_of_union, elem_of_singleton, HL. tauto.
    + intros y Hy%HL. eapply live_disjoint; [done | done | apply Hx; by left |]. intros <-. done.
  - split; [done|]. split; [exists own', ls'; split; [done|]; intros x; by rewrite Hx, HL|].
    destruct Hw as [Hf|Hw]; [left; by eapply full_busy | right; exact Hw].
Qed.

Lemma sz_aligned addr sz : 0 <= sz -> addr mod 2 ^ sz = 0 -> (Z.land addr (Z.shiftl 1 sz - 1) =? 0) = true.
Proof.
  intros Hs Hm. rewrite Z.shiftl_1_l, land_pow2_mask by done. by rewrite Hm.
Qed.

Lemma ut_free_inv N own ls s addr sz :
  ut_inv N own ls s -> live N own s (addr, sz) ->
  wp (ut_free addr sz) (fun _ => free_post N own s sz addr) s.
Proof.
  intros Hinv Hl. destruct (live_range _ _ _ _ _ Hinv Hl) as (H1 & _ & H3). simpl in H1, H3.
  destruct (live_slab _ _ _ _ _ Hinv Hl) as (_ & _ & _ & _ & _ & _ & Hsz & _). simpl in Hsz.
  unfold ut_free. wp_steps. apply wp_assert; [apply negb_true_iff, Z.eqb_neq; lia|]. wp_steps.
  apply wp_assert; [apply sz_aligned; lia|].
  destruct Hl as [(p & j & [= -> ->] & Hl)|(k & z & u & [= -> ->] & Ho & Hl)].
  - destruct p; by eapply ut_free_bitfield.
  - destruct (li_cover _ _ _ _ (ui_lists _ _ _ _ Hinv) k z Ho) as [[-> | ->] _]; by eapply ut_free_list.
Qed.

(** C2: [ut_free] of a live block never faults and removes exactly that block
    from the live ones; no pool loses its search hint. *)
Theorem ut_free_refines N s L addr sz :
  ut_rep N s L -> (addr, sz) ∈ L ->
  exists s', ut_free addr sz s = Ok (tt, s') /\ ut_rep N s' (L ∖ {[(addr, sz)]}) /\ heal s s'.
Proof.
  intros (own & ls & Hinv & HL) Hin.
  destruct (proj1 (wp_ok _ _ _) (ut_free_inv N own ls s addr sz Hinv (proj1 (HL _) Hin)))
    as ([] & s' & E & own' & ls' & Hinv' & Hh & _ & Hx).
  exists s'. split; [done|]. split; [|done]. exists own', ls'. split; [done|]. intros x.
  rewrite elem_of_difference, elem_of_singleton, HL, Hx. done.
Qed.

(** Without live blocks every slab of the primary pool is free and there is no
    node of a suballocator. *)
Lemma ut_all_freed N s :
  ut_rep N s ∅ -> (forall k, 0 <= k < N -> pbit s P14 k = false) /\ snodes s = ∅.
Proof.
  intros (own & ls & Hinv & HL).
  assert (forall k, 0 <= k < N -> own k = OFree) as Hown.
  { intros k Hk. destruct (own k) eqn:Ho; [done|..];
      (destruct (owned_busy N own ls s k Hinv Hk) as (x & Hx%HL & _); [by rewrite Ho|];
       by apply not_elem_of_empty in Hx). }
  split; [intros k Hk; apply (pi_free _ _ _ (ui_pools _ _ _ _ Hinv)); auto|].
  apply map_empty. intros a. destruct (snodes s !! a) as [n|] eqn:Ha; [|done]. exfalso.
  destruct (li_dom _ _ _ _ (ui_lists _ _ _ _ Hinv) a n Ha) as (sz & Hsub & Hin).
  destruct (li_node _ _ _ _ (ui_lists _ _ _ _ Hinv) sz a n Hsub Hin Ha) as (k & Hok).
  pose proof (no_own _ _ _ _ _ _ Hok) as Ho. by rewrite Hown in Ho by apply Hok.
Qed.

(** *** Initialisation *)

Definition ut_state0 : ut_state := UtState None None None 0 0 ∅ false 0.

Lemma FLOOR14_spec x : FLOOR14 x = x - x mod 2 ^ 14.
Proof. unfold FLOOR14. rewrite <- Z.ldiff_land. apply (ldiff_mask x 14). lia. Qed.

Lemma init_bounds low high :
  2 ^ 14 <= low <= high -> high + 2 ^ 14 <= 2 ^ 32 ->
  let lo := FLOOR14 low in let hi := CEILING14 high in
  0 < lo <= low /\ lo mod 2 ^ 14 = 0 /\ high <= hi <= 2 ^ 32 /\
  u32 (hi - lo) = (hi - lo) / 2 ^ 14 * 2 ^ 14 /\ 0 <= hi - lo < 2 ^ 32.
Proof.
  intros Hl Hh lo hi. unfold lo, hi, CEILING14. change (Z.shiftl 1 14) with (2 ^ 14).
  rewrite !FLOOR14_spec, (u32_small (high + 2 ^ 14 - 1)) by (unfold is_u32; lia).
  pose proof (Z.div_mod low (2 ^ 14) ltac:(lia)). pose proof (Z.mod_pos_bound low (2 ^ 14) ltac:(lia)).
  pose proof (Z.div_mod (high + 2 ^ 14 - 1) (2 ^ 14) ltac:(lia)).
  pose proof (Z.mod_pos_bound (high + 2 ^ 14 - 1) (2 ^ 14) ltac:(lia)).
  set (a := low / 2 ^ 14) in *. set (c := (high + 2 ^ 14 - 1) / 2 ^ 14) in *.
  replace (low - low mod 2 ^ 14) with (a * 2 ^ 14) by lia.
  replace (high + 2 ^ 14 - 1 - (high + 2 ^ 14 - 1) mod 2 ^ 14) with (c * 2 ^ 14) by lia.
  replace (c * 2 ^ 14 - a * 2 ^ 14) with ((c - a) * 2 ^ 14) by lia.
  rewrite Z.div_mul by lia. rewrite Z.mod_mul by lia.
  assert (0 <= (c - a) * 2 ^ 14 < 2 ^ 32) by lia. rewrite u32_small by (unfold is_u32; lia). lia.
Qed.

(** Marking all slabs of the primary pool as free. *)
Lemma init_loop N s :
  shape N s -> (forall p j, 0 <= j < N * upp p -> pbit s p j = true) ->
  wp (for_up 0 N (fun i => on_pool P14 (bf_clr i))) (fun _ s' => kept N s s' /\
    (forall k, 0 <= k < N -> pbit s' P14 k = false) /\
    (forall p j, p <> P14 -> 0 <= j < N * upp p -> pbit s' p j = true)) s.
Proof.
  intros Hsh Hall.
  apply (wp_for_up (fun n s' => kept N s s' /\ forall p j,
    pbit s' p j = if decide (p = P14 /\ 0 <= j < n) then false else pbit s p j)).
  - apply Hsh.
  - split; [done|]. intros p j. by rewrite decide_False by lia.
  - intros n s' Hn [Hkept Hbits]. eapply wp_mono; [apply (pool_bf_clr N); [apply Hkept | simpl; lia |]|].
    + rewrite Hbits, decide_False by lia. apply Hall. simpl. lia.
    + intros [] s'' [Hkept' Hch]. split; [by eapply kept_trans|]. intros p j. rewrite Hch, Hbits.
      destruct (decide (P14 = p /\ n = j)) as [[<- <-]|Hne]; [by rewrite decide_True by (split; [done | lia])|].
      destruct (decide (p = P14)) as [->|]; [|by rewrite !decide_False by tauto].
      assert (n <> j) by tauto. repeat case_decide; try done; exfalso; intuition lia.
  - intros s' [Hkept Hbits]. split; [done|]. split.
    + intros k Hk. by rewrite Hbits, decide_True.
    + intros p j Hp Hj. rewrite Hbits, decide_False by tauto. auto.
Qed.

(** Three filled bit fields of a memory of [N] slabs. *)
Lemma init_shape N bf14 bf12 bf10 h9 h4 nodes i lo :
  0 <= N -> bf_wf bf14 -> bf_wf bf12 -> bf_wf bf10 ->
  size bf14 = N -> size bf12 = N * 4 -> size bf10 = N * 16 ->
  let s := UtState (Some bf14) (Some bf12) (Some bf10) h9 h4 nodes i lo in
  shape N s /\ forall p, healthy s p.
Proof.
  intros HN H14 H12 H10 E14 E12 E10 s. split.
  - split; [done| |].
    + intros p. destruct p; simpl; eexists; (split; [done|]); (split; [by apply wf_base | lia]).
    + intros bf [= <-]. apply H14.
  - intros p bf. destruct p; intros [= <-]; by apply wf_next.
Qed.

Lemma free_field_bits bf i :
  bf_wf bf -> available bf = 0 -> 0 <= i < size bf -> bit_at (b bf) i = true.
Proof.
  intros Hwf Ha Hi. apply (nfree_zero _ (size bf)); [|done]. by rewrite <- (wf_available _ (wf_base _ Hwf)).
Qed.

(** The invariant of an allocator in which every slab is free. *)
Lemma ut_rep_empty N s :
  initialised s = true -> placed N s -> shape N s -> head_of 9 s = 0 -> head_of 4 s = 0 -> snodes s = ∅ ->
  (forall k, 0 <= k < N -> pbit s P14 k = false) ->
  (forall p j, p <> P14 -> 0 <= j < N * upp p -> pbit s p j = true) ->
  ut_rep N s ∅.
Proof.
  intros Hi Hpl Hsh H9 H4 Hsn Hfree Hused. exists (fun _ => OFree), (fun _ => []). split.
  - split; [done | done | | |].
    + split; [done | | |].
      * intros k Hk. rewrite Hfree by done. done.
      * intros p j Hp Hj. by rewrite Hused.
      * done.
    + split; rewrite ?Hsn; try done.
      * intros sz [-> | ->]; done.
      * intros sz _. constructor.
    + by rewrite Hsn.
  - intros x. split; [by intros ?%not_elem_of_empty|].
    intros [(p & j & _ & Hl)|(k & sz & u & _ & ? & _)]; [|done].
    destruct (decide (p = P14)) as [->|Hp]; [by destruct (proj1 (live_14 _ _ s j) Hl)|].
    apply live_sub in Hl as (_ & ? & _); done.
Qed.

Lemma init_sizes m : Z.shiftr (m * 2 ^ 14) 14 = m /\ Z.shiftr (m * 2 ^ 14) 12 = m * 4 /\
  Z.shiftr (m * 2 ^ 14) 10 = m * 16.
Proof.
  rewrite !Z.shiftr_div_pow2 by lia.
  replace (m * 2 ^ 14) with (m * 4 * 2 ^ 12) at 2 by lia.
  replace (m * 2 ^ 14) with (m * 16 * 2 ^ 10) at 2 by lia. by rewrite !Z.div_mul by lia.
Qed.

Lemma ut_allocator_init_inv low high :
  2 ^ 14 <= low <= high -> high + 2 ^ 14 <= 2 ^ 32 ->
  wp (ut_allocator_init true true true low high) (fun _ s' =>
    ut_rep ((CEILING14 high - FLOOR14 low) / 2 ^ 14) s' ∅ /\
    (forall p, healthy s' p) /\ pool_base s' = FLOOR14 low) ut_state0.
Proof.
  intros Hl Hh. pose proof (init_bounds low high Hl Hh) as (H1 & H2 & H3 & H4 & H5). cbv zeta in *.
  set (N := (CEILING14 high - FLOOR14 low) / 2 ^ 14) in *.
  assert (0 <= N) as HN by (apply Z.div_pos; lia). destruct (init_sizes N) as (E14 & E12 & E10).
  assert (CEILING14 high - FLOOR14 low = N * 2 ^ 14) as Hdiff by (rewrite <- H4, u32_small; [done | done]).
  unfold ut_allocator_init. wp_steps. apply wp_assert; [done|]. rewrite H4, E14, E12, E10. wp_steps.
  eapply wp_mono; [by apply new_bitfield_filled|]. intros r s1 (-> & bf14 & -> & Hwf14 & Hs14 & Ha14). wp_steps.
  eapply wp_mono; [apply new_bitfield_filled; lia|]. intros r s1 (-> & bf12 & -> & Hwf12 & Hs12 & Ha12). wp_steps.
  eapply wp_mono; [apply new_bitfield_filled; lia|]. intros r s1 (-> & bf10 & -> & Hwf10 & Hs10 & Ha10). wp_steps.
  destruct (init_shape N bf14 bf12 bf10 0 0 ∅ false (FLOOR14 low)) as [Hsh Hhe]; try done.
  eapply wp_mono; [apply (init_loop N); [exact Hsh|]|].
  { intros p j Hj. unfold pbit. destruct p; simpl in *; apply free_field_bits; try done; lia. }
  intros [] s1 ((Hsh1 & Hsame & Hheal) & Hfree & Hused). wp_steps.
  destruct Hsame as (_ & _ & Hsn & _ & Hpb).
  split; [|split; [|done]].
  - apply ut_rep_empty; try done.
    + unfold placed. simpl. rewrite Hpb. simpl. lia.
    + destruct Hsh1 as [A B C]. split; [done | | done]. intros p. specialize (B p). by destruct p.
  - intros p bf Hbf. apply (Hheal p (Hhe p)). by destruct p.
Qed.

(** [ut_allocator_init] starts with no live block, on the memory range
    rounded outwards to 16K. *)
Theorem ut_allocator_init_refines low high :
  2 ^ 14 <= low <= high -> high + 2 ^ 14 <= 2 ^ 32 ->
  exists s', ut_allocator_init true true true low high ut_state0 = Ok (tt, s') /\
    ut_rep ((CEILING14 high - FLOOR14 low) / 2 ^ 14) s' ∅ /\
    (forall p, healthy s' p) /\ pool_base s' = FLOOR14 low.
Proof.
  intros Hl Hh.
  destruct (proj1 (wp_ok _ _ _) (ut_allocator_init_inv low high Hl Hh)) as ([] & s' & E & H). eauto.
Qed.

(** ** A concrete run *)

(** Two slabs, at 0x4000. *)
Definition demo : ut_state :=
  Eval vm_compute in
  match ut_allocator_init true true true 0x4000 0xc000 ut_state0 with
  | Ok (_, s) => s
  | Err _ => ut_state0
  end.

(** After [ut_alloc] of a TCB, with its suballocator node at address 8. *)
Definition demo1 : ut_state :=
  Eval vm_compute in match ut_alloc 8 true 9 demo with Ok (_, s) => s | Err _ => ut_state0 end.

Lemma demo_rep : ut_rep 2 demo ∅ /\ forall p, healthy demo p.
Proof.
  pose proof (ut_allocator_init_inv 0x4000 0xc000 ltac:(lia) ltac:(lia)) as H.
  apply (wp_run _ _ _ tt demo) in H; [|by vm_compute]. destruct H as (H & Hh & _). done.
Qed.

Lemma demo1_rep : ut_rep 2 demo1 {[(0x4000, 9)]}.
Proof.
  destruct demo_rep as [(own & ls & Hinv & HL) Hh].
  assert (wp (ut_alloc 8 true 9) (alloc_post 2 own (sub 9 /\ (8 = 0 \/ true = false)) demo 9) demo) as H.
  { eapply ut_alloc_inv; [done | | by auto | by intros _]. unfold valid_size. set_solver. }
  apply (wp_run _ _ _ 0x4000 demo1) in H; [|by vm_compute].
  destruct H as [(own' & ls' & Hinv' & _ & _ & _ & _ & Hx)|(_ & _ & _ & _ & _ & ? & _)]; [|done].
  exists own', ls'. split; [done|]. intros x. rewrite Hx, <- HL. set_solver.
Qed.

Lemma ut_alloc_refines_witness :
  ut_rep 2 demo ∅ /\
  exists addr s', ut_alloc 8 true 9 demo = Ok (addr, s') /\
    ((addr <> 0 /\ ut_rep 2 s' ({[(addr, 9)]} ∪ ∅) /\ heal demo s' /\
      addr mod 2 ^ 9 = 0 /\ pool_base demo <= addr /\ addr + 2 ^ 9 <= pool_base demo + 2 * 2 ^ 14 /\
      forall y, y ∈ (∅ : gset (Z * Z)) -> disjoint_blocks (addr, 9) y) \/
     (addr = 0 /\ ut_rep 2 s' ∅ /\
      ((forall k, 0 <= k < 2 -> slab_busy demo ∅ k) \/ ((9 = 9 \/ 9 = 4) /\ (8 = 0 \/ true = false))))).
Proof.
  split; [apply demo_rep|]. apply (ut_alloc_refines 2 demo ∅ 8 true 9).
  - apply demo_rep.
  - unfold valid_size. set_solver.
  - intros p _. apply demo_rep.
  - by intros _.
Defined.

Lemma ut_free_refines_witness :
  exists s', ut_free 0x4000 9 demo1 = Ok (tt, s') /\
    ut_rep 2 s' ({[(0x4000, 9)]} ∖ {[(0x4000, 9)]}) /\ heal demo1 s'.
Proof. apply (ut_free_refines 2 demo1 {[(0x4000, 9)]} 0x4000 9); [apply demo1_rep | set_solver]. Defined.

Lemma ut_allocator_init_refines_witness :
  exists s', ut_allocator_init true true true 0x4000 0xc000 ut_state0 = Ok (tt, s') /\
    ut_rep ((CEILING14 0xc000 - FLOOR14 0x4000) / 2 ^ 14) s' ∅ /\
    (forall p, healthy s' p) /\ pool_base s' = FLOOR14 0x4000.
Proof. apply ut_allocator_init_refines; lia. Defined.
