(* ===== verification/UtClaims.v ===== *)
(** * UtClaims: programs that use the untyped allocator

    Over apps/sos/src/ut_manager/ut_allocator.c: what a whole sequence of
    allocations and releases leaves behind, and what happens after an
    allocation of a page has failed. *)

From S2P Require Import Prelude Bitfield UtAllocator UtRefine.

(** ** A client

    A sequence of allocations and releases.  [node] and [bf] tell whether the
    heap has memory for the bookkeeping of a small block; a release names a
    block by its place in the list of those the client holds, and does nothing
    when there is none.  A client does not ask again for a size of which a
    request has failed. *)
Inductive ut_op := OpAlloc (node bf : bool) (sz : Z) | OpFree (i : nat).

Definition valid_op (o : ut_op) : Prop := match o with OpAlloc _ _ sz => valid_size sz | OpFree _ => True end.

Definition heap_node (node : bool) (s : ut_state) : Z := if node then new_ptr (snodes s) else 0.

Fixpoint ut_client (ops : list ut_op) (failed : list Z) (held : list (Z * Z)) : M ut_state (list (Z * Z)) :=
  match ops with
  | [] => ret held
  | OpAlloc node bf sz :: ops =>
      if decide (sz ∈ failed) then ut_client ops failed held
      else
        m <- gets (heap_node node) ;;
        addr <- ut_alloc m bf sz ;;
        if addr =? 0 then ut_client ops (sz :: failed) held else ut_client ops failed ((addr, sz) :: held)
  | OpFree i :: ops =>
      match held !! i with
      | None => ut_client ops failed held
      | Some x => ut_free x.1 x.2 ;;; ut_client ops failed (delete i held)
      end
  end.

Fixpoint free_all (held : list (Z * Z)) : M ut_state unit :=
  match held with
  | [] => ret tt
  | x :: held => ut_free x.1 x.2 ;;; free_all held
  end.

(** The client holds exactly the live blocks. *)
Record holds (N : Z) (failed : list Z) (held : list (Z * Z)) (s : ut_state) : Prop := {
  h_rep : ut_rep N s (list_to_set held);
  h_nodup : NoDup held;
  h_hints : forall p, bits p ∉ failed -> healthy s p
}.

Lemma holds_alloc N failed held s node bf sz :
  holds N failed held s -> valid_size sz -> sz ∉ failed ->
  wp (ut_alloc (heap_node node s) bf sz) (fun addr s' =>
    if addr =? 0 then holds N (sz :: failed) held s' else holds N failed ((addr, sz) :: held) s') s.
Proof.
  intros [(own & ls & Hinv & HL) Hnd Hh] Hsz Hf.
  eapply wp_mono; [eapply (ut_alloc_inv N own ls s); [done | done | |]|].
  - intros p ->. by apply Hh.
  - unfold heap_node. destruct node; [intros _; apply new_ptr_fresh | done].
  - intros addr s' [(own' & ls' & Hinv' & Hheal & _ & Hne & Hnl & Hx)|(own' & ls' & Hinv' & Hk & _ & -> & _ & Hx)].
    + rewrite (proj2 (Z.eqb_neq _ _) Hne). split.
      * exists own', ls'. split; [done|]. intros x. rewrite Hx, <- HL. set_solver.
      * apply NoDup_cons. split; [|done]. intros Hin. apply Hnl, HL. by apply elem_of_list_to_set.
      * intros p Hp. by apply Hheal, Hh.
    + split; [|done|].
      * exists own', ls'. split; [done|]. intros x. by rewrite Hx, <- HL.
      * intros p [Hp1 Hp2]%not_elem_of_cons. apply Hk; [by apply Hh | done].
Qed.

Lemma holds_free N failed held s i x :
  holds N failed held s -> held !! i = Some x -> wp (ut_free x.1 x.2) (fun _ => holds N failed (delete i held)) s.
Proof.
  intros [(own & ls & Hinv & HL) Hnd Hh] Hi. destruct x as [addr sz].
  eapply wp_mono; [apply (ut_free_inv N own ls s addr sz Hinv), HL, elem_of_list_to_set; by eapply list_elem_of_lookup_2|].
  intros [] s' (own' & ls' & Hinv' & Hheal & _ & Hx). pose proof (delete_Permutation _ _ _ Hi) as Hperm.
  remember (delete i held) as rest eqn:Er. clear Er. rewrite Hperm in Hnd.
  apply NoDup_cons in Hnd as [Hni Hnd]. split; [|done|].
  - exists own', ls'. split; [done|]. intros y. rewrite Hx, <- HL, !elem_of_list_to_set, Hperm, elem_of_cons.
    split; [intros Hy; split; [by right | by intros ->] | intros [[->|] ?]; done].
  - intros p Hp. by apply Hheal, Hh.
Qed.

Lemma ut_client_run N ops failed held s :
  Forall valid_op ops -> holds N failed held s ->
  wp (ut_client ops failed held) (fun held' s' => exists failed', holds N failed' held' s') s.
Proof.
  intros Hops. revert failed held s. induction Hops as [|o ops Ho _ IH]; intros failed held s Hh; cbn [ut_client].
  { wp_steps. eauto. }
  destruct o as [node bf sz|i].
  - case_decide; [by apply IH|]. wp_steps. eapply wp_mono; [by eapply holds_alloc|].
    intros addr s' Hh'. cbv beta in Hh'. destruct (addr =? 0); by apply IH.
  - destruct (held !! i) eqn:Hi; [|by apply IH]. wp_steps. eapply wp_mono; [by eapply holds_free|]. intros [] s' Hh'. by apply IH.
Qed.

Lemma free_all_run N failed held s : holds N failed held s -> wp (free_all held) (fun _ => holds N failed []) s.
Proof.
  revert s. induction held as [|x held IH]; intros s Hh; cbn [free_all]; wp_steps; [done|].
  eapply wp_mono; [by eapply (holds_free _ _ _ _ 0)|]. intros [] s' Hh'. by apply IH.
Qed.

(** C11: The allocator does not leak.  Start from an allocator without live
    blocks whose search hints are in range, and run any sequence of allocations
    and releases of a client that does not ask again for a size once a request
    of it has failed; then release what the client still holds.  Nothing
    faults, the blocks held after the sequence are disjoint, and at the end every slab
    of the primary pool is free again and every bookkeeping node has been given
    back to the heap. *)
Theorem ut_no_leak N s ops :
  ut_rep N s ∅ -> (forall p, healthy s p) -> Forall valid_op ops ->
  exists held s1 s2, ut_client ops [] [] s = Ok (held, s1) /\ free_all held s1 = Ok (tt, s2) /\
    (forall x y, x ∈ held -> y ∈ held -> x <> y -> disjoint_blocks x y) /\
    (forall k, 0 <= k < N -> pbit s2 P14 k = false) /\ snodes s2 = ∅.
Proof.
  intros Hrep Hh Hops. assert (holds N [] [] s) as H0 by (split; [done | constructor | auto]).
  destruct (proj1 (wp_ok _ _ _) (ut_client_run N ops [] [] s Hops H0)) as (held & s1 & E1 & failed & H1).
  destruct (proj1 (wp_ok _ _ _) (free_all_run N failed held s1 H1)) as ([] & s2 & E2 & H2).
  exists held, s1, s2. split; [done|]. split; [done|]. split; [|apply ut_all_freed, H2].
  intros x y Hx Hy Hne. destruct H1 as [(own & ls & Hinv & HL) _ _].
  eapply live_disjoint; [done | apply HL; by apply elem_of_list_to_set.. | done].
Qed.

(** ** The lost search hint *)

(** When no unit can be handed out, -1 is stored as the search hint. *)
Lemma failed_alloc N own s p s1 :
  pools_inv N own s -> placed N s -> healthy s p -> p <> P14 -> do_ut_alloc_from_bitfield (bits p) s = Ok (0, s1) ->
  exists bf, get_pool p s = Some bf /\ s1 = put_pool p (set_next_free (-1) bf) s.
Proof.
  intros Hinv Hpl Hh Hp E. pose proof (pi_shape _ _ _ Hinv) as Hsh. destruct (sh_pool N s Hsh p) as (bf & Hget & _).
  exists bf. split; [done|].
  destruct (wp_run _ _ _ _ _ (alloc_from_bitfield N own s p Hinv Hpl Hh) E) as [(_ & H14 & Hhint & _)|(j & own' & Ha & Ht & _)].
  2: { destruct (unit_addr_range N s p j Hpl (ut_range _ _ _ _ _ _ _ Ht)). destruct Hpl as (? & _). lia. }
  revert E. unfold do_ut_alloc_from_bitfield, bind at 1. rewrite select_pool_bits. unfold ret at 1, bind at 1.
  destruct (proj1 (wp_ok _ _ _) (pool_bf_set_next_free N s p Hsh (or_introl Hh))) as (r & s0 & E0 & Hr). rewrite E0.
  destruct Hr as [(-> & -> & Hf)|(Hr & Hb & Hch & _)].
  - change (-1 =? -1) with true. cbv iota. unfold _bitfield_fill_pool, bind.
    destruct (Z.eqb_spec (bits p) PRIMARY_POOL_SIZEBITS); [by destruct p|]. cbn [negb].
    destruct (proj1 (wp_ok _ _ _) (pool_bf_set_next_free N s P14 Hsh (or_intror H14))) as (r & s0 & E14 & Hr).
    rewrite E14. destruct Hr as [(-> & -> & _)|(Hr & Hb & _)]; [|by rewrite H14 in Hb].
    change (-1 =? -1) with true. cbn [negb ret]. unfold ret, modify. unfold on_pool at 1. rewrite Hget.
    pose proof (wp_run _ _ _ tt (put_pool p (set_next_free (-1) bf) s) (set_hint N s p (-1) Hsh Hp)
      ltac:(unfold on_pool; by rewrite Hget)) as [(Hsh' & _ & Hb & _) _].
    assert (full N (put_pool p (set_next_free (-1) bf) s) p) as Hf' by (intros j Hj; rewrite Hb; by apply Hf).
    destruct (proj1 (wp_ok _ _ _) (pool_bf_set_next_free N _ p Hsh' (or_intror Hf'))) as (r & s0 & E1 & Hr). rewrite E1. destruct Hr as [(-> & -> & _)|(Hr & Hb' & _)]; [by intros [= <-]|].
    by rewrite Hb, Hf in Hb'.
  - destruct (Z.eqb_spec r (-1)); [lia|]. unfold ret, bind, get. destruct (Z.eqb_spec r (-1)); [lia|]. intros [= _ <-].
    exfalso. destruct Hhint as (_ & _ & Hsame & _). specialize (Hch p r). rewrite Hsame, decide_True in Hch by done. congruence.
Qed.

(** Freeing one of two units of a slab only clears its bit. *)
Lemma free_beside N own s p bf j i :
  pools_inv N own s -> placed N s -> p <> P14 -> get_pool p s = Some bf ->
  live_unit N own s p j -> live_unit N own s p i -> i <> j -> i / upp p = j / upp p ->
  exists bf', do_ut_free_from_bitfield (unit_addr s p j) (bits p) s = Ok (tt, put_pool p bf' s) /\
    0 <= size bf' /\ available bf' <> 0 /\ next_free bf' = next_free bf.
Proof.
  intros Hinv Hpl Hp Hget (Hj & _ & Hbj)%(live_sub _ _ _ _ _ Hp) (Hi & _ & Hbi)%(live_sub _ _ _ _ _ Hp) Hne Hslab.
  pose proof (pi_shape _ _ _ Hinv) as Hsh. destruct (sh_pool N s Hsh p) as (bf0 & Hget' & Hwf & Hsz). simplify_eq.
  pose proof Hbj as Hbj'. unfold pbit in Hbj'. rewrite Hget in Hbj'.
  destruct (proj1 (wp_ok _ _ _) (bf_clr_spec bf j Hwf ltac:(lia) Hbj')) as ([] & bf' & Ec & Hwf' & Hch & Hnf).
  exists bf'. pose proof (changed_pchanged _ _ _ _ _ _ Hget Hch) as Hpc. split_and!; [|apply Hwf'| |done].
  - assert (wp (do_ut_free_from_bitfield (unit_addr s p j) (bits p)) (fun _ s' => s' = put_pool p bf' s) s) as Hwp.
    { unfold do_ut_free_from_bitfield. rewrite select_pool_bits. wp_steps. rewrite (free_offset N s p j) by done.
      eapply wp_on_pool; [done|]. eapply wp_eq; [done|]. unfold _bitfield_merge_up.
      destruct (Z.eqb_spec (bits p) PRIMARY_POOL_SIZEBITS); [by destruct p|]. bred.
      rewrite upp_shift. destruct (merge_base p j) as [-> _]. pose proof (slab_of_unit N p j Hj) as Hk. wp_steps.
      pose proof (upp_pos p). set (s1 := put_pool p bf' s) in *. set (k := j / upp p) in *.
      assert (shape N s1) as Hsh1 by (eapply shape_put; [done..|apply Hch|done]).
      apply (wp_for_find (fun n s' => s' = s1 /\ forall x, 0 <= x < n -> pbit s1 p (k * upp p + x) = false)); [lia | split; [done | lia] | |].
      - intros u s' Hu [-> Hclear]. destruct (unit_of_slab N p k u Hk Hu) as [Hx _]. wp_steps.
        eapply wp_mono; [by apply (pool_bf_get N)|]. intros g s' [-> ->]. wp_steps.
        destruct (pbit s1 p (k * upp p + u)) eqn:Hb; [by wp_steps|]. split; [done|]. intros x Hx'.
        destruct (decide (x = u)) as [->|]; [done|]. apply Hclear. lia.
      - intros s' [-> Hclear]. exfalso. apply slab_range in Hslab. specialize (Hclear (i - k * upp p) ltac:(lia)).
        replace (k * upp p + (i - k * upp p)) with i in Hclear by lia. rewrite Hpc, decide_False in Hclear by (intros [_ ?]; lia). congruence. }
    by apply wp_ok in Hwp as ([] & s' & E & ->).
  - rewrite (wf_available _ Hwf'). intros H0. destruct Hch as (Hsz' & Hbits & _).
    pose proof (nfree_zero _ _ j H0 ltac:(lia)) as Hb. by rewrite Hbits, decide_True in Hb.
Qed.

Lemma same_slab N s p i j :
  placed N s -> unit_addr s p i / 2 ^ 14 = unit_addr s p j / 2 ^ 14 -> i / upp p = j / upp p.
Proof.
  intros (_ & Hm & _). unfold unit_addr. destruct p; simpl; intros; revert Hm H; Z.to_euclidean_division_equations; lia.
Qed.

Lemma live_unit_of N own ls s addr p :
  ut_inv N own ls s -> live N own s (addr, bits p) -> exists j, addr = unit_addr s p j /\ live_unit N own s p j.
Proof.
  intros Hinv [(q & j & [= -> Hb] & Hl)|(k & sz & u & [= -> Hb] & Ho & _)].
  - apply bits_inj in Hb as <-. eauto.
  - destruct (li_cover _ _ _ _ (ui_lists _ _ _ _ Hinv) k sz Ho) as [Hsub _]. by destruct (bits_not_sub p sz).
Qed.

(** C28: When an allocation of 2^12 or 2^10 bytes has failed, [_bitfield_fill_pool]
    has stored -1 as the position where the next search starts.  When then one of
    two live blocks of this size in the same 16K slab is freed, every next
    allocation of this size reads the byte before the bit array. *)
Theorem ut_alloc_after_failure N s L m ok p s1 addr addr' :
  ut_rep N s L -> p <> P14 -> healthy s p -> ut_alloc m ok (bits p) s = Ok (0, s1) ->
  (addr, bits p) ∈ L -> (addr', bits p) ∈ L -> addr' <> addr -> addr' / 2 ^ 14 = addr / 2 ^ 14 ->
  exists s2, ut_free addr (bits p) s1 = Ok (tt, s2) /\ forall m' ok', ut_alloc m' ok' (bits p) s2 = Err FBounds.
Proof.
  intros (own & ls & Hinv & HL) Hp Hh E (j & -> & Hj)%HL%(live_unit_of _ _ _ _ _ _ Hinv) (i & -> & Hi)%HL%(live_unit_of _ _ _ _ _ _ Hinv) Hne Hsl.
  pose proof (ui_placed _ _ _ _ Hinv) as Hpl. pose proof (ui_pools _ _ _ _ Hinv) as Hpi.
  assert (exists bf, get_pool p s = Some bf /\ s1 = put_pool p (set_next_free (-1) bf) s) as (bf & Hget & ->).
  { apply (failed_alloc N own); [done..|]. revert E. unfold ut_alloc, bind, get, c_assert. rewrite (ui_init _ _ _ _ Hinv).
    destruct (pool14 s); [|done]. by destruct p. }
  set (s1 := put_pool p (set_next_free (-1) bf) s).
  pose proof (wp_run _ _ _ tt s1 (set_hint N s p (-1) (pi_shape _ _ _ Hpi) Hp) ltac:(unfold on_pool; by rewrite Hget)) as [Hhint _].
  pose proof Hhint as (_ & (_ & _ & _ & Hini & Hb) & _). pose proof (pools_inv_hint _ _ _ _ _ Hpi Hhint) as Hpi1.
  apply (live_unit_hint _ _ _ _ _ _ _ Hhint) in Hj, Hi.
  destruct (free_beside N own s1 p (set_next_free (-1) bf) j i) as (bf' & Ef & Hsz & Hav & Hnf); try done.
  - unfold placed. by rewrite Hb.
  - unfold s1. by rewrite get_put_pool, decide_True.
  - by intros ->.
  - by eapply same_slab.
  - exists (put_pool p bf' s1). split.
    + destruct (live_range N own ls s (unit_addr s p j, bits p) Hinv) as (H1 & _ & H3); [left; exists p, j; split; [done|]; by apply (live_unit_hint _ _ _ _ _ _ _ Hhint)|].
      simpl in H1, H3. destruct Hpl as (? & _). unfold ut_free, bind, c_assert.
      rewrite (proj2 (Z.eqb_neq _ _)) by lia. rewrite sz_aligned by (done || by destruct p). cbn [negb].
      unfold unit_addr in Ef |- *. rewrite Hb in Ef. by destruct p.
    + intros m' ok'. pose proof (bf_set_next_free_negative bf' Hsz Hav Hnf) as Eb. unfold ut_alloc, bind, get, c_assert.
      destruct (sh_pool _ _ (pi_shape _ _ _ Hpi1) P14) as (bf14 & H14 & _). simpl in H14.
      assert (initialised (put_pool p bf' s1) = true) as -> by (rewrite <- (ui_init _ _ _ _ Hinv), <- Hini; by destruct p).
      assert (pool14 (put_pool p bf' s1) = Some bf14) as -> by (rewrite <- H14; by destruct p).
      destruct p; [done|..]; unfold do_ut_alloc_from_bitfield, on_pool, bind; simpl; by rewrite Eb.
Qed.

(** ** Examples: one and two slabs *)

Definition demo_ops : list ut_op := [OpAlloc true true 9; OpAlloc false false 12; OpAlloc true true 4; OpFree 1; OpAlloc true true 14; OpAlloc false true 10].

Lemma ut_no_leak_witness :
  exists held s1 s2, ut_client demo_ops [] [] demo = Ok (held, s1) /\ free_all held s1 = Ok (tt, s2) /\
    (forall x y, x ∈ held -> y ∈ held -> x <> y -> disjoint_blocks x y) /\
    (forall k, 0 <= k < 2 -> pbit s2 P14 k = false) /\ snodes s2 = ∅.
Proof.
  apply (ut_no_leak 2 demo demo_ops); [apply demo_rep | apply demo_rep |].
  repeat constructor; unfold valid_size; set_solver.
Defined.

(** One slab, of which all four pages are taken. *)
Definition one_slab : ut_state :=
  Eval vm_compute in
  match ut_allocator_init true true true 0x4000 0x8000 ut_state0 with
  | Ok (_, s) => s
  | Err _ => ut_state0
  end.
Definition all_taken : ut_state :=
  Eval vm_compute in
  match ut_client (replicate 4 (OpAlloc true true 12)) [] [] one_slab with Ok (_, s) => s | Err _ => ut_state0 end.

Lemma all_taken_holds : holds 1 [] [(0x7000, 12); (0x6000, 12); (0x5000, 12); (0x4000, 12)] all_taken.
Proof.
  assert (ut_rep 1 one_slab ∅ /\ forall p, healthy one_slab p) as [Hrep Hh].
  { pose proof (ut_allocator_init_inv 0x4000 0x8000 ltac:(lia) ltac:(lia)) as H.
    apply (wp_run _ _ _ tt one_slab) in H; [|by vm_compute]. by destruct H as (? & ? & _). }
  assert (holds 1 [] [] one_slab) as H0 by (split; [done | constructor | auto]).
  pose proof (ut_client_run 1 (replicate 4 (OpAlloc true true 12)) [] [] one_slab) as Hrun.
  apply (wp_run _ _ _ [(0x7000, 12); (0x6000, 12); (0x5000, 12); (0x4000, 12)] all_taken) in Hrun; [|..].
  4: by vm_compute.
  - destruct Hrun as [failed [H1 H2 _]]. split; [done | done |]. intros p _ bf. destruct p; intros [= <-]; vm_compute; split; congruence.
  - repeat constructor; unfold valid_size; set_solver.
  - done.
Qed.

Definition hint_lost : ut_state :=
  Eval vm_compute in match ut_alloc 0 true 12 all_taken with Ok (_, s) => s | Err _ => ut_state0 end.

Lemma ut_alloc_after_failure_witness :
  exists s2, ut_free 0x4000 (bits P12) hint_lost = Ok (tt, s2) /\ forall m' ok', ut_alloc m' ok' (bits P12) s2 = Err FBounds.
Proof.
  apply (ut_alloc_after_failure 1 all_taken (list_to_set [(0x7000, 12); (0x6000, 12); (0x5000, 12); (0x4000, 12)]) 0 true
    P12 hint_lost 0x4000 0x5000).
  - apply all_taken_holds.
  - done.
  - apply all_taken_holds. set_solver.
  - by vm_compute.
  - set_solver.
  - set_solver.
  - done.
  - done.
Defined.
