(* ===== verification/UtTable.v ===== *)
(** * UtTable: the table of untyped memory

    Models apps/sos/src/ut_manager/ut.c: the boot information is turned into a
    table of the largest contiguous run of untyped objects, addresses are
    translated to a capability and an offset by binary search, and memory is
    stolen from the bottom of the run before the allocator starts.

    [qsort] of the C library is a parameter with its contract.  The theorems
    show that the table tiles the range it reports, so that every address of
    the range is translated, and that stolen blocks are aligned and disjoint
    from what remains. *)

From S2P Require Import Prelude.

Definition CONFIG_MAX_NUM_BOOTINFO_UNTYPED_CAPS : Z := 800.
Definition MIN_UT_SIZE_BITS : Z := 14.

Record seL4_BootInfo := BootInfo {
  untyped_start : Z;
  untyped_end : Z;
  deviceUntyped_start : Z;
  deviceUntyped_end : Z;
  untypedPaddrList : list Z;
  untypedSizeBitsList : list Z
}.

Record ut_table := UtTable {
  bi : option seL4_BootInfo;
  map : list Z;
  count : Z;
  low : Z;
  high : Z
}.

Definition set_map x (s : ut_table) := UtTable (bi s) x (count s) (low s) (high s).
Definition set_count x (s : ut_table) := UtTable (bi s) (map s) x (low s) (high s).

Definition the_bi : M ut_table seL4_BootInfo :=
  s <- get ;; match bi s with Some x => ret x | None => fail FNull end.

Definition ALIGN (x base : Z) : Z := Z.land x (u32 (Z.lnot (base - 1))).
Definition ALIGN_TOP (x base : Z) : Z := ALIGN (u32 (x + (base - 1))) base.

Definition UT_MAP (i : Z) : M ut_table Z := s <- get ;; rd (map s) i.
Definition UT_SIZEBITS (i : Z) : M ut_table Z :=
  x <- the_bi ;; k <- UT_MAP i ;; rd (untypedSizeBitsList x) k.
Definition UT_PSTART (i : Z) : M ut_table Z :=
  x <- the_bi ;; k <- UT_MAP i ;; rd (untypedPaddrList x) k.
Definition UT_PEND (i : Z) : M ut_table Z :=
  p <- UT_PSTART i ;; z <- UT_SIZEBITS i ;; ret (u32 (p + Z.shiftl 1 z)).
Definition UT_CAP (i : Z) : M ut_table Z :=
  x <- the_bi ;; k <- UT_MAP i ;; ret (u32 (untyped_start x + k)).

Definition store_map (i x : Z) : M ut_table unit :=
  s <- get ;; in_bounds (map s) i ;;; modify (set_map (insertZ i x (map s))).

Definition _fill_table (x : seL4_BootInfo) : M ut_table unit :=
  modify (fun s => UtTable (Some x) (map s) (untyped_end x - untyped_start x) (low s) (high s)) ;;;
  s <- get ;;
  for_up 0 (count s) (fun i => store_map i i).

(** [for (i = j = 0; i < _ut.count; i++) if (keep(i)) _ut.map[j++] = _ut.map[i];] *)
Fixpoint strip (n : nat) (keep : Z -> bool) (i j : Z) : M ut_table Z :=
  match n with
  | O => ret j
  | S n' =>
      z <- UT_SIZEBITS i ;;
      if keep z then
        k <- UT_MAP i ;; store_map j k ;;; strip n' keep (i + 1) (j + 1)
      else strip n' keep (i + 1) j
  end.

Definition _strip_min (min_bits : Z) : M ut_table unit :=
  s <- get ;;
  j <- strip (Z.to_nat (count s)) (fun z => min_bits <=? z) 0 0 ;;
  modify (set_count j).

Definition _strip_max (max_bits : Z) : M ut_table unit :=
  s <- get ;;
  j <- strip (Z.to_nat (count s)) (fun z => z <=? max_bits) 0 0 ;;
  modify (set_count j).

Definition _reduce_table (min_bits max_bits : Z) : M ut_table unit :=
  (if 0 <? min_bits then _strip_min min_bits else ret tt) ;;;
  (if 0 <? max_bits then _strip_max max_bits else ret tt).

(** [int] difference of two [seL4_Word]s. *)
Definition __ut_cmp (x : seL4_BootInfo) (a b : Z) : Z :=
  match untypedPaddrList x !z a, untypedPaddrList x !z b with
  | Some p, Some q => i32 (u32 (p - q))
  | _, _ => 0
  end.

(** The variables of the loop of [_select_largest_contiguous]. *)
Record runs := Runs {
  contig_start : Z;
  contig_size : Z;
  contig_end : Z;
  this_start : Z;
  this_size : Z
}.

Definition run_round (i : Z) (v : runs) : M ut_table runs :=
  z <- UT_SIZEBITS i ;;
  let size := u32 (this_size v + Z.shiftl 1 z) in
  s <- get ;;
  broken <- (if count s <=? i + 1 then ret true
             else e <- UT_PEND i ;; p <- UT_PSTART (i + 1) ;; ret (negb (e =? p))) ;;
  if (broken : bool) then
    ret (if contig_size v <? size then Runs (this_start v) size (i + 1) (i + 1) 0
         else Runs (contig_start v) (contig_size v) (contig_end v) (i + 1) 0)
  else ret (Runs (contig_start v) (contig_size v) (contig_end v) (this_start v) size).

Fixpoint find_runs (n : nat) (i : Z) (v : runs) : M ut_table runs :=
  match n with
  | O => ret v
  | S n' => v' <- run_round i v ;; find_runs n' (i + 1) v'
  end.

Definition _select_largest_contiguous : M ut_table unit :=
  s <- get ;;
  c_assert (negb (count s =? 0)) ;;;
  v <- find_runs (Z.to_nat (count s)) 0 (Runs 0 0 0 0 0) ;;
  for_up 0 (contig_end v - contig_start v) (fun i =>
    k <- UT_MAP (contig_start v + i) ;; store_map i k) ;;;
  modify (set_count (contig_end v - contig_start v)).

Section init.
(** [qsort] applied to the array and the comparison function. *)
Context (qsort : (Z -> Z -> Z) -> list Z -> list Z).

Definition _sort_table : M ut_table unit :=
  x <- the_bi ;;
  modify (fun s => let n := Z.to_nat (count s) in
    set_map (qsort (__ut_cmp x) (take n (map s)) ++ drop n (map s)) s).

(** The null test of [bi] is the [option]. *)
Definition ut_table_init (b : option seL4_BootInfo) : M ut_table Z :=
  match b with
  | None => ret 1
  | Some x =>
      _fill_table x ;;;
      _reduce_table MIN_UT_SIZE_BITS 0 ;;;
      _sort_table ;;;
      _select_largest_contiguous ;;;
      lo <- UT_PSTART 0 ;;
      s <- get ;;
      hi <- UT_PEND (count s - 1) ;;
      modify (fun s => UtTable (bi s) (map s) (count s) lo hi) ;;;
      ret 0
  end.
End init.

(** The result of a translation: [Some (cap, offset)], or [None] for an error. *)
Definition ut_translate_device (addr : Z) : M ut_table (option (Z * Z)) :=
  x <- the_bi ;;
  let i := untyped_end x - untyped_start x in
  for_find 0 (deviceUntyped_end x - deviceUntyped_start x) (fun n =>
    p <- rd (untypedPaddrList x) (i + n) ;;
    z <- rd (untypedSizeBitsList x) (i + n) ;;
    ret (if (p <=? addr) && (addr <? u32 (p + Z.shiftl 1 z))
         then Some (deviceUntyped_start x + n, addr - p) else None)).

(** One round of the binary search. *)
Definition search_round (addr : Z) (v : Z * Z) : M ut_table ((Z * Z) + option (Z * Z)) :=
  let '(start, stop) := v in
  if start <? stop then
    let index := Z.shiftr (start + stop) 1 in
    p <- UT_PSTART index ;;
    if addr <? p then ret (inl (start, index))
    else
      e <- UT_PEND index ;;
      if e <=? addr then ret (inl (index + 1, stop))
      else c <- UT_CAP index ;; ret (inr (Some (c, addr - p)))
  else ret (inr None).

Definition ut_translate (addr : Z) : M ut_table (option (Z * Z)) :=
  s <- get ;;
  r <- while_fuel (S (Z.to_nat (count s))) (search_round addr) (0, count s) ;;
  match r with
  | Some x => ret (Some x)
  | None => ut_translate_device addr
  end.

Definition ut_find_memory : M ut_table (Z * Z) := s <- get ;; ret (low s, high s).

Definition ut_steal_mem (sizebits : Z) : M ut_table Z :=
  s <- get ;;
  let paddr := ALIGN_TOP (low s) (Z.shiftl 1 sizebits) in
  if u32 (paddr + Z.shiftl 1 sizebits) <=? high s then
    modify (fun s => UtTable (bi s) (map s) (count s) (u32 (paddr + Z.shiftl 1 sizebits)) (high s)) ;;;
    ret paddr
  else ret 0.

(** ** Entries of the table *)

(** Start and end of the untyped object at place [i] of the array [m]. *)
Definition ent (x : seL4_BootInfo) (m : list Z) (i : Z) : option (Z * Z) :=
  match m !z i with
  | Some k =>
      match untypedPaddrList x !z k, untypedSizeBitsList x !z k with
      | Some p, Some z => Some (p, p + 2 ^ z)
      | _, _ => None
      end
  | None => None
  end.

Definition n_untyped (x : seL4_BootInfo) : Z := untyped_end x - untyped_start x.

(** What the kernel promises of the boot information. *)
Definition obj_ok (x : seL4_BootInfo) (k : Z) : Prop :=
  exists p z, untypedPaddrList x !z k = Some p /\ untypedSizeBitsList x !z k = Some z /\
    0 <= p /\ 0 <= z < 32 /\ p + 2 ^ z < 2 ^ 32.

Record bi_ok (x : seL4_BootInfo) : Prop := {
  bo_start : 0 <= untyped_start x /\ untyped_start x + n_untyped x < 2 ^ 32;
  bo_count : 0 <= n_untyped x <= CONFIG_MAX_NUM_BOOTINFO_UNTYPED_CAPS;
  bo_objs : forall k, 0 <= k < n_untyped x -> obj_ok x k
}.

(** The first [c] cells hold indices of untyped objects. *)
Definition cells_ok (x : seL4_BootInfo) (m : list Z) (c : Z) : Prop :=
  forall i, 0 <= i < c -> exists k, m !z i = Some k /\ 0 <= k < n_untyped x.

Lemma ent_ok x m c i :
  bi_ok x -> cells_ok x m c -> 0 <= i < c ->
  exists k p z, m !z i = Some k /\ 0 <= k < n_untyped x /\ untypedPaddrList x !z k = Some p /\
    untypedSizeBitsList x !z k = Some z /\ 0 <= p /\ 0 <= z < 32 /\ 0 < 2 ^ z /\ p + 2 ^ z < 2 ^ 32 /\
    ent x m i = Some (p, p + 2 ^ z).
Proof.
  intros Hx Hc Hi. destruct (Hc i Hi) as (k & Hk & Hkn).
  destruct (bo_objs x Hx k Hkn) as (p & z & Hp & Hz & Hp0 & Hz0 & Hsum).
  exists k, p, z. unfold ent. rewrite Hk, Hp, Hz.
  assert (0 < 2 ^ z) by (apply Z.pow_pos_nonneg; lia). done.
Qed.

Section access.
Context (x : seL4_BootInfo) (s : ut_table) (i : Z).
Context (k p z : Z).
Hypothesis Hbi : bi s = Some x.
Hypothesis Hk : map s !z i = Some k.
Hypothesis Hp : untypedPaddrList x !z k = Some p.
Hypothesis Hz : untypedSizeBitsList x !z k = Some z.

Lemma wp_the_bi Q : Q x s -> wp the_bi Q s.
Proof. intros HQ. unfold the_bi. wp_steps. by rewrite Hbi. Qed.

Lemma wp_UT_MAP Q : Q k s -> wp (UT_MAP i) Q s.
Proof. intros HQ. unfold UT_MAP. wp_steps. by eapply wp_rd. Qed.

Lemma wp_UT_SIZEBITS Q : Q z s -> wp (UT_SIZEBITS i) Q s.
Proof.
  intros HQ. unfold UT_SIZEBITS. wp_steps. apply wp_the_bi. wp_steps. apply wp_UT_MAP. by eapply wp_rd.
Qed.

Lemma wp_UT_PSTART Q : Q p s -> wp (UT_PSTART i) Q s.
Proof.
  intros HQ. unfold UT_PSTART. wp_steps. apply wp_the_bi. wp_steps. apply wp_UT_MAP. by eapply wp_rd.
Qed.

Lemma wp_UT_PEND Q :
  0 <= p -> 0 <= z < 32 -> p + 2 ^ z < 2 ^ 32 -> Q (p + 2 ^ z) s -> wp (UT_PEND i) Q s.
Proof.
  intros Hp0 Hz0 Hsum HQ. unfold UT_PEND. wp_steps. apply wp_UT_PSTART. wp_steps. apply wp_UT_SIZEBITS.
  wp_steps. rewrite Z.shiftl_1_l. assert (0 < 2 ^ z) by (apply Z.pow_pos_nonneg; lia).
  by rewrite u32_small by (unfold is_u32; lia).
Qed.
End access.

(** Consecutive objects [a .. c-1] of the table touch. *)
Definition tiles (x : seL4_BootInfo) (m : list Z) (a c : Z) : Prop :=
  forall i p e p' e', a <= i -> i + 1 < c -> ent x m i = Some (p, e) -> ent x m (i + 1) = Some (p', e') -> e = p'.

(** ** Translation *)

Record table_ok (x : seL4_BootInfo) (s : ut_table) : Prop := {
  to_bi : bi s = Some x;
  to_bi_ok : bi_ok x;
  to_cells : cells_ok x (map s) (count s);
  to_tiles : tiles x (map s) 0 (count s)
}.

(** [addr] lies in the objects [start .. stop-1]. *)
Definition within (x : seL4_BootInfo) (m : list Z) (start stop addr : Z) : Prop :=
  exists p e p' e', ent x m start = Some (p, e) /\ ent x m (stop - 1) = Some (p', e') /\ p <= addr < e'.

Definition translated (x : seL4_BootInfo) (addr : Z) (r : option (Z * Z)) : Prop :=
  exists k p z, r = Some (u32 (untyped_start x + k), addr - p) /\ 0 <= k < n_untyped x /\
    untypedPaddrList x !z k = Some p /\ untypedSizeBitsList x !z k = Some z /\ 0 <= addr - p < 2 ^ z.

Lemma search_round_spec x s addr start stop :
  table_ok x s -> 0 <= start < stop -> stop <= count s -> within x (map s) start stop addr ->
  wp (search_round addr (start, stop)) (fun r s' => s' = s /\
    match r with
    | inl (a, c) => 0 <= a < c /\ c <= count s /\ within x (map s) a c addr /\ c - a < stop - start
    | inr r => translated x addr r
    end) s.
Proof.
  intros [Hbi Hx Hc Ht] Hs Hstop (p0 & e0 & p1 & e1 & E0 & E1 & Haddr).
  unfold search_round. destruct (Z.ltb_spec start stop); [|lia]. rewrite Z.shiftr_div_pow2 by lia.
  set (j := (start + stop) / 2 ^ 1).
  assert (start <= j < stop) as Hj.
  { unfold j. split; [apply Z.div_le_lower_bound; lia | apply Z.div_lt_upper_bound; lia]. }
  destruct (ent_ok x (map s) (count s) j Hx Hc ltac:(lia)) as (k & p & z & Hk & Hkn & Hp & Hz & ? & ? & ? & ? & Ej).
  wp_steps. eapply wp_UT_PSTART; [done..|]. destruct (Z.ltb_spec addr p).
  - wp_steps. split; [done|]. assert (start <> j) by (intros E; rewrite E, Ej in E0; injection E0; lia).
    split; [lia|]. split; [lia|]. split; [|lia].
    destruct (ent_ok x (map s) (count s) (j - 1) Hx Hc ltac:(lia)) as (? & q & y & _ & _ & _ & _ & _ & _ & _ & _ & Eq).
    exists p0, e0, q, (q + 2 ^ y). split; [done|]. split; [done|].
    rewrite (Ht (j - 1) q (q + 2 ^ y) p (p + 2 ^ z)); [lia | lia | lia | done |].
    by replace (j - 1 + 1) with j by lia.
  - wp_steps. eapply wp_UT_PEND; [done..|]. destruct (Z.leb_spec (p + 2 ^ z) addr).
    + wp_steps. split; [done|]. assert (j <> stop - 1) by (intros E; rewrite <- E, Ej in E1; injection E1; lia).
      split; [lia|]. split; [lia|]. split; [|lia].
      destruct (ent_ok x (map s) (count s) (j + 1) Hx Hc ltac:(lia)) as (? & q & y & _ & _ & _ & _ & _ & _ & _ & _ & Eq).
      exists q, (q + 2 ^ y), p1, e1. split; [done|]. split; [done|].
      rewrite <- (Ht j p (p + 2 ^ z) q (q + 2 ^ y)); [lia | lia | lia | done | done].
    + wp_steps. unfold UT_CAP. wp_steps. eapply wp_the_bi; [done|]. wp_steps. eapply wp_UT_MAP; [done|].
      wp_steps. split; [done|]. exists k, p, z. split; [done|]. split; [done|]. split; [done|].
      split; [done|]. lia.
Qed.

Lemma ut_translate_run x s addr :
  table_ok x s -> 1 <= count s -> within x (map s) 0 (count s) addr ->
  wp (ut_translate addr) (fun r s' => s' = s /\ translated x addr r) s.
Proof.
  intros Ht Hc Hw. unfold ut_translate. wp_steps.
  apply (wp_while_fuel (fun v s' => s' = s /\ 0 <= v.1 < v.2 /\ v.2 <= count s /\ within x (map s) v.1 v.2 addr)
    (fun v _ => Z.to_nat (v.2 - v.1))).
  - split; [done|]. simpl. split; [lia|]. done.
  - simpl. lia.
  - intros [a c] s' (-> & Hac & Hcc & Hw'). simpl in *.
    eapply wp_mono; [by apply search_round_spec|]. intros [[a' c']|r] s' [-> Hr].
    + destruct Hr as (? & ? & ? & ?). simpl. split; [done | lia].
    + destruct Hr as (k & p & z & -> & Hr). wp_steps. split; [done|]. exists k, p, z. done.
Qed.

(** ** Building the table *)

(** The state during the construction: the boot information is set and the
    first [c] cells of the array are indices of objects. *)
Record building (x : seL4_BootInfo) (c : Z) (s : ut_table) : Prop := {
  bu_bi : bi s = Some x;
  bu_len : length (map s) = Z.to_nat CONFIG_MAX_NUM_BOOTINFO_UNTYPED_CAPS;
  bu_c : c <= CONFIG_MAX_NUM_BOOTINFO_UNTYPED_CAPS;
  bu_cells : cells_ok x (map s) c
}.

Lemma wp_store_map x c i v Q s :
  building x c s -> 0 <= i < c -> Q tt (set_map (insertZ i v (map s)) s) -> wp (store_map i v) Q s.
Proof.
  intros [_ Hl Hc _] Hi HQ. unfold store_map. wp_steps. apply wp_in_bounds; [rewrite Hl; lia|]. done.
Qed.

Lemma building_store x c i v s :
  building x c s -> 0 <= i < c -> 0 <= v < n_untyped x -> building x c (set_map (insertZ i v (map s)) s).
Proof.
  intros [Hb Hl Hc Hcells] Hi Hv. split; simpl; [done | by rewrite length_insertZ | done |].
  intros j Hj. rewrite lookupZ_insertZ by (rewrite Hl; lia). case_decide; [eauto|]. by apply Hcells.
Qed.

Lemma _fill_table_spec x s :
  bi_ok x -> length (map s) = Z.to_nat CONFIG_MAX_NUM_BOOTINFO_UNTYPED_CAPS ->
  wp (_fill_table x) (fun _ s' => building x (n_untyped x) s' /\ count s' = n_untyped x /\
    forall i, 0 <= i < n_untyped x -> map s' !z i = Some i) s.
Proof.
  intros Hx Hl. destruct (bo_count x Hx) as [Hn0 Hn]. unfold _fill_table. wp_steps. simpl count.
  fold (n_untyped x).
  apply (wp_for_up (fun k s' => bi s' = Some x /\ length (map s') = Z.to_nat CONFIG_MAX_NUM_BOOTINFO_UNTYPED_CAPS /\
    count s' = n_untyped x /\ forall i, 0 <= i < k -> map s' !z i = Some i)).
  - done.
  - split; [done|]. split; [done|]. split; [done|]. lia.
  - intros k s' Hk (Hb & Hl' & Hcnt & Hm). unfold store_map. wp_steps.
    apply wp_in_bounds; [rewrite Hl'; lia|]. wp_steps. simpl.
    split; [done|]. split; [by rewrite length_insertZ|]. split; [done|].
    intros i Hi. rewrite lookupZ_insertZ by (rewrite Hl'; lia). case_decide; [congruence|]. apply Hm. lia.
  - intros s' (Hb & Hl' & Hcnt & Hm). split; [|done]. split; try done. intros i Hi. exists i. auto.
Qed.

Definition size_of (x : seL4_BootInfo) (m : list Z) (i : Z) : option Z :=
  match m !z i with Some k => untypedSizeBitsList x !z k | None => None end.

Lemma strip_spec x keep c : bi_ok x -> forall n i j s,
  building x c s -> 0 <= j <= i -> i + Z.of_nat n = c ->
  wp (strip n keep i j) (fun j' s' => building x c s' /\ count s' = count s /\ j <= j' <= c /\
    ((exists t z, i <= t < c /\ size_of x (map s) t = Some z /\ keep z = true) -> j < j')) s.
Proof.
  intros Hx. induction n as [|n IH]; intros i j s Hb Hj Hi; simpl strip.
  { wp_steps. split; [done|]. split; [done|]. split; [lia|]. intros (t & _ & ? & _). lia. }
  destruct (ent_ok x (map s) c i Hx (bu_cells _ _ _ Hb) ltac:(lia))
    as (k & p & z & Hk & Hkn & Hp & Hz & _).
  assert (size_of x (map s) i = Some z) as Hsz by (unfold size_of; by rewrite Hk).
  wp_steps. eapply wp_UT_SIZEBITS; [apply Hb | done | done |]. destruct (keep z) eqn:Ekeep.
  - wp_steps. eapply wp_UT_MAP; [done|]. wp_steps. eapply wp_store_map; [done | lia |].
    eapply wp_mono; [apply IH; [apply building_store; [done | lia | done] | lia | lia]|].
    intros j' s' (Hb' & Hc' & Hj' & _). split; [done|]. split; [done|]. lia.
  - eapply wp_mono; [apply IH; [done | lia | lia]|].
    intros j' s' (Hb' & Hc' & Hj' & Hex). split; [done|]. split; [done|]. split; [lia|].
    intros (t & z' & Ht & Hz' & Hkeep). apply Hex. exists t, z'.
    destruct (decide (t = i)) as [->|]; [rewrite Hsz in Hz'; congruence|]. split; [lia | done].
Qed.

(** Some object is large enough to be kept. *)
Definition has_large (x : seL4_BootInfo) : Prop :=
  exists k z, 0 <= k < n_untyped x /\ untypedSizeBitsList x !z k = Some z /\ MIN_UT_SIZE_BITS <= z.

Lemma _reduce_table_spec x s :
  bi_ok x -> has_large x -> building x (n_untyped x) s -> count s = n_untyped x ->
  (forall i, 0 <= i < n_untyped x -> map s !z i = Some i) ->
  wp (_reduce_table MIN_UT_SIZE_BITS 0) (fun _ s' => 1 <= count s' /\ building x (count s') s') s.
Proof.
  intros Hx (k & z & Hk & Hz & Hlarge) Hb Hc Hid. unfold _reduce_table, _strip_min.
  change (0 <? MIN_UT_SIZE_BITS) with true. change (0 <? 0) with false. wp_steps. rewrite Hc. destruct (bo_count x Hx) as [Hn0 _].
  eapply wp_mono; [apply (strip_spec x _ (n_untyped x)); [done | done | lia | lia]|].
  intros j s' (Hb' & Hc' & Hj & Hex). wp_steps. cbn [count set_count]. split.
  - assert (0 < j); [|lia]. apply Hex. exists k, z. split; [done|]. split.
    + unfold size_of. by rewrite Hid.
    + by apply Z.leb_le.
  - destruct Hb' as [? ? ? Hcells]. split; simpl; try done; [lia|]. intros i Hi. apply Hcells. lia.
Qed.

Section sorted.
Context (qsort : (Z -> Z -> Z) -> list Z -> list Z).
Hypothesis qsort_perm : forall cmp l, qsort cmp l ≡ₚ l.

Lemma _sort_table_spec x s :
  building x (count s) s -> 0 <= count s ->
  wp (_sort_table qsort) (fun _ s' => building x (count s') s' /\ count s' = count s) s.
Proof.
  intros [Hb Hl Hc Hcells] Hc0. unfold _sort_table. wp_steps. eapply wp_the_bi; [done|]. wp_steps.
  split; [|done]. set (n := Z.to_nat (count s)). pose proof (qsort_perm (__ut_cmp x) (take n (map s))) as Hperm.
  assert (length (qsort (__ut_cmp x) (take n (map s))) = n) as Hln.
  { rewrite Hperm, length_take, Hl. lia. }
  split; simpl; [done | | done |].
  - rewrite length_app, Hln, length_drop, Hl. lia.
  - intros i Hi. unfold lookupZ. destruct (Z.leb_spec 0 i); [|lia]. rewrite lookup_app_l by lia.
    destruct (lookup_lt_is_Some_2 (qsort (__ut_cmp x) (take n (map s))) (Z.to_nat i)) as [k Hk]; [lia|].
    exists k. split; [done|]. assert (k ∈ take n (map s)) as Hin.
    { rewrite <- Hperm. by eapply list_elem_of_lookup_2. }
    apply list_elem_of_lookup in Hin as [j Hj]. apply lookup_take_Some in Hj as [Hj Hjn].
    destruct (Hcells (Z.of_nat j)) as (k' & Hk' & Hkn); [lia|]. unfold lookupZ in Hk'.
    destruct (Z.leb_spec 0 (Z.of_nat j)); [|lia]. rewrite Nat2Z.id, Hj in Hk'. by injection Hk' as <-.
Qed.
End sorted.

(** *** The largest run *)

Definition contig_ok (x : seL4_BootInfo) (m : list Z) (i : Z) (v : runs) : Prop :=
  0 <= contig_start v < contig_end v /\ contig_end v <= i /\ tiles x m (contig_start v) (contig_end v).

(** Before round [i]: the current run reaches up to object [i]. *)
Record run_inv (x : seL4_BootInfo) (m : list Z) (i : Z) (v : runs) : Prop := {
  ri_start : 0 <= this_start v <= i;
  ri_tiles : tiles x m (this_start v) (i + 1);
  ri_size : exists pt et p e, ent x m (this_start v) = Some (pt, et) /\ ent x m i = Some (p, e) /\
            pt <= p /\ this_size v = p - pt;
  ri_contig : contig_size v = 0 \/ contig_ok x m i v
}.

Lemma tiles_single x m i : tiles x m i (i + 1).
Proof. intros j p e p' e' H1 H2. lia. Qed.

Lemma tiles_snoc x m a i p e p' e' :
  tiles x m a (i + 1) -> ent x m i = Some (p, e) -> ent x m (i + 1) = Some (p', e') -> e = p' ->
  tiles x m a (i + 1 + 1).
Proof.
  intros Ht E1 E2 Heq j q f q' f' Hj Hjc F1 F2. destruct (decide (j = i)) as [->|]; [congruence|].
  eapply Ht; [exact Hj | lia | done | done].
Qed.

Lemma run_inv_fresh x m c i v :
  bi_ok x -> cells_ok x m c -> 0 <= i < c -> this_start v = i -> this_size v = 0 ->
  contig_size v = 0 \/ contig_ok x m i v -> run_inv x m i v.
Proof.
  intros Hx Hc Hi Hs Hz Hcon.
  destruct (ent_ok x m c i Hx Hc Hi) as (k & p & z & _ & _ & _ & _ & _ & _ & _ & _ & E).
  split; [lia | rewrite Hs; apply tiles_single | | done].
  exists p, (p + 2 ^ z), p, (p + 2 ^ z). rewrite Hs. split; [done|]. split; [done|]. lia.
Qed.

Lemma contig_mono x m i j v : i <= j -> contig_ok x m i v -> contig_ok x m j v.
Proof. intros Hij (H1 & H2 & H3). split; [done|]. split; [lia | done]. Qed.

Lemma run_round_spec x s i v :
  bi_ok x -> building x (count s) s -> 0 <= i < count s -> run_inv x (map s) i v ->
  wp (run_round i v) (fun v' s' => s' = s /\
    (if decide (i + 1 < count s) then run_inv x (map s) (i + 1) v' else contig_ok x (map s) (count s) v')) s.
Proof.
  intros Hx Hb Hi [Hts Htl (pt & et & p & e & Et & Ei & Hpt & Hsz) Hcon].
  pose proof (bu_cells _ _ _ Hb) as Hcells.
  destruct (ent_ok x (map s) (count s) i Hx Hcells Hi) as (k & p1 & z & Hk & Hkn & Hp & Hz & ? & ? & ? & ? & E).
  rewrite E in Ei. injection Ei as <- <-.
  destruct (ent_ok x (map s) (count s) (this_start v) Hx Hcells ltac:(lia))
    as (? & pt' & ? & _ & _ & _ & _ & ? & _ & _ & _ & E'). rewrite E' in Et. injection Et as <- _.
  unfold run_round. wp_steps. eapply wp_UT_SIZEBITS; [apply Hb | done | done |]. wp_steps.
  rewrite Z.shiftl_1_l, Hsz, u32_small by (unfold is_u32; lia).
  set (size := p1 - pt' + 2 ^ z).
  assert (forall v', v' = (if contig_size v <? size then Runs (this_start v) size (i + 1) (i + 1) 0
     else Runs (contig_start v) (contig_size v) (contig_end v) (i + 1) 0) ->
    if decide (i + 1 < count s) then run_inv x (map s) (i + 1) v' else contig_ok x (map s) (count s) v') as Hbroken.
  { intros v' ->. assert (forall w, w = (if contig_size v <? size then Runs (this_start v) size (i + 1) (i + 1) 0
     else Runs (contig_start v) (contig_size v) (contig_end v) (i + 1) 0) -> contig_ok x (map s) (i + 1) w) as Hw.
    { intros w ->. destruct (Z.ltb_spec (contig_size v) size); [split; simpl; [lia | split; [lia | done]]|].
      destruct Hcon as [Hcon|Hcon]; [unfold size in *; lia|]. by apply (contig_mono x (map s) i); [lia|]. }
    case_decide.
    - eapply run_inv_fresh; [done | done | lia | | | right; by apply Hw]; by destruct (_ <? _).
    - eapply (contig_mono _ _ (i + 1)); [lia|]. by apply Hw. }
  destruct (Z.leb_spec (count s) (i + 1)).
  { wp_steps. split; [done|]. by apply Hbroken. }
  destruct (ent_ok x (map s) (count s) (i + 1) Hx Hcells ltac:(lia))
    as (k2 & p2 & z2 & Hk2 & _ & Hp2 & Hz2 & _ & _ & _ & _ & E2).
  wp_steps. eapply wp_UT_PEND; [apply Hb | done..|]. wp_steps. eapply wp_UT_PSTART; [apply Hb | done | done |].
  wp_steps. destruct (Z.eqb_spec (p1 + 2 ^ z) p2) as [Heq|]; bred; wp_steps.
  - split; [done|]. rewrite decide_True by lia. split; simpl.
    + lia.
    + eapply tiles_snoc; [done | exact E | exact E2 | done].
    + eexists pt', _, p2, _. split; [exact E'|]. split; [exact E2|]. unfold size. lia.
    + destruct Hcon as [|Hcon]; [by left | right]. by apply (contig_mono x (map s) i); [lia|].
  - split; [done|]. by apply Hbroken.
Qed.

Lemma find_runs_spec x s : bi_ok x -> building x (count s) s -> forall n i v,
  0 <= i -> i + Z.of_nat n = count s -> (0 < n)%nat -> run_inv x (map s) i v ->
  wp (find_runs n i v) (fun v' s' => s' = s /\ contig_ok x (map s) (count s) v') s.
Proof.
  intros Hx Hb. induction n as [|n IH]; intros i v Hi Hn Hpos Hinv; [lia|]. simpl find_runs. wp_steps.
  eapply wp_mono; [apply (run_round_spec x); [done | done | lia | done]|].
  intros v' s' [-> Hv']. destruct n as [|n].
  - rewrite decide_False in Hv' by lia. simpl. wp_steps. done.
  - rewrite decide_True in Hv' by lia. apply IH; [lia | lia | lia | done].
Qed.

(** Moving the run to the front of the table. *)
Lemma copy_run x c a n s :
  building x c s -> 0 <= a -> 0 <= n -> a + n <= c ->
  wp (for_up 0 n (fun i => k <- UT_MAP (a + i) ;; store_map i k)) (fun _ s' =>
    bi s' = bi s /\ length (map s') = length (map s) /\
    forall i, 0 <= i < n -> map s' !z i = map s !z (a + i)) s.
Proof.
  intros Hb Ha Hn Hc. pose proof Hb as [Hbi Hl Hcc Hcells].
  apply (wp_for_up (fun k s' => bi s' = bi s /\ length (map s') = length (map s) /\
    (forall i, 0 <= i < k -> map s' !z i = map s !z (a + i)) /\
    (forall i, k <= i -> map s' !z i = map s !z i))).
  - done.
  - split; [done|]. split; [done|]. split; [lia | done].
  - intros k s' Hk (Hbi' & Hl' & Hlo & Hhi). wp_steps.
    destruct (lookupZ_in_range (map s') (a + k)) as [y Hy]; [rewrite Hl', Hl; lia|].
    eapply wp_UT_MAP; [done|]. unfold store_map. wp_steps. apply wp_in_bounds; [rewrite Hl', Hl; lia|]. wp_steps. simpl.
    split; [done|]. split; [by rewrite length_insertZ|]. split.
    + intros i Hi. rewrite lookupZ_insertZ by (rewrite Hl', Hl; lia). case_decide as Hik.
      * subst i. rewrite <- Hy. apply Hhi. lia.
      * apply Hlo. lia.
    + intros i Hi. rewrite lookupZ_insertZ_ne by lia. apply Hhi. lia.
  - intros s' (Hbi' & Hl' & Hlo & _). done.
Qed.

Lemma _select_largest_contiguous_spec x s :
  bi_ok x -> building x (count s) s -> 1 <= count s ->
  wp _select_largest_contiguous (fun _ s' => table_ok x s' /\ 1 <= count s') s.
Proof.
  intros Hx Hb Hc. unfold _select_largest_contiguous. wp_steps.
  apply wp_assert; [apply negb_true_iff, Z.eqb_neq; lia|]. wp_steps.
  eapply wp_mono; [apply (find_runs_spec x); [done | done | lia | lia | lia |]|].
  { eapply run_inv_fresh; [done | apply Hb | lia | done | done | by left]. }
  intros v s' [-> (Hv1 & Hv2 & Ht)]. wp_steps.
  eapply wp_mono; [apply (copy_run x (count s)); [done | lia | lia | lia]|].
  intros [] s' (Hbi & Hl & Hm). wp_steps.
  assert (forall i, 0 <= i < contig_end v - contig_start v -> ent x (map s') i = ent x (map s) (contig_start v + i)) as He.
  { intros i Hi. unfold ent. by rewrite Hm. }
  split; [|simpl; lia]. split; simpl; [rewrite Hbi; apply Hb | done | |].
  - intros i Hi. rewrite Hm by done. apply (bu_cells _ _ _ Hb). lia.
  - intros i p e p' e' Hi Hic E1 E2. rewrite He in E1, E2 by lia.
    eapply Ht; [| |exact E1|]; [lia | lia|]. by rewrite Z.add_assoc in E2.
Qed.

Section init_proofs.
Context (qsort : (Z -> Z -> Z) -> list Z -> list Z).
Hypothesis qsort_perm : forall cmp l, qsort cmp l ≡ₚ l.

Lemma ut_table_init_run x s :
  bi_ok x -> has_large x -> length (map s) = Z.to_nat CONFIG_MAX_NUM_BOOTINFO_UNTYPED_CAPS ->
  wp (ut_table_init qsort (Some x)) (fun r s' => r = 0 /\ table_ok x s' /\ 1 <= count s' /\
    exists p e p' e', ent x (map s') 0 = Some (p, e) /\ ent x (map s') (count s' - 1) = Some (p', e') /\
      low s' = p /\ high s' = e') s.
Proof.
  intros Hx Hlarge Hl. unfold ut_table_init. wp_steps.
  eapply wp_mono; [by apply _fill_table_spec|]. intros [] s1 (Hb1 & Hc1 & Hid). wp_steps.
  eapply wp_mono; [by apply (_reduce_table_spec x)|]. intros [] s2 (Hc2 & Hb2). wp_steps.
  eapply wp_mono; [apply (_sort_table_spec qsort qsort_perm x); [done | lia]|]. intros [] s3 (Hb3 & Hc3). wp_steps.
  eapply wp_mono; [apply (_select_largest_contiguous_spec x); [done | done | lia]|].
  intros [] s4 [Ht Hc4]. pose proof Ht as [Hbi _ Hcells _].
  destruct (ent_ok x (map s4) (count s4) 0 Hx Hcells ltac:(lia)) as (k & p & z & Hk & _ & Hp & Hz & _ & _ & _ & _ & E).
  destruct (ent_ok x (map s4) (count s4) (count s4 - 1) Hx Hcells ltac:(lia))
    as (k' & p' & z' & Hk' & _ & Hp' & Hz' & ? & ? & ? & ? & E').
  wp_steps. eapply wp_UT_PSTART; [done..|]. wp_steps. eapply wp_UT_PEND; [done..|]. wp_steps.
  split; [done|]. split; [by destruct Ht|]. split; [done|]. simpl. eauto 10.
Qed.

(** [ut_table_init] succeeds when one untyped object is large enough, and
    then every address of the memory that [ut_find_memory] reports is
    translated by the binary search of [ut_translate] to an untyped object of
    the boot information that contains it, and the offset in that object. *)
Theorem ut_table_covers x s :
  bi_ok x -> has_large x -> length (map s) = Z.to_nat CONFIG_MAX_NUM_BOOTINFO_UNTYPED_CAPS ->
  exists s', ut_table_init qsort (Some x) s = Ok (0, s') /\
    forall addr, low s' <= addr < high s' ->
      exists k p z, ut_translate addr s' = Ok (Some (untyped_start x + k, addr - p), s') /\
        0 <= k < n_untyped x /\ untypedPaddrList x !z k = Some p /\
        untypedSizeBitsList x !z k = Some z /\ 0 <= addr - p < 2 ^ z.
Proof.
  intros Hx Hlarge Hl.
  destruct (proj1 (wp_ok _ _ _) (ut_table_init_run x s Hx Hlarge Hl))
    as (r & s' & E & -> & Ht & Hc & p & e & p' & e' & E0 & E1 & Hlo & Hhi).
  exists s'. split; [done|]. intros addr Ha.
  destruct (proj1 (wp_ok _ _ _) (ut_translate_run x s' addr Ht Hc ltac:(exists p, e, p', e'; split_and!; [done | done | lia | lia])))
    as (r & s'' & E' & -> & k & q & z & -> & Hk & Hq & Hz & Hoff).
  exists k, q, z. rewrite E'. destruct (bo_start x Hx). rewrite u32_small by (unfold is_u32; lia). done.
Qed.
End init_proofs.

(** ** Stealing memory *)

Lemma ALIGN_TOP_spec x n :
  0 <= n < 32 -> 0 <= x -> x + 2 ^ n <= 2 ^ 32 ->
  ALIGN_TOP x (2 ^ n) mod 2 ^ n = 0 /\ x <= ALIGN_TOP x (2 ^ n) < x + 2 ^ n.
Proof.
  intros Hn Hx Hs. assert (0 < 2 ^ n) by (apply Z.pow_pos_nonneg; lia).
  unfold ALIGN_TOP, ALIGN. rewrite (u32_small (x + (2 ^ n - 1))) by (unfold is_u32; lia).
  assert (Z.land (x + (2 ^ n - 1)) (u32 (Z.lnot (2 ^ n - 1)))
    = x + (2 ^ n - 1) - (x + (2 ^ n - 1)) mod 2 ^ n) as ->.
  { rewrite <- (ldiff_mask _ n) by lia. apply Z.bits_inj'. intros i Hi.
    rewrite Z.land_spec, Z.ldiff_spec. unfold u32. destruct (Z_lt_le_dec i 32).
    - rewrite Z.mod_pow2_bits_low, Z.lnot_spec by lia. done.
    - rewrite (testbit_bounded (x + (2 ^ n - 1)) 32) by lia. done. }
  pose proof (Z.div_mod (x + (2 ^ n - 1)) (2 ^ n) ltac:(lia)).
  pose proof (Z.mod_pos_bound (x + (2 ^ n - 1)) (2 ^ n) ltac:(lia)).
  split; [|lia]. apply Z.mod_divide; [lia|]. exists ((x + (2 ^ n - 1)) / 2 ^ n). lia.
Qed.

(** A block stolen by [ut_steal_mem] is aligned to its size and lies
    between the old and the new bottom of the memory; a request that does not
    fit returns 0 and steals nothing. *)
Theorem ut_steal_mem_spec s n :
  0 <= n < 31 -> 0 < low s <= high s -> high s + 2 ^ n < 2 ^ 31 ->
  exists p s', ut_steal_mem n s = Ok (p, s') /\ high s' = high s /\
    ((p mod 2 ^ n = 0 /\ low s <= p /\ low s' = p + 2 ^ n /\ low s' <= high s) \/
     (p = 0 /\ s' = s /\ high s < low s + 2 * 2 ^ n)).
Proof.
  intros Hn Hl Hh. assert (0 < 2 ^ n) by (apply Z.pow_pos_nonneg; lia).
  unfold ut_steal_mem, bind, get. rewrite Z.shiftl_1_l.
  destruct (ALIGN_TOP_spec (low s) n ltac:(lia) ltac:(lia) ltac:(lia)) as [Hm Hr].
  rewrite u32_small by (unfold is_u32; lia). destruct (Z.leb_spec (ALIGN_TOP (low s) (2 ^ n) + 2 ^ n) (high s)).
  - eexists _, _. split; [done|]. split; [done|]. left. simpl. lia.
  - eexists _, _. split; [done|]. split; [done|]. right. split; [done|]. split; [done|]. lia.
Qed.

(** ** A concrete machine *)

(** One admissible [qsort]: insertion sort. *)
Fixpoint sort_insert (cmp : Z -> Z -> Z) (x : Z) (l : list Z) : list Z :=
  match l with
  | [] => [x]
  | y :: l' => if cmp x y <=? 0 then x :: l else y :: sort_insert cmp x l'
  end.
Definition insertion_sort (cmp : Z -> Z -> Z) (l : list Z) : list Z := foldr (sort_insert cmp) [] l.

Lemma sort_insert_perm cmp x l : sort_insert cmp x l ≡ₚ x :: l.
Proof.
  induction l as [|y l IH]; simpl; [done|]. destruct (cmp x y <=? 0); [done|].
  rewrite IH. apply Permutation_swap.
Qed.

Lemma insertion_sort_perm cmp l : insertion_sort cmp l ≡ₚ l.
Proof. induction l as [|y l IH]; simpl; [done|]. by rewrite sort_insert_perm, IH. Qed.

(** Four untyped objects, out of order, one too small to be kept. *)
Definition sample_bi : seL4_BootInfo :=
  BootInfo 100 104 200 200 [0x30000000; 0x20000; 0x10000; 0x1000] [14; 16; 16; 12].
Definition sample_table : ut_table :=
  UtTable None (replicate (Z.to_nat CONFIG_MAX_NUM_BOOTINFO_UNTYPED_CAPS) 0) 0 0 0.

Lemma sample_bi_ok : bi_ok sample_bi.
Proof.
  split; [vm_compute; split; congruence | vm_compute; split; congruence |].
  intros k Hk. change (n_untyped sample_bi) with 4 in Hk. unfold obj_ok.
  assert (k = 0 \/ k = 1 \/ k = 2 \/ k = 3) as [-> | [-> | [-> | ->]]] by lia;
    eexists _, _; (split; [reflexivity|]; split; [reflexivity|]; vm_compute; intuition congruence).
Qed.

Lemma ut_table_covers_witness :
  exists s', ut_table_init insertion_sort (Some sample_bi) sample_table = Ok (0, s') /\
    forall addr, low s' <= addr < high s' ->
      exists k p z, ut_translate addr s' = Ok (Some (untyped_start sample_bi + k, addr - p), s') /\
        0 <= k < n_untyped sample_bi /\ untypedPaddrList sample_bi !z k = Some p /\
        untypedSizeBitsList sample_bi !z k = Some z /\ 0 <= addr - p < 2 ^ z.
Proof.
  apply (ut_table_covers insertion_sort insertion_sort_perm sample_bi sample_table).
  - exact sample_bi_ok.
  - exists 0, 14. vm_compute. intuition congruence.
  - reflexivity.
Defined.

Lemma ut_steal_mem_spec_witness :
  exists p s', ut_steal_mem 12 (UtTable None [] 0 0x10000800 0x10008000) = Ok (p, s') /\ high s' = 0x10008000 /\
    ((p mod 2 ^ 12 = 0 /\ 0x10000800 <= p /\ low s' = p + 2 ^ 12 /\ low s' <= 0x10008000) \/
     (p = 0 /\ s' = UtTable None [] 0 0x10000800 0x10008000 /\ 0x10008000 < 0x10000800 + 2 * 2 ^ 12)).
Proof.
  apply (ut_steal_mem_spec (UtTable None [] 0 0x10000800 0x10008000) 12); simpl; lia.
Defined.
