(* ===== verification/Pq.v ===== *)
(** * Pq: the priority queue of timer events

    Models libs/libclock/src/pq.c and include/clock/pq.h: a binary heap in an
    array whose cell 0 is unused.  The queue pointer may be null, so the
    operations run on an [option priority_queue].  [realloc] and [malloc] are
    arguments: whether they succeeded, and what new memory holds.

    The theorems show that a push keeps the heap order and that no operation
    loses or invents an event; that a pop returns an earliest event of an
    ordered heap; and that the repair after a removal does not restore the
    order. *)

From S2P Require Import Prelude.

Definition PQ_STARTING_SIZE : Z := 20.

Record event := Event {
  priority : Z;
  delay : Z;
  callback : Z;
  data : Z;
  uid : Z;
  repeat : Z
}.

Record priority_queue := PQ { events : list event; len : Z; size : Z; counter : Z }.

Definition set_events x (q : priority_queue) := PQ x (len q) (size q) (counter q).
Definition set_len x (q : priority_queue) := PQ (events q) x (size q) (counter q).
Definition set_counter x (q : priority_queue) := PQ (events q) (len q) (size q) x.

(** [if (!pq) return dflt;] in front of an operation. *)
Definition on_pq {A} (dflt : A) (m : M priority_queue A) : M (option priority_queue) A := fun s =>
  match s with
  | None => Ok (dflt, None)
  | Some q =>
      match m q with
      | Ok (a, q') => Ok (a, Some q')
      | Err f => Err f
      end
  end.

Definition init_pq (calloc_ok : bool) : option priority_queue :=
  if calloc_ok then Some (PQ [] 0 0 1) else None.

Definition ev (i : Z) : M priority_queue event := q <- get ;; rd (events q) i.

Definition set_ev (i : Z) (e : event) : M priority_queue unit :=
  q <- get ;; in_bounds (events q) i ;;; modify (set_events (insertZ i e (events q))).

(** [while (i > 1 && pq->events[j].priority > priority)]; returns the final [i]. *)
Fixpoint shift_up (fuel : nat) (i j prio : Z) : M priority_queue Z :=
  match fuel with
  | O => fail FFuel
  | S fuel' =>
      if 1 <? i then
        e <- ev j ;;
        if prio <? priority e then set_ev i e ;;; shift_up fuel' j (j / 2) prio
        else ret i
      else ret i
  end.

(** Growing the array; [false] when [realloc] fails. *)
Definition grow (realloc_ok : bool) (junk : event) : M priority_queue bool :=
  q <- get ;;
  if size q <=? len q + 1 then
    let size' := if size q =? 0 then PQ_STARTING_SIZE else u32 (size q * 2) in
    if realloc_ok then
      put (PQ (resize (Z.to_nat size') junk (events q)) (len q) size' (counter q)) ;;; ret true
    else put (PQ [] (len q) size' (counter q)) ;;; ret false
  else ret true.

Definition pq_push (realloc_ok : bool) (junk : event)
    (prio dly cb dat rep id : Z) : M (option priority_queue) Z :=
  on_pq (-1) (
    ok <- grow realloc_ok junk ;;
    if negb ok then ret (-1)
    else
      q <- get ;;
      let i := len q + 1 in
      let j := i / 2 in
      i <- shift_up (S (Z.to_nat i)) i j prio ;;
      q <- get ;;
      let u := if id =? 0 then counter q else id in
      (if id =? 0 then put (set_counter (u32 (counter q + 1)) q) else ret tt) ;;;
      set_ev i (Event prio dly cb dat u rep) ;;;
      modify (fun q => set_len (len q + 1) q) ;;;
      e <- ev i ;;
      ret (i32 (uid e))).

(** One round of the loop of [remove_element]: [None] to leave it. *)
Definition sift_round (i : Z) : M priority_queue (option Z) :=
  let k := i in
  let j := 2 * i in
  q <- get ;;
  k <- (if j <=? len q then
          ej <- ev j ;; ek <- ev k ;; ret (if priority ej <? priority ek then j else k)
        else ret k) ;;
  k <- (if j + 1 <=? len q then
          ej <- ev (j + 1) ;; ek <- ev k ;; ret (if priority ej <? priority ek then j + 1 else k)
        else ret k) ;;
  if k =? i then ret None
  else
    e <- ev k ;;
    set_ev i e ;;;
    ret (Some k).

Fixpoint sift_down (fuel : nat) (i : Z) : M priority_queue Z :=
  match fuel with
  | O => fail FFuel
  | S fuel' =>
      k <- sift_round i ;;
      match k with
      | None => ret i
      | Some k => sift_down fuel' k
      end
  end.

Definition remove_element (id : Z) : M priority_queue unit :=
  q <- get ;;
  e <- ev (len q) ;;
  set_ev id e ;;;
  modify (fun q => set_len (len q - 1) q) ;;;
  i <- sift_down (S (Z.to_nat (len q))) id ;;
  e <- ev (len q) ;;
  set_ev i e.

Definition pq_pop (malloc_ok : bool) : M (option priority_queue) (option event) :=
  on_pq None (
    q <- get ;;
    if len q =? 0 then ret None
    else if negb malloc_ok then ret None
    else
      front_event <- ev 1 ;;
      remove_element 1 ;;;
      ret (Some front_event)).

Definition pq_remove (id : Z) : M (option priority_queue) Z :=
  on_pq 0 (
    q <- get ;;
    if len q =? 0 then ret 0
    else
      r <- for_find 1 (len q + 1) (fun i =>
             e <- ev i ;;
             if uid e =? id then remove_element i ;;; ret (Some 1) else ret None) ;;
      ret (default 0 r)).

(** [for (i = 1; i <= pq->len; i++) remove_element(pq, i);] *)
Fixpoint purge_loop (fuel : nat) (i : Z) : M priority_queue unit :=
  match fuel with
  | O => fail FFuel
  | S fuel' =>
      q <- get ;;
      if i <=? len q then remove_element i ;;; purge_loop fuel' (i + 1) else ret tt
  end.

Definition pq_purge : M (option priority_queue) unit :=
  on_pq tt (
    q <- get ;;
    if len q =? 0 then ret tt else purge_loop (S (Z.to_nat (len q))) 1).

Definition pq_time_peek : M (option priority_queue) Z :=
  on_pq 0 (
    q <- get ;;
    if len q =? 0 then ret 0 else e <- ev 1 ;; ret (priority e)).

Definition pq_is_empty : M (option priority_queue) bool :=
  on_pq true (q <- get ;; ret (len q =? 0)).

Definition pq_get_next_id : M (option priority_queue) Z :=
  on_pq 0 (
    q <- get ;;
    put (set_counter (u32 (counter q + 1)) q) ;;;
    ret (counter q)).

(** ** Contents of the heap *)

Definition cells (a : list event) (n : Z) : list event := take (Z.to_nat n) (drop 1 a).
Definition contents (q : priority_queue) : list event := cells (events q) (len q).

Lemma cells_lookup a n k :
  cells a n !! k = if decide (Z.of_nat k < n) then a !z (Z.of_nat k + 1) else None.
Proof.
  unfold cells. case_decide.
  - rewrite lookup_take_lt by lia. rewrite lookup_drop. unfold lookupZ.
    destruct (Z.leb_spec 0 (Z.of_nat k + 1)); [|lia]. f_equal. lia.
  - apply lookup_take_ge. lia.
Qed.

Lemma cells_snoc a n e :
  0 <= n -> a !z (n + 1) = Some e -> cells a (n + 1) = cells a n ++ [e].
Proof.
  intros Hn He. unfold cells. replace (Z.to_nat (n + 1)) with (S (Z.to_nat n)) by lia.
  apply take_S_r. rewrite lookup_drop. unfold lookupZ in He.
  destruct (Z.leb_spec 0 (n + 1)); [|lia]. rewrite <- He. f_equal. lia.
Qed.

Lemma cells_ext a a' n : (forall k, 1 <= k <= n -> a' !z k = a !z k) -> cells a' n = cells a n.
Proof.
  intros H. apply list_eq. intros k. rewrite !cells_lookup. case_decide; [|done]. apply H. lia.
Qed.

(** The permutation that exchanges two indices. *)
Definition transpose (i j k : nat) : nat :=
  if decide (k = i) then j else if decide (k = j) then i else k.

#[export] Instance transpose_inj i j : Inj (=) (=) (transpose i j).
Proof. intros x y. unfold transpose. repeat case_decide; congruence. Qed.

(** Exchanging two cells does not change what the heap holds. *)
Lemma cells_swap a a' n i j :
  length a' = length a -> 1 <= i <= n -> 1 <= j <= n ->
  a' !z i = a !z j -> a' !z j = a !z i ->
  (forall k, k <> i -> k <> j -> a' !z k = a !z k) ->
  cells a' n ≡ₚ cells a n.
Proof.
  intros Hlen Hi Hj H1 H2 H3. apply Permutation_inj. split.
  - unfold cells. by rewrite !length_take, !length_drop, Hlen.
  - exists (transpose (Z.to_nat (i - 1)) (Z.to_nat (j - 1))). split; [apply _|].
    intros k. rewrite !cells_lookup. unfold transpose.
    destruct (decide (k = Z.to_nat (i - 1))) as [->|Hki]; [|destruct (decide (k = Z.to_nat (j - 1))) as [->|Hkj]].
    + rewrite !decide_True by lia. replace (Z.of_nat (Z.to_nat (i - 1)) + 1) with i by lia.
      by replace (Z.of_nat (Z.to_nat (j - 1)) + 1) with j by lia.
    + rewrite !decide_True by lia. replace (Z.of_nat (Z.to_nat (i - 1)) + 1) with i by lia.
      by replace (Z.of_nat (Z.to_nat (j - 1)) + 1) with j by lia.
    + case_decide; [|done]. apply H3; lia.
Qed.

(** Moving the hole of the array from [i] to [j]. *)
Lemma cells_move_hole a n i j e x :
  1 <= i <= n -> 1 <= j <= n -> i <> j -> n < Z.of_nat (length a) -> a !z j = Some x ->
  cells (insertZ j e (insertZ i x a)) n ≡ₚ cells (insertZ i e a) n.
Proof.
  intros Hi Hj Hij Hn Hx. apply (cells_swap _ _ _ i j); try done.
  - by autorewrite with sos.
  - rewrite lookupZ_insertZ_ne, lookupZ_insertZ_eq by lia.
    by rewrite lookupZ_insertZ_ne by lia.
  - rewrite lookupZ_insertZ_eq by (autorewrite with sos; lia). by rewrite lookupZ_insertZ_eq by lia.
  - intros k Hki Hkj. by rewrite !lookupZ_insertZ_ne by lia.
Qed.

(** ** The invariants *)

Record pq_wf (q : priority_queue) : Prop := {
  wf_events : Z.of_nat (length (events q)) = size q;
  wf_len : 0 <= len q;
  wf_room : len q < size q \/ (len q = 0 /\ size q = 0)
}.

Definition prio (a : list event) (k : Z) : Z :=
  match a !z k with Some e => priority e | None => 0 end.

(** No event is earlier than its parent. *)
Definition heap_order (a : list event) (n : Z) : Prop :=
  forall i, 2 <= i <= n -> prio a (i / 2) <= prio a i.

Lemma prio_insert_eq a i e : 0 <= i < Z.of_nat (length a) -> prio (insertZ i e a) i = priority e.
Proof. intros. unfold prio. by rewrite lookupZ_insertZ_eq. Qed.

Lemma prio_insert_ne a i k e : i <> k -> prio (insertZ i e a) k = prio a k.
Proof. intros. unfold prio. by rewrite lookupZ_insertZ_ne. Qed.

Lemma prio_Some a k e : a !z k = Some e -> prio a k = priority e.
Proof. unfold prio. by intros ->. Qed.

Lemma half_facts i : 2 <= i -> 1 <= i / 2 < i /\ 2 * (i / 2) <= i < 2 * (i / 2) + 2.
Proof.
  intros. pose proof (Z.div_mod i 2 ltac:(lia)). pose proof (Z.mod_pos_bound i 2 ltac:(lia)). lia.
Qed.

(** The first event of an ordered heap is an earliest one. *)
Lemma heap_root a n : heap_order a n -> forall i, 1 <= i <= n -> prio a 1 <= prio a i.
Proof.
  intros Ho i Hi. assert (0 <= i) as H0 by lia. revert Hi.
  apply (Zlt_0_ind (fun i => 1 <= i <= n -> prio a 1 <= prio a i)); [|done].
  clear i H0. intros i IH _ Hi. destruct (decide (i = 1)) as [->|]; [done|].
  destruct (half_facts i ltac:(lia)) as [Hh _]. etrans; [apply (IH (i / 2)); lia|].
  apply Ho. lia.
Qed.

Lemma wp_ev i e Q q : events q !z i = Some e -> Q e q -> wp (ev i) Q q.
Proof. intros He HQ. unfold ev. wp_steps. by eapply wp_rd. Qed.

Lemma wp_set_ev i e Q q :
  0 <= i < Z.of_nat (length (events q)) -> Q tt (set_events (insertZ i e (events q)) q) ->
  wp (set_ev i e) Q q.
Proof. intros Hi HQ. unfold set_ev. wp_steps. by apply wp_in_bounds. Qed.

Lemma wp_on_pq {A} (d : A) m Q q :
  wp m (fun a q' => Q a (Some q')) q -> wp (on_pq d m) Q (Some q).
Proof. unfold wp, on_pq. by destruct (m q) as [[a q']|]. Qed.

(** ** Push *)

(** With a hole at [i] that is to receive an event of priority [p], the rest
    of the heap is in order. *)
Record hole_order (a : list event) (n i p : Z) : Prop := {
  ho_rest : forall k, 2 <= k <= n -> k <> i -> k / 2 <> i -> prio a (k / 2) <= prio a k;
  ho_child : forall k, 2 <= k <= n -> k / 2 = i -> p < prio a k;
  ho_grand : forall k, 2 <= k <= n -> k / 2 = i -> 2 <= i -> prio a (i / 2) <= prio a k
}.

Lemma hole_fill a n i e :
  hole_order a n i (priority e) -> 1 <= i <= n -> n < Z.of_nat (length a) ->
  (2 <= i -> prio a (i / 2) <= priority e) -> heap_order (insertZ i e a) n.
Proof.
  intros [Hr Hc _] Hi Hn Hp k Hk. destruct (half_facts k ltac:(lia)) as [Hh _].
  destruct (decide (k = i)) as [->|Hki].
  - rewrite prio_insert_eq, prio_insert_ne by lia. apply Hp. lia.
  - rewrite (prio_insert_ne _ _ k) by lia. destruct (decide (k / 2 = i)) as [Heq|Hne].
    + rewrite Heq, prio_insert_eq by lia. specialize (Hc k Hk Heq). lia.
    + rewrite prio_insert_ne by lia. by apply Hr.
Qed.

Lemma hole_up a n i e p :
  hole_order a n i p -> 2 <= i <= n -> n < Z.of_nat (length a) ->
  a !z (i / 2) = Some e -> p < priority e -> hole_order (insertZ i e a) n (i / 2) p.
Proof.
  intros [Hr Hc Hg] Hi Hn He Hp. destruct (half_facts i ltac:(lia)) as [Hh _].
  pose proof (prio_Some _ _ _ He) as Hpe.
  assert (forall k, 2 <= k <= n -> k / 2 = i / 2 -> priority e <= prio (insertZ i e a) k) as Hkids.
  { intros k Hk Hkk. destruct (decide (k = i)) as [->|Hki]; [by rewrite prio_insert_eq by lia|].
    rewrite prio_insert_ne by lia. rewrite <- Hpe, <- Hkk. apply Hr; lia. }
  split.
  - intros k Hk Hne Hne2. destruct (half_facts k ltac:(lia)) as [Hh' _].
    destruct (decide (k = i)) as [->|Hki]; [done|]. rewrite (prio_insert_ne _ _ k) by lia.
    destruct (decide (k / 2 = i)) as [Heq|Hnei].
    + rewrite Heq, prio_insert_eq by lia. rewrite <- Hpe. by apply Hg; [| |lia].
    + rewrite prio_insert_ne by lia. by apply Hr.
  - intros k Hk Hkk. specialize (Hkids k Hk Hkk). lia.
  - intros k Hk Hkk Hi2. etrans; [|by apply Hkids]. rewrite prio_insert_ne.
    + rewrite <- Hpe. apply Hr; try lia. destruct (half_facts (i / 2) ltac:(lia)). lia.
    + destruct (half_facts (i / 2) ltac:(lia)). lia.
Qed.

(** The hole found by [shift_up]: filling it with an event of priority [p]
    keeps the contents and the order. *)
Definition hole_found (a : list event) (n i p : Z) (i' : Z) (a' : list event) : Prop :=
  1 <= i' <= n /\ length a' = length a /\
  (forall e, cells (insertZ i' e a') n ≡ₚ cells (insertZ i e a) n) /\
  (hole_order a n i p -> forall e, priority e = p -> heap_order (insertZ i' e a') n).

Lemma shift_up_spec n p : forall fuel i q,
  (Z.to_nat i < fuel)%nat -> 1 <= i <= n -> n < Z.of_nat (length (events q)) ->
  wp (shift_up fuel i (i / 2) p) (fun i' q' => exists a',
    q' = set_events a' q /\ hole_found (events q) n i p i' a') q.
Proof.
  induction fuel as [|fuel IH]; intros i q Hf Hi Hn; [lia|]. simpl shift_up.
  assert (forall Q : Prop, (hole_order (events q) n i p -> 2 <= i -> prio (events q) (i / 2) <= p) ->
    hole_found (events q) n i p i (events q)) as Hstop.
  { intros _ Hp. split; [done|]. split; [done|]. split; [done|]. intros Ho e He.
    apply hole_fill; try done; [by rewrite He|]. rewrite He. auto. }
  destruct (Z.ltb_spec 1 i).
  2: { wp_steps. exists (events q). split; [by destruct q|]. apply (Hstop True). lia. }
  destruct (half_facts i ltac:(lia)) as [Hh _].
  destruct (lookupZ_in_range (events q) (i / 2) ltac:(lia)) as [e He].
  wp_steps. eapply wp_ev; [done|]. destruct (Z.ltb_spec p (priority e)) as [Hlt|Hge].
  - wp_steps. apply wp_set_ev; [lia|].
    eapply wp_mono; [apply IH; [lia | lia | simpl; autorewrite with sos; lia]|].
    intros i' q' (a' & -> & Hi' & Hlen & Hperm & Hord). simpl in *. exists a'. split; [done|].
    split; [done|]. split; [by rewrite Hlen, length_insertZ|]. split.
    + intros x. rewrite Hperm. apply cells_move_hole; try lia. done.
    + intros Ho. apply Hord. by apply hole_up; try lia.
  - wp_steps. exists (events q). split; [by destruct q|]. apply (Hstop True). intros _ _.
    by rewrite (prio_Some _ _ _ He).
Qed.

(** [q'] has room for one more event and holds the same events. *)
Lemma grow_spec junk q :
  pq_wf q -> size q <= 2 ^ 30 ->
  wp (grow true junk) (fun ok q' => ok = true /\ pq_wf q' /\ len q' = len q /\ counter q' = counter q /\
    len q + 1 < size q' /\ size q' <= Z.max PQ_STARTING_SIZE (2 * size q) /\
    forall k, 1 <= k <= len q -> events q' !z k = events q !z k) q.
Proof.
  intros [He Hl Hr] Hs. unfold grow. wp_steps. destruct (Z.leb_spec (size q) (len q + 1)).
  2: { wp_steps. repeat split; try done; lia. }
  wp_steps. set (size' := if size q =? 0 then PQ_STARTING_SIZE else u32 (size q * 2)).
  assert (len q + 1 < size' /\ size' <= Z.max PQ_STARTING_SIZE (2 * size q)) as [H1 H2].
  { unfold size', PQ_STARTING_SIZE. destruct (Z.eqb_spec (size q) 0); [lia|].
    rewrite u32_small by (unfold is_u32; lia). lia. }
  split; [done|]. split; [|split; [done|split; [done|split; [done|split; [done|]]]]].
  - split; simpl; [rewrite length_resize; lia | done | lia].
  - intros k Hk. simpl. unfold lookupZ. destruct (Z.leb_spec 0 k); [|lia].
    apply lookup_resize; lia.
Qed.

(** The state after a successful push of [e]. *)
Lemma pq_push_run junk q p dly cb dat rep id :
  pq_wf q -> size q <= 2 ^ 30 ->
  let e := Event p dly cb dat (if id =? 0 then counter q else id) rep in
  wp (pq_push true junk p dly cb dat rep id) (fun r s => exists q', s = Some q' /\
    r = i32 (uid e) /\ pq_wf q' /\ len q' = len q + 1 /\
    counter q' = (if id =? 0 then u32 (counter q + 1) else counter q) /\
    contents q' ≡ₚ e :: contents q /\
    (heap_order (events q) (len q) -> heap_order (events q') (len q'))) (Some q).
Proof.
  intros Hwf Hs e. unfold pq_push. apply wp_on_pq. wp_steps.
  eapply wp_mono; [by apply grow_spec|].
  intros ok q1 (-> & Hwf1 & Hl1 & Hc1 & Hroom & Hsz & Hcells). bred. wp_steps.
  pose proof (wf_events _ Hwf1) as Hev. pose proof (wf_len _ Hwf1) as Hlen0. set (n := len q1 + 1) in *.
  eapply wp_mono; [apply (shift_up_spec n p); lia|].
  intros i q2 (a & -> & Hi & Hla & Hperm & Hord). wp_steps. simpl in *.
  set (q3 := if id =? 0 then PQ a (len q1) (size q1) (u32 (counter q1 + 1)) else PQ a (len q1) (size q1) (counter q1)).
  assert (events q3 = a /\ len q3 = len q1 /\ size q3 = size q1 /\
    counter q3 = if id =? 0 then u32 (counter q + 1) else counter q) as (E1 & E2 & E3 & E4)
    by (unfold q3; rewrite <- Hc1; by destruct (id =? 0)).
  eapply wp_mono with (Q := fun _ s => s = q3); [unfold q3; destruct (id =? 0); by wp_steps|].
  intros [] ? ->. wp_steps. apply wp_set_ev; [rewrite E1; lia|]. wp_steps.
  eapply wp_ev; [simpl; rewrite E1; apply lookupZ_insertZ_eq; lia|]. wp_steps.
  eexists. split; [done|]. unfold set_len, set_events. simpl. rewrite E1, E2, E3, E4, Hc1.
  split; [done|]. split; [split; simpl; [rewrite length_insertZ; lia | lia | lia]|].
  split; [lia|]. split; [done|]. fold n.
  assert (cells (insertZ n e (events q1)) n = contents q ++ [e]) as Hnew.
  { unfold contents. rewrite <- Hl1. unfold n.
    rewrite (cells_snoc _ _ e) by (done || (apply lookupZ_insertZ_eq; lia)). f_equal.
    apply cells_ext. intros k Hk. rewrite lookupZ_insertZ_ne by lia. apply Hcells. lia. }
  split.
  - unfold contents at 1. simpl. fold e. rewrite Hperm, Hnew.
    symmetry. apply Permutation_cons_append.
  - intros Ho. apply Hord; [|done]. split.
    + intros k Hk Hne Hne2. destruct (half_facts k ltac:(lia)).
      unfold prio. rewrite !Hcells by lia. apply Ho. lia.
    + intros k Hk Hkk. destruct (half_facts k ltac:(lia)). lia.
    + intros k Hk Hkk _. destruct (half_facts k ltac:(lia)). lia.
Qed.

(** ** Removal *)

(** The child chosen by one round; it is earlier than the event at [i], and no
    child of [i] is earlier. *)
Definition round_post (a : list event) (n i : Z) (q : priority_queue)
    (r : option Z) (q' : priority_queue) : Prop :=
  let smallest p := (2 * i <= n -> p <= prio a (2 * i)) /\ (2 * i + 1 <= n -> p <= prio a (2 * i + 1)) in
  match r with
  | None => q' = q /\ smallest (prio a i)
  | Some k => exists e, (k = 2 * i \/ k = 2 * i + 1) /\ k <= n /\ a !z k = Some e /\
      q' = set_events (insertZ i e a) q /\ prio a k < prio a i /\ smallest (prio a k)
  end.

Lemma sift_round_spec i q :
  1 <= i -> i < Z.of_nat (length (events q)) -> len q < Z.of_nat (length (events q)) ->
  wp (sift_round i) (round_post (events q) (len q) i q) q.
Proof.
  intros Hi Hil Hn. unfold sift_round. wp_steps. set (a := events q) in *. set (n := len q) in *.
  destruct (lookupZ_in_range a i ltac:(lia)) as [ei Hei]. pose proof (prio_Some _ _ _ Hei) as Hpi.
  eapply wp_mono with (Q := fun k s => s = q /\ ((k = i /\ (2 * i <= n -> prio a i <= prio a (2 * i))) \/
    (k = 2 * i /\ 2 * i <= n /\ prio a (2 * i) < prio a i))).
  { destruct (Z.leb_spec (2 * i) n); [|wp_steps; split; [done|left; lia]].
    destruct (lookupZ_in_range a (2 * i) ltac:(lia)) as [e1 He1]. pose proof (prio_Some _ _ _ He1).
    wp_steps. eapply wp_ev; [done|]. wp_steps. eapply wp_ev; [done|]. wp_steps. split; [done|].
    destruct (Z.ltb_spec (priority e1) (priority ei)); [right | left]; lia. }
  intros k ? [-> Hk]. wp_steps.
  eapply wp_mono with (Q := fun k' s => s = q /\ ((k' = k /\ (2 * i + 1 <= n -> prio a k <= prio a (2 * i + 1))) \/
    (k' = 2 * i + 1 /\ 2 * i + 1 <= n /\ prio a (2 * i + 1) < prio a k))).
  { destruct (Z.leb_spec (2 * i + 1) n); [|wp_steps; split; [done|left; lia]].
    destruct (lookupZ_in_range a (2 * i + 1) ltac:(lia)) as [e1 He1]. pose proof (prio_Some _ _ _ He1).
    destruct (lookupZ_in_range a k ltac:(lia)) as [ek Hek]. pose proof (prio_Some _ _ _ Hek).
    wp_steps. eapply wp_ev; [done|]. wp_steps. eapply wp_ev; [done|]. wp_steps. split; [done|].
    destruct (Z.ltb_spec (priority e1) (priority ek)); [right | left]; lia. }
  intros k' ? [-> Hk']. destruct (Z.eqb_spec k' i) as [->|Hne].
  - wp_steps. split; [done|]. assert (k = i) as -> by lia. lia.
  - destruct (lookupZ_in_range a k' ltac:(lia)) as [e He].
    wp_steps. eapply wp_ev; [done|]. wp_steps. apply wp_set_ev; [fold a; lia|]. wp_steps.
    exists e. split; [lia|]. split; [lia|]. split; [done|]. split; [done|].
    destruct Hk as [[-> ?]|[-> ?]], Hk' as [[-> ?]|[-> ?]]; try done; lia.
Qed.

(** The cell where [sift_down] stops: the hole moved there from [i]. *)
Definition sifted (a : list event) (n i i' : Z) (a' : list event) : Prop :=
  length a' = length a /\ i <= i' /\ (n < i -> i' = i) /\
  (i <= n -> i' <= n /\ forall e, cells (insertZ i' e a') n ≡ₚ cells (insertZ i e a) n) /\
  (forall k, k < i \/ n < k -> a' !z k = a !z k).

Lemma sift_down_spec : forall fuel i q,
  1 <= i -> i < Z.of_nat (length (events q)) -> len q < Z.of_nat (length (events q)) ->
  (Z.to_nat (len q + 1 - i) < fuel)%nat ->
  wp (sift_down fuel i) (fun i' q' => exists a', q' = set_events a' q /\ sifted (events q) (len q) i i' a') q.
Proof.
  induction fuel as [|fuel IH]; intros i q Hi Hil Hn Hf; [lia|]. simpl sift_down. wp_steps.
  eapply wp_mono; [by apply sift_round_spec|]. intros [k|] q1 Hr.
  - destruct Hr as (e & Hk & Hkn & He & -> & _).
    eapply wp_mono; [apply IH; simpl; autorewrite with sos; lia|].
    intros i' q' (a' & -> & Hlen & Hii & _ & Hperm & Hrest). simpl in *. exists a'. split; [done|].
    destruct Hperm as [Hi' Hperm]; [lia|].
    split; [by rewrite Hlen, length_insertZ|]. split; [lia|]. split; [lia|]. split.
    + intros _. split; [done|]. intros x. rewrite Hperm. apply cells_move_hole; try lia. done.
    + intros j Hj. rewrite Hrest by lia. apply lookupZ_insertZ_ne. lia.
  - destruct Hr as [-> _]. wp_steps. exists (events q). split; [by destruct q|].
    split; [done|]. split; [lia|]. split; [done|]. split; [|done]. by intros ?.
Qed.

(** Overwriting cell [id] with the last event drops the event of cell [id]. *)
Lemma cells_drop a m id x last :
  1 <= id <= m - 1 -> m < Z.of_nat (length a) -> a !z id = Some x -> a !z m = Some last ->
  cells a m ≡ₚ x :: cells (insertZ id last a) (m - 1).
Proof.
  intros Hid Hm Hx Hlast.
  transitivity (cells (insertZ m x (insertZ id last a)) m).
  - symmetry. apply (cells_swap _ _ _ id m); try lia.
    + by autorewrite with sos.
    + rewrite lookupZ_insertZ_ne, lookupZ_insertZ_eq by lia. by rewrite Hlast.
    + rewrite lookupZ_insertZ_eq by (autorewrite with sos; lia). by rewrite Hx.
    + intros k ? ?. by rewrite !lookupZ_insertZ_ne by lia.
  - replace m with (m - 1 + 1) at 2 by lia. rewrite (cells_snoc _ _ x); [|lia|].
    + rewrite <- Permutation_cons_append. apply perm_skip.
      rewrite (cells_ext (insertZ id last a)); [done|]. intros k Hk. apply lookupZ_insertZ_ne. lia.
    + replace (m - 1 + 1) with m by lia. apply lookupZ_insertZ_eq. autorewrite with sos. lia.
Qed.

(** The array during the sift of [remove_element]. *)
Lemma remove_element_spec id x q :
  pq_wf q -> 1 <= id <= len q -> events q !z id = Some x ->
  wp (remove_element id) (fun _ q' => pq_wf q' /\ len q' = len q - 1 /\ counter q' = counter q /\
    size q' = size q /\ contents q ≡ₚ x :: contents q') q.
Proof.
  intros [He Hl Hr] Hid Hx. set (m := len q) in *. set (a := events q) in *.
  destruct (lookupZ_in_range a m ltac:(lia)) as [last Hlast].
  unfold remove_element. wp_steps. eapply wp_ev; [done|]. wp_steps. apply wp_set_ev; [fold a; lia|]. wp_steps.
  eapply wp_mono; [apply sift_down_spec; simpl; fold a m; autorewrite with sos; lia|].
  intros i q' (a' & -> & Hlen & Hii & Hout & Hin & Hrest). simpl in *. fold a m in Hlen, Hout, Hin, Hrest.
  rewrite length_insertZ in Hlen.
  assert (a' !z m = Some last) as Hlast'.
  { rewrite Hrest by lia. rewrite lookupZ_insertZ by lia. by case_decide. }
  wp_steps. eapply wp_ev; [done|].
  assert (i <= m) by (destruct (Z_lt_le_dec (m - 1) id); [rewrite Hout by lia; lia | destruct Hin; lia]).
  apply wp_set_ev; [simpl; lia|]. simpl.
  split; [split; simpl; [rewrite length_insertZ; lia | lia | lia]|].
  split; [done|]. split; [done|]. split; [done|]. unfold contents. simpl. fold a m.
  destruct (decide (id = m)) as [->|Hne].
  - rewrite Hout by lia. transitivity (cells a (m - 1 + 1)); [by replace (m - 1 + 1) with m by lia|].
    rewrite (cells_snoc _ _ x); [|lia | by replace (m - 1 + 1) with m by lia].
    rewrite <- Permutation_cons_append. apply perm_skip. rewrite (cells_ext a (insertZ m last a')); [done|].
    intros k Hk. rewrite lookupZ_insertZ_ne by lia. rewrite Hrest by lia. apply lookupZ_insertZ_ne. lia.
  - destruct Hin as [Hi' Hperm]; [lia|]. rewrite Hperm, insertZ_insertZ.
    apply cells_drop; try done; lia.
Qed.

(** Below the root, every event has the second or the third cell above it. *)
Lemma heap_second a n : heap_order a n -> forall k, 2 <= k <= n ->
  prio a 2 <= prio a k \/ (3 <= n /\ prio a 3 <= prio a k).
Proof.
  intros Ho k Hk. assert (0 <= k) as H0 by lia. revert Hk.
  apply (Zlt_0_ind (fun k => 2 <= k <= n -> prio a 2 <= prio a k \/ (3 <= n /\ prio a 3 <= prio a k))); [|done].
  clear k H0. intros k IH _ Hk. destruct (decide (k = 2)) as [->|]; [by left|].
  destruct (decide (k = 3)) as [->|]; [right; lia|].
  destruct (half_facts k ltac:(lia)) as [Hh ?]. pose proof (Ho k ltac:(lia)).
  destruct (IH (k / 2)) as [?|[? ?]]; [lia | lia | left; lia | right; lia].
Qed.

(** After the removal of the root, the new root is an earliest event. *)
Lemma remove_root_min q :
  pq_wf q -> 1 <= len q -> heap_order (events q) (len q) ->
  wp (remove_element 1) (fun _ q' => forall k, 2 <= k <= len q -> prio (events q') 1 <= prio (events q) k) q.
Proof.
  intros [He Hl Hr] Hm Ho. set (m := len q) in *. set (a := events q) in *.
  destruct (lookupZ_in_range a m ltac:(lia)) as [last Hlast]. pose proof (prio_Some _ _ _ Hlast) as Hpl.
  unfold remove_element. wp_steps. eapply wp_ev; [done|]. wp_steps. apply wp_set_ev; [fold a; lia|]. wp_steps.
  set (a1 := insertZ 1 last a). set (q1 := set_len _ _).
  assert (events q1 = a1 /\ len q1 = m - 1) as [Ea1 El1] by done.
  assert (Z.of_nat (length a1) = size q) as Hla by (unfold a1; rewrite length_insertZ; done).
  assert (forall k, 2 <= k -> prio a1 k = prio a k) as Ha1 by (intros; apply prio_insert_ne; lia).
  assert (prio a1 1 = priority last) as Hr1 by (apply prio_insert_eq; lia).
  assert (forall p, p <= priority last -> (2 <= m - 1 -> p <= prio a1 2) -> (3 <= m - 1 -> p <= prio a1 3) ->
    forall k, 2 <= k <= m -> p <= prio a k) as Hmin.
  { intros p Hp H2 H3 k Hk. destruct (decide (k = m)) as [->|]; [lia|].
    destruct (heap_second a m Ho k ltac:(lia)) as [H|[H H']].
    - rewrite Ha1 in H2 by lia. lia.
    - destruct (decide (m = 3)) as [->|]; [|rewrite Ha1 in H3 by lia; lia]. lia. }
  simpl sift_down. wp_steps. eapply wp_mono; [apply sift_round_spec; rewrite ?Ea1, ?El1; lia|].
  intros [k0|] q2 Hround; rewrite Ea1, El1 in Hround; unfold round_post in Hround;
    change (2 * 1 + 1) with 3 in Hround; change (2 * 1) with 2 in Hround.
  - destruct Hround as (e & Hk & Hkn & He0 & -> & Hlt & H2 & H3). pose proof (prio_Some _ _ _ He0) as Hpe.
    eapply wp_mono; [apply sift_down_spec; simpl; fold m; rewrite ?length_insertZ; lia|].
    intros i' q3 (a' & -> & Hlen & Hii & _ & [Hi' _] & Hrest); [simpl; fold m; lia|]. simpl in *. fold m in Hi', Hrest. rewrite length_insertZ in Hlen.
    wp_steps. destruct (lookupZ_in_range a' m ltac:(lia)) as [x Hx]. eapply wp_ev; [done|].
    apply wp_set_ev; [simpl; lia|]. simpl. intros k Hkk. rewrite prio_insert_ne by lia.
    unfold prio at 1. rewrite Hrest, lookupZ_insertZ_eq by lia.
    revert k Hkk. apply Hmin; lia.
  - destruct Hround as (-> & H2 & H3). wp_steps. eapply wp_ev; [simpl; fold a m; rewrite lookupZ_insertZ by lia; by case_decide|].
    apply wp_set_ev; [simpl; fold a a1; lia|]. simpl. fold a a1. intros k Hkk.
    rewrite prio_insert_eq by lia. revert k Hkk. apply Hmin; lia.
Qed.

(** ** The contract *)

Lemma contents_elem q x : x ∈ contents q <-> exists k, 1 <= k <= len q /\ events q !z k = Some x.
Proof.
  rewrite list_elem_of_lookup. unfold contents. split.
  - intros [k Hk]. rewrite cells_lookup in Hk. case_decide; [|done]. exists (Z.of_nat k + 1). split; [lia | done].
  - intros (k & Hk & Hx). exists (Z.to_nat (k - 1)). rewrite cells_lookup, decide_True by lia.
    rewrite <- Hx. f_equal. lia.
Qed.

Lemma contents_tail q e l :
  1 <= len q -> events q !z 1 = Some e -> contents q ≡ₚ e :: l ->
  forall x, x ∈ l -> exists k, 2 <= k <= len q /\ events q !z k = Some x.
Proof.
  intros Hl He Hp x Hx.
  assert (contents q = e :: take (Z.to_nat (len q - 1)) (drop 2 (events q))) as Hc.
  { apply list_eq. intros [|k]; unfold contents; rewrite cells_lookup.
    - rewrite decide_True by lia. done.
    - simpl. destruct (decide (Z.of_nat (S k) < len q)) as [Hk|Hk].
      + rewrite lookup_take_lt, lookup_drop by lia. unfold lookupZ.
        destruct (Z.leb_spec 0 (Z.of_nat (S k) + 1)); [|lia]. f_equal. lia.
      + symmetry. apply lookup_take_ge. lia. }
  rewrite Hc in Hp. apply Permutation_cons_inv in Hp. rewrite <- Hp in Hx.
  apply list_elem_of_lookup in Hx as [k Hk]. apply lookup_take_Some in Hk as [Hk Hlt].
  rewrite lookup_drop in Hk. exists (Z.of_nat k + 2). split; [lia|]. unfold lookupZ.
  destruct (Z.leb_spec 0 (Z.of_nat k + 2)); [|lia]. rewrite <- Hk. f_equal. lia.
Qed.

(** C29: [pq_push] adds exactly the new event to the queue and keeps the heap
    order; the event gets a fresh id from the counter unless the caller gave
    one, and that id is returned. *)
Theorem pq_push_spec junk q p dly cb dat rep id :
  pq_wf q -> size q <= 2 ^ 30 -> heap_order (events q) (len q) ->
  let e := Event p dly cb dat (if id =? 0 then counter q else id) rep in
  exists q', pq_push true junk p dly cb dat rep id (Some q) = Ok (i32 (uid e), Some q') /\
    pq_wf q' /\ heap_order (events q') (len q') /\ contents q' ≡ₚ e :: contents q /\
    counter q' = (if id =? 0 then u32 (counter q + 1) else counter q).
Proof.
  intros Hwf Hs Ho e.
  destruct (proj1 (wp_ok _ _ _) (pq_push_run junk q p dly cb dat rep id Hwf Hs))
    as (r & s & E & q' & -> & -> & Hwf' & Hl & Hc & Hp & Ho'). eauto 10.
Qed.

(** [pq_pop] on an ordered queue returns an earliest event and removes
    exactly that event; the time then at the head of the queue is the earliest
    of the events that are left. *)
Theorem pq_pop_spec q :
  pq_wf q -> heap_order (events q) (len q) -> len q <> 0 ->
  exists e q', pq_pop true (Some q) = Ok (Some e, Some q') /\ pq_wf q' /\
    contents q ≡ₚ e :: contents q' /\
    (forall x, x ∈ contents q' -> priority e <= priority x) /\
    exists t, pq_time_peek (Some q') = Ok (t, Some q') /\ forall x, x ∈ contents q' -> t <= priority x.
Proof.
  intros Hwf Ho Hne. pose proof Hwf as [He Hl Hr].
  destruct (lookupZ_in_range (events q) 1 ltac:(lia)) as [e He1].
  pose proof (remove_element_spec 1 e q Hwf ltac:(lia) He1) as Hrun.
  destruct (proj1 (wp_ok _ _ _) Hrun) as ([] & q' & E & Hwf' & Hl' & _ & Hs' & Hp).
  pose proof (wp_run _ _ _ _ _ (remove_root_min q Hwf ltac:(lia) Ho) E) as Hmin. simpl in Hmin.
  pose proof (contents_tail q e _ ltac:(lia) He1 Hp) as Htail.
  exists e, q'. split; [|split; [done|split; [done|split]]].
  - unfold pq_pop, on_pq, bind, get, ev. apply Z.eqb_neq in Hne. rewrite Hne. bred.
    unfold bind, get, rd. rewrite He1. unfold ret. rewrite E. done.
  - intros x Hx. destruct (Htail x Hx) as (k & Hk & Hxk).
    pose proof (heap_root _ _ Ho k ltac:(lia)) as Hroot.
    by rewrite (prio_Some _ _ _ He1), (prio_Some _ _ _ Hxk) in Hroot.
  - destruct (decide (len q' = 0)) as [H0|H0].
    + exists 0. split.
      * unfold pq_time_peek, on_pq, bind, get. by rewrite H0.
      * intros x Hx. apply contents_elem in Hx as (k & Hk & _). lia.
    + destruct (lookupZ_in_range (events q') 1) as [e1 H1]; [rewrite (wf_events _ Hwf'); lia|].
      exists (priority e1). split.
      * unfold pq_time_peek, on_pq, bind, get, ev. apply Z.eqb_neq in H0. rewrite H0.
        unfold bind, get, rd. by rewrite H1.
      * intros x Hx. destruct (Htail x Hx) as (k & Hk & Hxk).
        specialize (Hmin k Hk). by rewrite (prio_Some _ _ _ H1), (prio_Some _ _ _ Hxk) in Hmin.
Qed.

Definition empty_pq : priority_queue := PQ [] 0 0 1.
Definition timer (p : Z) : event := Event p 0 0 0 0 0.

Lemma pq_push_spec_witness :
  pq_wf empty_pq /\
  exists q', pq_push true (timer 0) 7 5 3 4 0 0 (Some empty_pq) = Ok (i32 1, Some q') /\
    pq_wf q' /\ heap_order (events q') (len q') /\ contents q' ≡ₚ Event 7 5 3 4 1 0 :: contents empty_pq /\
    counter q' = u32 (1 + 1).
Proof.
  assert (pq_wf empty_pq) as Hwf by (split; [done | done | right; done]). split; [done|].
  apply (pq_push_spec (timer 0) empty_pq 7 5 3 4 0 0); [done | done |]. intros i Hi. simpl in Hi. lia.
Defined.

Definition three_timers : priority_queue := PQ [timer 0; timer 1; timer 5; timer 2; timer 0] 3 5 4.

Lemma three_timers_order : heap_order (events three_timers) (len three_timers).
Proof.
  intros i Hi. simpl in Hi. assert (i = 2 \/ i = 3) as [-> | ->] by lia; by vm_compute.
Qed.

Lemma pq_pop_spec_witness :
  exists e q', pq_pop true (Some three_timers) = Ok (Some e, Some q') /\ pq_wf q' /\
    contents three_timers ≡ₚ e :: contents q' /\
    (forall x, x ∈ contents q' -> priority e <= priority x) /\
    exists t, pq_time_peek (Some q') = Ok (t, Some q') /\ forall x, x ∈ contents q' -> t <= priority x.
Proof.
  apply (pq_pop_spec three_timers); [|apply three_timers_order | done].
  split; [done | done | left; done].
Defined.

(** ** The order of the heap is not restored *)

(** Register timers with the given priorities, then take them out. *)
Fixpoint push_all (ps : list Z) : M (option priority_queue) unit :=
  match ps with
  | [] => ret tt
  | p :: ps' => pq_push true (timer 0) p 0 0 0 0 0 ;;; push_all ps'
  end.
Fixpoint pop_all (n : nat) : M (option priority_queue) (list Z) :=
  match n with
  | O => ret []
  | S n' =>
      e <- pq_pop true ;;
      match e with
      | None => ret []
      | Some e => l <- pop_all n' ;; ret (priority e :: l)
      end
  end.
Definition fire_order (ps : list Z) : M (option priority_queue) (list Z) :=
  push_all ps ;;; pop_all (length ps).

(** The sift of [remove_element] compares the children with the event that
    was just moved up instead of the event being placed, so it stops after one
    level: six timers registered for the times 1, 2, 4, 3, 5, 6 fire in the
    order 1, 2, 4, 3, 5, 6. *)
Theorem pq_pop_out_of_order :
  exists q, fire_order [1; 2; 4; 3; 5; 6] (init_pq true) = Ok ([1; 2; 4; 3; 5; 6], q).
Proof. eexists. vm_compute. reflexivity. Qed.

(** [pq_purge] counts up while the queue shrinks: of four events it leaves
    two. *)
Theorem pq_purge_incomplete :
  exists q, (push_all [1; 2; 3; 4] ;;; pq_purge) (init_pq true) = Ok (tt, Some q) /\ len q = 2.
Proof. eexists. vm_compute. done. Qed.
