(* ===== verification/Clock.v ===== *)
(** * Clock: the GPT timer driver

    Models libs/libclock/src/clock.c over [Pq].  The hardware and the kernel
    are parameters: the class [GPT] gives reads and writes of memory-mapped
    registers, which may let time pass, the interrupt and capability calls,
    and the outcome of memory allocation.  The callbacks stored in the events
    are a parameter too, since they are code of the clients.

    The theorems show what [time_stamp] returns when the counter wraps before,
    between and after its readings, that a registered timer is queued for the
    right time and that the compare register follows the head of the queue; two
    runs show the interrupt handler looping and firing early. *)

From S2P Require Import Prelude Arith Pq.

Definition i64 (z : Z) : Z := (z + 2 ^ 63) mod 2 ^ 64 - 2 ^ 63.

(** ** Constants *)

Definition GPT_IRQ : Z := 87.
Definition GPT_CR : Z := 0x0.
Definition GPT_PR : Z := 0x4.
Definition GPT_SR : Z := 0x8.
Definition GPT_IR : Z := 0xC.
Definition GPT_OCR1 : Z := 0x10.
Definition GPT_OCR2 : Z := 0x14.
Definition GPT_CNT : Z := 0x24.
Definition GPT_PERIPHERAL_CLOCK_FREQUENCY : Z := 66.
Definition ZERO_RESET_VALUE : Z := 0x00000000.
Definition MAX_INT_RESET_VALUE : Z := 0xFFFFFFFF.
Definition FREE_RUN_MASK : Z := BIT 9.
Definition PERIPHERAL_CLOCK_MASK : Z := BIT 6.
Definition ENMOD_MODE_MASK : Z := BIT 1.
Definition ROLL_OVER_MASK : Z := BIT 5.
Definition OUTPUT_COMPARE_MASK : Z := BIT 0.
Definition REPEAT_EVENT : Z := 1.
Definition SINGLE_EVENT : Z := 0.
Definition EVENT_FAIL : Z := 0.
Definition GEN_UID : Z := 0.
Definition CLOCK_R_OK : Z := 0.
Definition CLOCK_R_UINT : Z := -1.
Definition CLOCK_R_CNCL : Z := -2.
Definition CLOCK_R_FAIL : Z := -3.

Definition join32to64 (upper lower : Z) : Z := Z.lor (u64 (Z.shiftl upper 32)) lower.

(** ** The environment of the driver *)

Class GPT (HW : Type) := {
  gpt_read : Z -> HW -> Z * HW;
  gpt_write : Z -> Z -> HW -> HW;
  irq_get_cap : Z -> HW -> Z * HW;
  irq_set_endpoint : Z -> Z -> HW -> Z * HW;
  irq_ack : Z -> HW -> Z * HW;
  irq_clear : Z -> HW -> Z * HW;
  delete_cap : Z -> HW -> Z * HW;
  heap_alloc : HW -> bool * HW
}.

Record clock (HW : Type) := Clock {
  gpt_virtual : Z;
  pq : option priority_queue;
  timer_started : bool;
  irq_handler : Z;
  hw : HW
}.
Arguments Clock {HW}.
Arguments gpt_virtual {HW}.
Arguments pq {HW}.
Arguments timer_started {HW}.
Arguments irq_handler {HW}.
Arguments hw {HW}.

Section clock.
Context {HW : Type} `{GPT HW}.
(** What a callback does when it is run with an id and its data. *)
Context (run_callback : Z -> Z -> Z -> M (clock HW) unit).

Definition set_hw (h : HW) (c : clock HW) := Clock (gpt_virtual c) (pq c) (timer_started c) (irq_handler c) h.
Definition set_pq (q : option priority_queue) (c : clock HW) :=
  Clock (gpt_virtual c) q (timer_started c) (irq_handler c) (hw c).
Definition set_started (b : bool) (c : clock HW) :=
  Clock (gpt_virtual c) (pq c) b (irq_handler c) (hw c).
Definition set_irq (i : Z) (c : clock HW) :=
  Clock (gpt_virtual c) (pq c) (timer_started c) i (hw c).

Definition env {A} (f : HW -> A * HW) : M (clock HW) A := fun c =>
  let (a, h) := f (hw c) in Ok (a, set_hw h c).
Definition on_queue {A} (m : M (option priority_queue) A) : M (clock HW) A := zoom pq set_pq m.

(** The register at an offset, through the pointer set by [init_timer]. *)
Definition reg (off : Z) : M (clock HW) Z :=
  c <- get ;;
  if gpt_virtual c =? 0 then fail FNull else env (gpt_read (gpt_virtual c + off)).
Definition set_reg (off v : Z) : M (clock HW) unit :=
  c <- get ;;
  if gpt_virtual c =? 0 then fail FNull
  else modify (fun c => set_hw (gpt_write (gpt_virtual c + off) (u32 v) (hw c)) c).
Definition or_reg (off v : Z) : M (clock HW) unit :=
  x <- reg off ;; set_reg off (Z.lor x v).

(** ** The driver *)

Definition init_timer (vaddr : Z) : M (clock HW) unit :=
  ok <- env heap_alloc ;;
  modify (fun c => Clock vaddr (init_pq ok) (timer_started c) (irq_handler c) (hw c)).

Definition check_for_rollover : M (clock HW) unit :=
  st <- reg GPT_SR ;;
  if negb (Z.land st ROLL_OVER_MASK =? 0) then
    u <- reg GPT_OCR2 ;;
    set_reg GPT_OCR2 (u + 1) ;;;
    or_reg GPT_SR ROLL_OVER_MASK
  else ret tt.

Definition read_time : M (clock HW) Z :=
  u <- reg GPT_OCR2 ;;
  l <- reg GPT_CNT ;;
  ret (i64 (join32to64 u l)).

Definition time_stamp : M (clock HW) Z :=
  c <- get ;;
  if negb (timer_started c) then ret CLOCK_R_UINT
  else
    first <- read_time ;;
    second <- read_time ;;
    if second <? first then check_for_rollover ;;; read_time
    else if negb (UPPER32BITS (u64 first) =? UPPER32BITS (u64 second)) then check_for_rollover ;;; read_time
    else ret second.

Definition add_event_to_pq (delay callback data repeat uid : Z) : M (clock HW) Z :=
  c <- get ;;
  if negb (timer_started c) then ret CLOCK_R_OK
  else if delay <? MILLISECONDS 1 then
    id <- on_queue pq_get_next_id ;;
    if id =? 0 then ret EVENT_FAIL
    else
      (if negb (callback =? 0) then run_callback callback id data else ret tt) ;;;
      ret id
  else
    empty <- on_queue pq_is_empty ;;
    (if (empty : bool) then or_reg GPT_IR OUTPUT_COMPARE_MASK else ret tt) ;;;
    now <- time_stamp ;;
    ok <- env heap_alloc ;;
    id <- on_queue (pq_push ok (timer 0) (u64 (now + delay)) delay callback data repeat uid) ;;
    let id := u32 id in
    if id =? 0 then ret EVENT_FAIL
    else
      t <- on_queue pq_time_peek ;;
      set_reg GPT_OCR1 t ;;;
      ret id.

Definition register_timer (delay callback data : Z) : M (clock HW) Z :=
  add_event_to_pq delay callback data SINGLE_EVENT GEN_UID.
Definition register_repeating_timer (delay callback data : Z) : M (clock HW) Z :=
  add_event_to_pq delay callback data REPEAT_EVENT GEN_UID.

Definition remove_timer (id : Z) : M (clock HW) Z :=
  c <- get ;;
  if negb (timer_started c) then ret CLOCK_R_UINT
  else
    r <- on_queue (pq_remove id) ;;
    if r =? 0 then ret CLOCK_R_FAIL
    else
      t <- on_queue pq_time_peek ;;
      set_reg GPT_OCR1 t ;;;
      ret CLOCK_R_OK.

(** One round of the loop of [timer_interrupt]: [inl] when it goes on, [inr]
    with whether it ended or [pq_pop] failed. *)
Definition fire_round (_ : unit) : M (clock HW) (unit + bool) :=
  ok <- env heap_alloc ;;
  e <- on_queue (pq_pop ok) ;;
  match e with
  | None => ret (inr false)
  | Some e =>
      (if negb (Pq.callback e =? 0) then run_callback (Pq.callback e) (Pq.uid e) (Pq.data e) else ret tt) ;;;
      (if negb (Pq.repeat e =? 0)
       then add_event_to_pq (Pq.delay e) (Pq.callback e) (Pq.data e) REPEAT_EVENT (Pq.uid e) ;;; ret tt
       else ret tt) ;;;
      check_for_rollover ;;;
      empty <- on_queue pq_is_empty ;;
      if (empty : bool) then ret (inr true)
      else
        t <- on_queue pq_time_peek ;;
        now <- time_stamp ;;
        if t <=? u64 (now + MILLISECONDS 1) then ret (inl tt) else ret (inr true)
  end.

Definition timer_interrupt (fuel : nat) : M (clock HW) Z :=
  c <- get ;;
  if negb (timer_started c) then ret CLOCK_R_UINT
  else
    check_for_rollover ;;;
    st <- reg GPT_SR ;;
    fired <- (if negb (Z.land st OUTPUT_COMPARE_MASK =? 0) then
                ok <- while_fuel fuel fire_round tt ;;
                if negb ok then ret false
                else
                  empty <- on_queue pq_is_empty ;;
                  (if (empty : bool) then
                     ir <- reg GPT_IR ;; set_reg GPT_IR (Z.land ir (not32 OUTPUT_COMPARE_MASK))
                   else t <- on_queue pq_time_peek ;; set_reg GPT_OCR1 t) ;;;
                  or_reg GPT_SR OUTPUT_COMPARE_MASK ;;;
                  ret true
              else ret true) ;;
    if negb fired then ret CLOCK_R_FAIL
    else
      c <- get ;;
      r <- env (irq_ack (irq_handler c)) ;;
      if negb (r =? 0) then ret CLOCK_R_FAIL else ret CLOCK_R_OK.

Definition enable_irq (irq aep : Z) : M (clock HW) Z :=
  cap <- env (irq_get_cap irq) ;;
  modify (set_irq cap) ;;;
  if cap =? 0 then ret 1
  else
    r <- env (irq_set_endpoint cap aep) ;;
    if negb (r =? 0) then ret 1
    else
      r <- env (irq_ack cap) ;;
      if negb (r =? 0) then ret 1 else ret 0.

Definition stop_timer : M (clock HW) Z :=
  cr <- reg GPT_CR ;;
  set_reg GPT_CR (Z.land cr (not32 1)) ;;;
  c <- get ;;
  r <- env (irq_clear (irq_handler c)) ;;
  if negb (r =? 0) then ret CLOCK_R_FAIL
  else
    c <- get ;;
    r <- env (delete_cap (irq_handler c)) ;;
    if negb (r =? 0) then ret CLOCK_R_FAIL
    else
      on_queue pq_purge ;;;
      modify (set_started false) ;;;
      ret CLOCK_R_OK.

Definition start_timer (interrupt_ep : Z) : M (clock HW) Z :=
  c <- get ;;
  (if timer_started c then stop_timer ;;; ret tt else ret tt) ;;;
  r <- enable_irq GPT_IRQ interrupt_ep ;;
  if negb (r =? 0) then ret CLOCK_R_FAIL
  else
    set_reg GPT_CR ZERO_RESET_VALUE ;;;
    set_reg GPT_PR ZERO_RESET_VALUE ;;;
    set_reg GPT_SR ZERO_RESET_VALUE ;;;
    set_reg GPT_IR ZERO_RESET_VALUE ;;;
    set_reg GPT_OCR1 MAX_INT_RESET_VALUE ;;;
    set_reg GPT_OCR2 ZERO_RESET_VALUE ;;;
    or_reg GPT_CR FREE_RUN_MASK ;;;
    or_reg GPT_CR PERIPHERAL_CLOCK_MASK ;;;
    or_reg GPT_CR ENMOD_MODE_MASK ;;;
    or_reg GPT_IR ROLL_OVER_MASK ;;;
    or_reg GPT_IR OUTPUT_COMPARE_MASK ;;;
    set_reg GPT_PR GPT_PERIPHERAL_CLOCK_FREQUENCY ;;;
    or_reg GPT_CR 1 ;;;
    modify (set_started true) ;;;
    ret CLOCK_R_OK.
End clock.

Lemma join32to64_spec u l :
  0 <= u < 2 ^ 31 -> 0 <= l < 2 ^ 32 -> i64 (join32to64 u l) = u * 2 ^ 32 + l.
Proof.
  intros Hu Hl. unfold join32to64. rewrite Z.shiftl_mul_pow2 by lia.
  unfold u64. rewrite Z.mod_small by lia.
  rewrite Z.lor_comm, lor_disjoint_add by lia. unfold i64. rewrite Z.mod_small; lia.
Qed.

(** ** The documented hardware

    A microsecond count [now] that never goes back; its low half is the counter
    register.  OCR2 is used by the driver as plain storage.  The roll-over flag
    is set while there are wraps of the counter that were not acknowledged by
    writing the flag. *)
Class GPTLaws (HW : Type) `{GPT HW} (base : Z) := {
  now : HW -> Z;
  upper : HW -> Z;
  acked : HW -> Z;
  compare : HW -> Z;
  read_any : forall a h v h', gpt_read a h = (v, h') ->
    now h <= now h' /\ upper h' = upper h /\ acked h' = acked h;
  read_counter : forall h v h', gpt_read (base + GPT_CNT) h = (v, h') -> v = now h' mod 2 ^ 32;
  read_upper : forall h v h', gpt_read (base + GPT_OCR2) h = (v, h') -> v = upper h';
  read_status : forall h v h', gpt_read (base + GPT_SR) h = (v, h') ->
    Z.land v ROLL_OVER_MASK <> 0 <-> acked h' < now h' / 2 ^ 32;
  write_upper : forall h v, let h' := gpt_write (base + GPT_OCR2) v h in
    now h <= now h' /\ upper h' = v /\ acked h' = acked h;
  write_status : forall h v, let h' := gpt_write (base + GPT_SR) v h in
    Z.land v ROLL_OVER_MASK <> 0 -> now h <= now h' /\ upper h' = upper h /\ acked h' = now h' / 2 ^ 32;
  write_compare : forall h v, compare (gpt_write (base + GPT_OCR1) v h) = v;
  alloc_true : forall h, (heap_alloc h).1 = true
}.

(** Reduces the fields of an updated state. *)
Ltac hwred := cbn [hw set_hw set_pq gpt_virtual pq timer_started irq_handler] in *.

Section clock_proofs.
Context {HW : Type} `{GPTLaws HW base}.
Hypothesis base_pos : base <> 0.
Implicit Types c : clock HW.

Lemma wp_env {A} (f : HW -> A * HW) Q c :
  (forall a h', f (hw c) = (a, h') -> Q a (set_hw h' c)) -> wp (env f) Q c.
Proof. unfold wp, env. intros HQ. destruct (f (hw c)) as [a h']. auto. Qed.

Lemma wp_reg off Q c :
  gpt_virtual c = base ->
  (forall v h', gpt_read (base + off) (hw c) = (v, h') -> Q v (set_hw h' c)) ->
  wp (reg off) Q c.
Proof.
  intros Hb HQ. unfold reg. wp_steps. rewrite Hb. destruct (Z.eqb_spec base 0); [done|]. by apply wp_env.
Qed.

Lemma wp_set_reg off v Q c :
  gpt_virtual c = base -> Q tt (set_hw (gpt_write (base + off) (u32 v) (hw c)) c) -> wp (set_reg off v) Q c.
Proof.
  intros Hb HQ. unfold set_reg. wp_steps. rewrite Hb. destruct (Z.eqb_spec base 0); [done|]. wp_steps.
  by rewrite Hb.
Qed.

Lemma wp_or_reg off v Q c :
  gpt_virtual c = base ->
  (forall x h', gpt_read (base + off) (hw c) = (x, h') ->
     Q tt (set_hw (gpt_write (base + off) (u32 (Z.lor x v)) h') c)) ->
  wp (or_reg off v) Q c.
Proof.
  intros Hb HQ. unfold or_reg. wp_steps. apply wp_reg; [done|]. intros x h' Hx.
  apply wp_set_reg; [done|]. by apply HQ.
Qed.

Lemma read_time_spec c :
  gpt_virtual c = base -> 0 <= upper (hw c) < 2 ^ 31 ->
  wp read_time (fun t c' => exists h', c' = set_hw h' c /\ upper h' = upper (hw c) /\
    acked h' = acked (hw c) /\ now (hw c) <= now h' /\ t = upper (hw c) * 2 ^ 32 + now h' mod 2 ^ 32) c.
Proof.
  intros Hb Hu. unfold read_time. wp_steps. apply wp_reg; [done|]. intros u h1 H1.
  wp_steps. apply wp_reg; [done|]. intros l h2 H2. wp_steps.
  pose proof (read_upper _ _ _ H1) as Eu. pose proof (read_counter _ _ _ H2) as El.
  destruct (read_any _ _ _ _ H1) as (Hn1 & Hu1 & Ha1). destruct (read_any _ _ _ _ H2) as (Hn2 & Hu2 & Ha2).
  hwred. exists h2. split; [done|]. split; [congruence|]. split; [congruence|].
  split; [lia|]. subst u l. rewrite Hu1. apply join32to64_spec; [lia|]. apply Z.mod_pos_bound. lia.
Qed.

(** A flag that is set in a 32-bit word survives [|=]. *)
Lemma lor_roll_over x : Z.land (u32 (Z.lor x ROLL_OVER_MASK)) ROLL_OVER_MASK <> 0.
Proof.
  intros E. assert (Z.testbit (Z.land (u32 (Z.lor x ROLL_OVER_MASK)) ROLL_OVER_MASK) 5 = false) as E'
    by (rewrite E; apply Z.testbit_0_l).
  rewrite Z.land_spec in E'. unfold u32 in E'. rewrite Z.mod_pow2_bits_low in E' by lia.
  rewrite Z.lor_spec in E'. change (Z.testbit ROLL_OVER_MASK 5) with true in E'.
  by rewrite orb_true_r in E'.
Qed.

(** A pending wrap is added to the upper half and acknowledged. *)
Lemma check_for_rollover_spec c :
  gpt_virtual c = base -> 0 <= upper (hw c) < 2 ^ 31 ->
  wp check_for_rollover (fun _ c' => exists h', c' = set_hw h' c /\ now (hw c) <= now h' /\
    ((upper h' = upper (hw c) /\ acked h' = acked (hw c) /\ ~ acked (hw c) < now (hw c) / 2 ^ 32) \/
     (upper h' = upper (hw c) + 1 /\ acked (hw c) < acked h' <= now h' / 2 ^ 32))) c.
Proof.
  intros Hb Hu. unfold check_for_rollover. wp_steps. apply wp_reg; [done|]. intros st h1 H1.
  destruct (read_any _ _ _ _ H1) as (Hn1 & Hu1 & Ha1). pose proof (read_status _ _ _ H1) as Hst.
  assert (now (hw c) / 2 ^ 32 <= now h1 / 2 ^ 32) as Hd by (apply Z.div_le_mono; lia).
  destruct (Z.eqb_spec (Z.land st ROLL_OVER_MASK) 0) as [E|E]; bred; wp_steps.
  - exists h1. split; [done|]. split; [done|]. left. split; [done|]. split; [done|].
    assert (~ Z.land st ROLL_OVER_MASK <> 0) by tauto. rewrite Hst in *. lia.
  - apply Hst in E. apply wp_reg; [done|]. intros u h2 H2.
    destruct (read_any _ _ _ _ H2) as (Hn2 & Hu2 & Ha2). pose proof (read_upper _ _ _ H2) as Eu.
    wp_steps. apply wp_set_reg; [done|]. hwred. wp_steps. apply wp_or_reg; [done|]. intros x h3 H3. hwred.
    destruct (read_any _ _ _ _ H3) as (Hn3 & Hu3 & Ha3).
    destruct (write_upper h2 (u32 (u + 1))) as (Hw1 & Hw2 & Hw3).
    destruct (write_status h3 (u32 (Z.lor x ROLL_OVER_MASK)) (lor_roll_over x)) as (Hs1 & Hs2 & Hs3).
    eexists. split; [done|]. rewrite Hs2, Hs3, Hu3, Hw2. rewrite (u32_small (u + 1)) by (unfold is_u32; lia).
    set (h4 := gpt_write (base + GPT_SR) _ h3) in *.
    assert (now h1 / 2 ^ 32 <= now h4 / 2 ^ 32) by (apply Z.div_le_mono; lia).
    split; [lia|]. right. split; [lia|]. lia.
Qed.

(** The two readings of [time_stamp]. *)
Lemma two_readings c :
  gpt_virtual c = base -> 0 <= upper (hw c) < 2 ^ 31 ->
  exists h1 h2, let U := upper (hw c) in
    read_time c = Ok (U * 2 ^ 32 + now h1 mod 2 ^ 32, set_hw h1 c) /\
    read_time (set_hw h1 c) = Ok (U * 2 ^ 32 + now h2 mod 2 ^ 32, set_hw h2 c) /\
    upper h2 = U /\ acked h2 = acked (hw c) /\ now (hw c) <= now h1 <= now h2.
Proof.
  intros Hb HU. destruct (proj1 (wp_ok _ _ _) (read_time_spec c Hb HU)) as (t1 & c1 & E1 & h1 & -> & Hu1 & Ha1 & Hn1 & ->).
  destruct (proj1 (wp_ok _ _ _) (read_time_spec (set_hw h1 c) Hb ltac:(hwred; lia))) as (t2 & c2 & E2 & h2 & -> & Hu2 & Ha2 & Hn2 & ->).
  exists h1, h2. hwred. rewrite Hu1 in *. split_and!; try done; lia || congruence.
Qed.

Lemma period_mod U n : U * 2 ^ 32 <= n < (U + 1) * 2 ^ 32 -> n mod 2 ^ 32 = n - U * 2 ^ 32.
Proof. intros. symmetry. apply (Z.mod_unique_pos _ _ U); lia. Qed.

(** After a wrap that the driver has not seen, the time is read again. *)
Lemma wrapped_read c :
  gpt_virtual c = base -> let U := upper (hw c) in
  0 <= U < 2 ^ 31 - 1 -> acked (hw c) = U -> (U + 1) * 2 ^ 32 <= now (hw c) ->
  exists t h', (check_for_rollover ;;; read_time) c = Ok (t, set_hw h' c) /\ upper h' = U + 1 /\ now (hw c) <= now h' /\
    (now h' < (U + 2) * 2 ^ 32 -> acked h' = U + 1 /\ t = now h').
Proof.
  intros Hb U HU Ha Hn.
  assert (wp (check_for_rollover ;;; read_time) (fun t c' => exists h', c' = set_hw h' c /\ upper h' = U + 1 /\ now (hw c) <= now h' /\
    (now h' < (U + 2) * 2 ^ 32 -> acked h' = U + 1 /\ t = now h')) c) as Hwp.
  { wp_steps. eapply wp_mono; [apply check_for_rollover_spec; [done | lia]|].
    assert (U + 1 <= now (hw c) / 2 ^ 32) by (apply Z.div_le_lower_bound; lia).
    intros _ c3 (h3 & -> & Hn3 & [(_ & _ & Hno)|(Hu3 & Ha3)]); hwred; [lia|]. fold U in Hu3.
    eapply wp_mono; [apply read_time_spec; [done | hwred; lia]|].
    intros t c4 (h4 & -> & Hu4 & Ha4 & Hn4 & ->). hwred. exists h4. split; [done|]. split; [lia|]. split; [lia|].
    intros Hbound. rewrite Ha4, Hu3, (period_mod (U + 1)) by lia. split; [|lia].
    assert (now h3 / 2 ^ 32 < U + 2) by (apply Z.div_lt_upper_bound; lia). lia. }
  apply wp_ok in Hwp as (t & c' & E & h' & -> & H1). eauto.
Qed.

(** *** Reading the time changes the hardware only *)

Definition hw_only {A} (m : M (clock HW) A) : Prop :=
  forall c, gpt_virtual c = base -> wp m (fun _ c' => exists h', c' = set_hw h' c) c.

Lemma hw_only_ret {A} (a : A) : hw_only (ret a).
Proof. intros c _. wp_steps. exists (hw c). by destruct c. Qed.

Lemma hw_only_bind {A B} (m : M (clock HW) A) (k : A -> M (clock HW) B) :
  hw_only m -> (forall a, hw_only (k a)) -> hw_only (bind m k).
Proof.
  intros Hm Hk c Hc. apply wp_bind. eapply wp_mono; [by apply Hm|]. intros a c' [h' ->].
  eapply wp_mono; [apply Hk; done|]. intros b c' [h'' ->]. by exists h''.
Qed.

Lemma hw_only_reg off : hw_only (reg off).
Proof. intros c Hc. apply wp_reg; eauto. Qed.

Lemma hw_only_set_reg off v : hw_only (set_reg off v).
Proof. intros c Hc. apply wp_set_reg; eauto. Qed.

Lemma hw_only_or_reg off v : hw_only (or_reg off v).
Proof. intros c Hc. apply wp_or_reg; eauto. Qed.

Create HintDb hw_only.
#[local] Hint Resolve hw_only_ret hw_only_bind hw_only_reg hw_only_set_reg hw_only_or_reg : hw_only.

Lemma hw_only_check : hw_only check_for_rollover.
Proof.
  unfold check_for_rollover. apply hw_only_bind; [auto with hw_only|]. intros st.
  destruct (negb _); auto 10 with hw_only.
Qed.

Lemma hw_only_read_time : hw_only read_time.
Proof. unfold read_time. auto 10 with hw_only. Qed.

#[local] Hint Resolve hw_only_check hw_only_read_time : hw_only.

Lemma hw_only_time_stamp : hw_only time_stamp.
Proof.
  intros c Hc. unfold time_stamp. wp_steps. destruct (negb _); [by apply hw_only_ret|].
  revert c Hc. apply hw_only_bind; [auto with hw_only|]. intros first.
  apply hw_only_bind; [auto with hw_only|]. intros second.
  destruct (second <? first); [auto with hw_only|]. destruct (negb _); auto with hw_only.
Qed.

(** C30: Let the driver have acknowledged all wraps of the counter up to the
    upper half [U] it stores, and let [h1] and [h2] be the hardware after the
    first and the second reading of [time_stamp], less than a period of the
    counter apart, with at most one wrap in the call so far.
    (1) Before the wrap to [U + 1] the result is the time of the second reading.
    (2) When the wrap is between the two readings, it is seen: the stored half
    becomes [U + 1], and, if no further wrap follows, the wrap is acknowledged
    and the result is the time of a third reading.
    (3) When the wrap comes before the first reading ends, it is not seen: the
    result is the time of the second reading less one period. *)
Theorem time_stamp_exact c :
  gpt_virtual c = base -> timer_started c = true -> let U := upper (hw c) in
  0 <= U < 2 ^ 31 - 1 -> acked (hw c) = U -> U * 2 ^ 32 <= now (hw c) ->
  exists t1 h1 t2 h2, read_time c = Ok (t1, set_hw h1 c) /\ read_time (set_hw h1 c) = Ok (t2, set_hw h2 c) /\
    (now h2 < (U + 2) * 2 ^ 32 -> now h2 - now h1 < 2 ^ 32 -> let wrap := (U + 1) * 2 ^ 32 in
     (now h2 < wrap /\ time_stamp c = Ok (now h2, set_hw h2 c)) \/
     (now h1 < wrap <= now h2 /\ exists t h', time_stamp c = Ok (t, set_hw h' c) /\ upper h' = U + 1 /\ now h2 <= now h' /\
        (now h' < (U + 2) * 2 ^ 32 -> acked h' = U + 1 /\ t = now h')) \/
     (wrap <= now h1 /\ time_stamp c = Ok (now h2 - 2 ^ 32, set_hw h2 c))).
Proof.
  intros Hb Hs U HU Ha Hn. destruct (two_readings c Hb ltac:(lia)) as (h1 & h2 & E1 & E2 & Hu2 & Ha2 & Hn1 & Hn2).
  fold U in E1, E2, Hu2. eexists _, h1, _, h2. split; [exact E1|]. split; [exact E2|]. intros Hlt Hd wrap.
  pose proof (Z.mod_pos_bound (now h1) (2 ^ 32) ltac:(lia)). pose proof (Z.mod_pos_bound (now h2) (2 ^ 32) ltac:(lia)).
  assert (forall n, 0 <= n < 2 ^ 32 -> UPPER32BITS (u64 (U * 2 ^ 32 + n)) = U) as Hup.
  { intros n Hn'. rewrite u64_small by (unfold is_u64; lia). rewrite UPPER32BITS_spec by (unfold is_u64; lia).
    rewrite Z.div_add_l by lia. rewrite Z.div_small by lia. lia. }
  assert (time_stamp c = if now h2 mod 2 ^ 32 <? now h1 mod 2 ^ 32 then (check_for_rollover ;;; read_time) (set_hw h2 c)
    else Ok (U * 2 ^ 32 + now h2 mod 2 ^ 32, set_hw h2 c)) as ->.
  { unfold time_stamp, bind at 1, get. rewrite Hs. cbn [negb]. unfold bind at 1. rewrite E1. unfold bind at 1. rewrite E2.
    rewrite !Hup, Z.eqb_refl by lia. cbn [negb].
    destruct (Z.ltb_spec (U * 2 ^ 32 + now h2 mod 2 ^ 32) (U * 2 ^ 32 + now h1 mod 2 ^ 32)), (Z.ltb_spec (now h2 mod 2 ^ 32) (now h1 mod 2 ^ 32)); lia || done. }
  unfold wrap in *.
  destruct (Z.lt_ge_cases (now h2) ((U + 1) * 2 ^ 32)) as [Hw2|Hw2]; [left | right; destruct (Z.lt_ge_cases (now h1) ((U + 1) * 2 ^ 32)) as [Hw1|Hw1]; [left | right]].
  - rewrite !(period_mod U) by lia. destruct (Z.ltb_spec (now h2 - U * 2 ^ 32) (now h1 - U * 2 ^ 32)); [lia|].
    split; [done|]. do 2 f_equal. lia.
  - split; [done|]. rewrite (period_mod U (now h1)), (period_mod (U + 1) (now h2)) by lia.
    destruct (Z.ltb_spec (now h2 - (U + 1) * 2 ^ 32) (now h1 - U * 2 ^ 32)); [|lia].
    destruct (wrapped_read (set_hw h2 c) Hb) as (t & h' & E & H'); hwred; rewrite ?Hu2 in *; [lia..|]. exists t, h'. by rewrite E.
  - rewrite !(period_mod (U + 1)) by lia. destruct (Z.ltb_spec (now h2 - (U + 1) * 2 ^ 32) (now h1 - (U + 1) * 2 ^ 32)); [lia|].
    split; [done|]. do 2 f_equal. lia.
Qed.

Context (run_callback : Z -> Z -> Z -> M (clock HW) unit).

Lemma wp_on_queue {A} (m : M (option priority_queue) A) Q c :
  wp m (fun a q => Q a (set_pq q c)) (pq c) -> wp (on_queue m) Q c.
Proof. apply wp_zoom. Qed.

(** [time_stamp] was called in between and returned [t]. *)
Definition stamped (c : clock HW) (t : Z) : Prop :=
  exists h1 h2, time_stamp (set_hw h1 c) = Ok (t, set_hw h2 c).

Lemma pq_time_peek_head q :
  pq_wf q -> len q <> 0 -> wp pq_time_peek (fun t s => s = Some q /\ t = prio (events q) 1) (Some q).
Proof.
  intros [He Hl Hr] Hne. unfold pq_time_peek. apply wp_on_pq. wp_steps. apply Z.eqb_neq in Hne as Hne'.
  rewrite Hne'. destruct (lookupZ_in_range (events q) 1 ltac:(lia)) as [e He1].
  wp_steps. eapply wp_ev; [done|]. wp_steps. by rewrite (prio_Some _ _ _ He1).
Qed.

Lemma add_event_run c q dly cb dat rep :
  gpt_virtual c = base -> timer_started c = true -> pq c = Some q ->
  pq_wf q -> size q <= 2 ^ 30 -> heap_order (events q) (len q) ->
  1000 <= dly -> 0 < counter q < 2 ^ 31 ->
  wp (add_event_to_pq run_callback dly cb dat rep GEN_UID) (fun r c' => exists t q',
    r = counter q /\ pq c' = Some q' /\ pq_wf q' /\ heap_order (events q') (len q') /\
    stamped c t /\ contents q' ≡ₚ Event (u64 (t + dly)) dly cb dat (counter q) rep :: contents q /\
    (forall x, x ∈ contents q' -> prio (events q') 1 <= priority x) /\
    compare (hw c') = u32 (prio (events q') 1)) c.
Proof.
  intros Hb Hs Hq Hwf Hsz Ho Hd Hc. unfold add_event_to_pq. wp_steps. rewrite Hs. bred.
  change (MILLISECONDS 1) with 1000. destruct (Z.ltb_spec dly 1000); [lia|].
  wp_steps. apply wp_on_queue. rewrite Hq. unfold pq_is_empty. apply wp_on_pq. wp_steps.
  assert (set_pq (Some q) c = c) as Hsame by (destruct c; hwred; by rewrite <- Hq). rewrite Hsame.
  eapply wp_mono with (Q := fun _ c' => exists h', c' = set_hw h' c).
  { destruct (len q =? 0); [by apply hw_only_or_reg | by apply hw_only_ret]. }
  intros [] c1 [h1 ->]. wp_steps.
  pose proof (hw_only_time_stamp (set_hw h1 c) Hb) as Hts.
  apply wp_ok in Hts as (t & c2 & Ets & [h2 ->]). apply (wp_eq _ _ _ _ _ Ets).
  wp_steps. apply wp_env. intros ok h3 Hok. pose proof (alloc_true h2) as Hal. hwred. rewrite Hok in Hal.
  simpl in Hal. subst ok. wp_steps. apply wp_on_queue. hwred. rewrite Hq.
  eapply wp_mono; [by apply pq_push_run|].
  intros r s (q' & -> & -> & Hwf' & Hl' & Hc' & Hp & Ho'). change (GEN_UID =? 0) with true in *. hwred. simpl uid in *.
  rewrite i32_small, u32_small by (unfold is_u32; lia). destruct (Z.eqb_spec (counter q) 0); [lia|].
  wp_steps. apply wp_on_queue. hwred. pose proof (wf_len _ Hwf) as Hlen.
  eapply wp_mono; [apply pq_time_peek_head; [done | lia]|]. intros t1 s [-> ->]. wp_steps.
  apply wp_set_reg; [done|]. wp_steps. exists t, q'. hwred. split; [done|]. split; [done|].
  split; [done|]. specialize (Ho' Ho). split; [done|]. split; [by exists h1, h2|]. split; [done|]. split.
  - intros x Hx. apply contents_elem in Hx as (k & Hk & Hx). rewrite <- (prio_Some _ _ _ Hx).
    by apply (heap_root _ (len q')).
  - apply write_compare.
Qed.

(** [register_timer] with a delay of at least a millisecond queues exactly
    one new event, due the delay after the time it read, returns the id of that
    event, keeps the queue ordered and programs the compare register with the
    low half of the earliest time in the queue. *)
Theorem register_timer_spec c q dly cb dat :
  gpt_virtual c = base -> timer_started c = true -> pq c = Some q ->
  pq_wf q -> size q <= 2 ^ 30 -> heap_order (events q) (len q) ->
  1000 <= dly -> 0 < counter q < 2 ^ 31 ->
  exists c' t q', register_timer run_callback dly cb dat c = Ok (counter q, c') /\
    pq c' = Some q' /\ pq_wf q' /\ heap_order (events q') (len q') /\ stamped c t /\
    contents q' ≡ₚ Event (u64 (t + dly)) dly cb dat (counter q) SINGLE_EVENT :: contents q /\
    (forall x, x ∈ contents q' -> prio (events q') 1 <= priority x) /\
    compare (hw c') = u32 (prio (events q') 1).
Proof.
  intros. destruct (proj1 (wp_ok _ _ _) (add_event_run c q dly cb dat SINGLE_EVENT ltac:(done) ltac:(done)
    ltac:(done) ltac:(done) ltac:(done) ltac:(done) ltac:(done) ltac:(done))) as (r & c' & E & t & q' & -> & Hrest).
  exists c', t, q'. done.
Qed.
End clock_proofs.

(** ** A simulated GPT

    Every register access takes [s_step] microseconds. *)
Record sim := Sim {
  s_now : Z;
  s_step : Z;
  s_upper : Z;
  s_acked : Z;
  s_compare : Z;
  s_due : bool
}.

Definition sim_base : Z := 0x1000.

Lemma sim_base_pos : sim_base <> 0.
Proof. discriminate. Qed.

Definition sim_tick (h : sim) : sim :=
  Sim (s_now h + Z.abs (s_step h)) (s_step h) (s_upper h) (s_acked h) (s_compare h) (s_due h).

Definition sim_read (a : Z) (h : sim) : Z * sim :=
  let h := sim_tick h in
  (if a =? sim_base + GPT_CNT then s_now h mod 2 ^ 32
   else if a =? sim_base + GPT_OCR2 then s_upper h
   else if a =? sim_base + GPT_SR then
     (if s_acked h <? s_now h / 2 ^ 32 then 32 else 0) + (if s_due h then 1 else 0)
   else 0, h).

Definition sim_write (a v : Z) (h : sim) : sim :=
  if a =? sim_base + GPT_OCR2 then Sim (s_now h) (s_step h) v (s_acked h) (s_compare h) (s_due h)
  else if a =? sim_base + GPT_OCR1 then Sim (s_now h) (s_step h) (s_upper h) (s_acked h) v (s_due h)
  else if a =? sim_base + GPT_SR then
    Sim (s_now h) (s_step h) (s_upper h)
        (if Z.land v ROLL_OVER_MASK =? 0 then s_acked h else s_now h / 2 ^ 32) (s_compare h)
        (if Z.land v OUTPUT_COMPARE_MASK =? 0 then s_due h else false)
  else h.

#[export] Instance sim_gpt : GPT sim := {
  gpt_read := sim_read;
  gpt_write := sim_write;
  irq_get_cap _ h := (1, h);
  irq_set_endpoint _ _ h := (0, h);
  irq_ack _ h := (0, h);
  irq_clear _ h := (0, h);
  delete_cap _ h := (0, h);
  heap_alloc h := (true, h)
}.

#[export, refine] Instance sim_laws : GPTLaws sim sim_base := {
  now := s_now;
  upper := s_upper;
  acked := s_acked;
  compare := s_compare
}.
Proof.
  - intros a h v h' [= _ <-]. unfold sim_tick. cbn [s_now s_upper s_acked]. lia.
  - intros h v h' [= <- <-]. done.
  - intros h v h' [= <- <-]. done.
  - intros h v h' [= <- <-]. unfold sim_tick. cbn [s_now s_acked s_due].
    destruct (Z.ltb_spec (s_acked h) ((s_now h + Z.abs (s_step h)) / 2 ^ 32)), (s_due h);
      (split; [intros Hv; (lia || by destruct Hv) | intros ?; (lia || discriminate)]).
  - intros h v h'. unfold h', gpt_write, sim_gpt, sim_write. rewrite Z.eqb_refl.
    cbn [s_now s_upper s_acked]. lia.
  - intros h v h' Hv. unfold h', gpt_write, sim_gpt, sim_write.
    change (sim_base + GPT_SR =? sim_base + GPT_OCR2) with false.
    change (sim_base + GPT_SR =? sim_base + GPT_OCR1) with false.
    rewrite Z.eqb_refl. apply Z.eqb_neq in Hv. rewrite Hv. cbn [s_now s_upper s_acked]. lia.
  - intros h v. reflexivity.
  - intros h. reflexivity.
Defined.

(** A started driver at time [t], with one period of the counter behind it. *)
Definition sim_clock (t : Z) : clock sim :=
  Clock sim_base (Some empty_pq) true 1 (Sim t 1 (t / 2 ^ 32) (t / 2 ^ 32) 0 false).

Definition no_callback : Z -> Z -> Z -> M (clock sim) unit := fun _ _ _ => ret tt.

(** A wrap between the two readings. *)
Definition wrapping : clock sim := sim_clock (2 ^ 33 - 3).

Lemma time_stamp_exact_witness :
  let U := upper (hw wrapping) in
  exists t1 h1 t2 h2, read_time wrapping = Ok (t1, set_hw h1 wrapping) /\ read_time (set_hw h1 wrapping) = Ok (t2, set_hw h2 wrapping) /\
    (now h2 < (U + 2) * 2 ^ 32 -> now h2 - now h1 < 2 ^ 32 -> let wrap := (U + 1) * 2 ^ 32 in
     (now h2 < wrap /\ time_stamp wrapping = Ok (now h2, set_hw h2 wrapping)) \/
     (now h1 < wrap <= now h2 /\ exists t h', time_stamp wrapping = Ok (t, set_hw h' wrapping) /\ upper h' = U + 1 /\ now h2 <= now h' /\
        (now h' < (U + 2) * 2 ^ 32 -> acked h' = U + 1 /\ t = now h')) \/
     (wrap <= now h1 /\ time_stamp wrapping = Ok (now h2 - 2 ^ 32, set_hw h2 wrapping))).
Proof. apply (time_stamp_exact sim_base_pos wrapping); done. Defined.

Lemma register_timer_spec_witness :
  exists c' t q', register_timer no_callback 5000 3 4 (sim_clock 100) = Ok (1, c') /\
    pq c' = Some q' /\ pq_wf q' /\ heap_order (events q') (len q') /\ stamped (sim_clock 100) t /\
    contents q' ≡ₚ Event (u64 (t + 5000)) 5000 3 4 1 SINGLE_EVENT :: contents empty_pq /\
    (forall x, x ∈ contents q' -> prio (events q') 1 <= priority x) /\
    compare (hw c') = u32 (prio (events q') 1).
Proof.
  apply (register_timer_spec sim_base_pos no_callback (sim_clock 100) empty_pq 5000 3 4); try done.
  - split; [done | done | by right].
  - intros i Hi. simpl in Hi. lia.
Defined.

(** ** A repeating timer of one millisecond *)

(** The driver at time [t] with the compare flag raised. *)
Definition raise_compare (t : Z) (c : clock sim) : clock sim :=
  set_hw (Sim t 1 (s_upper (hw c)) (s_acked (hw c)) (s_compare (hw c)) true) c.

(** The driver after a successful call. *)
Definition after {A} (m : M (clock sim) A) (c : clock sim) : clock sim :=
  match m c with Ok (_, c') => c' | Err _ => c end.

Definition millisecond_clock : clock sim :=
  after (register_repeating_timer no_callback (MILLISECONDS 1) 0 0) (sim_clock 100).

(** An interrupt handler with a repeating timer of one millisecond does not
    come to an end: the event is put back one millisecond after the current
    time, which the loop condition counts as due.  Time passes at every
    register access, and after a thousand rounds the loop still runs. *)
Theorem repeating_millisecond_livelock :
  timer_interrupt no_callback 1000 (raise_compare 1200 millisecond_clock) = Err FFuel.
Proof. vm_compute. reflexivity. Qed.

(** A timer for two hours, and the moment when the compare register matches. *)
Definition two_hours : Z := 2 * 3600 * 10 ^ 6.
Definition two_hour_clock : clock sim := after (register_timer no_callback two_hours 0 0) (sim_clock 100).
Definition early_match : clock sim := raise_compare (s_compare (hw two_hour_clock) + 1) two_hour_clock.

(** The compare register holds only the low half of a time, and
    [timer_interrupt] does not look at the time of the first event it takes: a
    timer set for two hours is taken from the queue when the low half matches,
    more than an hour early. *)
Theorem long_timer_fires_early :
  option_map len (pq two_hour_clock) = Some 1 /\
  option_map len (pq (after (timer_interrupt no_callback 2) early_match)) = Some 0 /\
  s_now (hw (after (timer_interrupt no_callback 2) early_match)) + 3600 * 10 ^ 6 < 100 + two_hours.
Proof. vm_compute. auto. Qed.
