(* ===== verification/Memory.v ===== *)
(** * Memory: the bytes SOS reaches through its window on physical memory

    SOS maps every frame it manages at [PHYSICAL_VSTART + paddr] and reads and
    writes the frames through those addresses: page tables as arrays of 32-bit
    words (ARM is little-endian), the pages of processes as bytes.  The model
    is one byte-addressed memory; a byte never written is zero.

    The lemmas describe a load after a store, after [bzero] and after a copy,
    at the same and at disjoint addresses; the clients reason with [peek] and
    [load_word] only. *)

From S2P Require Import Prelude.

Abbreviation memory := (gmap Z Z).

Definition peek (m : memory) (a : Z) : Z := default 0 (m !! a).
Definition poke (a v : Z) (m : memory) : memory := <[a := v]> m.

Fixpoint bzero_n (n : nat) (a : Z) (m : memory) : memory :=
  match n with
  | O => m
  | S n' => delete a (bzero_n n' (a + 1) m)
  end.

(** [bzero(a, n)] *)
Definition bzero (a n : Z) (m : memory) : memory := bzero_n (Z.to_nat n) a m.

(** The [n] bytes from [a] on. *)
Fixpoint peeks_n (n : nat) (m : memory) (a : Z) : list Z :=
  match n with
  | O => []
  | S n' => peek m a :: peeks_n n' m (a + 1)
  end.
Definition peeks (m : memory) (a n : Z) : list Z := peeks_n (Z.to_nat n) m a.

(** Stores the bytes [bs] from [a] on. *)
Fixpoint pokes (a : Z) (bs : list Z) (m : memory) : memory :=
  match bs with
  | [] => m
  | b :: bs' => poke a b (pokes (a + 1) bs' m)
  end.

(** A little-endian word. *)
Definition load_word (m : memory) (a : Z) : Z :=
  peek m a + 2 ^ 8 * (peek m (a + 1) + 2 ^ 8 * (peek m (a + 2) + 2 ^ 8 * peek m (a + 3))).

Definition word_bytes (w : Z) : list Z :=
  [w mod 2 ^ 8; w / 2 ^ 8 mod 2 ^ 8; w / 2 ^ 16 mod 2 ^ 8; w / 2 ^ 24 mod 2 ^ 8].

Definition store_word (a w : Z) (m : memory) : memory := pokes a (word_bytes w) m.

(** ** Bytes *)

Lemma peek_poke a v m x : peek (poke a v m) x = if x =? a then v else peek m x.
Proof.
  unfold peek, poke. destruct (Z.eqb_spec x a) as [->|Hn].
  - by rewrite lookup_insert_eq.
  - by rewrite lookup_insert_ne by congruence.
Qed.

Lemma peek_bzero_n n a m x :
  peek (bzero_n n a m) x = if (a <=? x) && (x <? a + Z.of_nat n) then 0 else peek m x.
Proof.
  revert a. induction n as [|n IH]; intros a; cbn [bzero_n].
  - destruct (Z.leb_spec a x), (Z.ltb_spec x (a + Z.of_nat 0)); try done; lia.
  - destruct (Z.eq_dec x a) as [->|Hn].
    + unfold peek. rewrite lookup_delete_eq. simpl.
      destruct (Z.leb_spec a a), (Z.ltb_spec a (a + Z.of_nat (S n))); try done; lia.
    + unfold peek at 1. rewrite lookup_delete_ne by congruence. fold (peek (bzero_n n (a + 1) m) x).
      rewrite IH. destruct (Z.leb_spec (a + 1) x), (Z.ltb_spec x (a + 1 + Z.of_nat n)),
        (Z.leb_spec a x), (Z.ltb_spec x (a + Z.of_nat (S n))); try done; lia.
Qed.

Lemma peek_bzero a n m x : 0 <= n ->
  peek (bzero a n m) x = if (a <=? x) && (x <? a + n) then 0 else peek m x.
Proof. intros. unfold bzero. rewrite peek_bzero_n. by rewrite Z2Nat.id by lia. Qed.

Lemma peek_bzero_in a n m x : a <= x < a + n -> peek (bzero a n m) x = 0.
Proof.
  intros. rewrite peek_bzero by lia. destruct (Z.leb_spec a x), (Z.ltb_spec x (a + n)); try done; lia.
Qed.

Lemma peek_bzero_out a n m x : ~ (a <= x < a + n) -> peek (bzero a n m) x = peek m x.
Proof.
  intros. destruct (Z.le_gt_cases 0 n).
  - rewrite peek_bzero by lia. destruct (Z.leb_spec a x), (Z.ltb_spec x (a + n)); try done; lia.
  - unfold bzero. by rewrite Z2Nat.nonpos by lia.
Qed.

Lemma peek_pokes a bs m x :
  peek (pokes a bs m) x = match bs !z (x - a) with Some b => b | None => peek m x end.
Proof.
  revert a. induction bs as [|b bs IH]; intros a; cbn [pokes].
  - unfold lookupZ. by destruct (0 <=? x - a).
  - rewrite peek_poke, IH. unfold lookupZ. destruct (Z.eqb_spec x a) as [->|Hn].
    + rewrite Z.sub_diag. done.
    + destruct (Z.leb_spec 0 (x - a)), (Z.leb_spec 0 (x - (a + 1))); try done; try lia.
      by replace (Z.to_nat (x - a)) with (S (Z.to_nat (x - (a + 1)))) by lia.
Qed.

Lemma peek_pokes_out a bs m x :
  ~ (a <= x < a + Z.of_nat (length bs)) -> peek (pokes a bs m) x = peek m x.
Proof.
  intros H. rewrite peek_pokes. destruct (bs !z (x - a)) eqn:E; [|done]. apply lookupZ_lt in E. lia.
Qed.

Lemma length_peeks m a n : 0 <= n -> Z.of_nat (length (peeks m a n)) = n.
Proof.
  intros H. unfold peeks. assert (length (peeks_n (Z.to_nat n) m a) = Z.to_nat n) as ->; [|lia].
  generalize (Z.to_nat n) as k. clear. intros k. revert a. induction k; intros a; simpl; [done|]. by rewrite IHk.
Qed.

Lemma lookup_peeks m a n i : 0 <= i < n -> peeks m a n !z i = Some (peek m (a + i)).
Proof.
  intros H. unfold peeks, lookupZ. destruct (Z.leb_spec 0 i); [|lia].
  assert (forall k a j, (j < k)%nat -> peeks_n k m a !! j = Some (peek m (a + Z.of_nat j))) as Hk.
  { clear. induction k as [|k IH]; intros a j Hj; [lia|]. destruct j as [|j]; simpl.
    - by rewrite Z.add_0_r.
    - rewrite IH by lia. do 2 f_equal. lia. }
  rewrite Hk by lia. do 2 f_equal. lia.
Qed.

Lemma peeks_ext m m' a a' n :
  (forall i, 0 <= i < n -> peek m (a + i) = peek m' (a' + i)) -> peeks m a n = peeks m' a' n.
Proof.
  intros H. destruct (Z.le_gt_cases 0 n) as [Hn|Hn].
  - apply listZ_eq; [apply Nat2Z.inj; by rewrite !length_peeks|].
    intros i Hi. rewrite length_peeks in Hi by done. rewrite !lookup_peeks by lia. by rewrite H.
  - unfold peeks. by rewrite Z2Nat.nonpos by lia.
Qed.

Lemma peeks_pokes a bs m : peeks (pokes a bs m) a (Z.of_nat (length bs)) = bs.
Proof.
  apply listZ_eq; [apply Nat2Z.inj; by rewrite length_peeks by lia|].
  intros i Hi. rewrite length_peeks in Hi by lia. rewrite lookup_peeks by lia. rewrite peek_pokes.
  replace (a + i - a) with i by lia. by destruct (lookupZ_in_range bs i Hi) as [b ->].
Qed.

(** ** Words *)

Lemma load_word_ext m m' a a' :
  (forall i, 0 <= i < 4 -> peek m (a + i) = peek m' (a' + i)) -> load_word m a = load_word m' a'.
Proof.
  intros H. unfold load_word. rewrite <- (Z.add_0_r a), <- (Z.add_0_r a'). rewrite <- !Z.add_assoc.
  by rewrite !H by lia.
Qed.

Lemma load_store_eq a w m : 0 <= w < 2 ^ 32 -> load_word (store_word a w m) a = w.
Proof.
  intros Hw. unfold load_word, store_word. rewrite !peek_pokes.
  replace (a - a) with 0 by lia. replace (a + 1 - a) with 1 by lia.
  replace (a + 2 - a) with 2 by lia. replace (a + 3 - a) with 3 by lia.
  unfold word_bytes, lookupZ. cbn [Z.leb Z.compare].
  change (Z.to_nat 0) with 0%nat. change (Z.to_nat 1) with 1%nat.
  change (Z.to_nat 2) with 2%nat. change (Z.to_nat 3) with 3%nat. cbn [lookup list_lookup].
  change (2 ^ 16) with (2 ^ 8 * 2 ^ 8). change (2 ^ 24) with (2 ^ 8 * 2 ^ 8 * 2 ^ 8).
  rewrite <- !Z.div_div by lia. set (B := 2 ^ 8) in *. assert (B = 256) as HB by done. clearbody B. assert (0 < B) by lia.
  pose proof (Z.div_mod w B ltac:(lia)). pose proof (Z.div_mod (w / B) B ltac:(lia)).
  pose proof (Z.div_mod (w / B / B) B ltac:(lia)).
  assert (0 <= w / B / B / B < B) as Hsmall.
  { split; [apply Z.div_pos; [apply Z.div_pos; [apply Z.div_pos|]|]; lia|]. repeat apply Z.div_lt_upper_bound; rewrite ?HB; lia. }
  rewrite (Z.mod_small (w / B / B / B)) by done. rewrite HB in *. lia.
Qed.

Lemma load_store_ne a b w m : b + 4 <= a \/ a + 4 <= b -> load_word (store_word a w m) b = load_word m b.
Proof. intros H. apply load_word_ext. intros i Hi. apply peek_pokes_out. simpl. lia. Qed.

Lemma load_bzero_in a n m x : a <= x -> x + 4 <= a + n -> load_word (bzero a n m) x = 0.
Proof. intros. unfold load_word. by rewrite !peek_bzero_in by lia. Qed.

Lemma load_bzero_out a n m x : x + 4 <= a \/ a + n <= x -> load_word (bzero a n m) x = load_word m x.
Proof. intros H. apply load_word_ext. intros i Hi. apply peek_bzero_out. lia. Qed.

Lemma load_pokes_out a bs m x :
  x + 4 <= a \/ a + Z.of_nat (length bs) <= x -> load_word (pokes a bs m) x = load_word m x.
Proof. intros H. apply load_word_ext. intros i Hi. apply peek_pokes_out. lia. Qed.

(** A second store at the same address overwrites the first. *)
Lemma lookup_pokes a bs (m : memory) x :
  pokes a bs m !! x = match bs !z (x - a) with Some b => Some b | None => m !! x end.
Proof.
  revert a. induction bs as [|b bs IH]; intros a; cbn [pokes].
  - unfold lookupZ. by destruct (0 <=? x - a).
  - unfold poke. destruct (Z.eq_dec x a) as [->|Hn].
    + by rewrite lookup_insert_eq, Z.sub_diag.
    + rewrite lookup_insert_ne by congruence. rewrite IH. unfold lookupZ.
      destruct (Z.leb_spec 0 (x - a)), (Z.leb_spec 0 (x - (a + 1))); try done; try lia.
      by replace (Z.to_nat (x - a)) with (S (Z.to_nat (x - (a + 1)))) by lia.
Qed.

Lemma store_store a w w' m : store_word a w (store_word a w' m) = store_word a w m.
Proof.
  unfold store_word. apply map_eq. intros x. rewrite !lookup_pokes.
  destruct (word_bytes w !z (x - a)) as [b|] eqn:E; [done|].
  destruct (word_bytes w' !z (x - a)) as [b|] eqn:E'; [|done].
  apply lookupZ_lt in E'. apply lookupZ_None in E. simpl in *. lia.
Qed.
