(* ===== verification/SosState.v ===== *)
(** * SosState: the state of the operating system personality

    SOS (apps/sos/src) is one address space whose modules keep their state in
    static variables and call each other freely: the frame table calls the
    pager, the pager the page tables of processes, those the frame table.  The
    model keeps the variables of the modules in one record [sos], with the
    structs of the source as records and their pointers as numbers into
    finite maps ([0] is the null pointer).

    What is not SOS is reached through classes:
    - [Kernel K]: the seL4 system calls, the capability space library and the
      outcome of [malloc], over a state [K];
    - [UtAlloc U]: the untyped allocator, over its state [U];
    - [World S]: what happens while a coroutine waits: other coroutines run,
      the network file server answers.

    [KernelLaws] and [UtLaws] state what the code relies on.  The untyped
    allocator of this development satisfies [UtLaws] (file UtInterface). *)

From S2P Require Import Prelude Arith ListLib RingBuf Memory.

(** ** Constants *)

Definition seL4_PageBits : Z := 12.
Definition seL4_PageTableBits : Z := 10.
Definition seL4_PageDirBits : Z := 14.
Definition seL4_TCBBits : Z := 9.
Definition seL4_EndpointBits : Z := 4.
Definition seL4_FailedLookup : Z := 6.
Definition seL4_InvalidArgument : Z := 1.
Definition seL4_CanWrite : Z := 1.
Definition seL4_CanRead : Z := 2.
Definition seL4_AllRights : Z := 7.
Definition seL4_ARM_Default_VMAttributes : Z := 3.
Definition seL4_CapInitThreadPD : Z := 3.
Definition seL4_TCBObject : Z := 1.
Definition seL4_EndpointObject : Z := 2.
Definition seL4_AsyncEndpointObject : Z := 3.
Definition seL4_ARM_SmallPageObject : Z := 5.
Definition seL4_ARM_PageTableObject : Z := 9.
Definition seL4_ARM_PageDirectoryObject : Z := 10.
Definition CSPACE_NOERROR : Z := 0.
Definition CSPACE_ERROR : Z := -1.

Definition DMA_VSTART : Z := 0x10000000.
Definition DMA_SIZE_BITS : Z := 22.
Definition DMA_VEND : Z := DMA_VSTART + Z.shiftl 1 DMA_SIZE_BITS.
Definition PHYSICAL_VSTART : Z := 0x20000000.
Definition DEVICE_START : Z := 0xB0000000.
Definition PROCESS_STACK_TOP : Z := 0x90000000.
Definition PROCESS_IPC_BUFFER : Z := 0xA0000000.

Definition MAX_PROCS : Z := 16.
Definition PROCESS_MAX_FILES : Z := 16.
Definition NAME_MAX : Z := 255.

(** ** Structs *)

Inductive chance_type := FIRST_CHANCE | SECOND_CHANCE | PINNED.

#[export] Instance chance_type_eq_dec : EqDecision chance_type.
Proof. solve_decision. Defined.

Record frame_entry := FrameEntry {
  cap : Z;
  chance : chance_type;
  fe_pid : Z;
  page_id : Z
}.

(** The static variables of vm/frametable.c. *)
Record frametable := Frametable {
  frame_table : option (list frame_entry);
  ut_base : Z;
  ut_top : Z;
  frame_table_max : Z;
  frame_table_cnt : Z;
  free_frames : list Z;
  free_index : Z
}.

(** The static variables of vm/pager.c. *)
Record pager := Pager {
  current_page : Z;
  pager_initialised : bool;
  pagefile_handle : Z;
  pagefile_operations : Z;
  pagefile_metatable : list Z;
  global_page_lock : bool;
  lock_free_coro : Z
}.

Record page_directory := PageDirectory {
  directory : Z;
  kernel_page_table_caps : Z
}.

Record region := Region {
  start : Z;
  end_ : Z;
  permissions : Z;
  next_region : Z
}.

Record addrspace := Addrspace {
  region_list : Z;
  region_stack : Z;
  region_heap : Z;
  vspace_addr : Z;
  vspace : Z;
  as_directory : Z
}.

Inductive proc_states := CREATED | ZOMBIE | RUNNING | BLOCKED.

#[export] Instance proc_states_eq_dec : EqDecision proc_states.
Proof. solve_decision. Defined.

Record proc := Proc {
  tcb_addr : Z;
  tcb_cap : Z;
  ipc_buffer_cap : Z;
  croot : Z;
  p_addrspace : Z;
  file_table : Z;
  children : Z;
  waiting_on : Z;
  waiting_coro : Z;
  ppid : Z;
  pid : Z;
  proc_name : option (list Z);
  stime : Z;
  p_state : proc_states;
  blocked_ref : Z;
  kill_flag : bool;
  protected : bool
}.

(** The function tables of the vnodes. *)
Inductive vnode_ops := device_vnode_ops | serial_vnode_ops | nfs_dir_ops | nfs_vnode_ops.

Record vnode := Vnode {
  vn_data : Z;
  vn_ops : vnode_ops;
  readcount : Z;
  writecount : Z
}.

Record file := File {
  fp : Z;
  vn : Z;
  mode : Z
}.

Record uiovec := Uiovec {
  uiov_base : Z;
  uiov_len : Z;
  uiov_pos : Z
}.

Record sos_stat_t := SosStat {
  st_type : Z;
  st_fmode : Z;
  st_size : Z;
  st_ctime : Z;
  st_atime : Z
}.

(** The array of names the directory callback leaves for the lister. *)
Inductive dir_array := DirNull | Dir (names : list (list Z)) | DirFreed.

(** The objects and static variables of vfs/, dev/, fs/ and the files of
    processes, and the flag of syscall/sys_time.c. *)
Record fsys := Fsys {
  vnodes : gmap Z vnode;
  files : gmap Z file;
  fdtables : gmap Z (list Z);
  mount_points : list Z;
  devices : list (list Z * Z);
  global_uio : option uiovec;
  nbytes_read : Z;
  input_buffer : option ring_buffer_t;
  serial_stat : option sos_stat_t;
  serial_routine : Z;
  global_dir : dir_array;
  global_cookie : Z;
  timer_fired : bool
}.

Definition set_vnodes x (f : fsys) := Fsys x (files f) (fdtables f) (mount_points f) (devices f) (global_uio f) (nbytes_read f) (input_buffer f) (serial_stat f) (serial_routine f) (global_dir f) (global_cookie f) (timer_fired f).
Definition set_files x (f : fsys) := Fsys (vnodes f) x (fdtables f) (mount_points f) (devices f) (global_uio f) (nbytes_read f) (input_buffer f) (serial_stat f) (serial_routine f) (global_dir f) (global_cookie f) (timer_fired f).
Definition set_fdtables x (f : fsys) := Fsys (vnodes f) (files f) x (mount_points f) (devices f) (global_uio f) (nbytes_read f) (input_buffer f) (serial_stat f) (serial_routine f) (global_dir f) (global_cookie f) (timer_fired f).
Definition set_mount_points x (f : fsys) := Fsys (vnodes f) (files f) (fdtables f) x (devices f) (global_uio f) (nbytes_read f) (input_buffer f) (serial_stat f) (serial_routine f) (global_dir f) (global_cookie f) (timer_fired f).
Definition set_devices x (f : fsys) := Fsys (vnodes f) (files f) (fdtables f) (mount_points f) x (global_uio f) (nbytes_read f) (input_buffer f) (serial_stat f) (serial_routine f) (global_dir f) (global_cookie f) (timer_fired f).
Definition set_global_uio x (f : fsys) := Fsys (vnodes f) (files f) (fdtables f) (mount_points f) (devices f) x (nbytes_read f) (input_buffer f) (serial_stat f) (serial_routine f) (global_dir f) (global_cookie f) (timer_fired f).
Definition set_nbytes_read x (f : fsys) := Fsys (vnodes f) (files f) (fdtables f) (mount_points f) (devices f) (global_uio f) x (input_buffer f) (serial_stat f) (serial_routine f) (global_dir f) (global_cookie f) (timer_fired f).
Definition set_input_buffer x (f : fsys) := Fsys (vnodes f) (files f) (fdtables f) (mount_points f) (devices f) (global_uio f) (nbytes_read f) x (serial_stat f) (serial_routine f) (global_dir f) (global_cookie f) (timer_fired f).
Definition set_serial_stat x (f : fsys) := Fsys (vnodes f) (files f) (fdtables f) (mount_points f) (devices f) (global_uio f) (nbytes_read f) (input_buffer f) x (serial_routine f) (global_dir f) (global_cookie f) (timer_fired f).
Definition set_serial_routine x (f : fsys) := Fsys (vnodes f) (files f) (fdtables f) (mount_points f) (devices f) (global_uio f) (nbytes_read f) (input_buffer f) (serial_stat f) x (global_dir f) (global_cookie f) (timer_fired f).
Definition set_global_dir x (f : fsys) := Fsys (vnodes f) (files f) (fdtables f) (mount_points f) (devices f) (global_uio f) (nbytes_read f) (input_buffer f) (serial_stat f) (serial_routine f) x (global_cookie f) (timer_fired f).
Definition set_global_cookie x (f : fsys) := Fsys (vnodes f) (files f) (fdtables f) (mount_points f) (devices f) (global_uio f) (nbytes_read f) (input_buffer f) (serial_stat f) (serial_routine f) (global_dir f) x (timer_fired f).
Definition set_timer_fired x (f : fsys) := Fsys (vnodes f) (files f) (fdtables f) (mount_points f) (devices f) (global_uio f) (nbytes_read f) (input_buffer f) (serial_stat f) (serial_routine f) (global_dir f) (global_cookie f) x.

(** ** The state *)

Record sos (U K : Type) := Sos {
  ut : U;
  kern : K;
  mem : memory;
  ft : frametable;
  pgr : pager;
  dirs : gmap Z page_directory;
  regions : gmap Z region;
  spaces : gmap Z addrspace;
  procs : gmap Z proc;
  sos_procs : list Z;
  curr_pid : Z;
  lists_ : lheap;
  fs : fsys;
  mrs : list Z;
  running : Z
}.
Arguments Sos {U K} _ _ _ _ _ _ _ _ _ _ _ _ _ _ _.
Arguments ut {U K} _.
Arguments kern {U K} _.
Arguments mem {U K} _.
Arguments ft {U K} _.
Arguments pgr {U K} _.
Arguments dirs {U K} _.
Arguments regions {U K} _.
Arguments spaces {U K} _.
Arguments procs {U K} _.
Arguments sos_procs {U K} _.
Arguments curr_pid {U K} _.
Arguments lists_ {U K} _.
Arguments fs {U K} _.
Arguments mrs {U K} _.
Arguments running {U K} _.

Section setters.
Context {U K : Type}.
Implicit Types s : sos U K.

Definition set_ut x s : sos U K :=
  Sos x (kern s) (mem s) (ft s) (pgr s) (dirs s) (regions s) (spaces s) (procs s) (sos_procs s) (curr_pid s)
    (lists_ s) (fs s) (mrs s) (running s).
Definition set_kern x s : sos U K :=
  Sos (ut s) x (mem s) (ft s) (pgr s) (dirs s) (regions s) (spaces s) (procs s) (sos_procs s) (curr_pid s)
    (lists_ s) (fs s) (mrs s) (running s).
Definition set_mem x s : sos U K :=
  Sos (ut s) (kern s) x (ft s) (pgr s) (dirs s) (regions s) (spaces s) (procs s) (sos_procs s) (curr_pid s)
    (lists_ s) (fs s) (mrs s) (running s).
Definition set_ft x s : sos U K :=
  Sos (ut s) (kern s) (mem s) x (pgr s) (dirs s) (regions s) (spaces s) (procs s) (sos_procs s) (curr_pid s)
    (lists_ s) (fs s) (mrs s) (running s).
Definition set_pgr x s : sos U K :=
  Sos (ut s) (kern s) (mem s) (ft s) x (dirs s) (regions s) (spaces s) (procs s) (sos_procs s) (curr_pid s)
    (lists_ s) (fs s) (mrs s) (running s).
Definition set_dirs x s : sos U K :=
  Sos (ut s) (kern s) (mem s) (ft s) (pgr s) x (regions s) (spaces s) (procs s) (sos_procs s) (curr_pid s)
    (lists_ s) (fs s) (mrs s) (running s).
Definition set_regions x s : sos U K :=
  Sos (ut s) (kern s) (mem s) (ft s) (pgr s) (dirs s) x (spaces s) (procs s) (sos_procs s) (curr_pid s)
    (lists_ s) (fs s) (mrs s) (running s).
Definition set_spaces x s : sos U K :=
  Sos (ut s) (kern s) (mem s) (ft s) (pgr s) (dirs s) (regions s) x (procs s) (sos_procs s) (curr_pid s)
    (lists_ s) (fs s) (mrs s) (running s).
Definition set_procs x s : sos U K :=
  Sos (ut s) (kern s) (mem s) (ft s) (pgr s) (dirs s) (regions s) (spaces s) x (sos_procs s) (curr_pid s)
    (lists_ s) (fs s) (mrs s) (running s).
Definition set_sos_procs x s : sos U K :=
  Sos (ut s) (kern s) (mem s) (ft s) (pgr s) (dirs s) (regions s) (spaces s) (procs s) x (curr_pid s)
    (lists_ s) (fs s) (mrs s) (running s).
Definition set_curr_pid x s : sos U K :=
  Sos (ut s) (kern s) (mem s) (ft s) (pgr s) (dirs s) (regions s) (spaces s) (procs s) (sos_procs s) x
    (lists_ s) (fs s) (mrs s) (running s).
Definition set_lists x s : sos U K :=
  Sos (ut s) (kern s) (mem s) (ft s) (pgr s) (dirs s) (regions s) (spaces s) (procs s) (sos_procs s)
    (curr_pid s) x (fs s) (mrs s) (running s).
Definition set_fs x s : sos U K :=
  Sos (ut s) (kern s) (mem s) (ft s) (pgr s) (dirs s) (regions s) (spaces s) (procs s) (sos_procs s)
    (curr_pid s) (lists_ s) x (mrs s) (running s).
Definition set_mrs x s : sos U K :=
  Sos (ut s) (kern s) (mem s) (ft s) (pgr s) (dirs s) (regions s) (spaces s) (procs s) (sos_procs s)
    (curr_pid s) (lists_ s) (fs s) x (running s).
End setters.

(** ** Interfaces *)

(** Each call returns its result and the next state.  A capability is a slot
    number of the current capability space; [0] is the null capability. *)
Class Kernel (K : Type) := {
  malloc_ok : K -> bool * K;
  cspace_ut_retype_addr : Z -> Z -> Z -> K -> (Z * Z) * K;
  cspace_copy_cap : Z -> Z -> K -> Z * K;
  cspace_delete_cap : Z -> K -> Z * K;
  seL4_ARM_Page_Map : Z -> Z -> Z -> Z -> Z -> K -> Z * K;
  seL4_ARM_Page_Unmap : Z -> K -> Z * K;
  seL4_ARM_PageTable_Map : Z -> Z -> Z -> Z -> K -> Z * K;
  seL4_ARM_PageTable_Unmap : Z -> K -> Z * K;
  seL4_ARM_Page_GetAddress : Z -> K -> Z * K;
  seL4_ARM_Page_Unify_Instruction : Z -> Z -> Z -> K -> Z * K
}.

Class UtAlloc (U : Type) := {
  ut_alloc : Z -> M U Z;
  ut_free : Z -> Z -> M U unit
}.

(** Threads, endpoints, messages, the capability spaces of processes, the timer
    and the serial line. *)
Class Threads (K : Type) := {
  cspace_create : Z -> K -> Z * K;
  cspace_destroy : Z -> K -> Z * K;
  cspace_mint_cap : Z -> Z -> Z -> Z -> Z -> K -> Z * K;
  cspace_save_reply_cap : K -> Z * K;
  cspace_free_slot : Z -> K -> Z * K;
  cspace_root_cnode : Z -> K -> Z * K;
  seL4_TCB_Configure : Z -> Z -> Z -> Z -> Z -> Z -> Z -> K -> Z * K;
  seL4_TCB_Suspend : Z -> K -> Z * K;
  seL4_TCB_WriteRegisters : Z -> Z -> Z -> K -> Z * K;
  seL4_Send : Z -> list Z -> K -> unit * K;
  time_stamp : K -> Z * K;
  register_timer : Z -> K -> Z * K;
  serial_send : list Z -> K -> Z * K
}.

(** The attributes of a file the server reports. *)
Record fattr := Fattr {
  fa_type : Z;
  fa_mode : Z;
  fa_size : Z;
  fa_ctime : Z * Z;
  fa_atime : Z * Z
}.

(** The requests to the file server of the network: [None] when the request is
    not sent, else the reply, which starts with its status. *)
Class Nfs (K : Type) := {
  nfs_lookup : list Z -> K -> option (Z * Z) * K;
  nfs_create : list Z -> K -> option (Z * Z) * K;
  nfs_read : Z -> Z -> Z -> K -> option (Z * list Z) * K;
  nfs_write : Z -> Z -> list Z -> K -> option (Z * Z) * K;
  nfs_getattr : Z -> K -> option (Z * fattr) * K;
  nfs_readdir : Z -> K -> option (Z * list (list Z) * Z) * K
}.

(** What runs while the current coroutine is suspended in [yield], while it
    has passed control with [resume] (to a coroutine that is [resumable]), and
    between a request to the file server or the timer and its answer
    ([meanwhile]): any code over the same state. *)
Class World (S : Type) := {
  yield : Z -> M S Z;
  resume : Z -> Z -> M S Z;
  resumable : Z -> M S bool;
  meanwhile : M S unit
}.

(** ** Access to the state *)

(** A map of objects in the state. *)
Record heap (S A : Type) := Heap { hget : S -> gmap Z A; hset : gmap Z A -> S -> S }.
Arguments Heap {S A} _ _.
Arguments hget {S A} _ _.
Arguments hset {S A} _ _ _.

Section access.
Context {U K : Type} `{!Kernel K} `{!UtAlloc U}.
Local Abbreviation S := (sos U K).

Definition h_dirs : heap S page_directory := Heap dirs set_dirs.
Definition h_regions : heap S region := Heap regions set_regions.
Definition h_spaces : heap S addrspace := Heap spaces set_spaces.
Definition h_procs : heap S proc := Heap procs set_procs.
Definition h_vnodes : heap S vnode := Heap (fun s => vnodes (fs s)) (fun x s => set_fs (set_vnodes x (fs s)) s).
Definition h_files : heap S file := Heap (fun s => files (fs s)) (fun x s => set_fs (set_files x (fs s)) s).
Definition h_fdtables : heap S (list Z) := Heap (fun s => fdtables (fs s)) (fun x s => set_fs (set_fdtables x (fs s)) s).

(** [*p] *)
Definition load {A} (h : heap S A) (p : Z) : M S A := fun s =>
  if p =? 0 then Err FNull
  else match hget h s !! p with Some x => Ok (x, s) | None => Err FBounds end.

(** [*p = x] *)
Definition store {A} (h : heap S A) (p : Z) (x : A) : M S unit :=
  load h p ;;; modify (fun s => hset h (<[p := x]> (hget h s)) s).

(** [p->field = ...] *)
Definition update {A} (h : heap S A) (p : Z) (f : A -> A) : M S unit :=
  x <- load h p ;; modify (fun s => hset h (<[p := f x]> (hget h s)) s).

Definition kcall {A} (f : K -> A * K) : M S A := fun s =>
  let '(a, k) := f (kern s) in Ok (a, set_kern k s).
Definition on_ut {A} (m : M U A) : M S A := zoom ut set_ut m.
Definition on_lists {A} (m : M lheap A) : M S A := zoom lists_ set_lists m.

(** [malloc]: null, or a new object with the given contents. *)
Definition malloc {A} (h : heap S A) (x : A) : M S Z :=
  ok <- kcall malloc_ok ;;
  if (ok : bool) then
    s <- get ;;
    let p := new_ptr (hget h s) in
    modify (fun s => hset h (<[p := x]> (hget h s)) s) ;;; ret p
  else ret 0.

(** [free]: of a null pointer it does nothing. *)
Definition free {A} (h : heap S A) (p : Z) : M S unit :=
  if p =? 0 then ret tt
  else load h p ;;; modify (fun s => hset h (delete p (hget h s)) s).

Definition coro_getcur : M S Z := gets running.
Definition seL4_GetMR (i : Z) : M S Z := s <- get ;; rd (mrs s) i.
Definition seL4_SetMR (i v : Z) : M S unit :=
  s <- get ;; in_bounds (mrs s) i ;;; modify (set_mrs (insertZ i v (mrs s))).
Definition bzero_mem (a n : Z) : M S unit := modify (fun s => set_mem (bzero a n (mem s)) s).
Definition read_word (a : Z) : M S Z := gets (fun s => load_word (mem s) a).
Definition write_word (a w : Z) : M S unit := modify (fun s => set_mem (store_word a w (mem s)) s).
End access.

(** ** Reasoning about access *)

Section access_wp.
Context {U K : Type} `{!Kernel K} `{!UtAlloc U}.
Local Abbreviation S := (sos U K).
Implicit Types s : S.

Lemma wp_load {A} (h : heap S A) p x Q s : p <> 0 -> hget h s !! p = Some x -> Q x s -> wp (load h p) Q s.
Proof. intros Hp Hx HQ. unfold wp, load. apply Z.eqb_neq in Hp. by rewrite Hp, Hx. Qed.

Lemma wp_store {A} (h : heap S A) p x y Q s :
  p <> 0 -> hget h s !! p = Some x -> Q tt (hset h (<[p := y]> (hget h s)) s) -> wp (store h p y) Q s.
Proof. intros. unfold store. wp_steps. eapply wp_load; [done..|]. by wp_steps. Qed.

Lemma wp_update {A} (h : heap S A) p x f Q s :
  p <> 0 -> hget h s !! p = Some x -> Q tt (hset h (<[p := f x]> (hget h s)) s) -> wp (update h p f) Q s.
Proof. intros. unfold update. wp_steps. eapply wp_load; [done..|]. by wp_steps. Qed.

Lemma wp_kcall {A} (f : K -> A * K) Q s :
  Q (f (kern s)).1 (set_kern (f (kern s)).2 s) -> wp (kcall f) Q s.
Proof. intros H. unfold wp, kcall. by destruct (f (kern s)). Qed.

Lemma wp_on_ut {A} (m : M U A) Q s : wp m (fun a u => Q a (set_ut u s)) (ut s) -> wp (on_ut m) Q s.
Proof. intros H. unfold on_ut. by apply wp_zoom. Qed.

Lemma wp_on_lists {A} (m : M lheap A) Q s :
  wp m (fun a l => Q a (set_lists l s)) (lists_ s) -> wp (on_lists m) Q s.
Proof. intros H. unfold on_lists. by apply wp_zoom. Qed.

Lemma wp_bzero_mem a n Q s : Q tt (set_mem (bzero a n (mem s)) s) -> wp (bzero_mem a n) Q s.
Proof. intros. by apply wp_modify. Qed.

Lemma wp_read_word a Q s : Q (load_word (mem s) a) s -> wp (read_word a) Q s.
Proof. intros. by apply wp_gets. Qed.

Lemma wp_write_word a w Q s : Q tt (set_mem (store_word a w (mem s)) s) -> wp (write_word a w) Q s.
Proof. intros. by apply wp_modify. Qed.
End access_wp.

(** ** What the interfaces promise *)

Definition disjoint_ranges (x y : Z * Z) : Prop := x.1 + 2 ^ x.2 <= y.1 \/ y.1 + 2 ^ y.2 <= x.1.

(** The allocator of untyped memory keeps a set of live blocks.  After a failed
    request it may be unable to serve further requests. *)
Class UtLaws (U : Type) `{!UtAlloc U} := {
  ut_rep : U -> gset (Z * Z) -> Prop;
  ut_ready : U -> Prop;
  ut_lo : U -> Z;
  ut_hi : U -> Z;
  ut_alloc_law u L sz :
    ut_rep u L -> ut_ready u -> sz = 10 \/ sz = 12 \/ sz = 14 ->
    exists a u', ut_alloc sz u = Ok (a, u') /\ ut_lo u' = ut_lo u /\ ut_hi u' = ut_hi u /\
      ((a <> 0 /\ ut_rep u' ({[(a, sz)]} ∪ L) /\ ut_ready u' /\ a mod 2 ^ sz = 0 /\
        ut_lo u <= a /\ a + 2 ^ sz <= ut_hi u /\ (forall y, y ∈ L -> disjoint_ranges (a, sz) y)) \/
       (a = 0 /\ ut_rep u' L));
  ut_free_law u L a sz :
    ut_rep u L -> (a, sz) ∈ L ->
    exists u', ut_free a sz u = Ok (tt, u') /\ ut_rep u' (L ∖ {[(a, sz)]}) /\
      (ut_ready u -> ut_ready u') /\ ut_lo u' = ut_lo u /\ ut_hi u' = ut_hi u
}.

(** The kernel: a capability refers to a frame of physical memory, [cap_paddr].
    Retyping and copying make new capabilities, deleting removes one; the
    other calls do not change what capabilities refer to. *)
Class KernelLaws (K : Type) `{!Kernel K} := {
  cap_paddr : K -> Z -> option Z;
  malloc_law k : cap_paddr (malloc_ok k).2 = cap_paddr k;
  retype_law k a ty b :
    let r := cspace_ut_retype_addr a ty b k in
    (r.1.1 = 0 /\ 0 < r.1.2 < 2 ^ 32 /\ cap_paddr k r.1.2 = None /\
     (forall c, cap_paddr r.2 c = if c =? r.1.2 then Some a else cap_paddr k c)) \/
    (r.1.1 <> 0 /\ cap_paddr r.2 = cap_paddr k);
  copy_law k c rights :
    let r := cspace_copy_cap c rights k in
    (0 < r.1 < 2 ^ 32 /\ cap_paddr k r.1 = None /\
     (forall c', cap_paddr r.2 c' = if c' =? r.1 then cap_paddr k c else cap_paddr k c')) \/
    (r.1 = 0 /\ cap_paddr r.2 = cap_paddr k);
  delete_law k c :
    let r := cspace_delete_cap c k in
    (r.1 = 0 /\ forall c', cap_paddr r.2 c' = if c' =? c then None else cap_paddr k c') \/
    (r.1 <> 0 /\ cap_paddr r.2 = cap_paddr k);
  page_map_law k c pd v rights attr : cap_paddr (seL4_ARM_Page_Map c pd v rights attr k).2 = cap_paddr k;
  page_unmap_law k c : cap_paddr (seL4_ARM_Page_Unmap c k).2 = cap_paddr k;
  pt_map_law k c pd v attr : cap_paddr (seL4_ARM_PageTable_Map c pd v attr k).2 = cap_paddr k;
  pt_unmap_law k c : cap_paddr (seL4_ARM_PageTable_Unmap c k).2 = cap_paddr k;
  get_address_law k c a : cap_paddr k c = Some a -> seL4_ARM_Page_GetAddress c k = (a, k);
  unify_law k c a b : cap_paddr (seL4_ARM_Page_Unify_Instruction c a b k).2 = cap_paddr k
}.

(** ** Automation *)

Ltac sos_step :=
  lazymatch goal with
  | |- wp (kcall _) _ _ => apply wp_kcall
  | |- wp (on_lists _) _ _ => apply wp_on_lists
  | |- wp (on_ut _) _ _ => apply wp_on_ut
  | |- wp (bzero_mem _ _) _ _ => apply wp_bzero_mem
  | |- wp (read_word _) _ _ => apply wp_read_word
  | |- wp (write_word _ _) _ _ => apply wp_write_word
  | _ => wp_step
  end.
Ltac sos_steps := repeat (sos_step; cbv beta).

(** Reads of updated fields. *)
Ltac sred :=
  cbn [ut kern mem ft pgr dirs regions spaces procs sos_procs curr_pid lists_ fs mrs running
       set_ut set_kern set_mem set_ft set_pgr set_dirs set_regions set_spaces set_procs
       set_sos_procs set_curr_pid set_lists set_fs set_mrs hget hset
       h_dirs h_regions h_spaces h_procs h_vnodes h_files h_fdtables].

(** The parts of the state that the memory management below the processes
    does not touch. *)
Record same_rest {U K} (s s' : sos U K) : Prop := {
  sr_pgr : pgr s' = pgr s;
  sr_dirs : dirs s' = dirs s;
  sr_regions : regions s' = regions s;
  sr_spaces : spaces s' = spaces s;
  sr_procs : procs s' = procs s;
  sr_sos_procs : sos_procs s' = sos_procs s;
  sr_curr_pid : curr_pid s' = curr_pid s;
  sr_lists : lists_ s' = lists_ s;
  sr_fs : fs s' = fs s;
  sr_mrs : mrs s' = mrs s;
  sr_running : running s' = running s
}.

#[export] Instance same_rest_preorder {U K} : PreOrder (@same_rest U K).
Proof. split; [done|]. intros a b c [] []. split; congruence. Qed.

(** Capabilities keep the frame they refer to. *)
Definition caps_grow {K} `{!Kernel K} `{!KernelLaws K} (k k' : K) : Prop :=
  forall c a, cap_paddr k c = Some a -> cap_paddr k' c = Some a.

#[export] Instance caps_grow_preorder {K} `{!Kernel K} `{!KernelLaws K} : PreOrder caps_grow.
Proof. split; [by intros ???|]. intros x y z H1 H2 c a H. by apply H2, H1. Qed.

Lemma caps_grow_same {K} `{!Kernel K} `{!KernelLaws K} (k k' : K) : cap_paddr k' = cap_paddr k -> caps_grow k k'.
Proof. intros E c a H. by rewrite E. Qed.
