(* ===== verification/Partial.v ===== *)
(** * Partial: computations that may stop with an allowed fault

    [wpf R m Q s]: started in [s], [m] either returns with a value and a state
    that satisfy [Q], or stops with a fault that satisfies [R].  With
    [R := eq FAssert] the only way to stop is a failed [assert]: the
    computation makes no invalid access.  [wp] is the case of no fault. *)

From S2P Require Import Prelude.

Definition wpf {S A} (R : fault -> Prop) (m : M S A) (Q : A -> S -> Prop) (s : S) : Prop :=
  match m s with
  | Ok (a, s') => Q a s'
  | Err f => R f
  end.

Section wpf.
Context {S : Type} (R : fault -> Prop).
Implicit Types s : S.

Lemma wpf_wp {A} (m : M S A) Q s : wpf (fun _ => False) m Q s <-> wp m Q s.
Proof. done. Qed.

Lemma wp_wpf {A} (m : M S A) Q s : wp m Q s -> wpf R m Q s.
Proof. unfold wp, wpf. by destruct (m s) as [[]|]. Qed.

Lemma wpf_mono {A} (m : M S A) (P Q : A -> S -> Prop) s :
  wpf R m P s -> (forall a s', P a s' -> Q a s') -> wpf R m Q s.
Proof. unfold wpf. destruct (m s) as [[a s']|]; eauto. Qed.

Lemma wpf_run {A} (m : M S A) Q s a s' : wpf R m Q s -> m s = Ok (a, s') -> Q a s'.
Proof. unfold wpf. intros H E. by rewrite E in H. Qed.

Lemma wpf_ret {A} (a : A) Q s : Q a s -> wpf R (ret a) Q s.
Proof. done. Qed.

Lemma wpf_bind {A B} (m : M S A) (k : A -> M S B) Q s :
  wpf R m (fun a s' => wpf R (k a) Q s') s -> wpf R (bind m k) Q s.
Proof. unfold wpf, bind. destruct (m s) as [[a s']|]; done. Qed.

Lemma wpf_get Q s : Q s s -> wpf R get Q s.
Proof. done. Qed.

Lemma wpf_gets {A} (f : S -> A) Q s : Q (f s) s -> wpf R (gets f) Q s.
Proof. done. Qed.

Lemma wpf_put t Q s : Q tt t -> wpf R (put t) Q s.
Proof. done. Qed.

Lemma wpf_modify f Q s : Q tt (f s) -> wpf R (modify f) Q s.
Proof. done. Qed.

Lemma wpf_assert b Q s : b = true -> Q tt s -> wpf R (c_assert b) Q s.
Proof. intros -> H. done. Qed.

Lemma wpf_may_assert b Q s : R FAssert -> (b = true -> Q tt s) -> wpf R (c_assert b) Q s.
Proof. intros HR H. destruct b; [by apply H | done]. Qed.

Lemma wpf_rd {A} (l : list A) i x Q s : l !z i = Some x -> Q x s -> wpf R (rd l i) Q s.
Proof. unfold rd, wpf. by intros ->. Qed.

Lemma wpf_in_bounds {A} (l : list A) i Q s :
  0 <= i < Z.of_nat (length l) -> Q tt s -> wpf R (in_bounds l i) Q s.
Proof. intros H HQ. apply lookupZ_in_range in H as [x Hx]. unfold in_bounds, wpf. by rewrite Hx. Qed.

Lemma wpf_for_carry {A} (I : Z -> A -> S -> Prop) lo hi (body : Z -> A -> M S A) a Q s :
  lo <= hi ->
  I lo a s ->
  (forall i a s', lo <= i < hi -> I i a s' -> wpf R (body i a) (fun a' => I (i + 1) a') s') ->
  (forall a s', I hi a s' -> Q a s') ->
  wpf R (for_carry lo hi body a) Q s.
Proof.
  intros Hle HI Hbody HQ. unfold for_carry.
  assert (forall n i a s, Z.of_nat n = hi - i -> lo <= i -> I i a s ->
                        wpf R (for_carry_n n i body a) Q s) as H.
  { induction n as [|n IH]; intros i b s' Hn Hi HIi; simpl.
    - apply HQ. by replace hi with i by lia.
    - apply wpf_bind. eapply wpf_mono; [apply Hbody; [lia|done]|].
      intros b' s'' HI'. apply IH; [lia | lia | done]. }
  apply H; [lia | lia | done].
Qed.

Lemma wpf_for_up (I : Z -> S -> Prop) lo hi body Q s :
  lo <= hi ->
  I lo s ->
  (forall i s', lo <= i < hi -> I i s' -> wpf R (body i) (fun _ => I (i + 1)) s') ->
  (forall s', I hi s' -> Q tt s') ->
  wpf R (for_up lo hi body) Q s.
Proof.
  intros Hle HI Hbody HQ. unfold for_up.
  assert (forall n i s, Z.of_nat n = hi - i -> lo <= i -> I i s ->
                        wpf R (for_n n i body) Q s) as H.
  { induction n as [|n IH]; intros i s' Hn Hi HIi; simpl.
    - apply HQ. by replace hi with i by lia.
    - apply wpf_bind. eapply wpf_mono; [apply Hbody; [lia|done]|].
      intros [] s'' HI'. apply IH; [lia | lia | done]. }
  apply H; [lia | lia | done].
Qed.

Lemma for_carry_step {A} lo hi (body : Z -> A -> M S A) a :
  lo < hi -> for_carry lo hi body a = (a' <- body lo a ;; for_carry (lo + 1) hi body a').
Proof.
  intros. unfold for_carry.
  replace (Z.to_nat (hi - lo)) with (Datatypes.S (Z.to_nat (hi - (lo + 1)))) by lia. done.
Qed.
End wpf.

Lemma wpf_run_on {S T A} R (m : M T A) (t : T) (Q : A * T -> S -> Prop) s :
  wpf R m (fun a t' => Q (a, t') s) t -> wpf R (run_on m t) Q s.
Proof. unfold wpf, run_on. destruct (m t) as [[a t']|]; done. Qed.

(** The rule of the fuelled loop. *)
Lemma wpf_while_fuel {S L A} R (I : L -> S -> Prop) (meas : L -> S -> nat)
    fuel (round : L -> M S (L + A)) l Q s :
  I l s -> (meas l s < fuel)%nat ->
  (forall l s', I l s' ->
     wpf R (round l) (fun r s'' =>
       match r with
       | inl l' => I l' s'' /\ (meas l' s'' < meas l s')%nat
       | inr a => Q a s''
       end) s') ->
  wpf R (while_fuel fuel round l) Q s.
Proof.
  intros HI Hm Hround. revert l s HI Hm.
  induction fuel as [|fuel IH]; intros l s HI Hm; [lia|].
  simpl. apply wpf_bind. eapply wpf_mono; [by apply Hround|].
  intros [l'|a] s'' H; [|done]. destruct H as [HI' Hlt].
  apply IH; [done | lia].
Qed.

(** One step of symbolic execution. *)
Ltac wpf_step :=
  lazymatch goal with
  | |- wpf _ (bind _ _) _ _ => apply wpf_bind
  | |- wpf _ (ret _) _ _ => apply wpf_ret
  | |- wpf _ get _ _ => apply wpf_get
  | |- wpf _ (gets _) _ _ => apply wpf_gets
  | |- wpf _ (put _) _ _ => apply wpf_put
  | |- wpf _ (modify _) _ _ => apply wpf_modify
  end.
Ltac wpf_steps := repeat (wpf_step; cbv beta).
