(* ===== verification/Cspace.v ===== *)
(** * Cspace: the capability space library

    libs/libsel4cspace manages the slots of capability spaces of one or two
    levels of nodes (CNodes).  A [cspace_t] keeps its free slots in lists that
    run through the allocation tables: [level1_alloc_table] for the slots of a
    one-level space and for the unused second-level nodes of a two-level
    space, the tables of [level2_alloc_tables] for the slots of a two-level
    space.  An entry of [level1_alloc_table] whose second-level node exists
    holds the address of its memory instead.

    A table of second level is reachable only through its entry of
    [level2_alloc_tables], so the entry holds the table: [None] is the null
    pointer.  The contents of new memory are arbitrary: [garbage] and
    [garbage_table]. *)

From S2P Require Import Prelude SosState.

(** ** Constants *)

Definition CSPACE_NODE_SIZE_IN_MEM_BITS : Z := seL4_PageDirBits.
Definition seL4_SlotBits : Z := 4.
Definition CSPACE_NODE_SIZE_IN_SLOTS_BITS : Z := CSPACE_NODE_SIZE_IN_MEM_BITS - seL4_SlotBits.
Definition CSPACE_NODE_SIZE_IN_SLOTS : Z := Z.shiftl 1 CSPACE_NODE_SIZE_IN_SLOTS_BITS.
Definition CSPACE_NULL : Z := 0.
Definition CSPACE_DEPTH : Z := 32.
Definition CSPACE_NOINDEX : Z := -1.
Definition CSPACE_NOSLOT : Z := -1.
Definition CSPACE_ONE_LEVEL_SKIP_BITS : Z := 32 - CSPACE_NODE_SIZE_IN_SLOTS_BITS.
Definition CSPACE_TWO_LEVEL_SKIP_BITS : Z := 32 - 2 * CSPACE_NODE_SIZE_IN_SLOTS_BITS.
Definition CSPACE_LEAF_OFFSET (x : Z) : Z := Z.land x (CSPACE_NODE_SIZE_IN_SLOTS - 1).
Definition seL4_CapTableObject : Z := 4.
Definition seL4_CapInitThreadTCB : Z := 1.
Definition seL4_CapInitThreadCNode : Z := 2.
Definition seL4_CapIOPort : Z := 5.
Definition seL4_CapIOSpace : Z := 6.
Definition seL4_CapArchBootInfoFrame : Z := 8.
Definition seL4_CapIPI : Z := 10.
Definition seL4_NilData : Z := 0.
Definition seL4_NotEnoughMemory : Z := 10.

(** The index of the second-level node of a slot. *)
Definition leaf_index (s : Z) : Z := Z.shiftr s CSPACE_NODE_SIZE_IN_SLOTS_BITS.

(** ** State *)

Record cspace_t := Cspace {
  levels : Z;
  root_cnode : Z;
  guard : Z;
  addr : Z;
  next_level1_free_index : Z;
  next_level2_free_slot : Z;
  num_free_slots : Z;
  level1_alloc_table : list Z;
  level2_alloc_tables : list (option (list Z))
}.

Definition set_levels x c := Cspace x (root_cnode c) (guard c) (addr c) (next_level1_free_index c) (next_level2_free_slot c) (num_free_slots c) (level1_alloc_table c) (level2_alloc_tables c).
Definition set_root_cnode x c := Cspace (levels c) x (guard c) (addr c) (next_level1_free_index c) (next_level2_free_slot c) (num_free_slots c) (level1_alloc_table c) (level2_alloc_tables c).
Definition set_guard x c := Cspace (levels c) (root_cnode c) x (addr c) (next_level1_free_index c) (next_level2_free_slot c) (num_free_slots c) (level1_alloc_table c) (level2_alloc_tables c).
Definition set_addr x c := Cspace (levels c) (root_cnode c) (guard c) x (next_level1_free_index c) (next_level2_free_slot c) (num_free_slots c) (level1_alloc_table c) (level2_alloc_tables c).
Definition set_next1 x c := Cspace (levels c) (root_cnode c) (guard c) (addr c) x (next_level2_free_slot c) (num_free_slots c) (level1_alloc_table c) (level2_alloc_tables c).
Definition set_next2 x c := Cspace (levels c) (root_cnode c) (guard c) (addr c) (next_level1_free_index c) x (num_free_slots c) (level1_alloc_table c) (level2_alloc_tables c).
Definition set_num x c := Cspace (levels c) (root_cnode c) (guard c) (addr c) (next_level1_free_index c) (next_level2_free_slot c) x (level1_alloc_table c) (level2_alloc_tables c).
Definition set_level1 x c := Cspace (levels c) (root_cnode c) (guard c) (addr c) (next_level1_free_index c) (next_level2_free_slot c) (num_free_slots c) x (level2_alloc_tables c).
Definition set_level2 x c := Cspace (levels c) (root_cnode c) (guard c) (addr c) (next_level1_free_index c) (next_level2_free_slot c) (num_free_slots c) (level1_alloc_table c) x.

(** The functions given to the library at bootstrap, the contents of new
    memory, the system calls, and the generated constructor of guards. *)
Class CspaceEnv (E : Type) := {
  cspace_ut_alloc : Z -> E -> Z * E;
  cspace_ut_free : Z -> Z -> E -> unit * E;
  cspace_ut_translate : Z -> E -> (Z * Z * Z) * E;
  cspace_malloc : E -> bool * E;
  garbage : Z -> Z;
  garbage_table : Z -> option (list Z);
  seL4_CapData_Guard_new : Z -> Z -> Z;
  seL4_Untyped_RetypeAtOffset : Z -> Z -> Z -> Z -> Z -> Z -> Z -> Z -> Z -> E -> Z * E;
  seL4_CNode_Copy : Z -> Z -> Z -> Z -> Z -> Z -> Z -> E -> Z * E;
  seL4_CNode_Mint : Z -> Z -> Z -> Z -> Z -> Z -> Z -> Z -> E -> Z * E;
  seL4_CNode_Move : Z -> Z -> Z -> Z -> Z -> Z -> E -> Z * E;
  seL4_CNode_Mutate : Z -> Z -> Z -> Z -> Z -> Z -> Z -> E -> Z * E;
  seL4_CNode_Delete : Z -> Z -> Z -> E -> Z * E;
  seL4_CNode_Recycle : Z -> Z -> Z -> E -> Z * E;
  seL4_CNode_Revoke : Z -> Z -> Z -> E -> Z * E;
  seL4_CNode_SaveCaller : Z -> Z -> Z -> E -> Z * E;
  seL4_IRQControl_Get : Z -> Z -> Z -> Z -> Z -> E -> Z * E;
  seL4_TCB_SetSpace : Z -> Z -> Z -> Z -> Z -> Z -> E -> Z * E
}.

(** The capability spaces of the program, the variable [cur_cspace], and what
    the library calls. *)
Record cslib (E : Type) := Cslib {
  cspaces : gmap Z cspace_t;
  cur_cspace : Z;
  cs_env : E
}.
Arguments Cslib {E} _ _ _.
Arguments cspaces {E} _.
Arguments cur_cspace {E} _.
Arguments cs_env {E} _.

(** ** Operations *)

Section operations.
Context {E : Type} `{!CspaceEnv E}.
Local Abbreviation S := (cslib E).

Definition ecall {A} (f : E -> A * E) : M S A := fun s =>
  let '(a, e) := f (cs_env s) in Ok (a, Cslib (cspaces s) (cur_cspace s) e).

Definition cs_upd (c : Z) (x : cspace_t) (s : S) : S :=
  Cslib (<[c := x]> (cspaces s)) (cur_cspace s) (cs_env s).

(** [*c], and the assignment to fields of [*c] *)
Definition cs_load (c : Z) : M S cspace_t := fun s =>
  if c =? 0 then Err FNull
  else match cspaces s !! c with Some x => Ok (x, s) | None => Err FBounds end.
Definition cs_update (c : Z) (f : cspace_t -> cspace_t) : M S unit :=
  x <- cs_load c ;; modify (cs_upd c (f x)).

Definition sel4_error (err : Z) : M S unit := c_assert (err =? 0).

(** A new table of [CSPACE_NODE_SIZE_IN_SLOTS] words. *)
Definition new_table : list Z := map garbage (seqZ 0 CSPACE_NODE_SIZE_IN_SLOTS).
Definition malloc_table : M S (option (list Z)) :=
  ok <- ecall cspace_malloc ;; ret (if (ok : bool) then Some new_table else None).

(** [c->level1_alloc_table[i] = x] *)
Definition set_level1_entry (c i x : Z) : M S unit :=
  cs <- cs_load c ;;
  in_bounds (level1_alloc_table cs) i ;;;
  cs_update c (set_level1 (insertZ i (u32 x) (level1_alloc_table cs))).
(** [c->level2_alloc_tables[i] = t] *)
Definition set_level2_table (c i : Z) (t : option (list Z)) : M S unit :=
  cs <- cs_load c ;;
  in_bounds (level2_alloc_tables cs) i ;;;
  cs_update c (set_level2 (insertZ i t (level2_alloc_tables cs))).
(** [c->level2_alloc_tables[i][j]] *)
Definition get_level2_entry (c i j : Z) : M S Z :=
  cs <- cs_load c ;;
  t <- rd (level2_alloc_tables cs) i ;;
  match t with
  | None => fail FNull
  | Some t => rd t j
  end.
(** [c->level2_alloc_tables[i][j] = x] *)
Definition set_level2_entry (c i j x : Z) : M S unit :=
  cs <- cs_load c ;;
  t <- rd (level2_alloc_tables cs) i ;;
  match t with
  | None => fail FNull
  | Some t =>
      in_bounds t j ;;;
      cs_update c (set_level2 (insertZ i (Some (insertZ j (u32 x) t)) (level2_alloc_tables cs)))
  end.

(** *** helpers.c *)

Definition cspace_retype_depth (c : Z) : M S Z :=
  cs <- cs_load c ;;
  if levels cs =? 1 then ret 0
  else if levels cs =? 2 then ret (32 - CSPACE_NODE_SIZE_IN_SLOTS_BITS)
  else c_assert false ;;; ret 0.

Definition cspace_alloc_level1_index (c : Z) : M S Z :=
  cs <- cs_load c ;;
  let s := next_level1_free_index cs in
  c_assert (negb (s =? CSPACE_NOSLOT)) ;;;
  n <- rd (level1_alloc_table cs) s ;;
  cs_update c (set_next1 (i32 n)) ;;;
  ret s.

Definition cspace_free_level1_index (c s : Z) : M S Z :=
  c_assert ((0 <=? s) && (s <? CSPACE_NODE_SIZE_IN_SLOTS)) ;;;
  cs <- cs_load c ;;
  set_level1_entry c s (next_level1_free_index cs) ;;;
  cs_update c (set_next1 s) ;;;
  ret CSPACE_NOERROR.

(** [cspace_ut_alloc] of a node and [cspace_ut_translate] of its address. *)
Definition alloc_node : M S (Z * Z * Z) :=
  a <- ecall (cspace_ut_alloc CSPACE_NODE_SIZE_IN_MEM_BITS) ;;
  c_assert (negb (a =? 0)) ;;;
  let! (err, ut_cptr, offset) := ecall (cspace_ut_translate a) in
  c_assert (err =? CSPACE_NOERROR) ;;;
  ret (a, ut_cptr, offset).

(** The rounds of the loops over the slots [j] of the tables: [i] is the index
    of the current table, which is allocated at its first slot. *)
Definition enter_table (c j i : Z) : M S Z :=
  if CSPACE_LEAF_OFFSET j =? 0 then
    let i := leaf_index j in
    t <- malloc_table ;;
    set_level2_table c i t ;;;
    c_assert (bool_decide (is_Some t)) ;;;
    ret i
  else ret i.

Definition link_slot (c j i : Z) : M S Z :=
  i <- enter_table c j i ;;
  set_level2_entry c i (CSPACE_LEAF_OFFSET j) (j + 1) ;;;
  ret i.

Definition grow_level2 (c : Z) : M S unit :=
  l1 <- cspace_alloc_level1_index c ;;
  let l1 := u32 l1 in
  c_assert (negb (l1 =? u32 CSPACE_NOSLOT)) ;;;
  let! (v, ut_cptr, offset) := alloc_node in
  set_level1_entry c l1 v ;;;
  cs <- cs_load c ;;
  serr <- ecall (seL4_Untyped_RetypeAtOffset ut_cptr seL4_CapTableObject offset
                   CSPACE_NODE_SIZE_IN_SLOTS_BITS (root_cnode cs) 0 0 l1 1) ;;
  c_assert (serr =? 0) ;;;
  let lo := Z.shiftl l1 CSPACE_NODE_SIZE_IN_SLOTS_BITS in
  let hi := Z.shiftl (l1 + 1) CSPACE_NODE_SIZE_IN_SLOTS_BITS - 1 in
  i <- for_carry lo hi (link_slot c) (leaf_index lo) ;;
  set_level2_entry c i (CSPACE_LEAF_OFFSET hi) CSPACE_NULL ;;;
  cs_update c (set_num CSPACE_NODE_SIZE_IN_SLOTS) ;;;
  cs_update c (set_next2 (i32 lo)).

Definition take_level2_slot (c : Z) : M S Z :=
  cs <- cs_load c ;;
  let s := u32 (next_level2_free_slot cs) in
  n <- get_level2_entry c (leaf_index s) (CSPACE_LEAF_OFFSET s) ;;
  cs_update c (set_next2 (i32 n)) ;;;
  cs_update c (set_num (u32 (num_free_slots cs - 1))) ;;;
  ret s.

Definition cspace_alloc_level2_slot (c : Z) : M S Z :=
  cs <- cs_load c ;;
  (if num_free_slots cs <=? 0 then grow_level2 c else ret tt) ;;;
  take_level2_slot c.

Definition cspace_free_level2_slot (c s : Z) : M S Z :=
  c_assert ((0 <=? s) && (s <? CSPACE_NODE_SIZE_IN_SLOTS * CSPACE_NODE_SIZE_IN_SLOTS)) ;;;
  cs <- cs_load c ;;
  set_level2_entry c (leaf_index s) (CSPACE_LEAF_OFFSET s) (next_level2_free_slot cs) ;;;
  cs_update c (set_next2 (i32 s)) ;;;
  cs_update c (set_num (u32 (num_free_slots cs + 1))) ;;;
  ret CSPACE_NOERROR.

(** *** cspace.c: slots *)

Definition cspace_alloc_slot (c : Z) : M S Z :=
  c_assert (negb (c =? 0)) ;;;
  cs <- cs_load c ;;
  if levels cs =? 1 then
    if 0 <? num_free_slots cs then
      cs_update c (set_num (u32 (num_free_slots cs - 1))) ;;;
      r <- cspace_alloc_level1_index c ;;
      let r := u32 r in
      if r =? u32 CSPACE_NOSLOT then ret CSPACE_NULL else ret r
    else ret CSPACE_NULL
  else if levels cs =? 2 then cspace_alloc_level2_slot c
  else c_assert false ;;; ret CSPACE_NULL.

Definition cspace_free_slot (c slot : Z) : M S Z :=
  c_assert (negb (c =? 0)) ;;;
  c_assert (negb (slot =? CSPACE_NULL)) ;;;
  cs <- cs_load c ;;
  if levels cs =? 1 then
    cs_update c (set_num (u32 (num_free_slots cs + 1))) ;;;
    cspace_free_level1_index c (i32 slot)
  else if levels cs =? 2 then cspace_free_level2_slot c slot
  else c_assert false ;;; ret CSPACE_NOERROR.

(** *** cspace.c: capabilities *)

(** The returned pair is the error code and, when a slot was allocated, what is
    stored in [*p]. *)
Definition cspace_ut_retype_addr (address type size_bits c : Z) : M S (Z * option Z) :=
  new <- cspace_alloc_slot c ;;
  if new =? CSPACE_NULL then ret (seL4_NotEnoughMemory, None)
  else
    let! (err, ut_cptr, offset) := ecall (cspace_ut_translate address) in
    if negb (err =? 0) then ret (err, Some new)
    else
      cs <- cs_load c ;;
      err <- ecall (seL4_Untyped_RetypeAtOffset ut_cptr type offset size_bits (root_cnode cs)
                      (leaf_index new) (CSPACE_DEPTH - CSPACE_NODE_SIZE_IN_SLOTS_BITS)
                      (CSPACE_LEAF_OFFSET new) 1) ;;
      ret (err, Some new).

(** The common part of the calls that fill a new slot of [dest]. *)
Definition fill_slot (dest : Z) (call : Z -> Z -> M S Z) : M S Z :=
  slot <- cspace_alloc_slot dest ;;
  c_assert (negb (slot =? CSPACE_NULL)) ;;;
  d <- cs_load dest ;;
  err <- call (root_cnode d) slot ;;
  sel4_error err ;;;
  ret slot.

Definition cspace_copy_cap (dest src src_cap rights : Z) : M S Z :=
  c_assert (negb (dest =? 0) && negb (src =? 0)) ;;;
  fill_slot dest (fun root slot =>
    sc <- cs_load src ;;
    ecall (seL4_CNode_Copy root slot CSPACE_DEPTH (root_cnode sc) src_cap CSPACE_DEPTH rights)).

Definition cspace_delete_cap (c cap : Z) : M S Z :=
  c_assert (negb (c =? 0)) ;;;
  cs <- cs_load c ;;
  err <- ecall (seL4_CNode_Delete (root_cnode cs) cap CSPACE_DEPTH) ;;
  sel4_error err ;;;
  cspace_free_slot c cap.

Definition cspace_mint_cap (dest src src_cap rights badge : Z) : M S Z :=
  c_assert (negb (dest =? 0) && negb (src =? 0)) ;;;
  fill_slot dest (fun root slot =>
    sc <- cs_load src ;;
    ecall (seL4_CNode_Mint root slot CSPACE_DEPTH (root_cnode sc) src_cap CSPACE_DEPTH rights badge)).

Definition cspace_move_cap (dest src src_cap : Z) : M S Z :=
  c_assert (negb (dest =? 0) && negb (src =? 0)) ;;;
  fill_slot dest (fun root slot =>
    sc <- cs_load src ;;
    ecall (seL4_CNode_Move root slot CSPACE_DEPTH (root_cnode sc) src_cap CSPACE_DEPTH)).

Definition cspace_mutate_cap (dest src src_cap badge : Z) : M S Z :=
  c_assert (negb (dest =? 0) && negb (src =? 0)) ;;;
  fill_slot dest (fun root slot =>
    sc <- cs_load src ;;
    ecall (seL4_CNode_Mutate root slot CSPACE_DEPTH (root_cnode sc) src_cap CSPACE_DEPTH badge)).

Definition cspace_recycle_cap (c cap : Z) : M S Z :=
  c_assert (negb (c =? 0)) ;;;
  cs <- cs_load c ;;
  err <- ecall (seL4_CNode_Recycle (root_cnode cs) cap CSPACE_DEPTH) ;;
  sel4_error err ;;;
  ret CSPACE_NOERROR.

Definition cspace_revoke_cap (c cap : Z) : M S Z :=
  c_assert (negb (c =? 0)) ;;;
  cs <- cs_load c ;;
  err <- ecall (seL4_CNode_Revoke (root_cnode cs) cap CSPACE_DEPTH) ;;
  sel4_error err ;;;
  ret CSPACE_NOERROR.

Definition cspace_rotate_cap : M S Z := c_assert false ;;; ret CSPACE_NULL.

Definition cspace_save_reply_cap (c : Z) : M S Z :=
  fill_slot c (fun root slot => ecall (seL4_CNode_SaveCaller root slot CSPACE_DEPTH)).

Definition cspace_irq_control_get_cap (dest irq_cap irq : Z) : M S Z :=
  fill_slot dest (fun root slot => ecall (seL4_IRQControl_Get irq_cap irq root slot CSPACE_DEPTH)).

(** *** cspace.c: spaces *)

(** [malloc(sizeof(cspace_t))] *)
Definition garbage_cspace : cspace_t :=
  Cspace (garbage 0) (garbage 1) (garbage 2) (garbage 3) (garbage 4) (garbage 5) (garbage 6)
    new_table (map garbage_table (seqZ 0 CSPACE_NODE_SIZE_IN_SLOTS)).
Definition malloc_cspace : M S Z :=
  ok <- ecall cspace_malloc ;;
  if (ok : bool) then
    s <- get ;;
    let p := new_ptr (cspaces s) in
    put (Cslib (<[p := garbage_cspace]> (cspaces s)) (cur_cspace s) (cs_env s)) ;;;
    ret p
  else ret 0.

(** Each entry of [level1_alloc_table] is linked to the next. *)
Definition link_level1 (c : Z) : M S unit :=
  for_up 0 (CSPACE_NODE_SIZE_IN_SLOTS - 1) (fun i => set_level1_entry c i (i + 1)) ;;;
  set_level1_entry c (CSPACE_NODE_SIZE_IN_SLOTS - 1) CSPACE_NOSLOT.

(** The free list of the first node of second level: its first slot is not used. *)
Definition create_free_list (c l1index l1slot : Z) : M S unit :=
  for_up 0 (CSPACE_NODE_SIZE_IN_SLOTS - 1) (fun i => set_level2_entry c l1index i (l1slot + i + 1)) ;;;
  set_level2_entry c l1index (CSPACE_NODE_SIZE_IN_SLOTS - 1) CSPACE_NULL ;;;
  cs_update c (set_next2 (i32 (l1slot + 1))) ;;;
  cs_update c (set_num (CSPACE_NODE_SIZE_IN_SLOTS - 1)).

(** The first node of second level of a new space of two levels. *)
Definition create_level2 (c : Z) : M S unit :=
  let! (a, ut_cptr, offset) := alloc_node in
  l1index <- cspace_alloc_level1_index c ;;
  let l1index := u32 l1index in
  c_assert (negb (l1index =? u32 CSPACE_NOINDEX)) ;;;
  let l1slot := u32 (Z.shiftl l1index CSPACE_NODE_SIZE_IN_SLOTS_BITS) in
  set_level1_entry c l1index a ;;;
  cs <- cs_load c ;;
  r <- ecall (seL4_Untyped_RetypeAtOffset ut_cptr seL4_CapTableObject offset
                CSPACE_NODE_SIZE_IN_SLOTS_BITS (root_cnode cs) 0 0 l1index 1) ;;
  sel4_error r ;;;
  for_up 0 CSPACE_NODE_SIZE_IN_SLOTS (fun i => set_level2_table c i None) ;;;
  t <- malloc_table ;;
  set_level2_table c l1index t ;;;
  create_free_list c l1index l1slot.

(** The free slots, by the number of levels. *)
Definition create_slots (c nlevels : Z) : M S unit :=
  (if nlevels =? 1 then cs_update c (set_next1 1)
   else if nlevels =? 2 then cs_update c (set_next1 0)
   else c_assert false) ;;;
  cs_update c (set_levels nlevels) ;;;
  (if nlevels =? 1 then cs_update c (set_num (CSPACE_NODE_SIZE_IN_SLOTS - 1))
   else if nlevels =? 2 then create_level2 c
   else c_assert false).

Definition cspace_create (nlevels : Z) : M S Z :=
  c <- malloc_cspace ;;
  c_assert (negb (c =? 0)) ;;;
  let! (a, ut_cptr, offset) := alloc_node in
  cs_update c (set_addr a) ;;;
  cur <- gets cur_cspace ;;
  slot <- cspace_alloc_slot cur ;;
  c_assert (negb (slot =? CSPACE_NULL)) ;;;
  cc <- cs_load cur ;;
  depth <- cspace_retype_depth cur ;;
  r <- ecall (seL4_Untyped_RetypeAtOffset ut_cptr seL4_CapTableObject offset
                CSPACE_NODE_SIZE_IN_SLOTS_BITS (root_cnode cc) (leaf_index slot) depth
                (CSPACE_LEAF_OFFSET slot) 1) ;;
  sel4_error r ;;;
  cs_update c (set_root_cnode slot) ;;;
  link_level1 c ;;;
  create_slots c nlevels ;;;
  (if nlevels =? 1 then cs_update c (set_guard (seL4_CapData_Guard_new 0 CSPACE_ONE_LEVEL_SKIP_BITS))
   else if nlevels =? 2 then cs_update c (set_guard (seL4_CapData_Guard_new 0 CSPACE_TWO_LEVEL_SKIP_BITS))
   else ret tt) ;;;
  cs <- cs_load c ;;
  root <- cspace_mint_cap cur cur slot seL4_AllRights (guard cs) ;;
  cs_update c (set_root_cnode root) ;;;
  c_assert (negb (root =? CSPACE_NULL)) ;;;
  cspace_delete_cap cur slot ;;;
  ret c.

(** The tables of a space on the heap of the C library are part of its record;
    freeing them is the end of the record and has no effect of its own. *)
Definition cspace_destroy (c : Z) : M S Z :=
  cur <- gets cur_cspace ;;
  c_assert (negb (cur =? c)) ;;;
  c_assert (negb (cur =? 0)) ;;;
  cs <- cs_load c ;;
  (if levels cs =? 2 then
     for_up 0 CSPACE_NODE_SIZE_IN_SLOTS (fun i =>
       t <- rd (level2_alloc_tables cs) i ;;
       match t with
       | None => ret tt
       | Some _ =>
           serr <- ecall (seL4_CNode_Delete (root_cnode cs) i (CSPACE_DEPTH - CSPACE_NODE_SIZE_IN_SLOTS_BITS)) ;;
           sel4_error serr ;;;
           a <- rd (level1_alloc_table cs) i ;;
           ecall (cspace_ut_free a CSPACE_NODE_SIZE_IN_MEM_BITS)
       end)
   else ret tt) ;;;
  cspace_delete_cap cur (root_cnode cs) ;;;
  ecall (cspace_ut_free (addr cs) CSPACE_NODE_SIZE_IN_MEM_BITS) ;;;
  modify (fun s => Cslib (delete c (cspaces s)) (cur_cspace s) (cs_env s)) ;;;
  ret CSPACE_NOERROR.

(** [cspace_root_task_bootstrap]: [empty_start] and [empty_end] are the bounds
    of the empty slots in the boot information. *)
Section bootstrap.
Variable empty_start empty_end : Z.

(** The node of first level and those of second level for the slots in use. *)
Definition boot_nodes (space level1_cptr : Z) : M S unit :=
  let! (a, ut_cptr, offset) := alloc_node in
  cs_update space (set_addr a) ;;;
  cs_update space (set_root_cnode seL4_CapInitThreadCNode) ;;;
  err <- ecall (seL4_Untyped_RetypeAtOffset ut_cptr seL4_CapTableObject offset
                  CSPACE_NODE_SIZE_IN_SLOTS_BITS seL4_CapInitThreadCNode seL4_CapInitThreadCNode
                  CSPACE_DEPTH level1_cptr 1) ;;
  sel4_error err ;;;
  let nodes := leaf_index (u32 (empty_start - 1)) + 1 in
  for_up 0 nodes (fun i =>
    let! (a, ut_cptr, offset) := alloc_node in
    set_level1_entry space i a ;;;
    err <- ecall (seL4_Untyped_RetypeAtOffset ut_cptr seL4_CapTableObject offset
                    CSPACE_NODE_SIZE_IN_SLOTS_BITS seL4_CapInitThreadCNode level1_cptr
                    CSPACE_DEPTH i 1) ;;
    sel4_error err) ;;;
  cs_update space (set_next1 (i32 nodes)).

(** The capabilities of the boot space are moved to the new space, which
    becomes that of the thread. *)
Definition boot_move (space level1_cptr : Z) : M S unit :=
  let boot_cptr := 0 in
  err <- ecall (seL4_CNode_Copy level1_cptr boot_cptr (2 * CSPACE_NODE_SIZE_IN_SLOTS_BITS)
                  seL4_CapInitThreadCNode seL4_CapInitThreadCNode CSPACE_DEPTH seL4_AllRights) ;;
  sel4_error err ;;;
  let g := seL4_CapData_Guard_new 0 CSPACE_TWO_LEVEL_SKIP_BITS in
  err <- ecall (seL4_CNode_Mint level1_cptr seL4_CapInitThreadCNode (2 * CSPACE_NODE_SIZE_IN_SLOTS_BITS)
                  seL4_CapInitThreadCNode level1_cptr CSPACE_DEPTH seL4_AllRights g) ;;
  sel4_error err ;;;
  cs_update space (set_guard g) ;;;
  err <- ecall (seL4_TCB_SetSpace seL4_CapInitThreadTCB 0 level1_cptr g seL4_CapInitThreadPD seL4_NilData) ;;
  sel4_error err ;;;
  for_up 1 empty_start (fun i =>
    if (i =? seL4_CapInitThreadCNode) || (i =? seL4_CapIPI) || (i =? seL4_CapIOPort)
       || (i =? seL4_CapIOSpace) || (i =? seL4_CapArchBootInfoFrame)
    then ret tt
    else
      err <- ecall (seL4_CNode_Move seL4_CapInitThreadCNode i CSPACE_DEPTH boot_cptr i CSPACE_DEPTH) ;;
      sel4_error err) ;;;
  err <- ecall (seL4_CNode_Delete seL4_CapInitThreadCNode boot_cptr CSPACE_DEPTH) ;;
  sel4_error err.

Definition mark_slot (space j i : Z) : M S Z :=
  i <- enter_table space j i ;;
  set_level2_entry space i (CSPACE_LEAF_OFFSET j) 0 ;;;
  ret i.

Definition boot_tables (space : Z) : M S unit :=
  i <- for_carry 0 empty_start (mark_slot space) (Z.max 1 empty_start) ;;
  cs_update space (set_next2 (i32 empty_start)) ;;;
  let used := CSPACE_LEAF_OFFSET empty_start in
  cs_update space (set_num (CSPACE_NODE_SIZE_IN_SLOTS - used)) ;;;
  let hi := empty_start + (CSPACE_NODE_SIZE_IN_SLOTS - 1 - used) in
  for_up empty_start hi (fun j => set_level2_entry space i (CSPACE_LEAF_OFFSET j) (j + 1)) ;;;
  set_level2_entry space i (CSPACE_LEAF_OFFSET hi) CSPACE_NULL ;;;
  cs <- cs_load space ;;
  for_up (u32 (next_level1_free_index cs)) CSPACE_NODE_SIZE_IN_SLOTS (fun i => set_level2_table space i None).

Definition cspace_root_task_bootstrap : M S Z :=
  c_assert (2 <=? u32 (empty_end - empty_start)) ;;;
  let level1_cptr := empty_start in
  space <- malloc_cspace ;;
  c_assert (negb (space =? 0)) ;;;
  cs_update space (set_levels 2) ;;;
  link_level1 space ;;;
  boot_nodes space level1_cptr ;;;
  boot_move space level1_cptr ;;;
  boot_tables space ;;;
  modify (fun s => Cslib (cspaces s) space (cs_env s)) ;;;
  ret CSPACE_NOERROR.
End bootstrap.
End operations.
