(* ===== verification/CspaceProofs.v ===== *)
(** * CspaceProofs: the slots and the memory of capability spaces

    A space of capabilities is described by the list of its free slots, in the
    order in which they are handed out ([wf]).  The lemmas give the behaviour
    of every operation in terms of that list, and of the memory of the nodes a
    space owns ([nodes]). *)

From S2P Require Import Prelude SosState Partial Cspace.

(** What the library relies on: the memory [live] is what [cspace_ut_alloc]
    has handed out and was not given back; the other calls do not change it. *)
Class CspaceLaws (E : Type) `{!CspaceEnv E} := {
  live : E -> list Z;
  live_ut_alloc b e : fst (cspace_ut_alloc b e) <> 0 ->
    is_u32 (fst (cspace_ut_alloc b e)) /\
    live (snd (cspace_ut_alloc b e)) ≡ₚ fst (cspace_ut_alloc b e) :: live e;
  live_ut_free a b e : a ∈ live e -> live e ≡ₚ a :: live (snd (cspace_ut_free a b e));
  live_ut_translate a e : live (snd (cspace_ut_translate a e)) = live e;
  live_malloc e : live (snd (cspace_malloc e)) = live e;
  live_retype a b c d f g h i j e : live (snd (seL4_Untyped_RetypeAtOffset a b c d f g h i j e)) = live e;
  live_copy a b c d f g h e : live (snd (seL4_CNode_Copy a b c d f g h e)) = live e;
  live_move a b c d f g e : live (snd (seL4_CNode_Move a b c d f g e)) = live e;
  live_mutate a b c d f g h e : live (snd (seL4_CNode_Mutate a b c d f g h e)) = live e;
  live_save_caller a b c e : live (snd (seL4_CNode_SaveCaller a b c e)) = live e;
  live_irq_get a b c d f e : live (snd (seL4_IRQControl_Get a b c d f e)) = live e;
  live_set_space a b c d f g e : live (snd (seL4_TCB_SetSpace a b c d f g e)) = live e;
  live_mint a b c d f g h i e : live (snd (seL4_CNode_Mint a b c d f g h i e)) = live e;
  live_delete a b c e : live (snd (seL4_CNode_Delete a b c e)) = live e
}.

(** ** Lists through tables *)

(** The list [l] from [x] to [e]. *)
Fixpoint chain (next : Z -> option Z) (x : Z) (l : list Z) (e : Z) : Prop :=
  match l with
  | [] => x = e
  | y :: l' => x = y /\ exists n, next y = Some n /\ chain next n l' e
  end.

Lemma chain_ext next next' x l e :
  (forall y, y ∈ l -> next' y = next y) -> chain next x l e -> chain next' x l e.
Proof.
  revert x. induction l as [|y l IH]; intros x H; simpl; [done|].
  intros [-> (n & Hn & Hc)]. split; [done|]. exists n. rewrite H by set_solver.
  split; [done|]. apply IH; [set_solver | done].
Qed.

Lemma chain_next next x l e y : chain next x l e -> y ∈ l -> is_Some (next y).
Proof.
  revert x. induction l as [|z l IH]; intros x; simpl; [set_solver|].
  intros [_ (n & Hn & Hc)] [->|Hy]%elem_of_cons; [eauto|]. by eapply IH.
Qed.

Lemma chain_seqZ next a m e :
  0 < m -> (forall y, a <= y < a + m - 1 -> next y = Some (y + 1)) -> next (a + m - 1) = Some e ->
  chain next a (seqZ a m) e.
Proof.
  intros Hm. remember (Z.to_nat (m - 1)) as k eqn:Ek.
  revert a m Hm Ek. induction k as [|k IH]; intros a m Hm Ek Hnext Hlast.
  - replace m with 1 in * by lia. replace (a + 1 - 1) with a in Hlast by lia.
    rewrite seqZ_cons by lia. simpl. split; [done|]. by exists e.
  - rewrite seqZ_cons by lia. simpl. split; [done|]. exists (a + 1). split; [apply Hnext; lia|].
    replace (Z.succ a) with (a + 1) by lia. apply IH; [lia | lia | |].
    + intros y Hy. apply Hnext. lia.
    + replace (a + 1 + Z.pred m - 1) with (a + m - 1) by lia. done.
Qed.

Lemma NoDup_bounded_length a b (l : list Z) :
  NoDup l -> Forall (fun x => a <= x < b) l -> Z.of_nat (length l) <= Z.max 0 (b - a).
Proof.
  intros Hnd Hr. rewrite Forall_forall in Hr.
  assert (l ⊆+ seqZ a (b - a)) as H.
  { apply NoDup_submseteq; [done|]. intros x Hx. apply elem_of_seqZ. specialize (Hr x Hx). lia. }
  apply submseteq_length in H. rewrite length_seqZ in H. lia.
Qed.

(** ** The description of a space *)

Lemma node_slots : CSPACE_NODE_SIZE_IN_SLOTS = 1024.
Proof. reflexivity. Qed.

Lemma leaf_index_div s : leaf_index s = s / 1024.
Proof. unfold leaf_index. by rewrite Z.shiftr_div_pow2. Qed.

Lemma leaf_offset_mod s : CSPACE_LEAF_OFFSET s = s mod 1024.
Proof. unfold CSPACE_LEAF_OFFSET. rewrite node_slots. apply (land_pow2_mask s 10). lia. Qed.

Definition next1 (c : cspace_t) (s : Z) : option Z := i32 <$> level1_alloc_table c !z s.
Definition next2 (c : cspace_t) (s : Z) : option Z :=
  match level2_alloc_tables c !z leaf_index s with
  | Some (Some t) => i32 <$> t !z CSPACE_LEAF_OFFSET s
  | _ => None
  end.

(** A space of one level whose free slots are [F]. *)
Record wf1 (c : cspace_t) (F : list Z) : Prop := {
  wf1_levels : levels c = 1;
  wf1_length : length (level1_alloc_table c) = 1024%nat;
  wf1_chain : chain (next1 c) (next_level1_free_index c) F CSPACE_NOSLOT;
  wf1_nodup : NoDup F;
  wf1_range : Forall (fun x => 1 <= x < 1024) F;
  wf1_num : num_free_slots c = Z.of_nat (length F)
}.

(** A space of two levels whose free slots are [F] and whose unused nodes of
    second level are [G]. *)
Record wf2 (c : cspace_t) (F G : list Z) : Prop := {
  wf2_levels : levels c = 2;
  wf2_length1 : length (level1_alloc_table c) = 1024%nat;
  wf2_length2 : length (level2_alloc_tables c) = 1024%nat;
  wf2_tables i t : level2_alloc_tables c !z i = Some (Some t) -> length t = 1024%nat;
  wf2_chain : chain (next2 c) (next_level2_free_slot c) F CSPACE_NULL;
  wf2_nodup : NoDup F;
  wf2_range : Forall (fun x => 1 <= x < 1048576) F;
  wf2_num : num_free_slots c = Z.of_nat (length F);
  wf2_unused : chain (next1 c) (next_level1_free_index c) G CSPACE_NOSLOT;
  wf2_unused_nodup : NoDup G;
  wf2_unused_null : Forall (fun g => 1 <= g < 1024 /\ level2_alloc_tables c !z g = Some None) G
}.

Definition wf (c : cspace_t) (F : list Z) : Prop := wf1 c F \/ exists G, wf2 c F G.

(** The slots a space can have in use: those of its existing nodes. *)
Definition slot_open (c : cspace_t) (x : Z) : Prop :=
  1 <= x /\
  (levels c = 1 /\ x < 1024 \/
   levels c = 2 /\ x < 1048576 /\ exists t, level2_alloc_tables c !z leaf_index x = Some (Some t)).

(** The addresses of the memory of the nodes of a space. *)
Fixpoint level2_nodes (l1 : list Z) (l2 : list (option (list Z))) : list Z :=
  match l1, l2 with
  | a :: l1, Some _ :: l2 => a :: level2_nodes l1 l2
  | _ :: l1, None :: l2 => level2_nodes l1 l2
  | _, _ => []
  end.
Definition nodes (c : cspace_t) : list Z :=
  addr c :: if levels c =? 2 then level2_nodes (level1_alloc_table c) (level2_alloc_tables c) else [].

(** The fields the allocation of slots does not change. *)
Definition same_space (c c' : cspace_t) : Prop :=
  levels c' = levels c /\ root_cnode c' = root_cnode c /\ guard c' = guard c /\ addr c' = addr c /\
  forall x, slot_open c x -> slot_open c' x.

Lemma same_space_refl c : same_space c c.
Proof. unfold same_space. auto. Qed.

(** The tables may change and be added, but not removed. *)
Lemma same_space_tables c c' :
  levels c' = levels c -> root_cnode c' = root_cnode c -> guard c' = guard c -> addr c' = addr c ->
  (forall i t, level2_alloc_tables c !z i = Some (Some t) ->
     exists t', level2_alloc_tables c' !z i = Some (Some t')) ->
  same_space c c'.
Proof.
  intros Hl ? ? ? Ht. repeat (split; [done|]). intros x [Hx Ho]. split; [done|]. rewrite Hl.
  destruct Ho as [?|(? & ? & t & Hxt)]; [by left|]. right. eauto.
Qed.

(** Both have the same slots. *)
Definition same_slots (c c' : cspace_t) : Prop := same_space c c' /\ same_space c' c.

Lemma same_slots_tables c c' :
  levels c' = levels c -> root_cnode c' = root_cnode c -> guard c' = guard c -> addr c' = addr c ->
  level2_alloc_tables c' = level2_alloc_tables c -> same_slots c c'.
Proof. intros ? ? ? ? Ht. split; apply same_space_tables; try done; rewrite Ht; eauto. Qed.

Lemma same_slots_open c c' x : same_slots c c' -> slot_open c' x <-> slot_open c x.
Proof. intros [(_ & _ & _ & _ & H) (_ & _ & _ & _ & H')]. split; auto. Qed.

Lemma same_space_trans c d e : same_space c d -> same_space d e -> same_space c e.
Proof. unfold same_space. intros (? & ? & ? & ? & ?) (? & ? & ? & ? & ?). split_and!; eauto; congruence. Qed.

Lemma chain_slot_open c F G x : wf2 c F G -> x ∈ F -> slot_open c x.
Proof.
  intros W Hx. pose proof (chain_next _ _ _ _ _ (wf2_chain _ _ _ W) Hx) as [n Hn].
  pose proof (proj1 (Forall_forall _ _) (wf2_range _ _ _ W) x Hx) as Hr. simpl in Hr.
  split; [lia|]. right. split; [apply W|]. split; [lia|].
  unfold next2 in Hn. destruct (level2_alloc_tables c !z leaf_index x) as [[t|]|]; [eauto|done|done].
Qed.

Lemma wf_slot_open c F x : wf c F -> x ∈ F -> slot_open c x.
Proof.
  intros [W|[G W]] Hx; [|by eapply chain_slot_open].
  pose proof (proj1 (Forall_forall _ _) (wf1_range _ _ W) x Hx) as Hr. simpl in Hr.
  split; [lia|]. left. split; [apply W | lia].
Qed.

(** ** Rules for the primitives *)

Section rules.
Context {E : Type} `{!CspaceEnv E} (R : fault -> Prop).
Local Abbreviation S := (cslib E).
Implicit Types s : S.

Definition cs_at (p : Z) (c : cspace_t) s : Prop := p <> 0 /\ cspaces s !! p = Some c.
Definition cs_set_env (e : E) s : S := Cslib (cspaces s) (cur_cspace s) e.

Lemma cs_at_upd p c s : p <> 0 -> cs_at p c (cs_upd p c s).
Proof. intros Hp. split; [done|]. apply lookup_insert_eq. Qed.

Lemma cs_upd_upd p c d s : cs_upd p c (cs_upd p d s) = cs_upd p c s.
Proof. unfold cs_upd. simpl. by rewrite insert_insert_eq. Qed.

Lemma cs_upd_env p c e s : cs_set_env e (cs_upd p c s) = cs_upd p c (cs_set_env e s).
Proof. done. Qed.

Lemma cs_upd_same p c s : cs_at p c s -> cs_upd p c s = s.
Proof. intros [_ H]. unfold cs_upd. rewrite insert_id by done. by destruct s. Qed.

Lemma wpf_ecall {A} (f : E -> A * E) Q s :
  Q (fst (f (cs_env s))) (cs_set_env (snd (f (cs_env s))) s) -> wpf R (ecall f) Q s.
Proof. unfold wpf, ecall. by destruct (f (cs_env s)). Qed.

Lemma wpf_cs_load p c Q s : cs_at p c s -> Q c s -> wpf R (cs_load p) Q s.
Proof. intros [Hp Hc] H. unfold wpf, cs_load. destruct (Z.eqb_spec p 0); [done|]. by rewrite Hc. Qed.

Lemma wpf_cs_update p c f Q s :
  cs_at p c s -> Q tt (cs_upd p (f c) s) -> wpf R (cs_update p f) Q s.
Proof. intros Hc H. apply wpf_bind. eapply wpf_cs_load; [done|]. by apply wpf_modify. Qed.

Lemma wpf_set_level1_entry p c i x Q s :
  cs_at p c s -> 0 <= i < Z.of_nat (length (level1_alloc_table c)) ->
  Q tt (cs_upd p (set_level1 (insertZ i (u32 x) (level1_alloc_table c)) c) s) ->
  wpf R (set_level1_entry p i x) Q s.
Proof.
  intros Hc Hi H. apply wpf_bind. eapply wpf_cs_load; [done|]. apply wpf_bind.
  apply wpf_in_bounds; [done|]. by eapply wpf_cs_update.
Qed.

Lemma wpf_set_level2_table p c i t Q s :
  cs_at p c s -> 0 <= i < Z.of_nat (length (level2_alloc_tables c)) ->
  Q tt (cs_upd p (set_level2 (insertZ i t (level2_alloc_tables c)) c) s) ->
  wpf R (set_level2_table p i t) Q s.
Proof.
  intros Hc Hi H. apply wpf_bind. eapply wpf_cs_load; [done|]. apply wpf_bind.
  apply wpf_in_bounds; [done|]. by eapply wpf_cs_update.
Qed.

Lemma wpf_get_level2_entry p c i j t x Q s :
  cs_at p c s -> level2_alloc_tables c !z i = Some (Some t) -> t !z j = Some x ->
  Q x s -> wpf R (get_level2_entry p i j) Q s.
Proof.
  intros Hc Ht Hx H. apply wpf_bind. eapply wpf_cs_load; [done|]. apply wpf_bind.
  eapply wpf_rd; [done|]. by eapply wpf_rd.
Qed.

Lemma wpf_set_level2_entry p c i j t x Q s :
  cs_at p c s -> level2_alloc_tables c !z i = Some (Some t) -> 0 <= j < Z.of_nat (length t) ->
  Q tt (cs_upd p (set_level2 (insertZ i (Some (insertZ j (u32 x) t)) (level2_alloc_tables c)) c) s) ->
  wpf R (set_level2_entry p i j x) Q s.
Proof.
  intros Hc Ht Hj H. apply wpf_bind. eapply wpf_cs_load; [done|]. apply wpf_bind.
  eapply wpf_rd; [done|]. apply wpf_bind. apply wpf_in_bounds; [done|]. by eapply wpf_cs_update.
Qed.
End rules.

(** Symbolic execution: the addressed space is the one last stored. *)
Ltac cs_found := first [eassumption | apply cs_at_upd; eassumption | (split; eassumption)].
Ltac cs_step :=
  cbv beta zeta;
  lazymatch goal with
  | |- wpf _ (cs_load _) _ _ => eapply wpf_cs_load; [cs_found|]
  | |- wpf _ (cs_update _ _) _ _ => eapply wpf_cs_update; [cs_found|]; rewrite ?cs_upd_upd
  | |- wpf _ (ecall _) _ _ => apply wpf_ecall; rewrite ?cs_upd_env
  | |- _ => wpf_step
  end.
Ltac cs_steps := repeat cs_step; cbv beta zeta.

(** ** Spaces of one level *)

Section one_level.
Context {E : Type} `{!CspaceEnv E} (R : fault -> Prop).
Local Abbreviation S := (cslib E).
Implicit Types s : S.

Lemma i32_u32 z : - 2 ^ 31 <= z < 2 ^ 31 -> i32 (u32 z) = z.
Proof. intros H. unfold i32, u32. Z.to_euclidean_division_equations. lia. Qed.

Lemma u32_i32 z : is_u32 z -> u32 (i32 z) = z.
Proof. unfold is_u32, i32, u32. intros H. Z.to_euclidean_division_equations. lia. Qed.

(** The rest of the list after its first index is handed out. *)
Lemma wf1_tail c x F :
  wf1 c (x :: F) -> exists n, level1_alloc_table c !z x = Some n /\
    wf1 (set_next1 (i32 n) (set_num (u32 (num_free_slots c - 1)) c)) F.
Proof.
  intros [Hl Hlen [Hx (n & Hn & Hc)] Hnd Hr Hnum]. unfold next1 in Hn.
  destruct (level1_alloc_table c !z x) as [m|] eqn:Em; simplify_eq/=. exists m. split; [done|].
  apply NoDup_cons in Hnd as [Hx Hnd]. apply Forall_cons in Hr as [Hrx Hr].
  split; try done. simpl. rewrite Hnum, u32_small; [simpl; lia|]. unfold is_u32.
  pose proof (NoDup_bounded_length 1 1024 F Hnd Hr). simpl. lia.
Qed.

Lemma cspace_alloc_slot_one p c F s :
  cs_at p c s -> wf1 c F ->
  wpf R (cspace_alloc_slot p) (fun x s' =>
    match F with
    | [] => x = CSPACE_NULL /\ s' = s
    | y :: F' => x = y /\ exists c', s' = cs_upd p c' s /\ wf1 c' F' /\ same_slots c c' /\ nodes c' = nodes c
    end) s.
Proof.
  intros Hc W. unfold cspace_alloc_slot. destruct Hc as [Hp Hc]. cs_step.
  apply wpf_assert; [by destruct (Z.eqb_spec p 0)|]. cs_steps. rewrite (wf1_levels _ _ W). simpl.
  pose proof (wf1_num _ _ W) as Hnum.
  destruct F as [|y F]; simpl in Hnum; destruct (Z.ltb_spec 0 (num_free_slots c)); try lia.
  { cs_steps. done. }
  destruct (wf1_tail _ _ _ W) as (n & Hn & W'). pose proof (wf1_chain _ _ W) as [Hy _].
  pose proof (Forall_inv (wf1_range _ _ W)) as Hr. simpl in Hr.
  cs_steps. unfold cspace_alloc_level1_index. cs_steps. cbn [next_level1_free_index set_num]. rewrite Hy.
  apply wpf_assert; [by destruct (Z.eqb_spec y CSPACE_NOSLOT); unfold CSPACE_NOSLOT in *; [lia|]|].
  cs_steps. eapply wpf_rd; [exact Hn|]. cs_steps.
  rewrite u32_small by (unfold is_u32; lia).
  change (u32 CSPACE_NOSLOT) with 4294967295. destruct (Z.eqb_spec y 4294967295); [lia|].
  apply wpf_ret. split; [done|]. eexists. split; [done|].
  split; [exact W'|]. split; [|done]. by apply same_slots_tables.
Qed.

Lemma cspace_free_slot_one p c F x s :
  cs_at p c s -> wf1 c F -> x ∉ F -> 1 <= x < 1024 ->
  wpf R (cspace_free_slot p x) (fun r s' =>
    r = CSPACE_NOERROR /\ exists c', s' = cs_upd p c' s /\ wf1 c' (x :: F) /\ same_slots c c' /\
    nodes c' = nodes c) s.
Proof.
  intros Hc W Hx Hr. unfold cspace_free_slot. destruct Hc as [Hp Hc]. cs_step.
  apply wpf_assert; [by destruct (Z.eqb_spec p 0)|]. cs_step.
  apply wpf_assert; [by destruct (Z.eqb_spec x CSPACE_NULL); unfold CSPACE_NULL in *; [lia|]|].
  cs_steps. rewrite (wf1_levels _ _ W). simpl. cs_steps. unfold cspace_free_level1_index. cs_step.
  rewrite i32_small by lia.
  apply wpf_assert; [rewrite node_slots; destruct (Z.leb_spec 0 x), (Z.ltb_spec x 1024); simpl; lia|].
  cs_steps. destruct W as [Hl Hlen Hch Hnd Hra Hnum].
  eapply wpf_set_level1_entry; [by apply cs_at_upd|simpl; lia|]. rewrite cs_upd_upd. cs_steps.
  split; [done|]. eexists. split; [done|]. split; [|split; [by apply same_slots_tables | by unfold nodes; simpl; rewrite Hl]].
  pose proof (NoDup_bounded_length 1 1024 F Hnd Hra).
  split; simpl; try done.
  - by rewrite length_insertZ.
  - split; [done|]. exists (next_level1_free_index c). unfold next1. simpl.
    rewrite lookupZ_insertZ_eq by lia. simpl. rewrite i32_u32.
    + split; [done|]. eapply chain_ext; [|done]. intros y Hy. unfold next1. simpl.
      rewrite lookupZ_insertZ_ne; [done|]. intros ->. done.
    + destruct F as [|y F]; simpl in Hch; [rewrite Hch; unfold CSPACE_NOSLOT; lia|].
      apply Forall_inv in Hra. simpl in Hra. lia.
  - by constructor.
  - constructor; [lia|done].
  - rewrite Hnum, u32_small; [lia|]. unfold is_u32. lia.
Qed.
End one_level.

(** ** Spaces of two levels *)

(** A store to an entry of a table changes the successor of one slot. *)
Lemma next2_store c x v t y :
  level2_alloc_tables c !z leaf_index x = Some (Some t) -> length t = 1024%nat ->
  next2 (set_level2 (insertZ (leaf_index x) (Some (insertZ (CSPACE_LEAF_OFFSET x) v t)) (level2_alloc_tables c)) c) y =
  if decide (y = x) then Some (i32 v) else next2 c y.
Proof.
  intros Ht Hlen. pose proof (lookupZ_lt _ _ _ Ht). unfold next2. simpl.
  pose proof (Z.mod_pos_bound x 1024). rewrite lookupZ_insertZ by done.
  case_decide as Hi; [|case_decide; [congruence|done]]. rewrite <- Hi, Ht.
  rewrite lookupZ_insertZ by (rewrite leaf_offset_mod; lia).
  rewrite !leaf_index_div in Hi. rewrite !leaf_offset_mod.
  pose proof (Z.div_mod x 1024). pose proof (Z.div_mod y 1024).
  repeat case_decide; simplify_eq; try done; lia.
Qed.

Lemma level2_nodes_keep l1 l2 i t t' :
  l2 !! i = Some (Some t) -> level2_nodes l1 (<[i := Some t']> l2) = level2_nodes l1 l2.
Proof.
  revert l1 i. induction l2 as [|u l2 IH]; intros [|a l1] [|i] H; try done; simplify_eq/=; [done|].
  destruct u; by rewrite (IH l1 i).
Qed.

Lemma level2_nodes_add l1 l2 i v t :
  l2 !! i = Some None -> (i < length l1)%nat ->
  level2_nodes (<[i := v]> l1) (<[i := Some t]> l2) ≡ₚ v :: level2_nodes l1 l2.
Proof.
  revert l1 i. induction l2 as [|u l2 IH]; intros [|a l1] [|i] H Hi; try done; simplify_eq/=; try lia; [done|].
  destruct u; rewrite (IH l1 i) by (done || lia); [|done].
  apply Permutation_swap.
Qed.

Lemma nodes_store c i j v t :
  level2_alloc_tables c !z i = Some (Some t) ->
  nodes (set_level2 (insertZ i (Some (insertZ j v t)) (level2_alloc_tables c)) c) = nodes c.
Proof.
  intros Ht. unfold nodes. simpl. unfold insertZ at 1. unfold lookupZ in Ht.
  destruct (0 <=? i); [|done]. by erewrite level2_nodes_keep.
Qed.

Lemma tables_store (T : list (option (list Z))) i j v t :
  T !z i = Some (Some t) ->
  (forall k u, T !z k = Some (Some u) -> length u = 1024%nat) ->
  forall k u, insertZ i (Some (insertZ j v t)) T !z k = Some (Some u) -> length u = 1024%nat.
Proof.
  intros Ht Hlen k u. rewrite lookupZ_insertZ by (by eapply lookupZ_lt).
  case_decide; [|apply Hlen]. intros [= <-]. rewrite length_insertZ. by eapply Hlen.
Qed.

Lemma same_slots_store c i j v t :
  level2_alloc_tables c !z i = Some (Some t) ->
  same_slots c (set_level2 (insertZ i (Some (insertZ j v t)) (level2_alloc_tables c)) c).
Proof.
  intros Ht. split; apply same_space_tables; try done; intros k u; simpl.
  all: rewrite lookupZ_insertZ by (by eapply lookupZ_lt); case_decide; subst; eauto.
Qed.

Section two_levels.
Context {E : Type} `{!CspaceEnv E} (R : fault -> Prop).
Local Abbreviation S := (cslib E).
Implicit Types s : S.

Lemma wf2_small c F G : wf2 c F G -> 0 <= num_free_slots c < 1048576.
Proof.
  intros W. rewrite (wf2_num _ _ _ W).
  pose proof (NoDup_bounded_length 1 1048576 F (wf2_nodup _ _ _ W) (wf2_range _ _ _ W)). lia.
Qed.

Lemma wf2_head c F G : wf2 c F G -> 0 <= next_level2_free_slot c < 1048576.
Proof.
  intros W. pose proof (wf2_chain _ _ _ W) as H. pose proof (wf2_range _ _ _ W) as Hr.
  destruct F as [|y F]; simpl in H; [unfold CSPACE_NULL in H; lia|].
  apply Forall_inv in Hr. simpl in Hr. lia.
Qed.

(** A free slot is handed out. *)
Lemma wpf_take_level2_slot p c x F G s :
  cs_at p c s -> wf2 c (x :: F) G ->
  wpf R (take_level2_slot p) (fun r s' =>
    r = x /\ exists c', s' = cs_upd p c' s /\ wf2 c' F G /\ same_slots c c' /\ nodes c' = nodes c) s.
Proof.
  intros Hc W. pose proof (wf2_small _ _ _ W) as Hsm. pose proof (wf2_head _ _ _ W) as Hhd.
  destruct W as [Hl Hl1 Hl2 Ht [Hx (n & Hn & Hch)] Hnd Hr Hnum Hu Hund Hun].
  apply NoDup_cons in Hnd as [Hx' Hnd]. apply Forall_cons in Hr as [Hrx Hr].
  destruct Hc as [Hp Hc]. unfold take_level2_slot. cs_steps. simpl in Hnum.
  rewrite u32_small by (unfold is_u32; lia). rewrite Hx. unfold next2 in Hn.
  destruct (level2_alloc_tables c !z leaf_index x) as [[t|]|] eqn:Et; try done.
  destruct (t !z CSPACE_LEAF_OFFSET x) as [m|] eqn:Em; simplify_eq/=.
  eapply wpf_get_level2_entry; [by split | done | done |]. cs_steps. split; [done|].
  eexists. split; [done|]. split; [|split; [by apply same_slots_tables | done]].
  split; simpl; try done. rewrite u32_small; [lia|]. unfold is_u32. lia.
Qed.

Lemma cspace_free_slot_two p c F G x s :
  cs_at p c s -> wf2 c F G -> x ∉ F -> slot_open c x ->
  wpf R (cspace_free_slot p x) (fun r s' =>
    r = CSPACE_NOERROR /\ exists c', s' = cs_upd p c' s /\ wf2 c' (x :: F) G /\ same_slots c c' /\
    nodes c' = nodes c) s.
Proof.
  intros Hc W Hx (Hx1 & [[? _]|(_ & Hx2 & t & Et)]); [pose proof (wf2_levels _ _ _ W); lia|].
  pose proof (wf2_small _ _ _ W) as Hsm. pose proof (wf2_head _ _ _ W) as Hhd.
  destruct W as [Hl Hl1 Hl2 Ht Hch Hnd Hr Hnum Hu Hund Hun]. pose proof (Ht _ _ Et) as Hlen.
  unfold cspace_free_slot. destruct Hc as [Hp Hc]. cs_step.
  apply wpf_assert; [by destruct (Z.eqb_spec p 0)|]. cs_step.
  apply wpf_assert; [by destruct (Z.eqb_spec x CSPACE_NULL); unfold CSPACE_NULL in *; [lia|]|].
  cs_steps. rewrite Hl. simpl. unfold cspace_free_level2_slot. cs_step.
  apply wpf_assert.
  { rewrite node_slots. destruct (Z.leb_spec 0 x), (Z.ltb_spec x (1024 * 1024)); simpl; lia. }
  cs_steps. eapply wpf_set_level2_entry; [by split | done | |].
  { rewrite leaf_offset_mod. pose proof (Z.mod_pos_bound x 1024). lia. }
  cs_steps. split; [done|]. eexists. split; [done|].
  split; [|split; [by apply same_slots_store | by apply nodes_store]].
  split; simpl; try done.
  - by rewrite length_insertZ.
  - by apply tables_store.
  - rewrite i32_small by lia. split; [done|]. exists (next_level2_free_slot c).
    assert (forall y, next2 _ y = _) as Hnext by (intros y; apply (next2_store c x (u32 (next_level2_free_slot c)) t y Et Hlen)).
    split; [etransitivity; [apply Hnext|]; rewrite decide_True by done; by rewrite i32_u32 by lia|].
    eapply chain_ext; [|done]. intros y Hy. etransitivity; [apply Hnext|]. apply decide_False. by intros ->.
  - by constructor.
  - constructor; [lia | done].
  - rewrite u32_small; [lia|]. unfold is_u32. lia.
  - eapply Forall_impl; [done|]. simpl. intros g [Hg Hn]. split; [done|].
    rewrite lookupZ_insertZ by (by eapply lookupZ_lt). case_decide; [|done]. congruence.
Qed.

(** *** The growth of a space *)

(** The table of node [g] from slot [a] to slot [j] is linked. *)
Definition linked (g a j : Z) (p : Z) (c : cspace_t) s s' : Prop :=
  exists t, length t = 1024%nat /\ (forall k, a <= k < j -> t !z CSPACE_LEAF_OFFSET k = Some (k + 1)) /\
    s' = cs_upd p (set_level2 (insertZ g (Some t) (level2_alloc_tables c)) c) s.

Lemma linked_step g a j p c s s' :
  p <> 0 -> 0 <= g < 1024 -> length (level2_alloc_tables c) = 1024%nat ->
  g * 1024 <= a <= j -> j < g * 1024 + 1023 ->
  linked g a j p c s s' ->
  wpf R (set_level2_entry p g (CSPACE_LEAF_OFFSET j) (j + 1)) (fun _ => linked g a (j + 1) p c s) s'.
Proof.
  intros Hp Hg Hlen Ha Hj (t & Ht & Hk & ->).
  pose proof (Z.mod_pos_bound j 1024). rewrite leaf_offset_mod.
  eapply wpf_set_level2_entry; [by apply cs_at_upd | apply lookupZ_insertZ_eq; lia | lia |].
  rewrite cs_upd_upd. simpl. rewrite insertZ_insertZ. eexists. split; [|split; [|done]].
  { by rewrite length_insertZ. }
  intros k Hk'. rewrite leaf_offset_mod, lookupZ_insertZ by lia. case_decide as Hd.
  - assert (j = k) as <-; [|rewrite u32_small; [done | unfold is_u32; lia]].
    revert Hd Hk' Hj Ha. clear. intros. Z.to_euclidean_division_equations. lia.
  - rewrite <- leaf_offset_mod. apply Hk. destruct (decide (k = j)); [congruence | lia].
Qed.

(** With the last entry null, the slots from [a] are a list. *)
Lemma linked_chain g a p c s s' Q :
  p <> 0 -> 0 <= g < 1024 -> length (level2_alloc_tables c) = 1024%nat ->
  g * 1024 <= a <= g * 1024 + 1023 ->
  linked g a (g * 1024 + 1023) p c s s' ->
  (forall c', (exists t, length t = 1024%nat /\ c' = set_level2 (insertZ g (Some t) (level2_alloc_tables c)) c) ->
     chain (next2 c') a (seqZ a (g * 1024 + 1024 - a)) CSPACE_NULL -> Q tt (cs_upd p c' s)) ->
  wpf R (set_level2_entry p g (CSPACE_LEAF_OFFSET (g * 1024 + 1023)) CSPACE_NULL) Q s'.
Proof.
  intros Hp Hg Hlen Ha (t & Ht & Hk & ->) HQ.
  assert ((g * 1024 + 1023) mod 1024 = 1023) as Hlast by (Z.to_euclidean_division_equations; lia).
  assert (forall k, g * 1024 <= k < g * 1024 + 1024 -> leaf_index k = g) as Hleaf.
  { intros k Hk'. rewrite leaf_index_div. Z.to_euclidean_division_equations; lia. }
  eapply wpf_set_level2_entry; [by apply cs_at_upd | apply lookupZ_insertZ_eq; lia | rewrite leaf_offset_mod; lia |].
  rewrite cs_upd_upd. simpl. rewrite insertZ_insertZ. apply HQ.
  { eexists. split; [|done]. by rewrite length_insertZ. }
  apply chain_seqZ; [lia | |].
  - intros y Hy. unfold next2. simpl. rewrite Hleaf by lia. rewrite lookupZ_insertZ_eq by lia.
    rewrite lookupZ_insertZ_ne, Hk by (rewrite ?leaf_offset_mod; Z.to_euclidean_division_equations; lia).
    simpl. by rewrite i32_small by lia.
  - replace (a + (g * 1024 + 1024 - a) - 1) with (g * 1024 + 1023) by lia.
    unfold next2. simpl. rewrite Hleaf by lia. rewrite lookupZ_insertZ_eq by lia.
    by rewrite lookupZ_insertZ_eq by (rewrite leaf_offset_mod; lia).
Qed.
End two_levels.

Section growth.
Context {E : Type} `{!CspaceEnv E} `{!CspaceLaws E} (R : fault -> Prop) (HR : R FAssert).
Local Abbreviation S := (cslib E).
Implicit Types s : S.

Lemma length_new_table : length (new_table (E := E)) = 1024%nat.
Proof. unfold new_table. by rewrite length_map, length_seqZ. Qed.

(** A new node: its memory is accounted for. *)
Lemma wpf_alloc_node Q s :
  (forall a ut off e, a <> 0 -> is_u32 a -> live e ≡ₚ a :: live (cs_env s) -> Q (a, ut, off) (cs_set_env e s)) ->
  wpf R alloc_node Q s.
Proof.
  intros HQ. unfold alloc_node. cs_steps. apply wpf_may_assert; [done|]. intros Ha. cs_steps.
  apply negb_true_iff, Z.eqb_neq in Ha. destruct (live_ut_alloc _ _ Ha) as [Hu Hl].
  destruct (fst (cspace_ut_translate _ _)) as [[err ut] off]. cs_step.
  apply wpf_may_assert; [done|]. intros _. cs_step. apply HQ; [done | done |]. simpl.
  by rewrite live_ut_translate.
Qed.

Lemma enter_table_new p c j i Q s :
  cs_at p c s -> length (level2_alloc_tables c) = 1024%nat -> 0 <= leaf_index j < 1024 ->
  CSPACE_LEAF_OFFSET j = 0 ->
  (forall e t, live e = live (cs_env s) -> length t = 1024%nat ->
     Q (leaf_index j) (cs_upd p (set_level2 (insertZ (leaf_index j) (Some t) (level2_alloc_tables c)) c) (cs_set_env e s))) ->
  wpf R (enter_table p j i) Q s.
Proof.
  intros [Hp Hc] Hlen Hj Hoff HQ. unfold enter_table, malloc_table. rewrite Hoff. simpl. cs_steps.
  eapply wpf_set_level2_table; [by split | lia |]. cs_step.
  apply wpf_may_assert; [done|]. intros Ht. cs_step.
  destruct (fst (cspace_malloc (cs_env s))); [|done].
  apply (HQ _ new_table); [apply live_malloc | apply length_new_table].
Qed.

Lemma enter_table_old p j i Q s :
  CSPACE_LEAF_OFFSET j <> 0 -> Q i s -> wpf R (enter_table p j i) Q s.
Proof. intros Hj HQ. unfold enter_table. by destruct (Z.eqb_spec (CSPACE_LEAF_OFFSET j) 0). Qed.

(** All slots of a new node are linked. *)
Lemma link_node p c g i s Q :
  cs_at p c s -> length (level2_alloc_tables c) = 1024%nat -> 0 <= g < 1024 ->
  (forall e s', live e = live (cs_env s) ->
     linked g (g * 1024) (g * 1024 + 1023) p c (cs_set_env e s) s' -> Q g s') ->
  wpf R (for_carry (g * 1024) (g * 1024 + 1023) (link_slot p) i) Q s.
Proof.
  intros Hc Hlen Hg HQ. rewrite for_carry_step by lia. cs_step. unfold link_slot at 1. cs_step.
  assert (leaf_index (g * 1024) = g) as Hl by (rewrite leaf_index_div; by apply Z.div_mul).
  assert (CSPACE_LEAF_OFFSET (g * 1024) = 0) as Ho by (rewrite leaf_offset_mod; by apply Z.mod_mul).
  pose proof (proj1 Hc) as Hp.
  eapply enter_table_new; [done | done | by rewrite Hl | done |]. intros e t He Ht. rewrite Hl. cs_step.
  eapply wpf_mono; [apply (linked_step R g (g * 1024) (g * 1024) p c (cs_set_env e s)); try lia; try done|].
  { exists t. split; [done|]. split; [lia | done]. }
  intros [] s1 H1. cs_step.
  eapply (wpf_for_carry _ (fun j i' s' => i' = g /\ linked g (g * 1024) j p c (cs_set_env e s) s')); [lia | done | |].
  - intros j i' s2 Hj [-> H2]. unfold link_slot. cs_step. apply enter_table_old.
    { rewrite leaf_offset_mod. Z.to_euclidean_division_equations; lia. }
    cs_step. eapply wpf_mono; [apply (linked_step R g (g * 1024) j p c (cs_set_env e s)); try done; lia|]. intros [] s3 H3. by cs_step.
  - intros i' s2 [-> H2]. by apply (HQ e).
Qed.

Lemma wf2_grown c g G v t n :
  wf2 c [] (g :: G) -> length t = 1024%nat -> next1 c g = Some n ->
  let c' := set_next2 (g * 1024) (set_num 1024
    (set_level2 (insertZ g (Some t) (level2_alloc_tables c))
      (set_level1 (insertZ g v (level1_alloc_table c)) (set_next1 n c)))) in
  chain (next2 c') (g * 1024) (seqZ (g * 1024) 1024) CSPACE_NULL ->
  wf2 c' (seqZ (g * 1024) 1024) G /\ same_space c c' /\ nodes c' ≡ₚ v :: nodes c /\
  forall x, slot_open c' x -> slot_open c x \/ x ∈ seqZ (g * 1024) 1024.
Proof.
  intros [Hl Hl1 Hl2 Ht _ _ _ Hnum [Hg (n' & Hn' & Hu)] Hund Hun] Hlt Hn c' Hch.
  rewrite Hn in Hn'. injection Hn' as <-. apply NoDup_cons in Hund as [Hg' Hund]. apply Forall_cons in Hun as [[Hgr Hgn] Hun].
  split; [|split; [|split]].
  - split; simpl; try done.
    + by rewrite length_insertZ.
    + by rewrite length_insertZ.
    + intros i u. rewrite lookupZ_insertZ by lia. case_decide; [by intros [= <-] | apply Ht].
    + apply NoDup_seqZ.
    + apply Forall_forall. intros x Hx%elem_of_seqZ. lia.
    + eapply chain_ext; [|done]. intros y Hy. unfold next1. simpl.
      rewrite lookupZ_insertZ_ne; [done|]. by intros ->.
    + rewrite Forall_forall in Hun |- *. intros h Hh. destruct (Hun h Hh) as [? Hnull]. split; [done|].
      rewrite lookupZ_insertZ_ne; [done|]. by intros ->.
  - apply same_space_tables; try done. intros i u Hi. simpl. rewrite lookupZ_insertZ by lia.
    case_decide; eauto.
  - unfold nodes, c'. simpl. rewrite Hl. simpl. unfold insertZ, lookupZ in *.
    destruct (Z.leb_spec 0 g); [|lia].
    rewrite level2_nodes_add by (done || lia). apply Permutation_swap.
  - intros x (Hx & [[Hbad _]|(_ & Hx2 & u & Hu')]); [simpl in Hbad; lia|]. simpl in Hu'.
    rewrite lookupZ_insertZ in Hu' by lia. case_decide as Hgx.
    + right. apply elem_of_seqZ. rewrite leaf_index_div in Hgx. Z.to_euclidean_division_equations; lia.
    + left. split; [done|]. right. eauto.
Qed.

Lemma wpf_grow_level2 p c G s Q :
  cs_at p c s -> wf2 c [] G ->
  (forall g G' c' v e, G = g :: G' -> wf2 c' (seqZ (g * 1024) 1024) G' -> same_space c c' ->
     (forall x, slot_open c' x -> slot_open c x \/ x ∈ seqZ (g * 1024) 1024) ->
     nodes c' ≡ₚ v :: nodes c -> live e ≡ₚ v :: live (cs_env s) ->
     Q tt (cs_upd p c' (cs_set_env e s))) ->
  wpf R (grow_level2 p) Q s.
Proof.
  intros [Hp Hc] W HQ. unfold grow_level2, cspace_alloc_level1_index. cs_steps.
  pose proof (wf2_unused _ _ _ W) as Hun. destruct G as [|g G]; simpl in Hun.
  { rewrite Hun. by apply wpf_may_assert. }
  destruct Hun as [Hg (n & Hn & Hch)]. rewrite Hg. pose proof (Forall_inv (wf2_unused_null _ _ _ W)) as [Hgr Hgn].
  apply wpf_assert; [by destruct (Z.eqb_spec g CSPACE_NOSLOT); unfold CSPACE_NOSLOT in *; [lia|]|].
  cs_step. pose proof Hn as Hn'. unfold next1 in Hn'.
  destruct (level1_alloc_table c !z g) as [m|] eqn:Em; [|done]. injection Hn' as <-.
  eapply wpf_rd; [done|]. cs_steps.
  rewrite u32_small by (unfold is_u32; lia). change (u32 CSPACE_NOSLOT) with 4294967295.
  apply wpf_assert; [by destruct (Z.eqb_spec g 4294967295); [lia|]|]. cs_step.
  apply wpf_alloc_node. intros v ut off e Hv Hu He. rewrite cs_upd_env in *. cs_steps.
  eapply wpf_set_level1_entry; [by apply cs_at_upd | simpl; rewrite (wf2_length1 _ _ _ W); lia |].
  rewrite cs_upd_upd, u32_small by done. cs_steps. apply wpf_may_assert; [done|]. intros _. cs_step.
  rewrite !Z.shiftl_mul_pow2 by done. change (2 ^ CSPACE_NODE_SIZE_IN_SLOTS_BITS) with 1024.
  replace ((g + 1) * 1024 - 1) with (g * 1024 + 1023) by lia.
  eapply link_node; [by apply cs_at_upd | apply W | lia |]. intros e' s' He' Hlk. cs_step.
  eapply linked_chain; [done | | | | exact Hlk |]; [lia | apply W | lia |].
  intros c' (t & Ht & ->) Hc'. rewrite cs_upd_env, cs_upd_upd. cs_steps. rewrite i32_small by lia.
  replace (g * 1024 + 1024 - g * 1024) with 1024 in Hc' by lia.
  destruct (wf2_grown c g G v t (i32 m) W Ht Hn) as (W' & Hs' & Hn'' & Hop); [exact Hc'|].
  eapply HQ; [done | exact W' | done | exact Hop | done |]. rewrite He'. simpl. rewrite live_retype. done.
Qed.
End growth.

(** ** Slots of any space *)

Section slots.
Context {E : Type} `{!CspaceEnv E} `{!CspaceLaws E} (R : fault -> Prop).
Local Abbreviation S := (cslib E).
Implicit Types s : S.

(** The memory of the nodes a space has gained is newly allocated. *)
Definition gained (c c' : cspace_t) (e e' : E) : Prop :=
  exists vs, nodes c' ≡ₚ vs ++ nodes c /\ live e' ≡ₚ vs ++ live e.

Lemma gained_none c c' e : nodes c' = nodes c -> gained c c' e e.
Proof. intros H. exists []. by rewrite H. Qed.

(** The result of [cspace_alloc_slot]: nothing, the first free slot, or the
    first slot of a new node. *)
Definition allocated (c c' : cspace_t) (F : list Z) (x : Z) : Prop :=
  x = CSPACE_NULL /\ F = [] /\ c' = c /\ levels c = 1 \/
  exists F', wf c' F' /\ (x ∉ F') /\ slot_open c' x /\
    (forall y, slot_open c' y -> slot_open c y \/ y ∈ (x :: F')) /\
    (F = (x :: F') \/ F = [] /\ forall y, y ∈ (x :: F') -> ~ slot_open c y).

Lemma wf_tail_notin c x F : wf c (x :: F) -> x ∉ F.
Proof.
  intros [W|[G W]]; [pose proof (wf1_nodup _ _ W) as H | pose proof (wf2_nodup _ _ _ W) as H].
  all: by apply NoDup_cons in H as [? _].
Qed.

Lemma new_node_closed c g G y :
  wf2 c [] (g :: G) -> g * 1024 <= y < g * 1024 + 1024 -> ~ slot_open c y.
Proof.
  intros W Hy (_ & [[Hl _]|(_ & _ & t & Ht)]); [pose proof (wf2_levels _ _ _ W); lia|].
  pose proof (Forall_inv (wf2_unused_null _ _ _ W)) as [_ Hn].
  replace (leaf_index y) with g in Ht; [congruence|]. rewrite leaf_index_div.
  Z.to_euclidean_division_equations; lia.
Qed.

Lemma wpf_cspace_alloc_slot p c F s :
  cs_at p c s -> wf c F -> (F = [] -> levels c = 2 -> R FAssert) ->
  wpf R (cspace_alloc_slot p) (fun x s' => exists c' e,
    s' = cs_upd p c' (cs_set_env e s) /\ same_space c c' /\ gained c c' (cs_env s) e /\ allocated c c' F x) s.
Proof.
  intros Hc HW HR. assert (cs_set_env (cs_env s) s = s) as Hid by by destruct s.
  assert (forall y F c', F = y :: tail F -> wf c F -> wf c' (tail F) -> same_slots c c' -> allocated c c' F y) as Htake.
  { intros y F1 c' HF W W' Hs. right. exists (tail F1). rewrite HF in W. split; [done|].
    split; [by eapply wf_tail_notin|]. split; [apply (same_slots_open _ _ _ Hs), (wf_slot_open _ _ _ W); set_solver|].
    split; [|by left]. intros z Hz. left. by apply (same_slots_open _ _ _ Hs). }
  destruct HW as [W|[G W]].
  { eapply wpf_mono; [by apply (cspace_alloc_slot_one R p c F)|]. intros x s' H. destruct F as [|y F].
    - destruct H as [-> ->]. exists c, (cs_env s). rewrite Hid, cs_upd_same by done.
      split; [done|]. split; [apply same_space_refl|]. split; [by apply gained_none|].
      left. split_and!; [done.. | apply W].
    - destruct H as [-> (c' & -> & W' & Hs & Hn)]. exists c', (cs_env s). rewrite Hid.
      split; [done|]. split; [apply Hs|]. split; [by apply gained_none|]. by apply Htake; [|left..|]. }
  pose proof Hc as [Hp Hc']. unfold cspace_alloc_slot. cs_step.
  apply wpf_assert; [by destruct (Z.eqb_spec p 0)|]. cs_steps. rewrite (wf2_levels _ _ _ W). simpl.
  unfold cspace_alloc_level2_slot. cs_steps. pose proof (wf2_num _ _ _ W) as Hnum.
  destruct F as [|y F]; simpl in Hnum; destruct (Z.leb_spec (num_free_slots c) 0); try lia.
  - eapply wpf_grow_level2; [apply HR; [done | apply W] | by split | done |].
    intros g G' c1 v e -> W1 Hs1 Ho1 Hn1 He. rewrite seqZ_cons in W1, Ho1 by lia.
    eapply wpf_mono; [eapply wpf_take_level2_slot; [by apply cs_at_upd | done]|].
    intros x s' (-> & c' & -> & W' & Hs' & Hn'). rewrite cs_upd_upd. exists c', e.
    split; [done|]. split; [eapply same_space_trans; [done | apply Hs']|]. split; [exists [v]; by rewrite Hn'|].
    right. eexists. split; [right; by eexists|]. split; [eapply wf_tail_notin; right; by eexists|].
    split; [apply Hs'; eapply chain_slot_open; [done | set_solver]|].
    split; [intros z Hz; apply Ho1; by apply (same_slots_open _ _ _ Hs')|]. right. split; [done|].
    intros z Hz. eapply new_node_closed; [done|]. rewrite <- seqZ_cons in Hz by lia.
    apply elem_of_seqZ in Hz. lia.
  - cs_step. eapply wpf_mono; [by eapply wpf_take_level2_slot|].
    intros x s' (-> & c' & -> & W' & Hs' & Hn'). exists c', (cs_env s). rewrite Hid.
    split; [done|]. split; [apply Hs'|]. split; [by apply gained_none|]. apply Htake; [done | right; by eexists.. | done].
Qed.

Lemma wpf_cspace_free_slot p c F x s :
  cs_at p c s -> wf c F -> x ∉ F -> slot_open c x ->
  wpf R (cspace_free_slot p x) (fun r s' => r = CSPACE_NOERROR /\
    exists c', s' = cs_upd p c' s /\ wf c' (x :: F) /\ same_slots c c' /\ nodes c' = nodes c) s.
Proof.
  intros Hc [W|[G W]] Hx Ho.
  - eapply wpf_mono; [eapply cspace_free_slot_one; try done|].
    { destruct Ho as (? & [[_ ?]|[Hl _]]); [lia|]. pose proof (wf1_levels _ _ W). lia. }
    intros r s' (-> & c' & -> & W' & H). split; [done|]. exists c'. split; [done|]. split; [by left | done].
  - eapply wpf_mono; [by eapply cspace_free_slot_two|].
    intros r s' (-> & c' & -> & W' & H). split; [done|]. exists c'. split; [done|].
    split; [right; by eexists | done].
Qed.
End slots.
