(* ===== verification/CspaceClaims.v ===== *)
(** * CspaceClaims: clients of the capability space library

    Theorems about sequences of calls on a capability space, about the life
    of a space from [cspace_create] to [cspace_destroy], and about the space
    made at boot. *)

From S2P Require Import Prelude SosState Partial Cspace CspaceProofs.

Section clients.
Context {E : Type} `{!CspaceEnv E} `{!CspaceLaws E}.
Local Abbreviation S := (cslib E).
Implicit Types s : S.

(** ** The calls that use a slot *)

(** The space [p] of [s] after some slots were taken or given back. *)
Definition evolved (p : Z) (c : cspace_t) s (c' : cspace_t) s' : Prop :=
  exists e, s' = cs_upd p c' (cs_set_env e s) /\ same_space c c' /\ gained c c' (cs_env s) e.

Lemma evolved_at p c s c' s' : cs_at p c s -> evolved p c s c' s' -> cs_at p c' s'.
Proof. intros [Hp _] (e & -> & _). by apply cs_at_upd. Qed.

Lemma evolved_refl p c s : cs_at p c s -> evolved p c s c s.
Proof.
  intros Hc. exists (cs_env s). replace (cs_set_env (cs_env s) s) with s by by destruct s.
  rewrite cs_upd_same by done. split; [done|]. split; [apply same_space_refl | by apply gained_none].
Qed.

Lemma evolved_trans p c s c1 s1 c2 s2 :
  evolved p c s c1 s1 -> evolved p c1 s1 c2 s2 -> evolved p c s c2 s2.
Proof.
  intros (e & -> & Hs & vs & Hn & Hl) (e' & -> & Hs' & vs' & Hn' & Hl'). exists e'. simpl in Hl'.
  split; [by rewrite cs_upd_env, cs_upd_upd|]. split; [by eapply same_space_trans|].
  exists (vs' ++ vs). rewrite Hn', Hl', Hn, Hl, !(assoc (++)). done.
Qed.

Lemma evolved_env p c s c' s' e : evolved p c s c' s' -> live e = live (cs_env s') ->
  evolved p c s c' (cs_set_env e s').
Proof.
  intros (e' & -> & Hs & vs & Hn & Hl) He. exists e. split; [done|]. split; [done|].
  exists vs. by rewrite He.
Qed.

(** A call that changes nothing the library keeps. *)
Definition quiet (call : Z -> Z -> M S Z) : Prop := forall root slot s r s',
  call root slot s = Ok (r, s') -> exists e, s' = cs_set_env e s /\ live e = live (cs_env s).

(** The slot [x] is handed out, others stay. *)
Definition slot_taken (p : Z) (c : cspace_t) (F : list Z) s (x : Z) s' : Prop :=
  exists c' F', evolved p c s c' s' /\ wf c' F' /\ (x ∉ F') /\ slot_open c' x /\
    (forall y, slot_open c' y -> slot_open c y \/ y ∈ (x :: F')) /\
    (F = (x :: F') \/ F = [] /\ forall y, y ∈ (x :: F') -> ~ slot_open c y).

Lemma alloc_slot_ok p c F s x s' :
  cs_at p c s -> wf c F -> cspace_alloc_slot p s = Ok (x, s') ->
  x = CSPACE_NULL /\ F = [] /\ evolved p c s c s' \/ slot_taken p c F s x s'.
Proof.
  intros Hc W Hx. eapply (wpf_run (fun _ => True)) in Hx; [|by eapply wpf_cspace_alloc_slot].
  destruct Hx as (c' & e & -> & Hs & Hg & [(-> & -> & -> & _)|(F' & W' & ? & ? & ?)]).
  - left. split; [done|]. split; [done|]. by exists e.
  - right. exists c', F'. split; [by exists e | done].
Qed.

Lemma fill_slot_ok p c F s call x s' :
  cs_at p c s -> wf c F -> quiet call -> fill_slot p call s = Ok (x, s') -> slot_taken p c F s x s'.
Proof.
  intros Hc W Hq. unfold fill_slot, bind at 1. destruct (cspace_alloc_slot p s) as [[y s1]|] eqn:E1; [|done].
  unfold bind at 1, c_assert. destruct (Z.eqb_spec y CSPACE_NULL) as [|Hy]; [done|]. simpl.
  destruct (alloc_slot_ok p c F s y s1 Hc W E1) as [(? & _)|(c' & F' & He & W' & H)]; [done|].
  pose proof (evolved_at _ _ _ _ _ Hc He) as [Hp Hc']. unfold bind at 1, cs_load.
  destruct (Z.eqb_spec p 0); [done|]. rewrite Hc'. unfold bind at 1.
  destruct (call (root_cnode c') y s1) as [[r s2]|] eqn:E2; [|done].
  apply Hq in E2 as (e & -> & Hl). unfold bind, sel4_error, c_assert. destruct (r =? 0); [|done].
  intros [= <- <-]. exists c', F'. split; [by apply evolved_env | done].
Qed.

Lemma quiet_ecall (f : Z -> Z -> E -> Z * E) :
  (forall root slot e, live (snd (f root slot e)) = live e) -> quiet (fun root slot => ecall (f root slot)).
Proof.
  intros Hf root slot s r s'. unfold ecall. specialize (Hf root slot (cs_env s)).
  destruct (f root slot (cs_env s)) as [a e]. intros [= <- <-]. by exists e.
Qed.

Lemma quiet_load_ecall q (f : cspace_t -> Z -> Z -> E -> Z * E) :
  (forall c root slot e, live (snd (f c root slot e)) = live e) ->
  quiet (fun root slot => c <- cs_load q ;; ecall (f c root slot)).
Proof.
  intros Hf root slot s r s'. unfold bind, cs_load. destruct (q =? 0); [done|].
  destruct (cspaces s !! q) as [c|]; [|done]. by apply quiet_ecall.
Qed.

Lemma retype_ok p c F s a t b err x s' :
  cs_at p c s -> wf c F -> cspace_ut_retype_addr a t b p s = Ok ((err, Some x), s') -> slot_taken p c F s x s'.
Proof.
  intros Hc W. unfold cspace_ut_retype_addr, bind at 1.
  destruct (cspace_alloc_slot p s) as [[y s1]|] eqn:E1; [|done].
  destruct (Z.eqb_spec y CSPACE_NULL) as [|Hy]; [done|].
  destruct (alloc_slot_ok p c F s y s1 Hc W E1) as [(? & _)|(c' & F' & He & W' & H)]; [done|].
  pose proof (evolved_at _ _ _ _ _ Hc He) as [Hp Hc']. unfold bind at 1, ecall at 1.
  pose proof (live_ut_translate a (cs_env s1)) as Hl.
  destruct (cspace_ut_translate a (cs_env s1)) as [[[e1 ut] off] e]. simpl in Hl.
  assert (evolved p c s c' (cs_set_env e s1)) as He' by by apply evolved_env.
  destruct (e1 =? 0); simpl.
  - unfold bind, cs_load. destruct (Z.eqb_spec p 0); [done|]. simpl. rewrite Hc'. unfold ecall.
    pose proof (fun a1 a2 a3 a4 a5 a6 a7 a8 a9 => live_retype a1 a2 a3 a4 a5 a6 a7 a8 a9 e) as Hr. simpl.
    match goal with |- context [seL4_Untyped_RetypeAtOffset ?a1 ?a2 ?a3 ?a4 ?a5 ?a6 ?a7 ?a8 ?a9 e] =>
      specialize (Hr a1 a2 a3 a4 a5 a6 a7 a8 a9);
      destruct (seL4_Untyped_RetypeAtOffset a1 a2 a3 a4 a5 a6 a7 a8 a9 e) as [r e2] end.
    intros [= _ <- <-]. exists c', F'. split; [|done]. by apply (evolved_env _ _ _ _ (cs_set_env e s1)).
  - intros [= _ <- <-]. exists c', F'. by split.
Qed.

(** What a client of the space [p] that holds the slots [H] can do: it gives
    back only slots it holds. *)
Inductive client (p : Z) : S * gset Z -> S * gset Z -> Prop :=
| client_alloc s H x s' :
    cspace_alloc_slot p s = Ok (x, s') -> x <> CSPACE_NULL -> client p (s, H) (s', {[x]} ∪ H)
| client_full s H s' :
    cspace_alloc_slot p s = Ok (CSPACE_NULL, s') -> client p (s, H) (s', H)
| client_retype s H a t b err x s' :
    cspace_ut_retype_addr a t b p s = Ok ((err, Some x), s') -> client p (s, H) (s', {[x]} ∪ H)
| client_copy s H src cap rights x s' :
    cspace_copy_cap p src cap rights s = Ok (x, s') -> client p (s, H) (s', {[x]} ∪ H)
| client_mint s H src cap rights badge x s' :
    cspace_mint_cap p src cap rights badge s = Ok (x, s') -> client p (s, H) (s', {[x]} ∪ H)
| client_move s H src cap x s' :
    cspace_move_cap p src cap s = Ok (x, s') -> client p (s, H) (s', {[x]} ∪ H)
| client_mutate s H src cap badge x s' :
    cspace_mutate_cap p src cap badge s = Ok (x, s') -> client p (s, H) (s', {[x]} ∪ H)
| client_reply s H x s' :
    cspace_save_reply_cap p s = Ok (x, s') -> client p (s, H) (s', {[x]} ∪ H)
| client_irq s H irq_cap irq x s' :
    cspace_irq_control_get_cap p irq_cap irq s = Ok (x, s') -> client p (s, H) (s', {[x]} ∪ H)
| client_free s H x r s' :
    x ∈ H -> cspace_free_slot p x s = Ok (r, s') -> client p (s, H) (s', H ∖ {[x]})
| client_delete s H x r s' :
    x ∈ H -> cspace_delete_cap p x s = Ok (r, s') -> client p (s, H) (s', H ∖ {[x]}).

(** The slots held are in use, and every other slot is free or was in use
    before, and those in use before stay so. *)
Definition holds (p : Z) (c : cspace_t) (F0 : list Z) s (sH : S * gset Z) : Prop :=
  exists c' F, evolved p c s c' sH.1 /\ wf c' F /\
    (forall x, x ∈ sH.2 -> (x ∉ F) /\ slot_open c' x) /\
    (forall x, slot_open c' x -> x ∈ F \/ x ∈ sH.2 \/ slot_open c x /\ x ∉ F0) /\
    (forall x, x ∈ F \/ x ∈ sH.2 -> slot_open c x -> x ∈ F0).

Lemma holds_taken p c F0 s c1 F s1 H x s2 :
  evolved p c s c1 s1 -> (forall x, x ∈ H -> (x ∉ F) /\ slot_open c1 x) ->
  (forall x, slot_open c1 x -> x ∈ F \/ x ∈ H \/ slot_open c x /\ x ∉ F0) ->
  (forall x, x ∈ F \/ x ∈ H -> slot_open c x -> x ∈ F0) ->
  slot_taken p c1 F s1 x s2 -> holds p c F0 s (s2, {[x]} ∪ H).
Proof.
  intros He HH HF0 HK (c2 & F' & He2 & W & Hx & Ho & Hnew & HF). exists c2, F'.
  split; [by eapply evolved_trans|]. split; [done|]. simpl. split; [|split].
  - intros y [->%elem_of_singleton|Hy]%elem_of_union; [done|]. destruct (HH y Hy) as [Hy1 Hy2].
    destruct He2 as (e2 & _ & (_ & _ & _ & _ & Hopen) & _). split; [|by apply Hopen].
    destruct HF as [->|[-> Hcl]]; [set_solver|]. intros HyF. apply (Hcl y); [set_solver | done].
  - intros y [Hy|Hy]%Hnew; [|set_solver]. destruct (HF0 y Hy) as [HyF|[|]]; [|set_solver|by right; right].
    destruct HF as [->|[-> _]]; set_solver.
  - intros y Hy Hyo. destruct (decide (y ∈ H)); [by apply HK; [right|]|].
    destruct HF as [->|[-> Hcl]]; [apply HK; set_solver|]. destruct (Hcl y); [set_solver|].
    destruct He as (e & _ & (_ & _ & _ & _ & Hopen) & _). by apply Hopen.
Qed.

Lemma holds_freed p c F0 s c1 F s1 (H : gset Z) x r s2 :
  evolved p c s c1 s1 -> cs_at p c1 s1 -> wf c1 F -> (forall x, x ∈ H -> (x ∉ F) /\ slot_open c1 x) ->
  (forall x, slot_open c1 x -> x ∈ F \/ x ∈ H \/ slot_open c x /\ x ∉ F0) ->
  (forall x, x ∈ F \/ x ∈ H -> slot_open c x -> x ∈ F0) -> x ∈ H ->
  cspace_free_slot p x s1 = Ok (r, s2) -> holds p c F0 s (s2, H ∖ {[x]}).
Proof.
  intros He Hc W HH HF0 HK Hx Hf. destruct (HH x Hx) as [Hx1 Hx2].
  eapply (wpf_run (fun _ => True)) in Hf; [|by eapply wpf_cspace_free_slot].
  destruct Hf as (_ & c2 & -> & W2 & Hs & Hn). exists c2, (x :: F). simpl.
  split; [|split; [done|split; [|split]]].
  - eapply evolved_trans; [done|]. exists (cs_env s1).
    split; [by destruct s1|]. split; [apply Hs | by apply gained_none].
  - intros y [Hy Hyx]%elem_of_difference. destruct (HH y Hy). split; [set_solver | by apply Hs].
  - intros y Hy%(same_slots_open _ _ _ Hs). destruct (decide (y = x)) as [->|]; [set_solver|].
    destruct (HF0 y Hy) as [|[|]]; [set_solver | set_solver | by right; right].
  - intros y Hy. apply HK. set_solver.
Qed.

Ltac taken_by law Hx :=
  eapply fill_slot_ok; [eassumption | eassumption | | exact Hx];
  (apply quiet_load_ecall || apply quiet_ecall); intros; apply law.

Lemma holds_step p c F0 s sH sH' : cs_at p c s -> holds p c F0 s sH -> client p sH sH' -> holds p c F0 s sH'.
Proof.
  intros Hc (c1 & F & He & W & HH & HF0 & HK) Hstep. pose proof (evolved_at _ _ _ _ _ Hc He) as Hc1.
  destruct Hstep as [s1 H x s2 Hx Hx0|s1 H s2 Hx|s1 H a t b err x s2 Hx|s1 H src cap rights x s2 Hx
    |s1 H src cap rights badge x s2 Hx|s1 H src cap x s2 Hx|s1 H src cap badge x s2 Hx|s1 H x s2 Hx
    |s1 H irq_cap irq x s2 Hx|s1 H x r s2 HxH Hx|s1 H x r s2 HxH Hx]; simpl in *.
  10: by eapply holds_freed.
  10: { unfold cspace_delete_cap, bind at 1, c_assert in Hx. destruct (negb (p =? 0)); [|done]. simpl in Hx.
    unfold bind at 1, cs_load in Hx. destruct (Z.eqb_spec p 0); [done|]. rewrite (proj2 Hc1) in Hx.
    unfold bind at 1, ecall in Hx. pose proof (live_delete (root_cnode c1) x CSPACE_DEPTH (cs_env s1)) as Hl.
    destruct (seL4_CNode_Delete (root_cnode c1) x CSPACE_DEPTH (cs_env s1)) as [r1 e1].
    unfold bind, sel4_error, c_assert in Hx. destruct (r1 =? 0); [|done]. simpl in Hx.
    eapply (holds_freed p c F0 s c1 F (cs_set_env e1 s1)); [|done..]. by apply evolved_env. }
  2: { destruct (alloc_slot_ok p c1 F s1 _ s2 Hc1 W Hx) as [(_ & -> & He2)|HT].
    - exists c1, []. by split; [eapply evolved_trans|].
    - destruct HT as (c2 & F' & _ & _ & _ & [Ho _] & _). unfold CSPACE_NULL in Ho. lia. }
  all: eapply holds_taken; [done..|].
  - by destruct (alloc_slot_ok p c1 F s1 x s2 Hc1 W Hx) as [[? _]|?].
  - by eapply retype_ok.
  - unfold cspace_copy_cap, bind at 1, c_assert in Hx. destruct (_ && _); [|done]. taken_by live_copy Hx.
  - unfold cspace_mint_cap, bind at 1, c_assert in Hx. destruct (_ && _); [|done]. taken_by live_mint Hx.
  - unfold cspace_move_cap, bind at 1, c_assert in Hx. destruct (_ && _); [|done]. taken_by live_move Hx.
  - unfold cspace_mutate_cap, bind at 1, c_assert in Hx. destruct (_ && _); [|done]. taken_by live_mutate Hx.
  - taken_by live_save_caller Hx.
  - taken_by live_irq_get Hx.
Qed.

Lemma holds_reachable p c F s s' (H : gset Z) :
  cs_at p c s -> wf c F -> rtc (client p) (s, ∅) (s', H) -> holds p c F s (s', H).
Proof.
  intros Hc W Hr. assert (holds p c F s (s, ∅)) as H0.
  { exists c, F. split; [by apply evolved_refl|]. split; [done|]. simpl. split; [set_solver|].
    split; [intros x Hx; destruct (decide (x ∈ F)); auto | set_solver]. }
  induction Hr as [|x y z Hxy _ IH]; [done|]. apply IH. by eapply holds_step.
Qed.

(** C14: a client that gives back only slots it holds is never handed a slot
    it already holds or that was in use before it started; the slots are
    valid and non-null.  The null result means that every slot of the (one
    level) space is in use.  Giving back a held slot always succeeds, and no
    sequence of calls leads to an invalid access: a failed assertion is the
    only way [cspace_alloc_slot] can stop. *)
Theorem cspace_slots_spec p c F s s' (H : gset Z) :
  cs_at p c s -> wf c F -> rtc (client p) (s, ∅) (s', H) ->
  wpf (eq FAssert) (cspace_alloc_slot p) (fun x _ =>
    if decide (x = CSPACE_NULL) then
      levels c = 1 /\ forall y, 1 <= y < 1024 -> y ∈ H \/ y ∉ F
    else 1 <= x < 1048576 /\ (x ∉ H) /\ (slot_open c x -> x ∈ F)) s' /\
  forall x, x ∈ H -> wp (cspace_free_slot p x) (fun r _ => r = CSPACE_NOERROR) s'.
Proof.
  intros Hc W Hr. destruct (holds_reachable p c F s s' H Hc W Hr) as (c' & F' & He & W' & HH & HF & HK).
  pose proof (evolved_at _ _ _ _ _ Hc He) as Hc'. simpl in *. split.
  - eapply wpf_mono; [by eapply wpf_cspace_alloc_slot|].
    intros x s1 (c1 & e & _ & _ & _ & [(-> & -> & -> & Hl)|(F1 & _ & _ & Hx & Hnew & HF1)]).
    + rewrite decide_True by done. destruct He as (e0 & _ & (Hl' & _ & _ & _ & Hop) & _).
      split; [congruence|]. intros y Hy. destruct (HF y); [|set_solver|tauto].
      apply Hop. split; [lia|]. left. split; [congruence | lia].
    + rewrite decide_False by (intros ->; destruct Hx as [Hx _]; unfold CSPACE_NULL in Hx; lia).
      split; [destruct Hx as (? & [[_ ?]|(_ & ? & _)]); lia|].
      destruct HF1 as [->|[-> Hcl]]; [set_solver|].
      assert (~ slot_open c' x) as Hno by (apply Hcl; set_solver). split; [by intros [_ ?]%HH|].
      intros Ho. destruct Hno. destruct He as (e0 & _ & (_ & _ & _ & _ & Hop) & _). by apply Hop.
  - intros x Hx. destruct (HH x Hx). apply wpf_wp. eapply wpf_mono; [by eapply wpf_cspace_free_slot|].
    by intros r s1 [? _].
Qed.
End clients.
