(* ===== verification/CspaceBoot.v ===== *)
(** * CspaceBoot: making and destroying capability spaces

    [cspace_root_task_bootstrap], [cspace_create] and [cspace_destroy]: a new
    space has the free slots its contract promises, the bootstrap goes wrong
    when the slots in use fill their nodes, and the memory of a space is given
    back. *)

From S2P Require Import Prelude SosState Partial Cspace CspaceProofs CspaceClaims.

(** The table of first level of a new space: each index is linked to the next. *)
Definition fresh_level1 (L : list Z) : Prop :=
  length L = 1024%nat /\ (forall i, 0 <= i < 1023 -> L !z i = Some (i + 1)) /\
  L !z 1023 = Some (u32 CSPACE_NOSLOT).

Lemma fresh_level1_chain c L i :
  fresh_level1 L -> 0 <= i < 1024 -> (forall j, i <= j < 1024 -> level1_alloc_table c !z j = L !z j) ->
  chain (next1 c) i (seqZ i (1024 - i)) CSPACE_NOSLOT.
Proof.
  intros (Hlen & HL & Hlast) Hi Heq. apply chain_seqZ; [lia | |].
  - intros y Hy. unfold next1. rewrite Heq, HL by lia. simpl. by rewrite i32_small by lia.
  - replace (i + (1024 - i) - 1) with 1023 by lia. unfold next1. rewrite Heq, Hlast by lia. done.
Qed.

(** The memory of a space whose first [n] nodes of second level exist. *)
Lemma level2_nodes_prefix (L : list Z) (T : list (option (list Z))) n :
  length T = length L ->
  (forall k, (k < n)%nat -> (k < length T)%nat -> exists t, T !! k = Some (Some t)) ->
  (forall k, (n <= k)%nat -> (k < length T)%nat -> T !! k = Some None) ->
  level2_nodes L T = take n L.
Proof.
  revert L n. induction T as [|t T IH]; intros [|a L] n Hlen Hs Hn; try done; simpl in *.
  { by rewrite take_nil. }
  destruct n as [|n]; simpl.
  - specialize (Hn 0%nat) as Ht. simpl in Ht. rewrite (IH L 0%nat); [|lia| |].
    + destruct t; [|done]. by specialize (Ht ltac:(lia) ltac:(lia)).
    + lia.
    + intros k _ Hk. apply (Hn (S k)); lia.
  - rewrite (IH L n); [|lia| |].
    + destruct (Hs 0%nat) as [t' Ht]; [lia | lia |]. simpl in Ht. by simplify_eq.
    + intros k Hk Hkl. apply (Hs (S k)); lia.
    + intros k Hk Hkl. apply (Hn (S k)); lia.
Qed.

Section boot.
Context {E : Type} `{!CspaceEnv E} `{!CspaceLaws E} (R : fault -> Prop) (HR : R FAssert).
Local Abbreviation S := (cslib E).
Implicit Types s : S.

Lemma wpf_link_level1 p c Q s :
  cs_at p c s -> length (level1_alloc_table c) = 1024%nat ->
  (forall L, fresh_level1 L -> Q tt (cs_upd p (set_level1 L c) s)) ->
  wpf R (link_level1 p) Q s.
Proof.
  intros [Hp Hc] Hlen HQ. unfold link_level1. cs_step. rewrite node_slots.
  apply (wpf_for_up R (fun i s' => exists L, length L = 1024%nat /\
    (forall j, 0 <= j < i -> L !z j = Some (j + 1)) /\ s' = cs_upd p (set_level1 L c) s)); [lia | | |].
  - exists (level1_alloc_table c). split; [done|]. split; [lia|]. symmetry. replace (set_level1 _ c) with c by by destruct c.
    by apply cs_upd_same.
  - intros i s' Hi (L & HL & Hj & ->).
    eapply wpf_set_level1_entry; [by apply cs_at_upd | simpl; lia |]. rewrite cs_upd_upd.
    eexists. split; [|split; [|done]]; [by rewrite length_insertZ|]. intros j Hji. simpl.
    rewrite lookupZ_insertZ by lia. case_decide; [|apply Hj; lia].
    subst. rewrite u32_small; [done | unfold is_u32; lia].
  - intros s' (L & HL & Hj & ->). eapply wpf_set_level1_entry; [by apply cs_at_upd | simpl; lia |].
    rewrite cs_upd_upd. apply (HQ (insertZ 1023 (u32 CSPACE_NOSLOT) L)). split; [by rewrite length_insertZ|]. split.
    + intros i Hi. rewrite lookupZ_insertZ_ne by lia. by apply Hj.
    + apply lookupZ_insertZ_eq. lia.
Qed.

Lemma wpf_malloc_cspace Q s :
  (forall p c e, p <> 0 -> cspaces s !! p = None -> length (level1_alloc_table c) = 1024%nat ->
     length (level2_alloc_tables c) = 1024%nat -> live e = live (cs_env s) ->
     Q p (cs_upd p c (cs_set_env e s))) ->
  Q 0 (cs_set_env (snd (cspace_malloc (cs_env s))) s) ->
  wpf R malloc_cspace Q s.
Proof.
  intros HQ H0. unfold malloc_cspace. cs_steps. destruct (fst (cspace_malloc (cs_env s))); [|done].
  cs_steps.
  apply (HQ _ garbage_cspace); [apply Z.neq_sym, Z.lt_neq, new_ptr_pos | apply new_ptr_fresh | apply length_new_table | | apply live_malloc].
  cbn [garbage_cspace level2_alloc_tables]. by rewrite length_map, length_seqZ.
Qed.

(** *** The nodes and capabilities of the boot space *)

Variables (empty_start empty_end : Z).
Hypothesis Hstart : 1 <= empty_start <= 1047552.

Definition boot_count : Z := (empty_start - 1) / 1024 + 1.

Lemma boot_count_eq : leaf_index (u32 (empty_start - 1)) + 1 = boot_count.
Proof using Hstart. rewrite u32_small by (unfold is_u32; lia). by rewrite leaf_index_div. Qed.

Lemma boot_count_range : 1 <= boot_count <= 1023.
Proof using Hstart. unfold boot_count. Z.to_euclidean_division_equations; lia. Qed.

Lemma wpf_boot_nodes p c l1 Q s :
  cs_at p c s -> fresh_level1 (level1_alloc_table c) ->
  (forall a L e, length L = 1024%nat ->
     (forall j, boot_count <= j -> L !z j = level1_alloc_table c !z j) ->
     live e ≡ₚ a :: take (Z.to_nat boot_count) L ++ live (cs_env s) ->
     Q tt (cs_upd p (set_next1 boot_count (set_level1 L (set_root_cnode seL4_CapInitThreadCNode (set_addr a c))))
             (cs_set_env e s))) ->
  wpf R (boot_nodes empty_start p l1) Q s.
Proof using HR Hstart.
  intros [Hp Hc] (Hlen & _) HQ. pose proof boot_count_range as Hcnt. unfold boot_nodes. cs_step.
  apply wpf_alloc_node; [done|]. intros a ut off e _ _ He. cs_steps.
  apply wpf_may_assert; [done|]. intros _. rewrite boot_count_eq.
  set (e1 := snd _). assert (live e1 = live e) as He1 by apply live_retype. clearbody e1. cs_step.
  set (c1 := set_root_cnode _ _).
  apply (wpf_for_up R (fun i s' => exists L e', length L = 1024%nat /\
    (forall j, i <= j -> L !z j = level1_alloc_table c !z j) /\
    live e' ≡ₚ a :: take (Z.to_nat i) L ++ live (cs_env s) /\
    s' = cs_upd p (set_level1 L c1) (cs_set_env e' s))); [lia | | |].
  - exists (level1_alloc_table c), e1. split; [done|]. split; [done|]. split; [by rewrite He1|]. done.
  - intros i s' Hi (L & e' & HL & Hj & He' & ->). cs_step.
    apply wpf_alloc_node; [done|]. intros b ut' off' e2 _ Hb He2. rewrite cs_upd_env. cs_step.
    eapply wpf_set_level1_entry; [by apply cs_at_upd | simpl; lia |]. rewrite cs_upd_upd, u32_small by done.
    cs_steps. apply wpf_may_assert; [done|]. intros _. eexists (insertZ i b L), _.
    split; [by rewrite length_insertZ|]. split; [|split; [|done]].
    + intros j Hij. rewrite lookupZ_insertZ_ne by lia. apply Hj. lia.
    + rewrite live_retype. simpl. rewrite He2. simpl. rewrite He'. unfold insertZ.
      destruct (Z.leb_spec 0 i); [|lia]. replace (Z.to_nat (i + 1)) with (Datatypes.S (Z.to_nat i)) by lia.
      rewrite (take_S_r _ _ b) by (apply list_lookup_insert_eq; lia). rewrite take_insert_ge by lia.
      rewrite <- (assoc (++)). simpl. rewrite Permutation_swap. f_equiv. apply Permutation_middle.
  - intros s' (L & e' & HL & Hj & He' & ->). cs_steps. rewrite i32_small by lia. by apply HQ.
Qed.

Lemma wpf_boot_move p c l1 Q s :
  cs_at p c s ->
  (forall g e, live e = live (cs_env s) -> Q tt (cs_upd p (set_guard g c) (cs_set_env e s))) ->
  wpf R (boot_move empty_start p l1) Q s.
Proof using HR Hstart.
  intros [Hp Hc] HQ. unfold boot_move. cs_steps. apply wpf_may_assert; [done|]. intros _. cs_steps.
  apply wpf_may_assert; [done|]. intros _. cs_steps. apply wpf_may_assert; [done|]. intros _. cs_steps.
  set (e1 := snd (seL4_TCB_SetSpace _ _ _ _ _ _ _)).
  assert (live e1 = live (cs_env s)) as He1.
  { unfold e1. rewrite live_set_space. simpl. rewrite live_mint. simpl. by rewrite live_copy. }
  clearbody e1. set (g := seL4_CapData_Guard_new _ _).
  apply (wpf_for_up R (fun i s' => exists e, live e = live (cs_env s) /\ s' = cs_upd p (set_guard g c) (cs_set_env e s)));
    [lia | by exists e1 | |].
  - intros i s' Hi (e & He & ->). destruct (_ || _); [cs_step; by exists e|]. cs_steps.
    apply wpf_may_assert; [done|]. intros _. eexists. split; [|done]. by rewrite live_move.
  - intros s' (e & He & ->). cs_steps. apply wpf_may_assert; [done|]. intros _. apply HQ.
    by rewrite live_delete.
Qed.

(** *** The tables of the boot space *)

(** The tables of the slots below [j] exist. *)
Definition tables_below (j : Z) (T : list (option (list Z))) : Prop :=
  length T = 1024%nat /\
  forall k, 0 <= k < (j + 1023) / 1024 -> exists t, T !z k = Some (Some t) /\ length t = 1024%nat.

Definition marked (p : Z) (c : cspace_t) s (j i : Z) s' : Prop :=
  (j = 0 \/ i = (j - 1) / 1024) /\ exists T e, tables_below j T /\ live e = live (cs_env s) /\
    s' = cs_upd p (set_level2 T c) (cs_set_env e s).

Lemma marked_store p c s j T e :
  p <> 0 -> 0 <= j -> tables_below (j + 1) T -> live e = live (cs_env s) ->
  wpf R (set_level2_entry p (j / 1024) (CSPACE_LEAF_OFFSET j) 0 ;;; ret (j / 1024)) (marked p c s (j + 1))
    (cs_upd p (set_level2 T c) (cs_set_env e s)).
Proof.
  intros Hp Hj [HT Hk] He. cs_step. destruct (Hk (j / 1024)) as (t & Ht & Htl).
  { Z.to_euclidean_division_equations; lia. }
  eapply wpf_set_level2_entry; [by apply cs_at_upd | done | |].
  { rewrite leaf_offset_mod. pose proof (Z.mod_pos_bound j 1024). lia. }
  rewrite cs_upd_upd. cs_step. split; [right; f_equal; lia|].
  eexists _, e. split; [|split; [done|done]]. split; [by rewrite length_insertZ|].
  intros k Hk2. simpl. rewrite lookupZ_insertZ by (by eapply lookupZ_lt).
  case_decide; [|by apply Hk]. eexists. split; [done|]. by rewrite length_insertZ.
Qed.

Lemma marked_step p c s j i s' :
  p <> 0 -> 0 <= j < 1047552 -> marked p c s j i s' -> wpf R (mark_slot p j i) (marked p c s (j + 1)) s'.
Proof using HR.
  intros Hp Hj (Hi & T & e & [HT Hk] & He & ->). unfold mark_slot. cs_step.
  destruct (decide (j mod 1024 = 0)) as [Hz|Hz].
  - assert (0 <= leaf_index j < 1024) as Hlj.
    { rewrite leaf_index_div. Z.to_euclidean_division_equations; lia. }
    eapply enter_table_new; [done | by apply cs_at_upd | done | done | by rewrite leaf_offset_mod |].
    intros e' t He' Ht. rewrite cs_upd_env, cs_upd_upd. rewrite leaf_index_div in *. simpl.
    apply (marked_store p c s j (insertZ (j / 1024) (Some t) T) e'); [done | lia | | by rewrite He'].
    split; [by rewrite length_insertZ|]. intros k Hk2. rewrite lookupZ_insertZ by lia.
    case_decide as Hne; [eauto|]. apply Hk. revert Hz Hk2 Hne. clear. intros.
    Z.to_euclidean_division_equations; lia.
  - apply enter_table_old; [by rewrite leaf_offset_mod|].
    replace i with (j / 1024); [apply marked_store; [done | lia | | done]|].
    + split; [done|]. intros k Hk2. apply Hk. revert Hz Hk2. clear. intros.
      Z.to_euclidean_division_equations; lia.
    + destruct Hi as [->| ->]; [done|]. revert Hz. clear. intros. Z.to_euclidean_division_equations; lia.
Qed.

Lemma wpf_mark_slots p c i Q s :
  cs_at p c s -> length (level2_alloc_tables c) = 1024%nat ->
  (forall T e, tables_below empty_start T -> live e = live (cs_env s) ->
     Q ((empty_start - 1) / 1024) (cs_upd p (set_level2 T c) (cs_set_env e s))) ->
  wpf R (for_carry 0 empty_start (mark_slot p) i) Q s.
Proof using HR Hstart.
  intros [Hp Hc] Hlen HQ. apply (wpf_for_carry R (marked p c s)); [lia | | |].
  - split; [by left|]. exists (level2_alloc_tables c), (cs_env s). split; [|split; [done|]].
    + split; [done|]. intros k Hk. change ((0 + 1023) / 1024) with 0 in Hk. lia.
    + destruct c, s; simpl in *. symmetry. by apply cs_upd_same.
  - intros j i' s' Hj. apply marked_step; [done | lia].
  - intros i' s' ([?|Hi] & T & e & HT & He & ->); [lia|]. rewrite Hi. by apply HQ.
Qed.

Lemma wpf_null_tables p c lo Q s :
  cs_at p c s -> length (level2_alloc_tables c) = 1024%nat -> 0 <= lo <= 1024 ->
  (forall T, length T = 1024%nat -> (forall k, k < lo -> T !z k = level2_alloc_tables c !z k) ->
     (forall k, lo <= k < 1024 -> T !z k = Some None) -> Q tt (cs_upd p (set_level2 T c) s)) ->
  wpf R (for_up lo CSPACE_NODE_SIZE_IN_SLOTS (fun i => set_level2_table p i None)) Q s.
Proof.
  intros [Hp Hc] Hlen Hlo HQ. rewrite node_slots.
  apply (wpf_for_up R (fun i s' => exists T, length T = 1024%nat /\
    (forall k, k < lo -> T !z k = level2_alloc_tables c !z k) /\
    (forall k, lo <= k < i -> T !z k = Some None) /\ s' = cs_upd p (set_level2 T c) s)); [lia | | |].
  - exists (level2_alloc_tables c). split; [done|]. split; [done|]. split; [lia|].
    destruct c. symmetry. by apply cs_upd_same.
  - intros i s' Hi (T & HT & Hk & Hn & ->).
    eapply wpf_set_level2_table; [by apply cs_at_upd | simpl; lia |]. rewrite cs_upd_upd. simpl.
    eexists. split; [|split; [|split; [|done]]]; [by rewrite length_insertZ| |].
    + intros k Hk2. rewrite lookupZ_insertZ_ne by lia. by apply Hk.
    + intros k Hk2. rewrite lookupZ_insertZ by lia. case_decide; [done|]. apply Hn. lia.
  - intros s' (T & HT & Hk & Hn & ->). by apply HQ.
Qed.

(** The free list of the last node, when it is not full. *)
Lemma wpf_boot_tables p c Q s :
  cs_at p c s -> length (level2_alloc_tables c) = 1024%nat -> next_level1_free_index c = boot_count ->
  empty_start mod 1024 <> 0 ->
  (forall T e, length T = 1024%nat -> live e = live (cs_env s) ->
     let c' := set_level2 T (set_num (1024 - empty_start mod 1024) (set_next2 empty_start c)) in
     (forall k, 0 <= k < boot_count -> exists t, T !z k = Some (Some t) /\ length t = 1024%nat) ->
     (forall k, boot_count <= k < 1024 -> T !z k = Some None) ->
     chain (next2 c') empty_start (seqZ empty_start (1024 - empty_start mod 1024)) CSPACE_NULL ->
     Q tt (cs_upd p c' (cs_set_env e s))) ->
  wpf R (boot_tables empty_start p) Q s.
Proof using HR Hstart.
  intros [Hp Hc] Hlen Hn1 Hmod HQ. pose proof boot_count_range as Hcnt. unfold boot_tables. cs_step.
  eapply wpf_mark_slots; [by split | done |]. intros T e [HT Hk] He. cs_steps. rewrite leaf_offset_mod, node_slots.
  rewrite i32_small by lia. set (g := (empty_start - 1) / 1024).
  assert (g = empty_start / 1024 /\ boot_count = g + 1 /\ (empty_start + 1023) / 1024 = g + 1) as (Hg & Hb & Hb').
  { unfold boot_count, g. revert Hmod. clear. intros. Z.to_euclidean_division_equations; lia. }
  assert (empty_start = g * 1024 + empty_start mod 1024) as Heq.
  { rewrite Hg. clear. Z.to_euclidean_division_equations; lia. }
  replace (empty_start + (1024 - 1 - empty_start mod 1024)) with (g * 1024 + 1023) by lia.
  set (c1 := set_num _ _). destruct (Hk g) as (t & Ht & Htl); [lia|]. pose proof (Z.mod_pos_bound empty_start 1024).
  apply (wpf_for_up R (fun j s' => linked g empty_start j p c1 (cs_set_env e s) s')); [lia | | |].
  - exists t. split; [done|]. split; [lia|]. f_equal. unfold c1. simpl.
    rewrite insertZ_id by done. done.
  - intros j s' Hj Hl. by apply linked_step; [done | lia | done | lia | lia |].
  - intros s' Hl. cs_step. eapply linked_chain; [done | lia | | | exact Hl |]; [done | lia |].
    intros c' (t' & Ht' & ->) Hch. cs_step. eapply wpf_cs_load; [by apply cs_at_upd|]. simpl.
    rewrite Hn1, u32_small by (unfold is_u32; lia).
    eapply wpf_null_tables; [by apply cs_at_upd | simpl; by rewrite length_insertZ | lia |].
    intros T' HT' Hlow Hhigh. rewrite cs_upd_upd. simpl in Hlow. apply HQ; [done | done | | done |].
    + intros k Hk2. rewrite Hlow by lia. rewrite lookupZ_insertZ by lia. case_decide; [eauto|]. apply Hk. lia.
    + replace (1024 - empty_start mod 1024) with (g * 1024 + 1024 - empty_start) by lia.
      eapply chain_ext; [|exact Hch]. intros y Hy%elem_of_seqZ. unfold next2. simpl.
      rewrite leaf_index_div, Hlow; [done|]. rewrite Hb. Z.to_euclidean_division_equations; lia.
Qed.

(** When the last node is full, its table is overwritten and the next slot lies
    in a node that does not exist. *)
Lemma wpf_boot_tables_full p c Q s :
  cs_at p c s -> length (level2_alloc_tables c) = 1024%nat -> next_level1_free_index c = boot_count ->
  empty_start mod 1024 = 0 ->
  (forall T e, T !z (empty_start / 1024) = Some None ->
     Q tt (cs_upd p (set_level2 T (set_num 1024 (set_next2 empty_start c))) (cs_set_env e s))) ->
  wpf R (boot_tables empty_start p) Q s.
Proof using HR Hstart CspaceLaws0.
  intros [Hp Hc] Hlen Hn1 Hmod HQ. pose proof boot_count_range as Hcnt. unfold boot_tables. cs_step.
  eapply wpf_mark_slots; [by split | done |]. intros T e [HT Hk] He. cs_steps. rewrite leaf_offset_mod, node_slots.
  rewrite i32_small by lia. rewrite Hmod. set (g := (empty_start - 1) / 1024).
  assert (boot_count = g + 1 /\ (empty_start + 1023) / 1024 = g + 1 /\ empty_start / 1024 = g + 1) as (Hb & Hb' & Hb2).
  { unfold boot_count, g. revert Hmod. clear. intros. Z.to_euclidean_division_equations; lia. }
  set (c1 := set_num _ _). destruct (Hk g) as (t & Ht & Htl); [lia|].
  assert (forall j, 0 <= j mod 1024 < 1024) as Hm by (intros; apply Z.mod_pos_bound; lia).
  change (1024 - 0) with 1024 in c1.
  apply (wpf_for_up R (fun j s' => exists t', length t' = 1024%nat /\
    s' = cs_upd p (set_level2 (insertZ g (Some t') T) c1) (cs_set_env e s))); [lia | | |].
  - exists t. split; [done|]. rewrite insertZ_id by done. done.
  - intros j s' Hj (t' & Ht' & ->). rewrite leaf_offset_mod. eapply wpf_set_level2_entry;
      [by apply cs_at_upd | apply lookupZ_insertZ_eq; lia | rewrite Ht'; apply Hm |].
    rewrite cs_upd_upd. simpl. rewrite insertZ_insertZ. eexists. split; [|done]. by rewrite length_insertZ.
  - intros s' (t' & Ht' & ->). cs_step. rewrite leaf_offset_mod. eapply wpf_set_level2_entry;
      [by apply cs_at_upd | apply lookupZ_insertZ_eq; lia | rewrite Ht'; apply Hm |].
    rewrite cs_upd_upd. simpl. rewrite insertZ_insertZ. cs_step. eapply wpf_cs_load; [by apply cs_at_upd|]. simpl.
    rewrite Hn1, u32_small by (unfold is_u32; lia).
    eapply wpf_null_tables; [by apply cs_at_upd | simpl; by rewrite length_insertZ | lia |].
    intros T' HT' Hlow Hhigh. rewrite cs_upd_upd. apply HQ. apply Hhigh. lia.
Qed.

(** What is left after the nodes are made and the capabilities moved. *)
Lemma wpf_bootstrap Q s :
  (forall p c e L, p <> 0 -> cspaces s !! p = None -> levels c = 2 -> length (level1_alloc_table c) = 1024%nat ->
     fresh_level1 L -> (forall j, boot_count <= j -> level1_alloc_table c !z j = L !z j) ->
     length (level2_alloc_tables c) = 1024%nat -> next_level1_free_index c = boot_count ->
     live e ≡ₚ addr c :: take (Z.to_nat boot_count) (level1_alloc_table c) ++ live (cs_env s) ->
     wpf R (boot_tables empty_start p) (fun _ s' => Q CSPACE_NOERROR (Cslib (cspaces s') p (cs_env s')))
       (cs_upd p c (cs_set_env e s))) ->
  wpf R (cspace_root_task_bootstrap empty_start empty_end) Q s.
Proof using HR Hstart CspaceLaws0.
  intros HQ. unfold cspace_root_task_bootstrap. cs_step. apply wpf_may_assert; [done|]. intros _. cs_step.
  apply wpf_malloc_cspace.
  2: { cs_step. by apply wpf_may_assert. }
  intros p c e Hp Hnew Hl1 Hl2 He. cs_step. apply wpf_assert; [by destruct (Z.eqb_spec p 0)|]. cs_steps.
  eapply wpf_link_level1; [by apply cs_at_upd | done |]. intros L HL. rewrite cs_upd_upd. cs_step.
  eapply wpf_boot_nodes; [by apply cs_at_upd | done |]. intros a L' e1 HL' Heq He1. rewrite cs_upd_env, cs_upd_upd. cs_step.
  eapply wpf_boot_move; [by apply cs_at_upd|]. intros g e2 He2. rewrite cs_upd_env, cs_upd_upd. cs_step.
  eapply wpf_mono; [eapply (HQ p _ e2 L); try done|].
  - simpl. rewrite He2. simpl. rewrite He1. simpl. by rewrite He.
  - intros [] s' Hs'. by cs_steps.
Qed.
End boot.

(** The space that results. *)
Lemma boot_space_wf n c T L :
  1 <= n <= 1047552 -> n mod 1024 <> 0 -> levels c = 2 -> length (level1_alloc_table c) = 1024%nat ->
  fresh_level1 L -> (forall j, boot_count n <= j -> level1_alloc_table c !z j = L !z j) ->
  next_level1_free_index c = boot_count n -> length T = 1024%nat ->
  (forall k, 0 <= k < boot_count n -> exists t, T !z k = Some (Some t) /\ length t = 1024%nat) ->
  (forall k, boot_count n <= k < 1024 -> T !z k = Some None) ->
  let c' := set_level2 T (set_num (1024 - n mod 1024) (set_next2 n c)) in
  chain (next2 c') n (seqZ n (1024 - n mod 1024)) CSPACE_NULL ->
  wf2 c' (seqZ n (1024 - n mod 1024)) (seqZ (boot_count n) (1024 - boot_count n)).
Proof.
  intros Hn Hmod Hl Hl1 HL Heq Hn1 HT Hlow Hhigh c' Hch. pose proof (boot_count_range n Hn) as Hcnt.
  pose proof (Z.mod_pos_bound n 1024). split; try done.
  - intros i t Ht. simpl in Ht. pose proof (lookupZ_lt _ _ _ Ht).
    destruct (Z.lt_ge_cases i (boot_count n)); [|rewrite Hhigh in Ht by lia; done].
    destruct (Hlow i) as (t' & Ht' & Hlen); [lia|]. congruence.
  - apply NoDup_seqZ.
  - apply Forall_forall. intros x Hx%elem_of_seqZ. revert Hx Hn. clear. intros.
    Z.to_euclidean_division_equations; lia.
  - simpl. rewrite length_seqZ. lia.
  - simpl. rewrite Hn1. apply (fresh_level1_chain _ L); [done | lia |]. intros j Hj. apply Heq. lia.
  - apply NoDup_seqZ.
  - apply Forall_forall. intros g Hg%elem_of_seqZ. split; [lia|]. apply Hhigh. lia.
Qed.

Lemma boot_space_nodes n c T :
  1 <= n <= 1047552 -> levels c = 2 -> length (level1_alloc_table c) = 1024%nat -> length T = 1024%nat ->
  (forall k, 0 <= k < boot_count n -> exists t, T !z k = Some (Some t) /\ length t = 1024%nat) ->
  (forall k, boot_count n <= k < 1024 -> T !z k = Some None) ->
  nodes (set_level2 T c) = addr c :: take (Z.to_nat (boot_count n)) (level1_alloc_table c).
Proof.
  intros Hn Hl Hl1 HT Hlow Hhigh. pose proof (boot_count_range n Hn). unfold nodes. simpl. rewrite Hl. simpl. f_equal.
  apply level2_nodes_prefix; [congruence | |]; intros k Hk Hkl.
  - destruct (Hlow (Z.of_nat k)) as (t & Ht & _); [lia|]. exists t. rewrite <- Ht. unfold lookupZ.
    destruct (Z.leb_spec 0 (Z.of_nat k)); [|lia]. by rewrite Nat2Z.id.
  - rewrite <- (Hhigh (Z.of_nat k)) by lia. unfold lookupZ.
    destruct (Z.leb_spec 0 (Z.of_nat k)); [|lia]. by rewrite Nat2Z.id.
Qed.

Lemma boot_space_open n c T x :
  1 <= n <= 1047552 -> n mod 1024 <> 0 -> levels c = 2 ->
  (forall k, 0 <= k < boot_count n -> exists t, T !z k = Some (Some t) /\ length t = 1024%nat) ->
  (forall k, boot_count n <= k < 1024 -> T !z k = Some None) ->
  slot_open (set_level2 T c) x <-> 1 <= x < (n / 1024 + 1) * 1024.
Proof.
  intros Hn Hmod Hl Hlow Hhigh. assert (boot_count n = n / 1024 + 1) as Hb.
  { unfold boot_count. revert Hmod. clear. intros. Z.to_euclidean_division_equations; lia. }
  pose proof (boot_count_range n Hn). unfold slot_open. simpl. rewrite leaf_index_div, Hl, <- Hb. split.
  - intros [Hx [[? _]|(_ & Hx2 & t & Ht)]]; [done|]. split; [done|].
    destruct (Z.lt_ge_cases (x / 1024) (boot_count n)) as [Hlt|Hge].
    + revert Hlt. clear. intros. Z.to_euclidean_division_equations; lia.
    + rewrite Hhigh in Ht; [done|]. split; [done|]. revert Hx2. clear. intros. Z.to_euclidean_division_equations; lia.
  - intros Hx. split; [lia|]. right. split; [done|]. split; [lia|].
    destruct (Hlow (x / 1024)) as (t & Ht & _); [|eauto]. revert Hx. clear. intros. Z.to_euclidean_division_equations; lia.
Qed.

(** C35: bootstrap: whenever it does not abort, the new space is the current one
    and hands out the slots from [empty_start] on, never one that holds a boot
    capability; all the memory taken is that of its nodes.  The slots in use
    must not fill their nodes exactly. *)
Theorem cspace_root_task_bootstrap_spec {E : Type} `{!CspaceEnv E} `{!CspaceLaws E}
    (empty_start empty_end : Z) (s : cslib E) :
  1 <= empty_start <= 1047552 -> empty_start mod 1024 <> 0 ->
  wpf (eq FAssert) (cspace_root_task_bootstrap empty_start empty_end) (fun r s' =>
    r = CSPACE_NOERROR /\ exists c, cs_at (cur_cspace s') c s' /\
    cspaces s' = <[cur_cspace s' := c]> (cspaces s) /\
    wf c (seqZ empty_start (1024 - empty_start mod 1024)) /\
    (forall x, slot_open c x <-> 1 <= x < (empty_start / 1024 + 1) * 1024) /\
    live (cs_env s') ≡ₚ nodes c ++ live (cs_env s)) s.
Proof.
  intros Hst Hmod. pose proof (boot_count_range empty_start Hst) as Hcnt.
  apply wpf_bootstrap; [done | done |]. intros p c e L Hp Hnew Hl Hl1 HL Heq Hl2 Hn1 He.
  eapply wpf_boot_tables; [done | done | by apply cs_at_upd | done | done | done |].
  intros T e' HT He' c' Hlow Hhigh Hch. split; [done|]. exists c'. rewrite cs_upd_env, cs_upd_upd.
  split; [by apply cs_at_upd|]. split; [done|]. split; [|split].
  - right. eexists. by eapply boot_space_wf.
  - intros x. by apply boot_space_open.
  - change (live e' ≡ₚ nodes c' ++ live (cs_env s)). rewrite He'. change (live e ≡ₚ nodes c' ++ live (cs_env s)).
    rewrite He. unfold c'. by rewrite (boot_space_nodes empty_start).
Qed.

Lemma alloc_slot_null {E : Type} `{!CspaceEnv E} p c (s : cslib E) :
  cs_at p c s -> levels c = 2 -> 0 < num_free_slots c -> 0 <= next_level2_free_slot c < 2 ^ 32 ->
  level2_alloc_tables c !z leaf_index (next_level2_free_slot c) = Some None ->
  cspace_alloc_slot p s = Err FNull.
Proof.
  intros [Hp Hc] Hl Hnum Hn Ht.
  assert (cs_load p s = Ok (c, s)) as Hload.
  { unfold cs_load. destruct (Z.eqb_spec p 0); [done|]. by rewrite Hc. }
  unfold cspace_alloc_slot, bind, c_assert. destruct (Z.eqb_spec p 0); [done|]. simpl. rewrite Hload, Hl. simpl.
  unfold cspace_alloc_level2_slot, bind. rewrite Hload. destruct (Z.leb_spec (num_free_slots c) 0); [lia|]. simpl.
  unfold take_level2_slot, get_level2_entry, bind. rewrite Hload. simpl. rewrite Hload.
  rewrite u32_small by done. unfold rd. by rewrite Ht.
Qed.

(** C36: when the boot capabilities fill their nodes exactly, the bootstrap reports
    success, but the first slot asked for is in a node without a table: the
    null pointer is dereferenced. *)
Theorem cspace_root_task_bootstrap_full {E : Type} `{!CspaceEnv E} `{!CspaceLaws E}
    (empty_start empty_end : Z) (s : cslib E) :
  1 <= empty_start <= 1047552 -> empty_start mod 1024 = 0 ->
  wpf (eq FAssert) (cspace_root_task_bootstrap empty_start empty_end) (fun r s' =>
    r = CSPACE_NOERROR /\ cspace_alloc_slot (cur_cspace s') s' = Err FNull) s.
Proof.
  intros Hst Hmod. apply wpf_bootstrap; [done | done |]. intros p c e L Hp Hnew Hl Hl1 HL Heq Hl2 Hn1 He.
  eapply wpf_boot_tables_full; [done | done | by apply cs_at_upd | done | done | done |].
  intros T e' HT. split; [done|]. rewrite cs_upd_env, cs_upd_upd. simpl.
  eapply alloc_slot_null; [by apply cs_at_upd | done | done | simpl; lia | by rewrite leaf_index_div].
Qed.
