(* ===== verification/CspaceLife.v ===== *)
(** * CspaceLife: the life of a capability space

    [cspace_create] makes a space with all its slots free, the client uses it,
    [cspace_destroy] gives back its memory and its slot of the current space. *)

From S2P Require Import Prelude SosState Partial Cspace CspaceProofs CspaceClaims CspaceBoot.

(** The state with the spaces [p] and [q] and the environment replaced. *)
Definition two {E} (p : Z) (c : cspace_t) (q : Z) (d : cspace_t) (e : E) (s : cslib E) : cslib E :=
  cs_upd p c (cs_upd q d (cs_set_env e s)).

Section life.
Context {E : Type} `{!CspaceEnv E} `{!CspaceLaws E} (R : fault -> Prop) (HR : R FAssert).
Local Abbreviation S := (cslib E).
Implicit Types s : S.

Lemma two_at_l p c q d e s : p <> 0 -> cs_at p c (two p c q d e s).
Proof. apply cs_at_upd. Qed.

Lemma two_at_r p c q d e s : p <> q -> q <> 0 -> cs_at q d (two p c q d e s).
Proof. intros Hpq Hq. split; [done|]. simpl. rewrite lookup_insert_ne by done. apply lookup_insert_eq. Qed.

Lemma two_upd_l p c c' q d e s : cs_upd p c' (two p c q d e s) = two p c' q d e s.
Proof. apply cs_upd_upd. Qed.

Lemma two_upd_r p c q d d' e s : p <> q -> cs_upd q d' (two p c q d e s) = two p c q d' e s.
Proof.
  intros Hpq. unfold two, cs_upd. simpl. f_equal. rewrite insert_insert_ne by done. by rewrite insert_insert_eq.
Qed.

Lemma two_env p c q d e e' s : cs_set_env e' (two p c q d e s) = two p c q d e' s.
Proof. done. Qed.

(** *** The second level of a new space *)

Lemma wpf_create_free_list p c t Q s :
  cs_at p c s -> length (level2_alloc_tables c) = 1024%nat -> level2_alloc_tables c !z 0 = Some t ->
  (forall u, t = Some u -> length u = 1024%nat) -> R FNull ->
  (forall u, length u = 1024%nat ->
     let c' := set_num 1023 (set_next2 1 (set_level2 (insertZ 0 (Some u) (level2_alloc_tables c)) c)) in
     chain (next2 c') 1 (seqZ 1 1023) CSPACE_NULL -> Q tt (cs_upd p c' s)) ->
  wpf R (create_free_list p 0 0) Q s.
Proof using.
  intros [Hp Hc] Hlen Ht Htl HN HQ. unfold create_free_list. cs_step. rewrite node_slots.
  destruct t as [t|].
  2: { rewrite for_up_step by lia. cs_step. unfold wpf, set_level2_entry, cs_load, bind.
       destruct (Z.eqb_spec p 0); [done|]. rewrite Hc. unfold rd. rewrite Ht. done. }
  apply (wpf_for_up R (fun j s' => linked 0 0 j p c s s')); [lia | | |].
  - exists t. split; [by apply Htl|]. split; [lia|]. rewrite insertZ_id by done. destruct c. symmetry. by apply cs_upd_same.
  - intros j s' Hj Hl. assert (j = CSPACE_LEAF_OFFSET j) as Hoff by by rewrite leaf_offset_mod, Z.mod_small by lia.
    rewrite Hoff at 1. by apply (linked_step R 0 0 j); [done | lia | done | lia | lia |].
  - intros s' Hl. cs_step. change (1024 - 1) with (CSPACE_LEAF_OFFSET (0 * 1024 + 1023)).
    eapply linked_chain; [done | lia | | | exact Hl |]; [done | lia |].
    intros c' (u & Hu & ->) Hch. cs_steps. change (i32 (0 + 1)) with 1. change (CSPACE_LEAF_OFFSET _) with 1023.
    apply HQ; [done|]. change (0 * 1024 + 1024 - 0) with 1024 in Hch. rewrite seqZ_cons in Hch by lia.
    destruct Hch as [_ (n & _ & Hch)]. change (seqZ (Z.succ 0) (Z.pred 1024)) with (seqZ 1 1023) in Hch.
    assert (n = 1) as ->; [|done]. rewrite seqZ_cons in Hch by lia. apply Hch.
Qed.

Lemma created_wf2 c a T u :
  fresh_level1 (level1_alloc_table c) -> levels c = 2 -> length T = 1024%nat ->
  (forall k, 0 <= k < 1024 -> T !z k = Some None) -> length u = 1024%nat ->
  let c' := set_num 1023 (set_next2 1 (set_level2 (insertZ 0 (Some u) T)
    (set_level1 (insertZ 0 a (level1_alloc_table c)) (set_next1 1 c)))) in
  chain (next2 c') 1 (seqZ 1 1023) CSPACE_NULL -> wf2 c' (seqZ 1 1023) (seqZ 1 1023).
Proof using.
  intros HL Hl HT Hnull Hu c' Hch. pose proof HL as (Hlen & _). split; try done.
  - simpl. by rewrite length_insertZ.
  - simpl. by rewrite length_insertZ.
  - intros i t. simpl. rewrite lookupZ_insertZ by lia. case_decide; [by intros [= <-]|].
    intros Ht. pose proof (lookupZ_lt _ _ _ Ht). rewrite Hnull in Ht by lia. done.
  - apply NoDup_seqZ.
  - apply Forall_forall. intros x Hx%elem_of_seqZ. lia.
  - apply (fresh_level1_chain c' _ 1 HL); [lia|]. intros j Hj. simpl. by rewrite lookupZ_insertZ_ne by lia.
  - apply NoDup_seqZ.
  - apply Forall_forall. intros x Hx%elem_of_seqZ. split; [lia|]. simpl.
    rewrite lookupZ_insertZ_ne by lia. apply Hnull. lia.
Qed.

Lemma created_nodes c a T u :
  length (level1_alloc_table c) = 1024%nat -> levels c = 2 -> length T = 1024%nat ->
  (forall k, 0 <= k < 1024 -> T !z k = Some None) ->
  nodes (set_level2 (insertZ 0 (Some u) T) (set_level1 (insertZ 0 a (level1_alloc_table c)) c)) = [addr c; a].
Proof using.
  intros Hlen Hl HT Hnull. unfold nodes. simpl. rewrite Hl. simpl. f_equal.
  rewrite (level2_nodes_prefix _ _ 1).
  - unfold insertZ. simpl. by destruct (level1_alloc_table c).
  - by rewrite !length_insertZ, Hlen.
  - intros k Hk _. replace k with 0%nat by lia. exists u. unfold insertZ. simpl. by destruct T.
  - intros k Hk Hkl. rewrite length_insertZ in Hkl. unfold insertZ. simpl.
    rewrite list_lookup_insert_ne by lia. specialize (Hnull (Z.of_nat k)). unfold lookupZ in Hnull.
    rewrite Nat2Z.id in Hnull. destruct (Z.leb_spec 0 (Z.of_nat k)); [|lia]. apply Hnull. lia.
Qed.

Lemma wpf_create_level2 p c Q s :
  cs_at p c s -> fresh_level1 (level1_alloc_table c) -> next_level1_free_index c = 0 -> levels c = 2 ->
  length (level2_alloc_tables c) = 1024%nat -> R FNull ->
  (forall c' a e, wf2 c' (seqZ 1 1023) (seqZ 1 1023) -> nodes c' = [addr c; a] ->
     live e ≡ₚ a :: live (cs_env s) -> Q tt (cs_upd p c' (cs_set_env e s))) ->
  wpf R (create_level2 p) Q s.
Proof using HR CspaceLaws0.
  intros [Hp Hc] HL Hn1 Hl Hl2 HN HQ. pose proof HL as (Hlen & HL0 & _).
  unfold create_level2. cs_step. apply wpf_alloc_node; [done|]. intros a ut off e Ha Hau He. cs_step.
  unfold cspace_alloc_level1_index. cs_step. eapply wpf_cs_load; [by split|]. rewrite Hn1.
  cs_step. apply wpf_assert; [done|]. cs_step. eapply wpf_rd; [apply HL0; lia|]. cs_step.
  eapply wpf_cs_update; [by split|]. cs_steps. change (u32 0) with 0. apply wpf_assert; [done|]. cs_step.
  eapply wpf_set_level1_entry; [by apply cs_at_upd | simpl; lia |]. rewrite cs_upd_upd, (u32_small a) by done. cs_steps.
  apply wpf_may_assert; [done|]. intros _. cs_step. change (i32 (0 + 1)) with 1.
  eapply wpf_null_tables; [by apply cs_at_upd | done | lia |]. intros T HT _ Hnull.
  rewrite cs_upd_upd. unfold malloc_table. cs_steps.
  set (e1 := snd (cspace_malloc _)).
  assert (live e1 ≡ₚ a :: live (cs_env s)) as He1.
  { unfold e1. rewrite live_malloc. simpl. rewrite live_retype. done. }
  clearbody e1.
  match goal with |- context [fst (cspace_malloc ?x)] => generalize (fst (cspace_malloc x)); intros ok end.
  eapply wpf_set_level2_table; [by apply cs_at_upd | simpl; lia |]. rewrite cs_upd_upd.
  change (u32 (Z.shiftl 0 CSPACE_NODE_SIZE_IN_SLOTS_BITS)) with 0. simpl.
  eapply wpf_create_free_list; [by apply cs_at_upd | simpl; by rewrite length_insertZ | apply lookupZ_insertZ_eq; lia | | done |].
  { intros u Hu. destruct ok; [|done]. injection Hu as <-. apply length_new_table. }
  intros u Hu. simpl. rewrite insertZ_insertZ, cs_upd_upd. intros Hch. apply (HQ _ a); [| |done].
  - by apply created_wf2.
  - exact (created_nodes c a T u Hlen Hl HT Hnull).
Qed.

(** *** Creation *)

Lemma two_intro p c q d e s : cs_at q d s -> cs_upd p c (cs_set_env e s) = two p c q d e s.
Proof. intros Hq. unfold two. rewrite (cs_upd_same q d); [done | exact Hq]. Qed.

Lemma wpf_mint_self q d F cap rights badge Q s :
  cs_at q d s -> wf d F ->
  (forall x d' e, x <> CSPACE_NULL -> allocated d d' F x -> same_space d d' -> gained d d' (cs_env s) e ->
     Q x (cs_upd q d' (cs_set_env e s))) ->
  wpf R (cspace_mint_cap q q cap rights badge) Q s.
Proof using HR CspaceLaws0.
  intros [Hq Hd] W HQ. unfold cspace_mint_cap. cs_step.
  apply wpf_assert; [by destruct (Z.eqb_spec q 0)|]. unfold fill_slot. cs_step.
  eapply wpf_mono; [by eapply (wpf_cspace_alloc_slot R q d F)|]. intros x s' (d' & e & -> & Hs & Hg & Ha). cs_step.
  apply wpf_may_assert; [done|]. intros Hx%negb_true_iff%Z.eqb_neq. cs_steps. apply wpf_may_assert; [done|].
  intros _. cs_step. apply HQ; [done | done | done |]. destruct Hg as (vs & ? & Hl).
  exists vs. by rewrite live_mint.
Qed.

Lemma wpf_retype_depth q d F (Q : Z -> S -> Prop) s :
  cs_at q d s -> wf d F -> (forall n, Q n s) -> wpf R (cspace_retype_depth q) Q s.
Proof.
  intros [Hq Hd] W HQ. unfold cspace_retype_depth. cs_steps.
  destruct W as [W|[G W]]; [rewrite (wf1_levels _ _ W) | rewrite (wf2_levels _ _ _ W)]; simpl; by cs_step.
Qed.

Lemma wpf_delete_cap q d F x Q s :
  cs_at q d s -> wf d F -> (x ∉ F) -> slot_open d x ->
  (forall d' e, wf d' (x :: F) -> same_slots d d' -> nodes d' = nodes d -> live e = live (cs_env s) ->
     Q CSPACE_NOERROR (cs_upd q d' (cs_set_env e s))) ->
  wpf R (cspace_delete_cap q x) Q s.
Proof using HR CspaceLaws0.
  intros [Hq Hd] W Hx Ho HQ. unfold cspace_delete_cap. cs_step.
  apply wpf_assert; [by destruct (Z.eqb_spec q 0)|]. cs_steps. apply wpf_may_assert; [done|]. intros _.
  eapply wpf_mono; [eapply (wpf_cspace_free_slot R q d F x); try done; by split|].
  intros r s' (-> & d' & -> & W' & Hs & Hn). apply HQ; [done | done | done | apply live_delete].
Qed.

(** Two slots taken one after the other. *)
Lemma allocated_twice d d1 F F1 F2 x y :
  (x ∉ F1) -> slot_open d1 x -> (F1 = (y :: F2) \/ F1 = [] /\ forall z, z ∈ (y :: F2) -> ~ slot_open d1 z) ->
  (F = (x :: F1) \/ F = [] /\ forall z, z ∈ (x :: F1) -> ~ slot_open d z) ->
  (x ∉ F2) /\ x <> y /\ forall z, z ∈ F -> z ∈ (y :: x :: F2).
Proof.
  intros Hx Ho [->|[-> H1]] HF.
  - split_and!; [set_solver | set_solver |]. destruct HF as [->|[-> _]]; set_solver.
  - split_and!; [intros Hx2; apply (H1 x); set_solver | intros ->; apply (H1 y); set_solver |].
    destruct HF as [->|[-> _]]; set_solver.
Qed.

(** The new space [p] beside the current space [q]: its slots are free, its
    root capability is in a slot of [q] that is in use, and the memory taken is
    that of its nodes and of the nodes [q] has gained. *)
Definition created (q : Z) (d : cspace_t) (F : list Z) s (p : Z) s' : Prop :=
  exists c d' e F', s' = two p c q d' e s /\ p <> 0 /\ p <> q /\ cspaces s !! p = None /\
    wf c (seqZ 1 1023) /\ wf d' F' /\ same_space d d' /\ (root_cnode c ∉ F') /\ slot_open d' (root_cnode c) /\
    (forall z, z ∈ F -> z ∈ (root_cnode c :: F')) /\
    exists vs, nodes d' ≡ₚ vs ++ nodes d /\ live e ≡ₚ nodes c ++ vs ++ live (cs_env s).

(** The free slots of a space of [n] levels. *)
Lemma wpf_create_slots n p c Q s :
  cs_at p c s -> fresh_level1 (level1_alloc_table c) -> length (level2_alloc_tables c) = 1024%nat ->
  (n = 2 -> R FNull) ->
  (forall c' as_ e, (forall g r, wf (set_root_cnode r (set_guard g c')) (seqZ 1 1023)) -> nodes c' = addr c :: as_ ->
     live e ≡ₚ as_ ++ live (cs_env s) -> Q tt (cs_upd p c' (cs_set_env e s))) ->
  wpf R (create_slots p n) Q s.
Proof using HR CspaceLaws0.
  intros [Hp Hc] HL Hl2 HN HQ. unfold create_slots. cs_step. pose proof HL as (Hlen & _).
  destruct (Z.eqb_spec n 1) as [->|]; [|destruct (Z.eqb_spec n 2) as [->|]; [|by apply wpf_may_assert]].
  - cs_steps. apply (HQ _ [] (cs_env s)); [|done|done]. intros g r. left. split; try done.
    + by apply (fresh_level1_chain _ (level1_alloc_table c) 1).
    + apply NoDup_seqZ.
    + apply Forall_forall. intros x Hx%elem_of_seqZ. lia.
  - cs_steps. eapply wpf_create_level2; [by apply cs_at_upd | done | done | done | done | by apply HN |].
    intros c' a e W Hn He. rewrite cs_upd_env, cs_upd_upd. apply (HQ _ [a]); [|done|done].
    intros g r. right. exists (seqZ 1 1023). by destruct W.
Qed.

(** The last part: the root capability is minted in [q], and the first one
    deleted from the slot [x]. *)
Lemma wpf_create_root p c q d d1 e1 F F1 x g s :
  p <> 0 -> p <> q -> cspaces s !! p = None -> cs_at q d s -> wf d1 F1 -> same_space d d1 ->
  (x ∉ F1) -> slot_open d1 x -> (F = (x :: F1) \/ F = [] /\ forall z, z ∈ (x :: F1) -> ~ slot_open d z) ->
  (forall r, wf (set_root_cnode r c) (seqZ 1 1023)) ->
  (exists vs, nodes d1 ≡ₚ vs ++ nodes d /\ live e1 ≡ₚ nodes c ++ vs ++ live (cs_env s)) ->
  wpf R (root <- cspace_mint_cap q q x seL4_AllRights g ;;
         cs_update p (set_root_cnode root) ;;;
         c_assert (negb (root =? CSPACE_NULL)) ;;;
         cspace_delete_cap q x ;;;
         ret p) (created q d F s) (two p c q d1 e1 s).
Proof using HR CspaceLaws0.
  intros Hp Hpq Hnew [Hq Hd] W1 Hs1 Hx Ho HF Wc (vs & Hn1 & Hl1). cs_step.
  eapply wpf_mint_self; [by apply two_at_r | done |].
  intros y d2 e2 Hy Ha Hs2 (vs2 & Hn2 & Hl2). rewrite two_env, two_upd_r by done. cs_step.
  destruct Ha as [[? _]|(F2 & W2 & Hy2 & Hyo & _ & HF2)]; [done|].
  destruct (allocated_twice d d1 F F1 F2 x y Hx Ho HF2 HF) as (Hx2 & Hxy & Hin).
  eapply wpf_cs_update; [by apply two_at_l|]. rewrite two_upd_l. cs_step.
  apply wpf_assert; [by destruct (Z.eqb_spec y CSPACE_NULL)|]. cs_step.
  eapply (wpf_delete_cap q d2 F2 x); [by apply two_at_r | done | done | by apply Hs2 |].
  intros d3 e3 W3 Hs3 Hn3 Hl3. rewrite two_env, two_upd_r by done. cs_step.
  exists (set_root_cnode y c), d3, e3, (x :: F2). split; [done|]. split_and!; try done.
  - eapply same_space_trans; [done|]. eapply same_space_trans; [done | apply Hs3].
  - set_solver.
  - by apply (same_slots_open _ _ _ Hs3).
  - exists (vs2 ++ vs). rewrite Hn3, Hn2, Hn1, (assoc (++)). split; [done|].
    change (nodes (set_root_cnode y c)) with (nodes c). generalize dependent (nodes c). intros nc Hl1.
    rewrite Hl3. simpl. rewrite Hl2. simpl. rewrite Hl1, !(assoc (++)). f_equiv. f_equiv. apply Permutation_app_comm.
Qed.

Lemma wpf_cspace_create n q d F s :
  cur_cspace s = q -> cs_at q d s -> wf d F -> (n = 2 -> R FNull) ->
  wpf R (cspace_create n) (created q d F s) s.
Proof using HR CspaceLaws0.
  intros Hcur Hat W HN. pose proof Hat as [Hq Hd]. unfold cspace_create. cs_step.
  apply wpf_malloc_cspace.
  2: { cs_step. by apply wpf_may_assert. }
  intros p c e Hp Hnew Hl1 Hl2 He. assert (p <> q) as Hpq by (intros ->; congruence).
  rewrite (two_intro p c q d e s Hat). cs_step. apply wpf_assert; [by destruct (Z.eqb_spec p 0)|]. cs_step.
  apply wpf_alloc_node; [done|]. intros a ut off e1 _ _ He1. rewrite two_env. cs_step.
  eapply wpf_cs_update; [by apply two_at_l|]. rewrite two_upd_l. cs_steps. simpl cur_cspace. rewrite Hcur.
  eapply wpf_mono; [eapply (wpf_cspace_alloc_slot R q d F); [by apply two_at_r | done | done]|].
  intros x s1 (d1 & e2 & -> & Hs1 & (vs & Hn1 & Hv) & Ha). rewrite two_env, two_upd_r by done. cs_step.
  apply wpf_may_assert; [done|]. intros Hx%negb_true_iff%Z.eqb_neq.
  destruct Ha as [[? _]|(F1 & W1 & Hx1 & Hxo & _ & HF)]; [done|]. cs_step.
  eapply wpf_cs_load; [by apply two_at_r|]. cs_step.
  eapply wpf_retype_depth; [by apply two_at_r | done |]. intros depth. cs_steps. rewrite two_env. unfold sel4_error.
  apply wpf_may_assert; [done|]. intros _. cs_step.
  set (e3 := snd _). assert (live e3 = live e2) as He3 by apply live_retype. clearbody e3.
  eapply wpf_cs_update; [by apply two_at_l|]. rewrite two_upd_l. cs_step.
  eapply wpf_link_level1; [by apply two_at_l | done |]. intros L HL. rewrite two_upd_l. cs_step.
  eapply wpf_create_slots; [by apply two_at_l | done | done | done |].
  intros c' as_ e4 Wc Hnc He4. rewrite two_env, two_upd_l. cs_step. simpl addr in Hnc.
  apply (wpf_mono R _ (fun _ s' => exists g, s' = two p (set_guard g c') q d1 e4 s)).
  { destruct (n =? 1), (n =? 2); try (eapply wpf_cs_update; [by apply two_at_l|]; rewrite two_upd_l; eauto).
    cs_step. exists (guard c'). by destruct c'. }
  intros [] s' [g ->]. cs_step. eapply wpf_cs_load; [by apply two_at_l|].
  eapply (wpf_create_root p _ q d d1 e4 F F1); try done. exists vs. split; [done|].
  change (nodes (set_guard g c')) with (nodes c'). rewrite Hnc. rewrite He4. simpl.
  rewrite He3, Hv. simpl. rewrite He1. simpl. rewrite He.
  rewrite <- !Permutation_middle, !(assoc (++)), (Permutation_app_comm as_ vs). done.
Qed.

(** *** Destruction *)

(** The memory of one node is given back. *)
Lemma level2_nodes_drop L (T : list (option (list Z))) i :
  length L = length T -> (i < length T)%nat ->
  level2_nodes (drop i L) (drop i T) =
  match T !! i, L !! i with
  | Some (Some _), Some a => [a]
  | _, _ => []
  end ++ level2_nodes (drop (Datatypes.S i) L) (drop (Datatypes.S i) T).
Proof using.
  revert L i. induction T as [|t T IH]; intros [|a L] [|i] Hlen Hi; simpl in *; try lia; [by destruct t|].
  apply IH; lia.
Qed.

Lemma wpf_free_nodes (root : Z) L T rest Q s :
  length L = 1024%nat -> length T = 1024%nat -> live (cs_env s) ≡ₚ level2_nodes L T ++ rest ->
  (forall e, live e ≡ₚ rest -> Q tt (cs_set_env e s)) ->
  wpf R (for_up 0 CSPACE_NODE_SIZE_IN_SLOTS (fun i =>
       t <- rd T i ;;
       match t with
       | None => ret tt
       | Some _ =>
           serr <- ecall (seL4_CNode_Delete root i (CSPACE_DEPTH - CSPACE_NODE_SIZE_IN_SLOTS_BITS)) ;;
           sel4_error serr ;;;
           a <- rd L i ;;
           ecall (cspace_ut_free a CSPACE_NODE_SIZE_IN_MEM_BITS)
       end)) Q s.
Proof using HR CspaceLaws0.
  intros HL HT Hl HQ. rewrite node_slots.
  apply (wpf_for_up R (fun i s' => exists e, s' = cs_set_env e s /\
    live e ≡ₚ level2_nodes (drop (Z.to_nat i) L) (drop (Z.to_nat i) T) ++ rest)); [lia | | |].
  - exists (cs_env s). split; [by destruct s | done].
  - intros i s' Hi (e & -> & He). cs_step.
    destruct (lookupZ_in_range T i) as [t Ht]; [lia|]. destruct (lookupZ_in_range L i) as [a Ha]; [lia|].
    eapply wpf_rd; [done|]. pose proof Ht as Ht'. pose proof Ha as Ha'. unfold lookupZ in Ht', Ha'.
    destruct (Z.leb_spec 0 i); [|lia]. rewrite level2_nodes_drop, Ht', Ha' in He by lia.
    replace (Datatypes.S (Z.to_nat i)) with (Z.to_nat (i + 1)) in He by lia.
    destruct t as [t|]; [|cs_step; by exists e]. cs_steps. apply wpf_may_assert; [done|]. intros _. cs_step.
    eapply wpf_rd; [done|]. cs_step. eexists. split; [done|]. simpl.
    match goal with |- live (snd (cspace_ut_free a _ ?e1)) ≡ₚ _ =>
      assert (live e1 = live e) as He1 by apply live_delete; generalize dependent e1 end.
    intros e1 He1. apply (Permutation_cons_inv (a := a)). rewrite <- live_ut_free; rewrite He1, He; [done|]. set_solver.
  - intros s' (e & -> & He). apply HQ. by rewrite !drop_ge in He by lia.
Qed.

(** Destroying the space [p] gives back its memory and its slot of the
    current space. *)
Lemma wpf_cspace_destroy p c Fp q d F rest s :
  cs_at p c s -> cs_at q d s -> cur_cspace s = q -> p <> q -> wf c Fp -> wf d F ->
  (root_cnode c ∉ F) -> slot_open d (root_cnode c) -> live (cs_env s) ≡ₚ nodes c ++ rest ->
  wpf R (cspace_destroy p) (fun r s' => r = CSPACE_NOERROR /\ exists d',
    cspaces s' = delete p (<[q := d']> (cspaces s)) /\ cur_cspace s' = q /\
    wf d' (root_cnode c :: F) /\ same_slots d d' /\ nodes d' = nodes d /\ live (cs_env s') ≡ₚ rest) s.
Proof using HR CspaceLaws0.
  intros [Hp Hc] [Hq Hd] Hcur Hpq Wp W Hx Ho Hl. unfold cspace_destroy. cs_step. cs_step. rewrite Hcur. cs_step.
  apply wpf_assert; [by destruct (Z.eqb_spec q p)|]. cs_step.
  apply wpf_assert; [by destruct (Z.eqb_spec q 0)|]. cs_steps.
  apply (wpf_mono R _ (fun _ s' => exists e, s' = cs_set_env e s /\ live e ≡ₚ addr c :: rest)).
  { destruct Wp as [Wp|[G Wp]]; unfold nodes in Hl.
    - rewrite (wf1_levels _ _ Wp) in *. change (1 =? 2) with false in *. bred. cs_step. exists (cs_env s). split; [by destruct s | done].
    - rewrite (wf2_levels _ _ _ Wp) in *. change (2 =? 2) with true in *. bred. eapply (wpf_free_nodes _ _ _ (addr c :: rest)); [apply Wp | apply Wp | |].
      + rewrite Hl. apply Permutation_middle.
      + intros e He. by exists e. }
  intros [] s' (e & -> & He). cs_step.
  eapply (wpf_delete_cap q d F); [by split | done | done | done |]. intros d' e2 W' Hs' Hn' Hl2.
  cs_steps. split; [done|]. exists d'. simpl. split_and!; try done.
  apply (Permutation_cons_inv (a := addr c)). simpl in Hl2. rewrite <- live_ut_free; rewrite Hl2, He; [done | set_solver].
Qed.
End life.

(** C15: the life of a space: created, used by a client, destroyed.  Then the
    current space has every slot free it had before, the other spaces are as
    before, and all memory is given back but that of the nodes the current
    space has gained on the way.  The destruction makes no invalid access. *)
Theorem cspace_lifecycle {E : Type} `{!CspaceEnv E} `{!CspaceLaws E} n d F (s : cslib E) p s1 s2 (H : gset Z) :
  cs_at (cur_cspace s) d s -> wf d F ->
  cspace_create n s = Ok (p, s1) -> rtc (client p) (s1, ∅) (s2, H) ->
  wpf (eq FAssert) (cspace_destroy p) (fun r s3 => r = CSPACE_NOERROR /\ exists d' F',
    cspaces s3 = <[cur_cspace s := d']> (cspaces s) /\ cur_cspace s3 = cur_cspace s /\
    wf d' F' /\ same_space d d' /\ (forall x, x ∈ F -> x ∈ F') /\
    exists vs, nodes d' ≡ₚ vs ++ nodes d /\ live (cs_env s3) ≡ₚ vs ++ live (cs_env s)) s2.
Proof.
  intros Hat W Hcr Htr. eapply (wpf_run (fun _ => True)) in Hcr; [|by apply (wpf_cspace_create _ I n (cur_cspace s) d F)].
  destruct Hcr as (c & d1 & e1 & F1 & -> & Hp & Hpq & Hnew & Wc & W1 & Hs1 & Hx & Ho & Hin & vs & Hn1 & Hl1).
  pose proof (two_at_l p c (cur_cspace s) d1 e1 s Hp) as Hpc.
  destruct (holds_reachable p c _ _ s2 H Hpc Wc Htr) as (c2 & F2 & (e2 & Hs2 & Hss & vs2 & Hn2 & Hl2) & W2 & _).
  simpl in Hs2, Hl2. rewrite two_env, two_upd_l in Hs2. destruct Hss as (_ & Hroot & _ & _ & _). rewrite <- Hroot in *.
  eapply wpf_mono; [eapply (wpf_cspace_destroy _ eq_refl p c2 F2 (cur_cspace s) d1 F1 (vs ++ live (cs_env s)))|];
    rewrite ?Hs2; try done.
  - by apply two_at_l.
  - apply two_at_r; [done | apply Hat].
  - change (live e2 ≡ₚ nodes c2 ++ vs ++ live (cs_env s)). rewrite Hl2, Hl1, Hn2, !(assoc (++)). done.
  - intros r s3 (-> & d' & Hm & Hc & W' & Hss' & Hn' & Hl3). split; [done|]. exists d', (root_cnode c2 :: F1).
    split_and!; try done.
    + rewrite Hm. simpl. rewrite (insert_insert_ne _ (cur_cspace s)) by done. rewrite delete_insert_eq. rewrite insert_insert_eq.
      by rewrite delete_id by (rewrite lookup_insert_ne by done; done).
    + eapply same_space_trans; [done | apply Hss'].
    + exists vs. by rewrite Hn'.
Qed.
