(* ===== verification/CspaceDemo.v ===== *)
(** * CspaceDemo: an environment for the capability space library

    An allocator that hands out addresses one after the other, and a kernel
    that accepts every call, satisfy [CspaceLaws]; the theorems about the
    library are applied to it. *)

From S2P Require Import Prelude SosState Partial Cspace CspaceProofs CspaceClaims CspaceBoot CspaceLife.

Record demo_env := DemoEnv { demo_next : Z; demo_live : list Z }.

Fixpoint remove_one (a : Z) (l : list Z) : list Z :=
  match l with
  | [] => []
  | b :: l => if a =? b then l else b :: remove_one a l
  end.

Lemma remove_one_perm a l : a ∈ l -> l ≡ₚ a :: remove_one a l.
Proof.
  induction l as [|b l IH]; intros Ha; [set_solver|]. simpl. destruct (Z.eqb_spec a b) as [->|Hne]; [done|].
  rewrite Permutation_swap. f_equiv. apply IH. set_solver.
Qed.

Definition demo_alloc (bits : Z) (e : demo_env) : Z * demo_env :=
  let a := demo_next e in
  if (0 <? a) && (a <? 4294967296) then (a, DemoEnv (a + Z.shiftl 1 bits) (a :: demo_live e)) else (0, e).

#[export] Instance demo_cspace_env : CspaceEnv demo_env := {
  cspace_ut_alloc := demo_alloc;
  cspace_ut_free a _ e := (tt, DemoEnv (demo_next e) (remove_one a (demo_live e)));
  cspace_ut_translate a e := ((0, 16, a), e);
  cspace_malloc e := (true, e);
  garbage i := 7;
  garbage_table i := None;
  seL4_CapData_Guard_new g n := g + n;
  seL4_Untyped_RetypeAtOffset _ _ _ _ _ _ _ _ _ e := (0, e);
  seL4_CNode_Copy _ _ _ _ _ _ _ e := (0, e);
  seL4_CNode_Mint _ _ _ _ _ _ _ _ e := (0, e);
  seL4_CNode_Move _ _ _ _ _ _ e := (0, e);
  seL4_CNode_Mutate _ _ _ _ _ _ _ e := (0, e);
  seL4_CNode_Delete _ _ _ e := (0, e);
  seL4_CNode_Recycle _ _ _ e := (0, e);
  seL4_CNode_Revoke _ _ _ e := (0, e);
  seL4_CNode_SaveCaller _ _ _ e := (0, e);
  seL4_IRQControl_Get _ _ _ _ _ e := (0, e);
  seL4_TCB_SetSpace _ _ _ _ _ _ e := (0, e)
}.

#[export] Instance demo_cspace_laws : CspaceLaws demo_env.
Proof.
  refine {| live := demo_live |}; try done.
  - intros b e. simpl. unfold demo_alloc. destruct (Z.ltb_spec 0 (demo_next e)), (Z.ltb_spec (demo_next e) 4294967296); try done.
    intros _. simpl. split; [|done]. unfold is_u32. lia.
  - intros a b e Ha. by apply remove_one_perm.
Defined.

(** A current space of one level with all slots from 3 on free. *)
Definition demo_level1 : list Z := seqZ 1 1023 ++ [u32 CSPACE_NOSLOT].
Definition demo_space : cspace_t := Cspace 1 2 0 16384 3 0 1021 demo_level1 [].
Definition demo_lib : cslib demo_env := Cslib {[1 := demo_space]} 1 (DemoEnv 32768 [16384]).

Lemma demo_level1_fresh : fresh_level1 demo_level1.
Proof.
  unfold demo_level1. split; [by vm_compute|]. split; [|by vm_compute]. intros i Hi.
  rewrite lookupZ_app_l by (rewrite length_seqZ; lia). unfold lookupZ. destruct (Z.leb_spec 0 i); [|lia].
  apply lookup_seqZ. lia.
Qed.

Lemma demo_space_wf : wf demo_space (seqZ 3 1021).
Proof.
  left. split; try done.
  - by apply (fresh_level1_chain demo_space demo_level1 3 demo_level1_fresh).
  - apply NoDup_seqZ.
  - apply Forall_forall. intros x Hx%elem_of_seqZ. lia.
Qed.

Lemma demo_lib_at : cs_at 1 demo_space demo_lib.
Proof. done. Qed.

Lemma cspace_slots_spec_witness :
  exists s', cspace_save_reply_cap 1 demo_lib = Ok (3, s') /\
    wpf (eq FAssert) (cspace_alloc_slot 1) (fun x _ =>
      if decide (x = CSPACE_NULL) then
        levels demo_space = 1 /\ forall y, 1 <= y < 1024 -> y ∈ ({[3]} ∪ ∅ : gset Z) \/ y ∉ seqZ 3 1021
      else 1 <= x < 1048576 /\ (x ∉ ({[3]} ∪ ∅ : gset Z)) /\ (slot_open demo_space x -> x ∈ seqZ 3 1021)) s' /\
    forall x, x ∈ ({[3]} ∪ ∅ : gset Z) -> wp (cspace_free_slot 1 x) (fun r _ => r = CSPACE_NOERROR) s'.
Proof.
  eexists. split; [reflexivity|].
  apply (cspace_slots_spec 1 demo_space (seqZ 3 1021) demo_lib _ _ demo_lib_at demo_space_wf).
  apply rtc_once. apply client_reply. reflexivity.
Defined.

(** A boot with 100 capabilities. *)
Definition demo_boot : cslib demo_env := Cslib ∅ 0 (DemoEnv 16384 []).

Lemma cspace_root_task_bootstrap_spec_witness :
  (exists s', cspace_root_task_bootstrap 100 4096 demo_boot = Ok (CSPACE_NOERROR, s')) /\
  wpf (eq FAssert) (cspace_root_task_bootstrap 100 4096) (fun r s' =>
    r = CSPACE_NOERROR /\ exists c, cs_at (cur_cspace s') c s' /\
    cspaces s' = <[cur_cspace s' := c]> (cspaces demo_boot) /\
    wf c (seqZ 100 (1024 - 100 mod 1024)) /\
    (forall x, slot_open c x <-> 1 <= x < (100 / 1024 + 1) * 1024) /\
    live (cs_env s') ≡ₚ nodes c ++ live (cs_env demo_boot)) demo_boot.
Proof.
  split; [eexists; vm_compute; reflexivity|].
  apply (cspace_root_task_bootstrap_spec 100 4096 demo_boot); [lia | by vm_compute].
Defined.

(** A boot with 1024 capabilities. *)
Lemma cspace_root_task_bootstrap_full_witness :
  (exists s', cspace_root_task_bootstrap 1024 4096 demo_boot = Ok (CSPACE_NOERROR, s')) /\
  wpf (eq FAssert) (cspace_root_task_bootstrap 1024 4096) (fun r s' =>
    r = CSPACE_NOERROR /\ cspace_alloc_slot (cur_cspace s') s' = Err FNull) demo_boot.
Proof.
  split; [eexists; vm_compute; reflexivity|].
  apply (cspace_root_task_bootstrap_full 1024 4096 demo_boot); [lia | by vm_compute].
Defined.

(** A space of two levels is created, used and destroyed. *)
Lemma cspace_lifecycle_witness :
  exists p s1 s2, cspace_create 2 demo_lib = Ok (p, s1) /\ cspace_alloc_slot p s1 = Ok (1, s2) /\
  wpf (eq FAssert) (cspace_destroy p) (fun r s3 => r = CSPACE_NOERROR /\ exists d' F',
    cspaces s3 = <[cur_cspace demo_lib := d']> (cspaces demo_lib) /\ cur_cspace s3 = cur_cspace demo_lib /\
    wf d' F' /\ same_space demo_space d' /\ (forall x, x ∈ seqZ 3 1021 -> x ∈ F') /\
    exists vs, nodes d' ≡ₚ vs ++ nodes demo_space /\ live (cs_env s3) ≡ₚ vs ++ live (cs_env demo_lib)) s2.
Proof.
  eexists _, _, _. split; [vm_compute; reflexivity|]. split; [vm_compute; reflexivity|].
  eapply (cspace_lifecycle 2 demo_space (seqZ 3 1021) demo_lib _ _ _ ({[1]} ∪ ∅) demo_lib_at demo_space_wf).
  - vm_compute. reflexivity.
  - apply rtc_once. apply client_alloc; [vm_compute; reflexivity | done].
Defined.
