(* ===== verification/FrameTable.v ===== *)
(** * FrameTable: the table of physical frames

    Models apps/sos/src/vm/frametable.c (all but [frame_alloc], which calls
    the pager and is in file Pager) and the page mapping helpers of
    apps/sos/src/mapping.c that it uses. *)

From S2P Require Import Prelude Arith Memory SosState.

Definition ARTIFICIAL_FRAME_LIMIT : Z := 8 * BYTES_TO_4K_PAGES (BIT 20).
Definition HIGH_WATERMARK : Z := 64.
Definition LOW_WATERMARK : Z := 32.

Definition set_frame_table x (f : frametable) :=
  Frametable x (ut_base f) (ut_top f) (frame_table_max f) (frame_table_cnt f) (free_frames f) (free_index f).
Definition set_frame_table_cnt x (f : frametable) :=
  Frametable (frame_table f) (ut_base f) (ut_top f) (frame_table_max f) x (free_frames f) (free_index f).
Definition set_free_frames x (f : frametable) :=
  Frametable (frame_table f) (ut_base f) (ut_top f) (frame_table_max f) (frame_table_cnt f) x (free_index f).
Definition set_free_index x (f : frametable) :=
  Frametable (frame_table f) (ut_base f) (ut_top f) (frame_table_max f) (frame_table_cnt f) (free_frames f) x.

Definition set_chance x (e : frame_entry) := FrameEntry (cap e) x (fe_pid e) (page_id e).
Definition set_page x y (e : frame_entry) := FrameEntry (cap e) (chance e) x y.

Definition ADDR_TO_INDEX (f : frametable) (paddr : Z) : Z := Z.shiftr (u32 (paddr - ut_base f)) seL4_PageBits.
Definition INDEX_TO_ADDR (f : frametable) (index : Z) : Z := u32 (ut_base f + u32 (Z.shiftl index seL4_PageBits)).

Section frametable.
Context {U K : Type} `{!Kernel K} `{!UtAlloc U}.
Local Abbreviation S := (sos U K).

Definition on_ft {A} (m : M frametable A) : M S A := zoom ft set_ft m.

(** [frame_table[id]] *)
Definition entry (id : Z) : M frametable frame_entry :=
  f <- get ;;
  match frame_table f with Some t => rd t id | None => fail FNull end.
Definition set_entry (id : Z) (e : frame_entry) : M frametable unit :=
  f <- get ;;
  match frame_table f with
  | Some t => in_bounds t id ;;; modify (set_frame_table (Some (insertZ id e t)))
  | None => fail FNull
  end.

(** *** mapping.c *)

Definition _map_page_table (pd vaddr : Z) : M S (Z * Z) :=
  pt_addr <- on_ut (ut_alloc seL4_PageTableBits) ;;
  if pt_addr =? 0 then ret (1, 0)
  else
    r <- kcall (cspace_ut_retype_addr pt_addr seL4_ARM_PageTableObject seL4_PageTableBits) ;;
    let '(err, pt_cap) := r in
    if negb (err =? 0) then on_ut (ut_free pt_addr seL4_PageTableBits) ;;; ret (err, pt_cap)
    else
      e <- kcall (seL4_ARM_PageTable_Map pt_cap pd vaddr seL4_ARM_Default_VMAttributes) ;;
      ret (e, pt_cap).

(** The result is the error and the capability stored through [pt_cap]. *)
Definition map_page (frame_cap pd vaddr rights attr : Z) : M S (Z * Z) :=
  err <- kcall (seL4_ARM_Page_Map frame_cap pd vaddr rights attr) ;;
  if err =? seL4_FailedLookup then
    r <- _map_page_table pd vaddr ;;
    let '(err, pt_cap) := r in
    if err =? 0 then
      err <- kcall (seL4_ARM_Page_Map frame_cap pd vaddr rights attr) ;; ret (err, pt_cap)
    else ret (err, pt_cap)
  else ret (err, 0).

(** *** frametable.c *)

Definition retype_and_map (paddr vaddr : Z) : M S (Z * Z) :=
  r <- kcall (cspace_ut_retype_addr paddr seL4_ARM_SmallPageObject seL4_PageBits) ;;
  let '(err, frame_cap) := r in
  if negb (err =? 0) then ret (1, frame_cap)
  else
    r <- map_page frame_cap seL4_CapInitThreadPD vaddr seL4_AllRights seL4_ARM_Default_VMAttributes ;;
    let '(err, _) := r in
    ret ((if negb (err =? 0) then 1 else 0), frame_cap).

(** The table is memory obtained from the untyped pool, zero when mapped:
    [2^size_in_bits / sizeof(frame_entry)] entries without a capability. *)
Definition zero_entry : frame_entry := FrameEntry 0 FIRST_CHANCE 0 0.

Fixpoint map_table (n : nat) (paddr vaddr : Z) : M S Z :=
  match n with
  | O => ret 0
  | Datatypes.S n' =>
      r <- retype_and_map paddr vaddr ;;
      let '(err, _) := r in
      if negb (err =? 0) then ret 1
      else map_table n' (u32 (paddr + PAGE_SIZE_4K)) (u32 (vaddr + PAGE_SIZE_4K))
  end.

Definition frame_table_init (paddr size_in_bits low high : Z) : M S Z :=
  f <- gets ft ;;
  match frame_table f with
  | Some _ => ret 1
  | None =>
      modify (fun s => set_ft (Frametable (Some (replicate (Z.to_nat (BIT size_in_bits / 16)) zero_entry))
        low high ARTIFICIAL_FRAME_LIMIT (frame_table_cnt (ft s)) (free_frames (ft s)) (free_index (ft s))) s) ;;;
      map_table (Z.to_nat (BYTES_TO_4K_PAGES (BIT size_in_bits))) paddr (u32 (PHYSICAL_VSTART + paddr))
  end.

Definition frame_table_paddr_to_sos_vaddr (paddr : Z) : Z := u32 (paddr + PHYSICAL_VSTART).
Definition frame_table_index_to_sos_vaddr (f : frametable) (frame_id : Z) : Z :=
  frame_table_paddr_to_sos_vaddr (INDEX_TO_ADDR f frame_id).
Definition frame_table_sos_vaddr_to_index (f : frametable) (sos_vaddr : Z) : Z :=
  ADDR_TO_INDEX f (u32 (sos_vaddr - PHYSICAL_VSTART)).

Definition frame_in_range (f : frametable) (frame_id : Z) : bool :=
  ISINRANGE 0 frame_id (ADDR_TO_INDEX f (ut_top f)).

Definition frame_table_get_capability (frame_id : Z) : M frametable Z :=
  f <- get ;;
  match frame_table f with
  | None => ret 0
  | Some _ =>
      if negb (frame_in_range f frame_id) then ret 0
      else e <- entry frame_id ;; ret (cap e)
  end.

(** The three tests the accessors below share. *)
Definition with_frame {A} (dflt : A) (frame_id : Z) (k : frame_entry -> M frametable A) : M frametable A :=
  f <- get ;;
  match frame_table f with
  | None => ret dflt
  | Some _ =>
      if negb (frame_in_range f frame_id) then ret dflt
      else
        e <- entry frame_id ;;
        if cap e =? 0 then ret dflt else k e
  end.

Definition frame_table_get_limits : M frametable (option (Z * Z)) :=
  f <- get ;;
  ret (match frame_table f with None => None | Some _ => Some (0, frame_table_max f) end).

(** The functions return 1 on failure; those with an out parameter return it
    in [Some]. *)
Definition frame_table_get_chance (frame_id : Z) : M frametable (option chance_type) :=
  with_frame None frame_id (fun e => ret (Some (chance e))).

Definition frame_table_set_chance (frame_id : Z) (c : chance_type) : M frametable Z :=
  with_frame 1 frame_id (fun e => set_entry frame_id (set_chance c e) ;;; ret 0).

Definition frame_table_set_page_id (frame_id pid_ page_id_ : Z) : M frametable Z :=
  with_frame 1 frame_id (fun e => set_entry frame_id (set_page pid_ page_id_ e) ;;; ret 0).

Definition frame_table_get_page_id (frame_id : Z) : M frametable (option (Z * Z)) :=
  with_frame None frame_id (fun e => ret (Some (fe_pid e, page_id e))).

(** One round of the loop of [_frame_alloc]: [false] on failure. *)
Definition alloc_round (vaddr i paddr : Z) : M S bool :=
  r <- retype_and_map paddr (u32 (vaddr + u32 (i * PAGE_SIZE_4K))) ;;
  let '(err, frame_cap) := r in
  if negb (err =? 0) then ret false
  else
    f <- gets ft ;;
    let p_id := ADDR_TO_INDEX f paddr in
    e <- on_ft (entry p_id) ;;
    c_assert (cap e =? 0) ;;;
    c_assert (bool_decide (chance e = FIRST_CHANCE)) ;;;
    on_ft (set_entry p_id (FrameEntry frame_cap FIRST_CHANCE 0 0)) ;;;
    on_ft (modify (fun f => set_frame_table_cnt (u32 (frame_table_cnt f + 1)) f)) ;;;
    ret true.

Fixpoint alloc_rounds (n : nat) (vaddr i paddr : Z) : M S bool :=
  match n with
  | O => ret true
  | Datatypes.S n' =>
      ok <- alloc_round vaddr i paddr ;;
      if (ok : bool) then alloc_rounds n' vaddr (i + 1) (u32 (paddr + PAGE_SIZE_4K)) else ret false
  end.

(** [None] is the failure of the function: -1, with the address null. *)
Definition _frame_alloc (nframes : Z) : M S (option (Z * Z)) :=
  paddr <- on_ut (ut_alloc (seL4_PageBits + LOG_BASE_2 nframes)) ;;
  if paddr =? 0 then ret None
  else
    f <- gets ft ;;
    let top_frame_id := ADDR_TO_INDEX f paddr in
    let vaddr := u32 (PHYSICAL_VSTART + paddr) in
    ok <- alloc_rounds (Z.to_nat nframes) vaddr 0 paddr ;;
    if (ok : bool) then
      bzero_mem vaddr (PAGE_SIZE_4K * nframes) ;;;
      ret (Some (top_frame_id, vaddr))
    else ret None.

Definition multi_frame_alloc (nframes : Z) : M S (option (Z * Z)) :=
  f <- gets ft ;;
  match frame_table f with
  | None => ret None
  | Some _ => _frame_alloc nframes
  end.

Definition _frame_free (frame_id : Z) : M S unit :=
  e <- on_ft (entry frame_id) ;;
  on_ft (set_entry frame_id (FrameEntry 0 FIRST_CHANCE 0 0)) ;;;
  if cap e =? 0 then ret tt
  else
    kcall (seL4_ARM_Page_Unmap (cap e)) ;;;
    on_ft (modify (fun f => set_frame_table_cnt (u32 (frame_table_cnt f - 1)) f)) ;;;
    kcall (cspace_delete_cap (cap e)) ;;;
    f <- gets ft ;;
    on_ut (ut_free (INDEX_TO_ADDR f frame_id) seL4_PageBits).

Definition frame_free (frame_id : Z) : M S unit :=
  f <- gets ft ;;
  match frame_table f with
  | None => ret tt
  | Some _ =>
      if negb (frame_in_range f frame_id) then ret tt
      else
        e <- on_ft (entry frame_id) ;;
        if cap e =? 0 then ret tt
        else if free_index f <? HIGH_WATERMARK then
          in_bounds (free_frames f) (free_index f) ;;;
          on_ft (modify (fun f => set_free_frames (insertZ (free_index f) frame_id (free_frames f)) f)) ;;;
          on_ft (modify (fun f => set_free_index (u32 (free_index f + 1)) f))
        else
          _frame_free frame_id ;;;
          for_up LOW_WATERMARK HIGH_WATERMARK (fun id =>
            f <- gets ft ;; x <- rd (free_frames f) id ;; _frame_free x) ;;;
          on_ft (modify (set_free_index LOW_WATERMARK))
  end.

(** The branch of [frame_alloc] that takes a frame from the buffer. *)
Definition take_free_frame : M S (Z * Z) :=
  on_ft (modify (fun f => set_free_index (u32 (free_index f - 1)) f)) ;;;
  f <- gets ft ;;
  p_id <- rd (free_frames f) (free_index f) ;;
  let paddr := INDEX_TO_ADDR f p_id in
  let vaddr := u32 (PHYSICAL_VSTART + paddr) in
  bzero_mem vaddr PAGE_SIZE_4K ;;;
  e <- on_ft (entry p_id) ;;
  on_ft (set_entry p_id (set_chance FIRST_CHANCE e)) ;;;
  ret (p_id, vaddr).
End frametable.
