(* ===== verification/FrameProofs.v ===== *)
(** * FrameProofs: the frame table hands out frames it owns

    [ft_inv s L own]: the invariant of the frame table over the live blocks
    [L] of the untyped allocator; [own] is the set of frames handed out one at
    a time and not given back.  Every entry with a capability lies in a live
    block, its capability refers to the frame of the entry, and the buffer of
    free frames holds distinct frames that nobody owns. *)

From S2P Require Import Prelude Arith Memory SosState FrameTable.

(** The address of a frame, without wrap-around. *)
Definition frame_addr (f : frametable) (id : Z) : Z := ut_base f + id * 4096.
Definition n_frames (f : frametable) : Z := (ut_top f - ut_base f) / 4096.

Record ft_geom (f : frametable) : Prop := {
  fg_base : 0 < ut_base f /\ ut_base f mod 4096 = 0;
  fg_top : ut_base f <= ut_top f /\ ut_top f + PHYSICAL_VSTART < 2 ^ 32 /\ ut_top f mod 4096 = 0
}.

(** The number of entries with a capability. *)
Definition count_caps (t : list frame_entry) : Z :=
  Z.of_nat (length (filter (fun e => cap e <> 0) t)).

(** Frame [id] lies in the block [b]. *)
Definition in_block (f : frametable) (id : Z) (b : Z * Z) : Prop :=
  b.1 <= frame_addr f id /\ frame_addr f id + 4096 <= b.1 + 2 ^ b.2.

Section inv.
Context {U K : Type} `{!Kernel K} `{!KernelLaws K} `{!UtAlloc U} `{!UtLaws U}.
Local Abbreviation S := (sos U K).

Record table_inv (f : frametable) (k : K) (t : list frame_entry) (L : gset (Z * Z)) : Prop := {
  ti_len : n_frames f < Z.of_nat (length t);
  ti_cap : forall id e, t !z id = Some e -> cap e <> 0 ->
    0 <= id < n_frames f /\ cap_paddr k (cap e) = Some (frame_addr f id) /\ exists b, b ∈ L /\ in_block f id b;
  ti_nocap : forall id e, t !z id = Some e -> cap e = 0 -> chance e = FIRST_CHANCE
}.

(** A frame that can be handed out or is handed out. *)
Definition single (f : frametable) (t : list frame_entry) (L : gset (Z * Z)) (id : Z) : Prop :=
  (frame_addr f id, 12) ∈ L /\ exists e, t !z id = Some e /\ cap e <> 0.

Definition buffered (f : frametable) : list Z := take (Z.to_nat (free_index f)) (free_frames f).

Record ft_inv (s : S) (t : list frame_entry) (L : gset (Z * Z)) (own : gset Z) : Prop := {
  fi_geom : ft_geom (ft s);
  fi_table : frame_table (ft s) = Some t;
  fi_tinv : table_inv (ft s) (kern s) t L;
  fi_ut : ut_rep (ut s) L;
  fi_range : ut_lo (ut s) = ut_base (ft s) /\ ut_hi (ut s) = ut_top (ft s);
  fi_buflen : Z.of_nat (length (free_frames (ft s))) = HIGH_WATERMARK;
  fi_index : 0 <= free_index (ft s) <= HIGH_WATERMARK;
  fi_nodup : NoDup (buffered (ft s));
  fi_buf : forall id, id ∈ buffered (ft s) -> single (ft s) t L id /\ id ∉ own;
  fi_own : forall id, id ∈ own -> single (ft s) t L id;
  fi_cnt : frame_table_cnt (ft s) = count_caps t /\ Z.of_nat (length t) < 2 ^ 32
}.

Lemma addr_to_index f a :
  ft_geom f -> ut_base f <= a < 2 ^ 32 -> ADDR_TO_INDEX f a = (a - ut_base f) / 4096.
Proof.
  intros [Hb Ht] Ha. unfold ADDR_TO_INDEX, seL4_PageBits. rewrite u32_small by (unfold is_u32; lia).
  by rewrite Z.shiftr_div_pow2 by lia.
Qed.

Lemma top_index f : ft_geom f -> ADDR_TO_INDEX f (ut_top f) = n_frames f.
Proof.
  intros Hg. pose proof Hg as [Hb [Ht [Hp _]]]. unfold PHYSICAL_VSTART in Hp. by rewrite addr_to_index by (done || lia).
Qed.

Lemma n_frames_addr f : ft_geom f -> ut_base f + n_frames f * 4096 = ut_top f.
Proof.
  intros [[Hb Hbm] [Ht [Hp Htm]]]. unfold n_frames.
  assert ((ut_top f - ut_base f) mod 4096 = 0) as Hm by (rewrite Zminus_mod, Htm, Hbm; done).
  pose proof (Z.div_mod (ut_top f - ut_base f) 4096 ltac:(lia)). lia.
Qed.

Lemma index_to_addr f id : ft_geom f -> 0 <= id < n_frames f -> INDEX_TO_ADDR f id = frame_addr f id.
Proof.
  intros Hg Hid. pose proof (n_frames_addr f Hg). pose proof Hg as [Hb [Ht [Hp _]]]. unfold PHYSICAL_VSTART in Hp.
  unfold INDEX_TO_ADDR, frame_addr, seL4_PageBits. rewrite Z.shiftl_mul_pow2 by lia. change (2 ^ 12) with 4096.
  rewrite (u32_small (id * 4096)) by (unfold is_u32; lia). by rewrite u32_small by (unfold is_u32; lia).
Qed.

Lemma frame_vaddr f id : ft_geom f -> 0 <= id < n_frames f ->
  frame_table_index_to_sos_vaddr f id = PHYSICAL_VSTART + frame_addr f id.
Proof.
  intros Hg Hid. unfold frame_table_index_to_sos_vaddr, frame_table_paddr_to_sos_vaddr.
  rewrite index_to_addr by done. pose proof (n_frames_addr f Hg). pose proof Hg as [Hb [Ht [Hp _]]].
  unfold PHYSICAL_VSTART in *. unfold frame_addr. rewrite u32_small; [lia|]. unfold is_u32. lia.
Qed.

(** The round trip from a frame to its address in SOS and back, for every
    address inside the frame. *)
Lemma vaddr_frame f id off : ft_geom f -> 0 <= id < n_frames f -> 0 <= off < 4096 ->
  frame_table_sos_vaddr_to_index f (PHYSICAL_VSTART + frame_addr f id + off) = id.
Proof.
  intros Hg Hid Hoff. unfold frame_table_sos_vaddr_to_index.
  pose proof (n_frames_addr f Hg). pose proof Hg as [Hb [Ht [Hp _]]]. unfold PHYSICAL_VSTART, frame_addr in *.
  rewrite u32_small by (unfold is_u32; lia). rewrite addr_to_index by (done || lia).
  symmetry. apply (Z.div_unique _ _ _ off); lia.
Qed.

Lemma frame_in_range_ok f id : ft_geom f -> 0 <= id < n_frames f -> frame_in_range f id = true.
Proof.
  intros Hg Hid. unfold frame_in_range. rewrite top_index by done. apply ISINRANGE_spec; lia.
Qed.
(** ** The table *)

Lemma count_caps_insert t id e e' :
  t !z id = Some e ->
  count_caps (insertZ id e' t) =
    count_caps t - (if cap e =? 0 then 0 else 1) + (if cap e' =? 0 then 0 else 1).
Proof.
  intros He. pose proof (lookupZ_lt _ _ _ He) as Hlt. unfold lookupZ in He. unfold insertZ, count_caps.
  destruct (Z.leb_spec 0 id); [|lia]. rewrite insert_take_drop by lia.
  pose proof (f_equal (fun l => length (filter (fun e => cap e <> 0) l)) (take_drop_middle t (Z.to_nat id) e He)) as E.
  cbv beta in E. rewrite <- E.
  rewrite !filter_app, !length_app, !filter_cons.
  destruct (Z.eqb_spec (cap e) 0), (Z.eqb_spec (cap e') 0);
    repeat case_decide; try done; cbn [length]; lia.
Qed.

Lemma wp_entry f t id e Q :
  frame_table f = Some t -> t !z id = Some e -> Q e f -> wp (entry id) Q f.
Proof. intros Hf He HQ. unfold entry. wp_steps. rewrite Hf. by eapply wp_rd. Qed.

Lemma wp_set_entry f t id e e' Q :
  frame_table f = Some t -> t !z id = Some e -> Q tt (set_frame_table (Some (insertZ id e' t)) f) ->
  wp (set_entry id e') Q f.
Proof.
  intros Hf He HQ. unfold set_entry. wp_steps. rewrite Hf. wp_steps.
  eapply wp_in_bounds; [by eapply lookupZ_lt|]. by wp_steps.
Qed.

Lemma wp_with_frame {A} f t id e (d : A) k Q :
  ft_geom f -> frame_table f = Some t -> t !z id = Some e -> cap e <> 0 -> 0 <= id < n_frames f ->
  wp (k e) Q f -> wp (with_frame d id k) Q f.
Proof.
  intros Hg Hf He Hc Hid HQ. unfold with_frame. wp_steps. rewrite Hf.
  rewrite frame_in_range_ok by done. bred. wp_steps. eapply wp_entry; [done..|].
  apply Z.eqb_neq in Hc. by rewrite Hc.
Qed.

Lemma table_inv_insert f k t L id e e' :
  table_inv f k t L -> t !z id = Some e -> cap e' = cap e -> cap e <> 0 ->
  table_inv f k (insertZ id e' t) L.
Proof.
  intros [Hl Hc Hn] He Hcap Hne. split.
  - by rewrite length_insertZ.
  - intros i x Hx Hxc. rewrite lookupZ_insertZ in Hx by (by eapply lookupZ_lt).
    destruct (decide (id = i)) as [<-|]; [|by eapply Hc].
    injection Hx as <-. rewrite Hcap. by eapply Hc.
  - intros i x Hx Hxc. rewrite lookupZ_insertZ in Hx by (by eapply lookupZ_lt).
    destruct (decide (id = i)) as [<-|]; [|by eapply Hn]. injection Hx as <-. congruence.
Qed.

Lemma single_insert f t L id e e' i :
  t !z id = Some e -> (cap e <> 0 -> cap e' <> 0) -> single f t L i -> single f (insertZ id e' t) L i.
Proof.
  intros He Hc [Hin (x & Hx & Hxc)]. split; [done|].
  rewrite lookupZ_insertZ by (by eapply lookupZ_lt). destruct (decide (id = i)) as [<-|]; [|eauto].
  exists e'. split; [done|]. apply Hc. congruence.
Qed.

(** The invariants depend on the range of the memory only. *)
Definition same_range (f f' : frametable) : Prop := ut_base f' = ut_base f /\ ut_top f' = ut_top f.

Lemma frame_addr_range f f' id : same_range f f' -> frame_addr f' id = frame_addr f id.
Proof. intros [E _]. unfold frame_addr. by rewrite E. Qed.

Lemma n_frames_range f f' : same_range f f' -> n_frames f' = n_frames f.
Proof. intros [E1 E2]. unfold n_frames. by rewrite E1, E2. Qed.

Lemma ft_geom_range f f' : same_range f f' -> ft_geom f -> ft_geom f'.
Proof. intros [E1 E2] [H1 H2]. split; by rewrite ?E1, ?E2. Qed.

Lemma table_inv_range f f' k t L : same_range f f' -> table_inv f k t L -> table_inv f' k t L.
Proof.
  intros E [Hl Hc Hn]. split; [by rewrite (n_frames_range f f')| |done].
  intros id e He Hne. unfold in_block. rewrite (n_frames_range f f'), (frame_addr_range f f') by done.
  by apply Hc.
Qed.

Lemma single_range f f' t L id : same_range f f' -> single f t L id -> single f' t L id.
Proof. intros E H. unfold single. by rewrite (frame_addr_range f f'). Qed.

(** Changing an entry that keeps its capability keeps the invariant. *)
Lemma ft_inv_entry s t L own id e e' :
  ft_inv s t L own -> t !z id = Some e -> cap e <> 0 -> cap e' = cap e ->
  ft_inv (set_ft (set_frame_table (Some (insertZ id e' t)) (ft s)) s) (insertZ id e' t) L own.
Proof.
  intros [Hg Ht Hti Hu Hr Hb Hi Hnd Hbuf Hown Hcnt] He Hc Hcap.
  set (f' := set_frame_table (Some (insertZ id e' t)) (ft s)).
  assert (same_range (ft s) f') as E by done.
  assert (forall i, single (ft s) t L i -> single f' (insertZ id e' t) L i) as Hs.
  { intros i Hsi. apply (single_range (ft s) _ _ _ _ E), (single_insert _ _ _ _ e); [done | congruence | done]. }
  split; sred; try done.
  - by apply (ft_geom_range _ _ E).
  - apply (table_inv_range _ _ _ _ _ E). by apply table_inv_insert with (e := e).
  - intros i Hin. destruct (Hbuf i Hin) as [Hsi ?]. split; [by apply Hs | done].
  - intros i Hin. by apply Hs, Hown.
  - unfold f'. cbn [frame_table_cnt set_frame_table]. rewrite (count_caps_insert t id e e' He), Hcap.
    destruct (Z.eqb_spec (cap e) 0); [done|]. rewrite length_insertZ. lia.
Qed.

Section frame_accessors.
Context (s : S) (t : list frame_entry) (L : gset (Z * Z)) (own : gset Z) (id : Z) (e : frame_entry).
Hypothesis Hinv : ft_inv s t L own.
Hypothesis He : t !z id = Some e.
Hypothesis Hc : cap e <> 0.

Lemma frame_id_range : 0 <= id < n_frames (ft s).
Proof using All. by apply (ti_cap _ _ _ _ (fi_tinv _ _ _ _ Hinv) id e). Qed.

Lemma wp_get_capability Q : Q (cap e) s -> wp (on_ft (frame_table_get_capability id)) Q s.
Proof using All.
  intros HQ. apply wp_zoom. unfold frame_table_get_capability. wp_steps. rewrite (fi_table _ _ _ _ Hinv).
  rewrite frame_in_range_ok by (apply Hinv || apply frame_id_range). bred. wp_steps.
  eapply wp_entry; [apply Hinv | done|]. wp_steps. destruct s. exact HQ.
Qed.

Lemma wp_get_chance Q : Q (Some (chance e)) s -> wp (on_ft (frame_table_get_chance id)) Q s.
Proof using All.
  intros HQ. apply wp_zoom. eapply wp_with_frame; [apply Hinv | apply Hinv | done | done | apply frame_id_range|].
  wp_steps. destruct s. exact HQ.
Qed.

Lemma wp_get_page_id Q : Q (Some (fe_pid e, page_id e)) s -> wp (on_ft (frame_table_get_page_id id)) Q s.
Proof using All.
  intros HQ. apply wp_zoom. eapply wp_with_frame; [apply Hinv | apply Hinv | done | done | apply frame_id_range|].
  wp_steps. destruct s. exact HQ.
Qed.

(** The state after storing [e'] in the table. *)
Definition with_entry (e' : frame_entry) : S := set_ft (set_frame_table (Some (insertZ id e' t)) (ft s)) s.

Lemma wp_set_chance c Q : Q 0 (with_entry (set_chance c e)) -> wp (on_ft (frame_table_set_chance id c)) Q s.
Proof using All.
  intros HQ. apply wp_zoom. eapply wp_with_frame; [apply Hinv | apply Hinv | done | done | apply frame_id_range|].
  wp_steps. eapply wp_set_entry; [apply Hinv | done|]. by wp_steps.
Qed.

Lemma wp_set_page_id p v Q : Q 0 (with_entry (set_page p v e)) -> wp (on_ft (frame_table_set_page_id id p v)) Q s.
Proof using All.
  intros HQ. apply wp_zoom. eapply wp_with_frame; [apply Hinv | apply Hinv | done | done | apply frame_id_range|].
  wp_steps. eapply wp_set_entry; [apply Hinv | done|]. by wp_steps.
Qed.
End frame_accessors.
(** ** Mapping pages *)

(** Mapping a page may take memory for a page table; nothing else changes. *)
Record map_step (s s' : S) (L L' : gset (Z * Z)) : Prop := {
  ms_rep : ut_rep (ut s') L';
  ms_sub : L ⊆ L';
  ms_lo : ut_lo (ut s') = ut_lo (ut s);
  ms_hi : ut_hi (ut s') = ut_hi (ut s);
  ms_caps : caps_grow (kern s) (kern s');
  ms_mem : mem s' = mem s;
  ms_ft : ft s' = ft s;
  ms_rest : same_rest s s'
}.

Lemma map_step_kern s k L : ut_rep (ut s) L -> caps_grow (kern s) k -> map_step s (set_kern k s) L L.
Proof. intros. by split. Qed.

Lemma map_step_trans s1 s2 s3 L1 L2 L3 : map_step s1 s2 L1 L2 -> map_step s2 s3 L2 L3 -> map_step s1 s3 L1 L3.
Proof. intros [] []. split; try congruence; try (by etrans); done. Qed.

Lemma retype_grow k a ty b : caps_grow k (cspace_ut_retype_addr a ty b k).2.
Proof.
  intros c x Hx. destruct (retype_law k a ty b) as [(_ & _ & Hn & Hc) | [_ Hc]]; [|by rewrite Hc].
  rewrite Hc. destruct (Z.eqb_spec c (cspace_ut_retype_addr a ty b k).1.2) as [->|]; [congruence | done].
Qed.

Lemma page_map_grow k c pd v r a : caps_grow k (seL4_ARM_Page_Map c pd v r a k).2.
Proof. apply caps_grow_same, page_map_law. Qed.

Lemma pt_map_grow k c pd v a : caps_grow k (seL4_ARM_PageTable_Map c pd v a k).2.
Proof. apply caps_grow_same, pt_map_law. Qed.

Lemma disjoint_ranges_irrefl x : 0 <= x.2 -> ~ disjoint_ranges x x.
Proof. unfold disjoint_ranges. intros H. pose proof (Z.pow_pos_nonneg 2 x.2). lia. Qed.

Lemma _map_page_table_spec s L pd v :
  ut_rep (ut s) L -> ut_ready (ut s) ->
  wp (_map_page_table pd v) (fun r s' => exists L', map_step s s' L L' /\ (r.1 = 0 -> ut_ready (ut s'))) s.
Proof.
  intros Hu Hr. unfold _map_page_table. sos_steps.
  destruct (ut_alloc_law (ut s) L seL4_PageTableBits Hu Hr ltac:(by left))
    as (a & u' & E & Hlo & Hhi & [(Ha & Hu' & Hr' & _ & _ & _ & Hdis) | [-> Hu']]).
  - eapply wp_eq; [exact E|]. destruct (Z.eqb_spec a 0); [done|]. sos_steps. sred.
    pose proof (retype_grow (kern s) a seL4_ARM_PageTableObject seL4_PageTableBits) as Hg.
    destruct (cspace_ut_retype_addr a seL4_ARM_PageTableObject seL4_PageTableBits (kern s)) as [[err c] k'].
    cbn [fst snd] in *. destruct (Z.eqb_spec err 0); bred; sos_steps; sred.
    + exists ({[(a, seL4_PageTableBits)]} ∪ L). split; [|done]. split; sred; try done; [set_solver|].
      etrans; [exact Hg|]. apply pt_map_grow.
    + destruct (ut_free_law u' _ a seL4_PageTableBits Hu' ltac:(set_solver)) as (u'' & E' & Hu'' & Hr'' & Hlo' & Hhi').
      eapply wp_eq; [exact E'|]. sos_steps.
      eexists. split; [|intros; done]. split; sred; try done; [|congruence|congruence].
      set_unfold. intros x Hx. split; [by right|]. intros ->. by apply (disjoint_ranges_irrefl (a, seL4_PageTableBits)), Hdis.
  - eapply wp_eq; [exact E|]. rewrite Z.eqb_refl. sos_steps. exists L. by split.
Qed.
Lemma map_page_spec s L c pd v rights attr :
  ut_rep (ut s) L -> ut_ready (ut s) ->
  wp (map_page c pd v rights attr) (fun r s' => exists L', map_step s s' L L' /\ (r.1 = 0 -> ut_ready (ut s'))) s.
Proof.
  intros Hu Hr. unfold map_page. sos_steps.
  pose proof (map_step_kern s _ L Hu (page_map_grow (kern s) c pd v rights attr)) as Hm.
  destruct (seL4_ARM_Page_Map c pd v rights attr (kern s)) as [err k]. cbn [fst snd] in *.
  destruct (Z.eqb_spec err seL4_FailedLookup); [|sos_steps; by exists L].
  sos_steps. eapply wp_mono; [by apply (_map_page_table_spec (set_kern k s) L)|].
  intros [err' pt] s' (L' & Hm' & Hr'). cbn [fst] in Hr'.
  destruct (Z.eqb_spec err' 0) as [->|]; sos_steps.
  - exists L'. split; [|by intros; apply Hr'].
    eapply map_step_trans; [exact Hm|]. eapply map_step_trans; [exact Hm'|].
    apply map_step_kern; [apply Hm' | apply page_map_grow].
  - exists L'. split; [by eapply map_step_trans | done].
Qed.

Lemma retype_and_map_spec s L a v :
  ut_rep (ut s) L -> ut_ready (ut s) ->
  wp (retype_and_map a v) (fun r s' => exists L', map_step s s' L L' /\
    (r.1 = 0 -> ut_ready (ut s') /\ 0 < r.2 /\ cap_paddr (kern s) r.2 = None /\ cap_paddr (kern s') r.2 = Some a)) s.
Proof.
  intros Hu Hr. unfold retype_and_map. sos_steps.
  pose proof (map_step_kern s _ L Hu (retype_grow (kern s) a seL4_ARM_SmallPageObject seL4_PageBits)) as Hm.
  pose proof (retype_law (kern s) a seL4_ARM_SmallPageObject seL4_PageBits) as Hl. cbv zeta in Hl.
  destruct (cspace_ut_retype_addr a seL4_ARM_SmallPageObject seL4_PageBits (kern s)) as [[err c] k].
  cbn [fst snd] in *. destruct (Z.eqb_spec err 0) as [->|]; bred; [|sos_steps; by exists L].
  destruct Hl as [(_ & Hc & Hn & Hk) | [? _]]; [|done]. sos_steps.
  eapply wp_mono; [by apply (map_page_spec (set_kern k s) L)|].
  intros [err' pt] s' (L' & Hm' & Hr'). cbn [fst] in Hr'. sos_steps.
  exists L'. split; [by eapply map_step_trans|]. destruct (Z.eqb_spec err' 0) as [->|]; bred; [|done].
  intros _. split; [by apply Hr'|]. split; [lia|]. split; [done|].
  apply (ms_caps _ _ _ _ Hm'). sred. by rewrite Hk, Z.eqb_refl.
Qed.
(** ** Allocation from the untyped pool *)

Lemma ft_inv_map_step s s' t L L' own : ft_inv s t L own -> map_step s s' L L' -> ft_inv s' t L' own.
Proof.
  intros [Hg Ht [Hl Hc Hn] Hu Hr Hb Hi Hnd Hbuf Hown Hcnt] [Hu' Hsub Hlo Hhi Hk Hm Hf Hrest].
  assert (forall id, single (ft s) t L id -> single (ft s) t L' id) as Hs.
  { intros id [Hin ?]. split; [by apply Hsub | done]. }
  split; rewrite ?Hf; try done.
  - split; try done. intros id e He Hne. destruct (Hc id e He Hne) as (Hid & Hp & b & Hb' & Hblk).
    split; [done|]. split; [by apply Hk|]. exists b. split; [by apply Hsub | done].
  - by rewrite Hlo, Hhi.
  - intros id Hin. destruct (Hbuf id Hin). split; [by apply Hs | done].
  - intros id Hin. by apply Hs, Hown.
Qed.

Lemma count_caps_le t : 0 <= count_caps t <= Z.of_nat (length t).
Proof. unfold count_caps. pose proof (length_filter (fun e => cap e <> 0) t). lia. Qed.

(** Giving an empty entry inside a live block a capability. *)
Lemma ft_inv_new_cap s t L own id e c blk :
  ft_inv s t L own -> t !z id = Some e -> cap e = 0 -> c <> 0 -> 0 <= id < n_frames (ft s) ->
  cap_paddr (kern s) c = Some (frame_addr (ft s) id) -> blk ∈ L -> in_block (ft s) id blk ->
  let t' := insertZ id (FrameEntry c FIRST_CHANCE 0 0) t in
  let f' := set_frame_table_cnt (u32 (frame_table_cnt (ft s) + 1)) (set_frame_table (Some t') (ft s)) in
  ft_inv (set_ft f' s) t' L own.
Proof.
  intros [Hg Ht [Hl Hc Hn] Hu Hr Hb Hi Hnd Hbuf Hown Hcnt] He Hce Hne Hid Hp Hblk Hin t' f'.
  pose proof (lookupZ_lt _ _ _ He) as Hlt. assert (same_range (ft s) f') as E by done.
  assert (forall i, single (ft s) t L i -> single f' t' L i) as Hs.
  { intros i Hsi. apply (single_range (ft s) _ _ _ _ E), (single_insert _ _ _ _ e); done. }
  assert (count_caps t' = count_caps t + 1) as Hcount.
  { unfold t'. rewrite (count_caps_insert t id e _ He), Hce. cbn [cap Z.eqb].
    destruct (Z.eqb_spec c 0); [done | lia]. }
  assert (length t' = length t) as Hlen by apply length_insertZ.
  split; sred; try done.
  - by apply (ft_geom_range _ _ E).
  - apply (table_inv_range _ _ _ _ _ E). split; [by rewrite Hlen| |];
      intros i x Hx Hxc; unfold t' in Hx; rewrite lookupZ_insertZ in Hx by done;
      (destruct (decide (id = i)) as [<-|]; [injection Hx as <-; eauto | by eauto]).
  - intros i Hi'. destruct (Hbuf i Hi'). split; [by apply Hs | done].
  - intros i Hi'. by apply Hs, Hown.
  - pose proof (count_caps_le t'). unfold f'. cbn [frame_table_cnt set_frame_table_cnt set_frame_table].
    rewrite Hcount, Hlen in *. rewrite u32_small; [lia|]. unfold is_u32. lia.
Qed.

(** What an allocation leaves as it was. *)
Record alloc_frame (s s' : S) (t t' : list frame_entry) (lo n : Z) : Prop := {
  af_caps : caps_grow (kern s) (kern s');
  af_rest : same_rest s s';
  af_range : same_range (ft s) (ft s');
  af_max : frame_table_max (ft s') = frame_table_max (ft s);
  af_buf : buffered (ft s') = buffered (ft s);
  af_others : forall id, ~ (lo <= id < lo + n) -> t' !z id = t !z id
}.

Lemma alloc_round_spec s t L own blk v i id e :
  ft_inv s t L own -> ut_ready (ut s) -> 0 <= id < n_frames (ft s) -> t !z id = Some e -> cap e = 0 ->
  blk ∈ L -> in_block (ft s) id blk ->
  wp (alloc_round v i (frame_addr (ft s) id)) (fun ok s' => exists t' L', ft_inv s' t' L' own /\ L ⊆ L' /\
    alloc_frame s s' t t' id 1 /\ mem s' = mem s /\
    (ok = true -> ut_ready (ut s') /\ exists c, c <> 0 /\ t' = insertZ id (FrameEntry c FIRST_CHANCE 0 0) t)) s.
Proof.
  intros Hinv Hr Hid He Hce Hblk Hin. unfold alloc_round. sos_steps.
  eapply wp_mono; [apply (retype_and_map_spec s L); [apply Hinv | done]|].
  intros [err c] s' (L' & Hm & Hok). cbn [fst snd] in Hok.
  pose proof (ft_inv_map_step _ _ _ _ _ _ Hinv Hm) as Hinv'. pose proof (ms_ft _ _ _ _ Hm) as Hf.
  destruct (Z.eqb_spec err 0) as [->|]; bred; sos_steps.
  2: { exists t, L'. split; [done|]. split; [apply Hm|]. split; [|split; [apply Hm | done]].
       split; rewrite ?Hf; try apply Hm; done. }
  destruct (Hok eq_refl) as (Hr' & Hc & _ & Hp).
  assert (ADDR_TO_INDEX (ft s') (frame_addr (ft s) id) = id) as ->.
  { pose proof (fi_geom _ _ _ _ Hinv) as Hg. pose proof (n_frames_addr _ Hg). pose proof Hg as [_ [? [Hp' _]]].
    unfold PHYSICAL_VSTART in Hp'. rewrite Hf. unfold frame_addr. rewrite addr_to_index by (done || lia).
    symmetry. apply (Z.div_unique _ _ _ 0); lia. }
  unfold on_ft. sos_steps. eapply wp_entry; [apply Hinv' | done|]. sos_steps.
  apply wp_assert; [by rewrite Hce|]. sos_steps.
  apply wp_assert; [apply bool_decide_eq_true; by apply (ti_nocap _ _ _ _ (fi_tinv _ _ _ _ Hinv) id)|]. sos_steps.
  eapply wp_set_entry; [apply Hinv' | done|]. sos_steps. sred.
  pose proof (ft_inv_new_cap s' t L' own id e c blk Hinv' He Hce ltac:(lia) ltac:(by rewrite Hf)
    ltac:(by rewrite Hf) ltac:(by apply (ms_sub _ _ _ _ Hm)) ltac:(by rewrite Hf)) as Hnew.
  eexists _, L'. split; [exact Hnew|]. split; [apply Hm|]. split; [|split; [apply Hm|]].
  - pose proof (ms_rest _ _ _ _ Hm) as []. split; sred; cbn [set_frame_table_cnt set_frame_table frame_table_max];
      rewrite ?Hf; try done; [exact (ms_caps _ _ _ _ Hm)|].
    intros j Hj. apply lookupZ_insertZ_ne. lia.
  - intros _. split; [done|]. exists c. split; [lia | done].
Qed.

Lemma alloc_frame_refl s t lo n : alloc_frame s s t t lo n.
Proof. by split. Qed.

Lemma alloc_frame_ut s s' u t t' lo n : alloc_frame (set_ut u s) s' t t' lo n -> alloc_frame s s' t t' lo n.
Proof. intros [? [] ? ? ? ?]. by split. Qed.

Lemma alloc_frame_frame s s' u m t t' lo n :
  alloc_frame (set_ut u s) s' t t' lo n -> alloc_frame s (set_mem m s') t t' lo n.
Proof. intros [? [] ? ? ? ?]. by split. Qed.

Lemma alloc_frame_trans s1 s2 s3 t1 t2 t3 lo a n :
  0 <= a -> 0 <= n -> alloc_frame s1 s2 t1 t2 lo a -> alloc_frame s2 s3 t2 t3 (lo + a) n ->
  alloc_frame s1 s3 t1 t3 lo (a + n).
Proof.
  intros ?? [C1 R1 [B1 T1] X1 F1 O1] [C2 R2 [B2 T2] X2 F2 O2]. split; [by etrans | by etrans | | congruence | congruence |].
  - split; congruence.
  - intros id Hid. rewrite O2, O1 by lia. done.
Qed.

Lemma alloc_rounds_spec n s t L own blk v i id :
  ft_inv s t L own -> ut_ready (ut s) -> 0 <= id -> id + Z.of_nat n <= n_frames (ft s) -> blk ∈ L ->
  (forall j, id <= j < id + Z.of_nat n -> in_block (ft s) j blk /\ exists e, t !z j = Some e /\ cap e = 0) ->
  wp (alloc_rounds n v i (frame_addr (ft s) id)) (fun ok s' => exists t' L', ft_inv s' t' L' own /\ L ⊆ L' /\
    alloc_frame s s' t t' id (Z.of_nat n) /\ mem s' = mem s /\
    (ok = true -> ut_ready (ut s') /\ forall j, id <= j < id + Z.of_nat n ->
      exists c, c <> 0 /\ t' !z j = Some (FrameEntry c FIRST_CHANCE 0 0))) s.
Proof.
  revert s t L i id. induction n as [|n IH]; intros s t L i id Hinv Hr Hid Hn Hblk Hfr; cbn [alloc_rounds].
  - sos_steps. exists t, L. split; [done|]. split; [done|]. split; [apply alloc_frame_refl|]. split; [done|].
    intros _. split; [done|]. lia.
  - sos_steps. destruct (Hfr id ltac:(lia)) as (Hin & e & He & Hce).
    eapply wp_mono; [apply (alloc_round_spec s t L own blk v i id e); try done; lia|].
    intros ok s1 (t1 & L1 & Hinv1 & Hsub1 & Haf1 & Hm1 & Hok1).
    destruct ok; sos_steps.
    2: { exists t1, L1. split; [done|]. split; [done|]. split; [|done].
         destruct Haf1 as [? ? ? ? ? Ho]. split; try done. intros j Hj. apply Ho. lia. }
    destruct (Hok1 eq_refl) as (Hr1 & c & Hc & ->). destruct (af_range _ _ _ _ _ _ Haf1) as [Eb Et].
    assert (u32 (frame_addr (ft s) id + PAGE_SIZE_4K) = frame_addr (ft s1) (id + 1)) as ->.
    { pose proof (fi_geom _ _ _ _ Hinv) as Hg. pose proof (n_frames_addr _ Hg). pose proof Hg as [? [? [Hp _]]].
      unfold PHYSICAL_VSTART in Hp. rewrite PAGE_SIZE_4K_eq. unfold frame_addr. rewrite Eb.
      rewrite u32_small by (unfold is_u32; lia). lia. }
    eapply wp_mono; [apply (IH s1 (insertZ id (FrameEntry c FIRST_CHANCE 0 0) t) L1 (i + 1) (id + 1)); [done | done | lia | | by apply Hsub1 |]|].
    + rewrite (n_frames_range (ft s)) by done. lia.
    + intros j Hj. unfold in_block. rewrite (frame_addr_range (ft s)) by done.
      rewrite lookupZ_insertZ_ne by lia. apply Hfr. lia.
    + intros ok s2 (t2 & L2 & Hinv2 & Hsub2 & Haf2 & Hm2 & Hok2). exists t2, L2.
      split; [done|]. split; [by etrans|].
      split; [replace (Z.of_nat (Datatypes.S n)) with (1 + Z.of_nat n) by lia; eapply alloc_frame_trans; [lia | lia | done | done]|].
      split; [congruence|]. intros Ht. destruct (Hok2 Ht) as [Hr2 Hcaps]. split; [done|].
      intros j Hj. destruct (decide (j = id)) as [->|]; [|apply Hcaps; lia].
      exists c. split; [done|]. rewrite (af_others _ _ _ _ _ _ Haf2) by lia.
      apply lookupZ_insertZ_eq. by eapply lookupZ_lt.
Qed.

(** A new block holds no frame with a capability. *)
Lemma new_block_empty s t L own a sz id :
  ft_inv s t L own -> 0 <= id < n_frames (ft s) -> (forall y, y ∈ L -> disjoint_ranges (a, sz) y) ->
  in_block (ft s) id (a, sz) -> exists e, t !z id = Some e /\ cap e = 0.
Proof.
  intros Hinv Hid Hdis Hin. pose proof (fi_tinv _ _ _ _ Hinv) as [Hl Hc _].
  destruct (lookupZ_in_range t id) as [e He]; [lia|]. exists e. split; [done|].
  destruct (Z.eq_dec (cap e) 0) as [|Hne]; [done|]. exfalso.
  destruct (Hc id e He Hne) as (_ & _ & b & Hb & Hblk). specialize (Hdis b Hb).
  unfold disjoint_ranges, in_block in *. simpl in *. lia.
Qed.

Lemma ft_inv_ut s t L L' own u :
  ft_inv s t L own -> ut_rep u L' -> L ⊆ L' -> ut_lo u = ut_lo (ut s) -> ut_hi u = ut_hi (ut s) ->
  ft_inv (set_ut u s) t L' own.
Proof.
  intros Hinv Hu Hsub Hlo Hhi. eapply ft_inv_map_step; [done|]. by split.
Qed.

Lemma ft_inv_mem s t L own m : ft_inv s t L own -> ft_inv (set_mem m s) t L own.
Proof. intros []. by split. Qed.

(** The result of an allocation of [n] frames. *)
Definition new_frames (s s' : S) (t t' : list frame_entry) (L' : gset (Z * Z)) (n : Z) (r : option (Z * Z)) : Prop :=
  match r with
  | Some (id, va) =>
      0 <= id /\ id + n <= n_frames (ft s) /\ va = PHYSICAL_VSTART + frame_addr (ft s) id /\ ut_ready (ut s') /\
      alloc_frame s s' t t' id n /\ mem s' = bzero va (4096 * n) (mem s) /\
      (frame_addr (ft s) id, 12 + Z.log2 n) ∈ L' /\
      (forall j, id <= j < id + n -> (exists e, t !z j = Some e /\ cap e = 0) /\
        exists c, c <> 0 /\ t' !z j = Some (FrameEntry c FIRST_CHANCE 0 0))
  | None => exists id k, alloc_frame s s' t t' id k /\ mem s' = mem s /\
      (forall j, id <= j < id + k -> exists e, t !z j = Some e /\ cap e = 0)
  end.

Lemma block_frames f a n : ft_geom f -> n = 1 \/ n = 4 ->
  a mod 2 ^ (12 + Z.log2 n) = 0 -> ut_base f <= a -> a + 2 ^ (12 + Z.log2 n) <= ut_top f ->
  let id := (a - ut_base f) / 4096 in
  frame_addr f id = a /\ 0 <= id /\ id + n <= n_frames f /\
  forall j, id <= j < id + n -> in_block f j (a, 12 + Z.log2 n).
Proof.
  intros Hg Hn Hm Hlo Hhi id. pose proof (n_frames_addr f Hg) as Hnf. destruct Hg as [[_ Hbm] _].
  assert (2 ^ (12 + Z.log2 n) = n * 4096) as Hs by (destruct Hn as [-> | ->]; done). rewrite Hs in *.
  assert (a mod 4096 = 0) as Ha.
  { apply Z.mod_divide; [lia|]. apply Z.mod_divide in Hm as [q Hq]; [|lia]. exists (q * n). lia. }
  assert ((a - ut_base f) mod 4096 = 0) as Hd by (rewrite Zminus_mod, Ha, Hbm; done).
  pose proof (Z.div_mod (a - ut_base f) 4096 ltac:(lia)) as Hdm. fold id in Hdm.
  unfold in_block, frame_addr. cbn [fst snd]. rewrite Hs. split_and!; try lia.
Qed.

Lemma _frame_alloc_spec s t L own n :
  ft_inv s t L own -> ut_ready (ut s) -> n = 1 \/ n = 4 ->
  wp (_frame_alloc n) (fun r s' => exists t' L', ft_inv s' t' L' own /\ L ⊆ L' /\ new_frames s s' t t' L' n r) s.
Proof.
  intros Hinv Hr Hn. unfold _frame_alloc. sos_steps. rewrite LOG_BASE_2_log2.
  destruct (ut_alloc_law (ut s) L (seL4_PageBits + Z.log2 n) (fi_ut _ _ _ _ Hinv) Hr) as (a & u' & E & Hlo & Hhi & Hpost).
  { destruct Hn as [-> | ->]; auto. }
  eapply wp_eq; [exact E|]. unfold seL4_PageBits in *. destruct (fi_range _ _ _ _ Hinv) as [Elo Ehi].
  destruct Hpost as [(Ha & Hu' & Hr' & Hm & Halo & Hahi & Hdis) | [-> Hu']].
  2: { rewrite Z.eqb_refl. sos_steps. exists t, L. split; [by apply ft_inv_ut with L|]. split; [done|].
       exists 0, 0. split; [by split|]. split; [done|]. lia. }
  destruct (Z.eqb_spec a 0); [done|]. sos_steps. sred.
  destruct (block_frames (ft s) a n (fi_geom _ _ _ _ Hinv) Hn Hm ltac:(lia) ltac:(lia)) as (Ea & Hid & Hidn & Hblk).
  pose proof (fi_geom _ _ _ _ Hinv) as Hg. pose proof (n_frames_addr _ Hg) as Hnf. pose proof Hg as [? [? [Hp _]]].
  rewrite addr_to_index by (done || unfold PHYSICAL_VSTART in Hp; lia).
  set (id := (a - ut_base (ft s)) / 4096) in *.
  assert (u32 (PHYSICAL_VSTART + a) = PHYSICAL_VSTART + frame_addr (ft s) id) as ->.
  { rewrite Ea. apply u32_small. unfold is_u32, PHYSICAL_VSTART in *. lia. }
  assert (Z.of_nat (Z.to_nat n) = n) as En by lia.
  assert (forall j, id <= j < id + n -> exists e, t !z j = Some e /\ cap e = 0) as Hempty.
  { intros j Hj. apply (new_block_empty s t L own a (12 + Z.log2 n)); [done | lia | done | by apply Hblk]. }
  rewrite <- Ea. eapply wp_mono; [apply (alloc_rounds_spec (Z.to_nat n) (set_ut u' s) t
    ({[(a, 12 + Z.log2 n)]} ∪ L) own (a, 12 + Z.log2 n) _ 0 id); sred; rewrite ?En|].
  { apply ft_inv_ut with L; [done | done | | done | done]. apply union_subseteq_r. }
  { done. }
  { done. }
  { done. }
  { apply elem_of_union_l. by apply elem_of_singleton. }
  { intros j Hj. split; [by apply Hblk | by apply Hempty]. }
  intros ok s' (t' & L' & Hinv' & Hsub & Haf & Hmem & Hok). rewrite En in *.
  assert (L ⊆ L') by (etrans; [apply union_subseteq_r | exact Hsub]).
  destruct ok; sos_steps.
  - destruct (Hok eq_refl) as [Hr'' Hcaps]. exists t', L'. split; [by apply ft_inv_mem|]. split; [done|].
    split; [done|]. split; [done|]. split; [done|]. split; [done|]. split; [by apply (alloc_frame_frame _ _ u')|].
    split; [sred; rewrite Hmem, PAGE_SIZE_4K_eq; done|].
    split; [rewrite Ea; apply Hsub, elem_of_union_l; by apply elem_of_singleton|].
    intros j Hj. split; [by apply Hempty | by apply Hcaps].
  - exists t', L'. split; [done|]. split; [done|]. exists id, n. split; [by apply (alloc_frame_ut _ _ u')|]. done.
Qed.

(** ** Taking a frame from the buffer *)

Lemma buffered_snoc f x : 0 <= free_index f -> free_frames f !z free_index f = Some x ->
  buffered (set_free_index (free_index f + 1) f) = buffered f ++ [x].
Proof.
  intros Hi Hx. unfold buffered. cbn [set_free_index free_index free_frames].
  unfold lookupZ in Hx. destruct (Z.leb_spec 0 (free_index f)); [|lia].
  replace (Z.to_nat (free_index f + 1)) with (Datatypes.S (Z.to_nat (free_index f))) by lia. by apply take_S_r.
Qed.

Lemma take_free_frame_spec s t L own :
  ft_inv s t L own -> 0 < free_index (ft s) ->
  wp take_free_frame (fun r s' => let '(id, va) := r in
    exists e, t !z id = Some e /\ cap e <> 0 /\ ~ id ∈ own /\ va = PHYSICAL_VSTART + frame_addr (ft s) id /\
      ft_inv s' (insertZ id (set_chance FIRST_CHANCE e) t) L ({[id]} ∪ own) /\ same_rest s s' /\
      kern s' = kern s /\ ut s' = ut s /\ mem s' = bzero va 4096 (mem s) /\ same_range (ft s) (ft s') /\
      frame_table_max (ft s') = frame_table_max (ft s) /\ buffered (ft s) = buffered (ft s') ++ [id]) s.
Proof.
  intros Hinv Hidx. pose proof Hinv as [Hg Ht Hti Hu Hr Hb Hi Hnd Hbuf Hown Hcnt].
  unfold take_free_frame, on_ft. sos_steps. sred. unfold HIGH_WATERMARK in *.
  set (f1 := set_free_index (u32 (free_index (ft s) - 1)) (ft s)).
  assert (free_index f1 = free_index (ft s) - 1) as Ei by (apply u32_small; unfold is_u32; lia).
  destruct (lookupZ_in_range (free_frames (ft s)) (free_index f1)) as [id Hid]; [lia|].
  assert (buffered (ft s) = buffered f1 ++ [id]) as Eb.
  { rewrite <- (buffered_snoc f1 id) by (done || lia). unfold buffered. cbn [set_free_index free_index free_frames].
    do 2 f_equal. lia. }
  eapply wp_rd; [exact Hid|]. sos_steps. sred. rewrite PAGE_SIZE_4K_eq.
  assert (id ∈ buffered (ft s)) as Hin by (rewrite Eb; set_solver).
  destruct (Hbuf id Hin) as [[HL (e & He & Hc)] Hno].
  destruct (ti_cap _ _ _ _ Hti id e He Hc) as (Hidr & _).
  eapply wp_entry; [exact Ht | exact He|]. sos_steps. eapply wp_set_entry; [exact Ht | exact He|]. sos_steps. sred.
  assert (u32 (PHYSICAL_VSTART + INDEX_TO_ADDR f1 id) = PHYSICAL_VSTART + frame_addr (ft s) id) as ->.
  { rewrite <- frame_vaddr by done. unfold frame_table_index_to_sos_vaddr, frame_table_paddr_to_sos_vaddr.
    by rewrite Z.add_comm. }
  exists e. split; [done|]. split; [done|]. split; [done|]. split; [done|]. split; [|by repeat split].
  rewrite Eb in Hnd. apply NoDup_app in Hnd as (Hnd1 & Hnot & _).
  assert (same_range (ft s) (set_frame_table (Some (insertZ id (set_chance FIRST_CHANCE e) t)) f1)) as E by done.
  assert (forall i, single (ft s) t L i -> single (set_frame_table (Some (insertZ id (set_chance FIRST_CHANCE e) t)) f1)
    (insertZ id (set_chance FIRST_CHANCE e) t) L i) as Hs.
  { intros i Hsi. apply (single_range (ft s) _ _ _ _ E), (single_insert _ _ _ _ e); done. }
  split; sred; try done.
  - by apply (ft_geom_range _ _ E).
  - apply (table_inv_range _ _ _ _ _ E). by apply table_inv_insert with (e := e).
  - unfold HIGH_WATERMARK. cbn [free_index set_frame_table]. lia.
  - intros i Hin'. split; [apply Hs, Hbuf; rewrite Eb; set_solver|].
    apply not_elem_of_union. split; [|apply Hbuf; rewrite Eb; set_solver].
    intros ->%elem_of_singleton. apply (Hnot id Hin'). set_solver.
  - intros i [->%elem_of_singleton | Hio]%elem_of_union; [by apply Hs, Hbuf | by apply Hs, Hown].
  - cbn [frame_table_cnt set_frame_table]. rewrite (count_caps_insert t id e _ He), length_insertZ.
    cbn [cap set_chance]. destruct (Z.eqb_spec (cap e) 0); [done | cbn; lia].
Qed.

(** ** Giving frames back *)

(** The invariant without the buffer: [X] are the frames that are handed out or
    buffered. *)
Record ft_core (s : S) (t : list frame_entry) (L : gset (Z * Z)) (X : gset Z) : Prop := {
  co_geom : ft_geom (ft s);
  co_table : frame_table (ft s) = Some t;
  co_tinv : table_inv (ft s) (kern s) t L;
  co_ut : ut_rep (ut s) L;
  co_range : ut_lo (ut s) = ut_base (ft s) /\ ut_hi (ut s) = ut_top (ft s);
  co_single : forall id, id ∈ X -> single (ft s) t L id;
  co_cnt : frame_table_cnt (ft s) = count_caps t /\ Z.of_nat (length t) < 2 ^ 32
}.

Lemma ft_inv_core s t L own : ft_inv s t L own -> ft_core s t L (own ∪ list_to_set (buffered (ft s))).
Proof.
  intros [Hg Ht Hti Hu Hr Hb Hi Hnd Hbuf Hown Hcnt]. split; try done.
  intros id [Hin | Hin%elem_of_list_to_set]%elem_of_union; [by apply Hown | by apply Hbuf].
Qed.

Lemma ft_core_inv s t L own :
  ft_core s t L (own ∪ list_to_set (buffered (ft s))) ->
  Z.of_nat (length (free_frames (ft s))) = HIGH_WATERMARK -> 0 <= free_index (ft s) <= HIGH_WATERMARK ->
  NoDup (buffered (ft s)) -> (forall id, id ∈ buffered (ft s) -> ~ id ∈ own) -> ft_inv s t L own.
Proof.
  intros [Hg Ht Hti Hu Hr Hs Hcnt] Hb Hi Hnd Hdis. split; try done.
  - intros id Hin. split; [|by apply Hdis]. apply Hs, elem_of_union_r. by apply elem_of_list_to_set.
  - intros id Hin. by apply Hs, elem_of_union_l.
Qed.

Lemma frame_addr_inj f i j : frame_addr f i = frame_addr f j -> i = j.
Proof. unfold frame_addr. lia. Qed.

(** What freeing the frame [id] with capability [c] leaves as it was. *)
Record free_frame (s s' : S) (c : Z) : Prop := {
  ff_caps : forall x a, x <> c -> cap_paddr (kern s) x = Some a -> cap_paddr (kern s') x = Some a;
  ff_rest : same_rest s s';
  ff_mem : mem s' = mem s;
  ff_range : same_range (ft s) (ft s');
  ff_max : frame_table_max (ft s') = frame_table_max (ft s);
  ff_ready : ut_ready (ut s) -> ut_ready (ut s')
}.

Lemma delete_cap_keeps k c x a : x <> c -> cap_paddr k x = Some a -> cap_paddr (cspace_delete_cap c k).2 x = Some a.
Proof.
  intros Hx Ha. destruct (delete_law k c) as [[_ H] | [_ H]]; rewrite H; [|done].
  by destruct (Z.eqb_spec x c).
Qed.

Lemma _frame_free_spec s t L X id e :
  ft_core s t L X -> id ∈ X -> t !z id = Some e ->
  wp (_frame_free id) (fun _ s' =>
    ft_core s' (insertZ id zero_entry t) (L ∖ {[(frame_addr (ft s) id, 12)]}) (X ∖ {[id]}) /\
    free_frame s s' (cap e) /\ free_frames (ft s') = free_frames (ft s) /\ free_index (ft s') = free_index (ft s)) s.
Proof.
  intros [Hg Ht [Hl Hc Hn] Hu Hr Hs Hcnt] Hid He. destruct (Hs id Hid) as [HL (e' & He' & Hne)].
  replace e' with e in Hne by congruence. clear e' He'.
  destruct (Hc id e He Hne) as (Hidr & Hpa & _). pose proof (lookupZ_lt _ _ _ He) as Hlt.
  unfold _frame_free, on_ft. sos_steps. eapply wp_entry; [done..|]. sos_steps.
  eapply wp_set_entry; [done..|]. destruct (Z.eqb_spec (cap e) 0); [done|]. sos_steps. sred.
  set (f' := set_frame_table_cnt (u32 (frame_table_cnt (ft s) - 1))
    (set_frame_table (Some (insertZ id zero_entry t)) (ft s))).
  change (set_frame_table_cnt _ _) with f'. assert (same_range (ft s) f') as E by done.
  rewrite index_to_addr by (done || by apply (ft_geom_range _ _ E)).
  rewrite (frame_addr_range _ _ id E).
  destruct (ut_free_law (ut s) L (frame_addr (ft s) id) 12 Hu HL) as (u' & Eu & Hu' & Hrdy & Hlo & Hhi).
  eapply wp_eq; [exact Eu|]. sred.
  set (k1 := (seL4_ARM_Page_Unmap (cap e) (kern s)).2).
  assert (cap_paddr k1 = cap_paddr (kern s)) as Ek1 by apply page_unmap_law.
  assert (forall x a, x <> cap e -> cap_paddr (kern s) x = Some a ->
    cap_paddr (cspace_delete_cap (cap e) k1).2 x = Some a) as Hkeep.
  { intros x a Hx Ha. apply delete_cap_keeps; [done|]. by rewrite Ek1. }
  split; [|split; [by split|done]]. split; sred; try done.
  - by apply (ft_geom_range _ _ E).
  - apply (table_inv_range _ _ _ _ _ E). split; [by rewrite length_insertZ| |].
    + intros i x Hx Hxc. rewrite lookupZ_insertZ in Hx by done.
      destruct (decide (id = i)) as [<-|Hni]; [by injection Hx as <-|].
      destruct (Hc i x Hx Hxc) as (Hi & Hp & b & Hb & Hblk). split; [done|]. split.
      * apply Hkeep; [|done]. intros Ecap. rewrite Ecap, Hpa in Hp. injection Hp as Hp.
        by apply frame_addr_inj in Hp.
      * exists b. split; [|done]. apply elem_of_difference. split; [done|]. intros ->%elem_of_singleton.
        unfold in_block, frame_addr in Hblk. cbn [fst snd] in Hblk. lia.
    + intros i x Hx Hxc. rewrite lookupZ_insertZ in Hx by done.
      destruct (decide (id = i)) as [<-|Hni]; [by injection Hx as <- | by eapply Hn].
  - by rewrite Hlo, Hhi.
  - intros i [Hi Hne']%elem_of_difference. apply (single_range _ _ _ _ _ E).
    destruct (Hs i Hi) as [HLi (x & Hx & Hxc)]. assert (id <> i) by set_solver. split.
    + apply elem_of_difference. split; [done|]. intros Heq%elem_of_singleton. injection Heq as Heq.
      by apply frame_addr_inj in Heq.
    + exists x. split; [|done]. by rewrite lookupZ_insertZ_ne.
  - pose proof (count_caps_le (insertZ id zero_entry t)) as Hle. rewrite length_insertZ in *.
    rewrite (count_caps_insert t id e _ He) in *. destruct (Z.eqb_spec (cap e) 0); [done|]. cbn [cap zero_entry Z.eqb] in *.
    unfold f'. cbn [frame_table_cnt set_frame_table_cnt]. rewrite u32_small; [lia|]. unfold is_u32. lia.
Qed.

(** What [frame_free] leaves as it was; the frames [X] stay in use. *)
Record freed (s s' : S) (t t' : list frame_entry) (X : gset Z) : Prop := {
  fr_caps : forall c a, (forall j e, t !z j = Some e -> cap e <> c) ->
    cap_paddr (kern s) c = Some a -> cap_paddr (kern s') c = Some a;
  fr_rest : same_rest s s';
  fr_mem : mem s' = mem s;
  fr_range : same_range (ft s) (ft s');
  fr_max : frame_table_max (ft s') = frame_table_max (ft s);
  fr_ready : ut_ready (ut s) -> ut_ready (ut s');
  fr_keep : forall j, j ∈ X -> t' !z j = t !z j
}.

Lemma freed_step s s1 s2 t t1 X id e :
  freed s s1 t t1 X -> id ∈ X -> t !z id = Some e -> free_frame s1 s2 (cap e) ->
  freed s s2 t (insertZ id zero_entry t1) (X ∖ {[id]}).
Proof.
  intros [C R Me [G1 G2] Mx Rd Kp] Hid He [C' R' Me' [G1' G2'] Mx' Rd'].
  split; [| by etrans | congruence | | congruence | auto |].
  - intros c a Hc Ha. apply C'; [|by apply C]. intros ->. by apply (Hc id e).
  - split; congruence.
  - intros j [Hj Hne]%elem_of_difference. rewrite lookupZ_insertZ_ne by set_solver. by apply Kp.
Qed.

(** The loop of [frame_free] that empties the upper half of the full buffer. *)
Lemma drain_spec s s1 t t1 L1 own B :
  let X i := own ∪ list_to_set (take 32 B) ∪ list_to_set (drop (Z.to_nat i) B) : gset Z in
  NoDup B -> Z.of_nat (length B) = HIGH_WATERMARK -> (forall x, x ∈ B -> ~ x ∈ own) ->
  free_frames (ft s1) = B -> ft_core s1 t1 L1 (X LOW_WATERMARK) -> freed s s1 t t1 (X LOW_WATERMARK) ->
  (forall x, x ∈ B -> exists e, t !z x = Some e) ->
  wp (for_up LOW_WATERMARK HIGH_WATERMARK (fun id => f <- gets ft ;; x <- rd (free_frames f) id ;; _frame_free x))
    (fun _ s' => exists t' L', ft_core s' t' L' (own ∪ list_to_set (take 32 B)) /\
      freed s s' t t' (own ∪ list_to_set (take 32 B)) /\ free_frames (ft s') = B) s1.
Proof.
  intros X Hnd Hlen Hdis HB Hcore Hfr Hall. unfold HIGH_WATERMARK, LOW_WATERMARK in *.
  apply (wp_for_up (fun i s' => exists t' L', ft_core s' t' L' (X i) /\ freed s s' t t' (X i) /\ free_frames (ft s') = B)).
  - lia.
  - eauto 10.
  - intros i s' Hi (t' & L' & Hc & Hf & HB'). sos_steps. rewrite HB'.
    destruct (lookupZ_in_range B i) as [x Hx]; [lia|]. eapply wp_rd; [done|].
    assert (x ∈ B) as HxB.
    { unfold lookupZ in Hx. destruct (0 <=? i); [|done]. by eapply list_elem_of_lookup_2. }
    destruct (Hall x HxB) as [e He]. unfold lookupZ in Hx. destruct (Z.leb_spec 0 i); [|lia].
    assert (X i ∖ {[x]} = X (i + 1)) as EX.
    { unfold X. rewrite (drop_S B x (Z.to_nat i) Hx). replace (Z.to_nat (i + 1)) with (Datatypes.S (Z.to_nat i)) by lia.
      assert (~ x ∈ take 32 B) as Hn1.
      { intros Hin. rewrite <- (take_drop 32 B) in Hnd. apply NoDup_app in Hnd as (_ & Hd & _).
        apply (Hd x Hin). apply list_elem_of_lookup. exists (Z.to_nat i - 32)%nat. rewrite lookup_drop.
        by replace (32 + (Z.to_nat i - 32))%nat with (Z.to_nat i) by lia. }
      assert (~ x ∈ drop (Datatypes.S (Z.to_nat i)) B) as Hn2.
      { rewrite <- (take_drop_middle B (Z.to_nat i) x Hx) in Hnd. apply NoDup_app in Hnd as (_ & _ & Hd).
        by apply NoDup_cons in Hd as [? _]. }
      specialize (Hdis x HxB). apply leibniz_equiv. intros y. set_solver. }
    assert (x ∈ X i) as HxX by (unfold X; rewrite (drop_S B x (Z.to_nat i) Hx); set_solver).
    assert (t' !z x = Some e) as He' by (rewrite (fr_keep _ _ _ _ _ Hf) by done; done).
    eapply wp_mono; [by apply (_frame_free_spec s' t' L' (X i) x e)|].
    intros [] s2 (Hc2 & Hf2 & HB2 & _). rewrite EX in Hc2. eexists _, _. split; [exact Hc2|].
    split; [|congruence]. rewrite <- EX. by eapply freed_step.
  - intros s' (t' & L' & Hc & Hf & HB'). exists t', L'.
    assert (X 64 = own ∪ list_to_set (take 32 B)) as EX.
    { unfold X. rewrite drop_ge by lia. by rewrite list_to_set_nil, union_empty_r_L. }
    by rewrite <- EX.
Qed.

Lemma ft_core_index s t L X i : ft_core s t L X -> ft_core (set_ft (set_free_index i (ft s)) s) t L X.
Proof.
  intros [Hg Ht Hti Hu Hr Hs Hcnt]. assert (same_range (ft s) (set_free_index i (ft s))) as E by done.
  split; sred; try done.
  - by apply (ft_geom_range _ _ E).
  - by apply (table_inv_range _ _ _ _ _ E).
Qed.

Lemma freed_refl s t X : freed s s t t X.
Proof. by split. Qed.

(** The frame goes to the buffer. *)
Lemma ft_inv_buffer s t L own id :
  ft_inv s t L own -> id ∈ own -> free_index (ft s) < 64 ->
  let f' := set_free_index (free_index (ft s) + 1)
    (set_free_frames (insertZ (free_index (ft s)) id (free_frames (ft s))) (ft s)) in
  ft_inv (set_ft f' s) t L (own ∖ {[id]}).
Proof.
  intros [Hg Ht Hti Hu Hr Hb Hi Hnd Hbuf Hown Hcnt] Hid Hlt f'. unfold HIGH_WATERMARK in *.
  assert (same_range (ft s) f') as E by done.
  assert (buffered f' = buffered (ft s) ++ [id]) as Eb.
  { etrans; [apply (buffered_snoc (set_free_frames (insertZ (free_index (ft s)) id (free_frames (ft s))) (ft s)) id)|].
    - cbn. lia.
    - cbn [set_free_frames free_index free_frames]. apply lookupZ_insertZ_eq. lia.
    - f_equal. unfold buffered. cbn [set_free_frames free_index free_frames]. unfold insertZ.
      destruct (Z.leb_spec 0 (free_index (ft s))); [|lia]. by rewrite take_insert_ge by lia. }
  assert (~ id ∈ buffered (ft s)) as Hnb by (intros Hin; by apply (Hbuf id Hin)).
  split; sred; try done.
  - by apply (ft_geom_range _ _ E).
  - by apply (table_inv_range _ _ _ _ _ E).
  - unfold f'. cbn [set_free_index set_free_frames free_frames]. rewrite length_insertZ. done.
  - unfold f', HIGH_WATERMARK. cbn [set_free_index free_index]. lia.
  - rewrite Eb. apply NoDup_app. split; [done|]. split; [set_solver | apply NoDup_singleton].
  - intros i Hin. rewrite Eb in Hin. apply elem_of_app in Hin as [Hin | ->%list_elem_of_singleton].
    + destruct (Hbuf i Hin). split; [by apply (single_range _ _ _ _ _ E) | set_solver].
    + split; [by apply (single_range _ _ _ _ _ E), Hown | set_solver].
  - intros i [Hin _]%elem_of_difference. by apply (single_range _ _ _ _ _ E), Hown.
Qed.

(** The buffer is full: half of it is released with the frame. *)
Lemma frame_free_full s t L own id e :
  ft_inv s t L own -> id ∈ own -> t !z id = Some e -> free_index (ft s) = 64 ->
  wp (_frame_free id ;;;
      for_up LOW_WATERMARK HIGH_WATERMARK (fun id => f <- gets ft ;; x <- rd (free_frames f) id ;; _frame_free x) ;;;
      on_ft (modify (set_free_index LOW_WATERMARK)))
    (fun _ s' => exists t' L', ft_inv s' t' L' (own ∖ {[id]}) /\ freed s s' t t' (own ∖ {[id]})) s.
Proof.
  intros Hinv Hid He Ei. pose proof Hinv as [_ _ _ _ _ Hb _ Hnd Hbuf _ _]. unfold HIGH_WATERMARK in Hb.
  assert (~ id ∈ buffered (ft s)) as Hnb by (intros Hin; by apply (Hbuf id Hin)).
  assert (buffered (ft s) = free_frames (ft s)) as EB by (unfold buffered; rewrite take_ge by lia; done).
  set (B := free_frames (ft s)) in *. rewrite EB in *. sos_steps.
  pose proof (ft_inv_core _ _ _ _ Hinv) as Hcore. rewrite EB in Hcore.
  eapply wp_mono; [apply (_frame_free_spec s t L _ id e Hcore ltac:(set_solver) He)|].
  intros [] s1 (Hc1 & Hf1 & HB1 & _). fold B in HB1.
  assert ((own ∪ list_to_set B) ∖ {[id]} = own ∖ {[id]} ∪ list_to_set (take 32 B) ∪ list_to_set (drop 32 B)) as EX.
  { rewrite <- (take_drop 32 B) in Hnb |- * at 1. rewrite list_to_set_app_L. apply leibniz_equiv. intros y. set_solver. }
  pose proof (freed_step s s s1 t t (own ∪ list_to_set B) id e (freed_refl s t _) ltac:(set_solver) He Hf1) as Hfr1.
  rewrite EX in Hc1, Hfr1.
  pose proof (drain_spec s s1 t _ _ (own ∖ {[id]}) B Hnd Hb
    ltac:(intros x Hx Hin; apply (Hbuf x Hx); set_solver) HB1 Hc1 Hfr1
    ltac:(intros x Hx; destruct (Hbuf x Hx) as [[_ (ex & Hex & _)] _]; eauto)) as Hdrain.
  sos_steps. eapply wp_mono; [exact Hdrain|].
  intros [] s2 (t2 & L2 & Hc2 & Hf2 & HB2). unfold on_ft. sos_steps. exists t2, L2. split.
  + apply ft_core_inv; sred; unfold buffered, LOW_WATERMARK; cbn [set_free_index free_index free_frames];
      change (Z.to_nat 32) with 32%nat; rewrite ?HB2; [by apply ft_core_index | done | unfold HIGH_WATERMARK; lia | |].
    * rewrite <- (take_drop 32 B) in Hnd. by apply NoDup_app in Hnd as [? _].
    * intros x Hx Hin. assert (x ∈ B) as HxB by (rewrite <- (take_drop 32 B); set_solver).
      apply (Hbuf x HxB). set_solver.
  + destruct Hf2 as [C [] Me G Mx Rd Kp]. split; try done. intros j Hj. apply Kp. set_solver.
Qed.

Lemma frame_free_run s t L own id :
  ft_inv s t L own -> id ∈ own ->
  wp (frame_free id) (fun _ s' => exists t' L', ft_inv s' t' L' (own ∖ {[id]}) /\ freed s s' t t' (own ∖ {[id]})) s.
Proof.
  intros Hinv Hid. pose proof Hinv as [Hg Ht Hti Hu Hr Hb Hi Hnd Hbuf Hown Hcnt].
  destruct (Hown id Hid) as [HL (e & He & Hne)]. destruct (ti_cap _ _ _ _ Hti id e He Hne) as [Hidr _].
  unfold frame_free. sos_steps. rewrite Ht, frame_in_range_ok by done. bred. sos_steps.
  apply wp_zoom. eapply wp_entry; [done..|]. destruct (Z.eqb_spec (cap e) 0); [done|].
  replace (set_ft (ft s) s) with s by (by destruct s). unfold HIGH_WATERMARK in *.
  destruct (Z.ltb_spec (free_index (ft s)) 64) as [Hlt|Hge].
  - sos_steps. apply wp_in_bounds; [lia|]. unfold on_ft. sos_steps. sred.
    cbn [set_free_frames free_index]. rewrite u32_small by (unfold is_u32; lia).
    exists t, L. split; [exact (ft_inv_buffer s t L own id Hinv Hid Hlt) | by split].
  - apply (frame_free_full s t L own id e); [done.. | lia].
Qed.
End inv.
