(* ===== verification/UtInterface.v ===== *)
(** * UtInterface: the untyped allocator and a kernel behind the interfaces

    The untyped allocator of ut_manager/ut_allocator.c satisfies what the rest
    of SOS assumes of it ([UtLaws]): the theorems about the frame table, the
    page tables and the processes apply to the allocator of the source.

    [toy_kernel] is the smallest kernel that satisfies [KernelLaws]; the
    examples run on it. *)

From S2P Require Import Prelude ListLib Bitfield UtAllocator UtRefine SosState.

(** The heap always has room for the node of a suballocator. *)
#[export] Instance ut_alloc_instance : UtAlloc ut_state := {
  ut_alloc sz := fun u => UtAllocator.ut_alloc (new_ptr (snodes u)) true sz u;
  ut_free := UtAllocator.ut_free
}.

(** The end of the memory the primary pool covers. *)
Definition pool_end (u : ut_state) : Z :=
  pool_base u + 2 ^ 14 * match pool14 u with Some bf => size bf | None => 0 end.

Lemma pool_end_inv N own ls u : ut_inv N own ls u -> pool_end u = pool_base u + N * 2 ^ 14.
Proof.
  intros Hinv. destruct (sh_pool _ _ (pi_shape _ _ _ (ui_pools _ _ _ _ Hinv)) P14) as (bf & Hbf & _ & Hs).
  unfold pool_end. simpl in Hbf, Hs. rewrite Hbf, Hs. lia.
Qed.

#[export, refine] Instance ut_laws_instance : UtLaws ut_state := {
  SosState.ut_rep u L := exists N, UtRefine.ut_rep N u L;
  ut_ready u := forall p, healthy u p;
  ut_lo := pool_base;
  ut_hi := pool_end
}.
Proof.
  - intros u L sz (N & own & ls & Hinv & HL) Hrdy Hsz.
    assert (wp (UtAllocator.ut_alloc (new_ptr (snodes u)) true sz)
      (alloc_post N own (sub sz /\ (new_ptr (snodes u) = 0 \/ true = false)) u sz) u) as Hwp.
    { eapply ut_alloc_inv; [done | unfold valid_size; set_solver | auto | intros; apply new_ptr_fresh]. }
    destruct (proj1 (wp_ok _ _ _) Hwp) as (a & u' & E & Hpost). exists a, u'. split; [done|].
    destruct Hpost as [(own' & ls' & Hinv' & Hheal & Hpb & Hne & Hnl & Hx) | (own' & ls' & Hinv' & _ & Hpb & -> & Hw & Hx)];
      (split; [done|]; split; [by rewrite (pool_end_inv _ _ _ _ Hinv'), (pool_end_inv _ _ _ _ Hinv), Hpb|]); [left | right].
    + assert (live N own' u' (a, sz)) as Hnew by (apply Hx; by right).
      destruct (live_range _ _ _ _ _ Hinv' Hnew) as (H1 & H2 & H3). rewrite Hpb in H1, H2. simpl in *.
      rewrite (pool_end_inv _ _ _ _ Hinv). split_and!; try done; try lia.
      * exists N, own', ls'. split; [done|]. intros x. rewrite Hx, elem_of_union, elem_of_singleton, HL. tauto.
      * intros p. by apply Hheal.
      * intros y Hy%HL. eapply live_disjoint; [done | done | apply Hx; by left |]. intros <-. done.
    + split; [done|]. exists N, own', ls'. split; [done|]. intros x. by rewrite Hx, HL.
  - intros u L a sz (N & own & ls & Hinv & HL) Hin.
    destruct (proj1 (wp_ok _ _ _) (ut_free_inv N own ls u a sz Hinv (proj1 (HL _) Hin)))
      as ([] & u' & E & own' & ls' & Hinv' & Hheal & Hpb & Hx).
    exists u'. split; [done|]. split; [|split; [|split; [done|]]].
    + exists N, own', ls'. split; [done|]. intros x. rewrite elem_of_difference, elem_of_singleton, HL, Hx. done.
    + intros Hr p. by apply Hheal.
    + by rewrite (pool_end_inv _ _ _ _ Hinv'), (pool_end_inv _ _ _ _ Hinv), Hpb.
Defined.

(** ** A kernel *)

(** The capabilities in use and the frames they refer to, and the disk of a
    file server: the byte at a place of a file. *)
Record toy_kernel := Toy { toy_caps : gmap Z Z; toy_disk : gmap (Z * Z) Z }.

Definition toy_new (a : option Z) (k : toy_kernel) : Z * toy_kernel :=
  let c := new_ptr (toy_caps k) in
  if c <? 2 ^ 32 then
    match a with Some a => (c, Toy (<[c := a]> (toy_caps k)) (toy_disk k)) | None => (0, k) end
  else (0, k).

#[export] Instance toy_kernel_instance : Kernel toy_kernel := {
  malloc_ok k := (true, k);
  cspace_ut_retype_addr a _ _ k :=
    let '(c, k') := toy_new (Some a) k in (((if c =? 0 then 1 else 0), c), k');
  cspace_copy_cap c _ k := toy_new (toy_caps k !! c) k;
  cspace_delete_cap c k := (0, Toy (delete c (toy_caps k)) (toy_disk k));
  seL4_ARM_Page_Map _ _ _ _ _ k := (0, k);
  seL4_ARM_Page_Unmap _ k := (0, k);
  seL4_ARM_PageTable_Map _ _ _ _ k := (0, k);
  seL4_ARM_PageTable_Unmap _ k := (0, k);
  seL4_ARM_Page_GetAddress c k := (default 0 (toy_caps k !! c), k);
  seL4_ARM_Page_Unify_Instruction _ _ _ k := (0, k)
}.

Lemma toy_lookup_insert (k : gmap Z Z) c a c' : <[c := a]> k !! c' = if c' =? c then Some a else k !! c'.
Proof.
  destruct (Z.eqb_spec c' c) as [->|]; [apply lookup_insert_eq | by apply lookup_insert_ne].
Qed.

#[export, refine] Instance toy_kernel_laws : KernelLaws toy_kernel := {
  cap_paddr k c := toy_caps k !! c
}.
Proof.
  - done.
  - intros [k dk] a ty b. unfold cspace_ut_retype_addr, toy_kernel_instance, toy_new. cbn [toy_caps].
    pose proof (new_ptr_pos k). destruct (Z.ltb_spec (new_ptr k) (2 ^ 32)); simpl; [left | by right].
    destruct (Z.eqb_spec (new_ptr k) 0); [lia|]. split_and!; try done; [apply new_ptr_fresh|].
    intros c. apply toy_lookup_insert.
  - intros [k dk] c rights. unfold cspace_copy_cap, toy_kernel_instance, toy_new. cbn [toy_caps].
    pose proof (new_ptr_pos k). destruct (Z.ltb_spec (new_ptr k) (2 ^ 32)); [|by right].
    destruct (k !! c) as [a|] eqn:E; simpl; [left | by right]. split_and!; try done; [apply new_ptr_fresh|].
    intros c'. rewrite toy_lookup_insert. by rewrite <- E.
  - intros [k dk] c. left. simpl. split; [done|]. intros c'. destruct (Z.eqb_spec c' c) as [->|].
    + apply lookup_delete_eq.
    + by apply lookup_delete_ne.
  - done.
  - done.
  - done.
  - done.
  - intros k c a H. simpl. by rewrite H.
  - done.
Defined.

(** A file server that moves at most 1024 bytes per request. *)
Definition toy_bytes (k : toy_kernel) (fh pos len : Z) : list Z :=
  (fun i : nat => default 0 (toy_disk k !! (fh, pos + Z.of_nat i))) <$> seq 0 (Z.to_nat len).
Fixpoint toy_store (fh pos : Z) (bs : list Z) (d : gmap (Z * Z) Z) : gmap (Z * Z) Z :=
  match bs with
  | [] => d
  | b :: bs => <[(fh, pos) := b]> (toy_store fh (pos + 1) bs d)
  end.

Lemma toy_store_out fh pos bs d g x :
  g <> fh \/ ~ (pos <= x < pos + Z.of_nat (length bs)) -> toy_store fh pos bs d !! (g, x) = d !! (g, x).
Proof.
  revert pos. induction bs as [|b bs IH]; intros pos H; [done|]. simpl in *.
  rewrite lookup_insert_ne by (intros [= -> ->]; lia). apply IH. lia.
Qed.

Lemma toy_store_in fh pos bs d i b : bs !z i = Some b -> toy_store fh pos bs d !! (fh, pos + i) = Some b.
Proof.
  intros Hi. pose proof (lookupZ_lt _ _ _ Hi) as Hlt. unfold lookupZ in Hi. destruct (Z.leb_spec 0 i); [|lia].
  rewrite <- (Z2Nat.id i) by lia. clear Hlt. revert pos Hi. generalize (Z.to_nat i). clear.
  induction bs as [|x bs IH]; intros [|n] pos Hi; simpl in *; try done.
  - injection Hi as ->. by rewrite Z.add_0_r, lookup_insert_eq.
  - rewrite lookup_insert_ne by (intros [= E]; lia).
    replace (pos + Z.of_nat (S n)) with (pos + 1 + Z.of_nat n) by lia. by apply IH.
Qed.

#[export] Instance toy_nfs : Nfs toy_kernel := {
  nfs_lookup _ k := (Some (0, 1), k);
  nfs_create _ k := (Some (0, 1), k);
  nfs_read fh pos len k := (Some (0, take 1024 (toy_bytes k fh pos len)), k);
  nfs_write fh pos bs k :=
    (Some (0, Z.of_nat (length (take 1024 bs))), Toy (toy_caps k) (toy_store fh pos (take 1024 bs) (toy_disk k)));
  nfs_getattr _ k := (Some (0, Fattr 1 4 0 (0, 0) (0, 0)), k);
  nfs_readdir _ k := (Some (0, [], 0), k)
}.

#[export] Instance toy_threads : Threads toy_kernel := {
  cspace_create _ k := (1, k);
  cspace_destroy _ k := (0, k);
  cspace_mint_cap _ _ _ _ _ k := (1, k);
  cspace_save_reply_cap k := (1, k);
  cspace_free_slot _ k := (0, k);
  cspace_root_cnode _ k := (1, k);
  seL4_TCB_Configure _ _ _ _ _ _ _ k := (0, k);
  seL4_TCB_Suspend _ k := (0, k);
  seL4_TCB_WriteRegisters _ _ _ k := (0, k);
  seL4_Send _ _ k := (tt, k);
  time_stamp k := (0, k);
  register_timer _ k := (1, k);
  serial_send bs k := (Z.of_nat (length bs), k)
}.

(** No other coroutine runs. *)
#[export] Instance toy_world : World (sos ut_state toy_kernel) := {
  yield _ := ret 0;
  resume _ _ := ret 0;
  resumable _ := ret true;
  meanwhile := ret tt
}.

(** ** The state the examples start from: no process, no file, memory of two
    slabs, a frame table of nine entries without a frame. *)
Definition boot_state : sos ut_state toy_kernel :=
  Sos demo (Toy ∅ ∅) ∅
    (Frametable (Some (replicate 9 (FrameEntry 0 FIRST_CHANCE 0 0))) 0x4000 0xc000 2048 0 (replicate 64 0) 0)
    (Pager 0 true 1 0 (replicate 640 0) false 0)
    ∅ ∅ ∅ ∅ (replicate 16 0) 0 (Lheap ∅ ∅)
    (Fsys ∅ ∅ ∅ [] [] None 0 None None 0 DirNull 0 false) (replicate 120 0) 1.
