(* ===== verification/PageTable.v ===== *)
(** * PageTable: the two-level page tables of processes

    Models the part of apps/sos/src/vm/vm.c that reads and changes the page
    tables SOS keeps for its processes.  A page directory is a frame of 1024
    words; each word is zero or the address of a frame of 1024 entries; an
    entry is zero, the capability of a resident page, or the place of the page
    in the page file with [EVICTED_BIT] set.

    [pt_view m d p] reads the tables as a map from pages to entries.  The
    theorems show that the functions implement lookup and update of that map
    and leave every other page alone. *)

From S2P Require Import Prelude Arith Memory SosState UtInterface.

Definition DIRECTORY_SIZE_BITS : Z := 10.
Definition TABLE_SIZE_BITS : Z := 10.
Definition CAPS_INDEX_BITS : Z := 12.
Definition DIRECTORY_OFFSET : Z := 32 - DIRECTORY_SIZE_BITS.
Definition TABLE_OFFSET : Z := 32 - DIRECTORY_SIZE_BITS - TABLE_SIZE_BITS.
Definition CAP_OFFSET : Z := 32 - CAPS_INDEX_BITS.
Definition DIRECTORY_MASK : Z := u32 (Z.shiftl (MASK_UNSAFE DIRECTORY_SIZE_BITS) DIRECTORY_OFFSET).
Definition TABLE_MASK : Z := u32 (Z.shiftl (MASK_UNSAFE TABLE_SIZE_BITS) TABLE_OFFSET).
Definition CAP_MASK : Z := u32 (Z.shiftl (MASK_UNSAFE CAPS_INDEX_BITS) CAP_OFFSET).
Definition CAP_INDEX (x : Z) : Z := Z.shiftr (Z.land x CAP_MASK) CAP_OFFSET.
Definition DIRECTORY_INDEX (x : Z) : Z := Z.shiftr (Z.land x DIRECTORY_MASK) DIRECTORY_OFFSET.
Definition TABLE_INDEX (x : Z) : Z := Z.shiftr (Z.land x TABLE_MASK) TABLE_OFFSET.

Definition MAX_CAP_ID : Z := BIT 31.
Definition EVICTED_BIT : Z := MAX_CAP_ID.
Definition IS_EVICTED (x : Z) : bool := negb (Z.land x EVICTED_BIT =? 0).

Definition ACCESS_READ : Z := 0.
Definition ACCESS_WRITE : Z := 1.

(** The words per frame: [PAGE_SIZE_4K / sizeof(seL4_Word)]. *)
Definition TABLE_WORDS : Z := PAGE_SIZE_4K / 4.

Section pagetable.
Context {U K : Type} `{!Kernel K} `{!UtAlloc U}.
Local Abbreviation S := (sos U K).

(** The start [page_directory_lookup], [_insert] and [_evict] share: the
    alignment of the page and the null tests of the directory. *)
Definition with_directory {A} (dir page_id : Z) (dflt : A) (k : page_directory -> M S A) : M S A :=
  c_assert (IS_ALIGNED_4K page_id) ;;;
  if dir =? 0 then ret dflt
  else
    d <- load h_dirs dir ;;
    if directory d =? 0 then ret dflt else k d.

(** [None] is the failure of the function. *)
Definition page_directory_lookup (dir page_id : Z) : M S (option Z) :=
  with_directory dir page_id None (fun d =>
    second_level <- read_word (directory d + 4 * DIRECTORY_INDEX page_id) ;;
    if second_level =? 0 then ret None
    else
      page <- read_word (second_level + 4 * TABLE_INDEX page_id) ;;
      ret (if page =? 0 then None else Some page)).

Definition page_directory_evict (dir page_id free_id : Z) : M S Z :=
  with_directory dir page_id 1 (fun d =>
    second_level <- read_word (directory d + 4 * DIRECTORY_INDEX page_id) ;;
    if second_level =? 0 then ret 1
    else
      page <- read_word (second_level + 4 * TABLE_INDEX page_id) ;;
      if page =? 0 then ret 1
      else
        c_assert (negb (IS_EVICTED page)) ;;;
        if IS_EVICTED free_id then ret 1
        else
          write_word (second_level + 4 * TABLE_INDEX page_id) free_id ;;;
          x <- read_word (second_level + 4 * TABLE_INDEX page_id) ;;
          write_word (second_level + 4 * TABLE_INDEX page_id) (Z.lor x EVICTED_BIT) ;;;
          kcall (seL4_ARM_Page_Unmap page) ;;;
          kcall (cspace_delete_cap page) ;;;
          ret 0).

(** The tables of the process at [curproc]. *)
Definition proc_directory (curproc : Z) : M S Z :=
  p <- load h_procs curproc ;;
  a <- load h_spaces (p_addrspace p) ;;
  ret (as_directory a).

Definition page_table_is_evicted (curproc page_id : Z) : M S bool :=
  d <- proc_directory curproc ;;
  c <- page_directory_lookup d (PAGE_ALIGN_4K page_id) ;;
  ret (match c with Some cap => IS_EVICTED cap | None => false end).

(** The loops count with [int] over at most 1024 entries. *)
Fixpoint count_table (n : nat) (sec_pd j cnt : Z) : M S Z :=
  match n with
  | O => ret cnt
  | Datatypes.S n' =>
      e <- read_word (sec_pd + 4 * j) ;;
      count_table n' sec_pd (j + 1) (if e =? 0 then cnt else u32 (cnt + 1))
  end.

Fixpoint count_directory (n : nat) (top_pd i cnt : Z) : M S Z :=
  match n with
  | O => ret cnt
  | Datatypes.S n' =>
      sec_pd <- read_word (top_pd + 4 * i) ;;
      if sec_pd =? 0 then count_directory n' top_pd (i + 1) cnt
      else
        cnt <- count_table (Z.to_nat TABLE_WORDS) sec_pd 0 cnt ;;
        count_directory n' top_pd (i + 1) cnt
  end.

Definition page_directory_count (curproc : Z) : M S Z :=
  p <- load h_procs curproc ;;
  if p_addrspace p =? 0 then ret 0
  else
    a <- load h_spaces (p_addrspace p) ;;
    d <- load h_dirs (as_directory a) ;;
    count_directory (Z.to_nat TABLE_WORDS) (directory d) 0 0.
End pagetable.

(** ** Indices *)

Lemma mask_index x n o : 0 <= n -> 0 <= o -> n + o <= 32 -> 0 <= x < 2 ^ 32 ->
  Z.shiftr (Z.land x (u32 (Z.shiftl (u32 (2 ^ n - 1)) o))) o = x / 2 ^ o mod 2 ^ n.
Proof.
  intros Hn Ho Hs Hx. assert (0 < 2 ^ n) by (apply Z.pow_pos_nonneg; lia).
  assert (2 ^ n <= 2 ^ 32) by (apply Z.pow_le_mono_r; lia).
  rewrite (u32_small (2 ^ n - 1)) by (unfold is_u32; lia).
  assert (0 <= Z.shiftl (2 ^ n - 1) o < 2 ^ 32).
  { rewrite Z.shiftl_mul_pow2 by lia. assert (2 ^ n * 2 ^ o <= 2 ^ 32).
    { rewrite <- Z.pow_add_r by lia. apply Z.pow_le_mono_r; lia. }
    assert (0 < 2 ^ o) by (apply Z.pow_pos_nonneg; lia). nia. }
  rewrite u32_small by (unfold is_u32; lia).
  rewrite Z.shiftr_land, Z.shiftr_shiftl_l, Z.sub_diag, Z.shiftl_0_r by lia.
  by rewrite land_pow2_mask, Z.shiftr_div_pow2 by lia.
Qed.

Lemma DIRECTORY_INDEX_spec p : is_u32 p -> DIRECTORY_INDEX p = p / 2 ^ 22.
Proof.
  intros Hp. unfold DIRECTORY_INDEX, DIRECTORY_MASK, MASK_UNSAFE. rewrite BIT_pow by (unfold DIRECTORY_SIZE_BITS; lia).
  rewrite mask_index by (done || (unfold DIRECTORY_OFFSET, DIRECTORY_SIZE_BITS; lia)).
  change DIRECTORY_OFFSET with 22. change DIRECTORY_SIZE_BITS with 10. apply Z.mod_small. unfold is_u32 in Hp.
  split; [apply Z.div_pos; lia|]. apply Z.div_lt_upper_bound; lia.
Qed.

Lemma TABLE_INDEX_spec p : is_u32 p -> TABLE_INDEX p = p / 2 ^ 12 mod 2 ^ 10.
Proof.
  intros Hp. unfold TABLE_INDEX, TABLE_MASK, MASK_UNSAFE. rewrite BIT_pow by (unfold TABLE_SIZE_BITS; lia).
  by rewrite mask_index by (done || (unfold TABLE_OFFSET, DIRECTORY_SIZE_BITS, TABLE_SIZE_BITS; lia)).
Qed.

Lemma CAP_INDEX_spec p : is_u32 p -> CAP_INDEX p = p / 2 ^ 20.
Proof.
  intros Hp. unfold CAP_INDEX, CAP_MASK, MASK_UNSAFE. rewrite BIT_pow by (unfold CAPS_INDEX_BITS; lia).
  rewrite mask_index by (done || (unfold CAP_OFFSET, CAPS_INDEX_BITS; lia)).
  change CAP_OFFSET with 20. change CAPS_INDEX_BITS with 12. apply Z.mod_small. unfold is_u32 in Hp.
  split; [apply Z.div_pos; lia|]. apply Z.div_lt_upper_bound; lia.
Qed.

Lemma index_range p : is_u32 p -> 0 <= DIRECTORY_INDEX p < 1024 /\ 0 <= TABLE_INDEX p < 1024.
Proof.
  intros Hp. rewrite DIRECTORY_INDEX_spec, TABLE_INDEX_spec by done. unfold is_u32 in Hp.
  split; [|apply Z.mod_pos_bound; lia]. split; [apply Z.div_pos; lia|]. apply Z.div_lt_upper_bound; lia.
Qed.

Lemma dir_index_range p : is_u32 p -> 0 <= DIRECTORY_INDEX p < 1024.
Proof. intros Hp. exact (proj1 (index_range p Hp)). Qed.

(** The two indices determine the page. *)
Lemma index_inj p q : is_u32 p -> is_u32 q -> p mod 4096 = 0 -> q mod 4096 = 0 ->
  DIRECTORY_INDEX p = DIRECTORY_INDEX q -> TABLE_INDEX p = TABLE_INDEX q -> p = q.
Proof.
  intros Hp Hq Ap Aq. rewrite !DIRECTORY_INDEX_spec, !TABLE_INDEX_spec by done.
  change (2 ^ 22) with (2 ^ 12 * 2 ^ 10). rewrite <- !Z.div_div by lia. intros Hd Ht.
  change (2 ^ 12) with 4096 in *. pose proof (Z.div_mod p 4096 ltac:(lia)). pose proof (Z.div_mod q 4096 ltac:(lia)).
  pose proof (Z.div_mod (p / 4096) (2 ^ 10) ltac:(lia)). pose proof (Z.div_mod (q / 4096) (2 ^ 10) ltac:(lia)). lia.
Qed.

(** ** The evicted bit *)

Lemma EVICTED_BIT_eq : EVICTED_BIT = 2 ^ 31.
Proof. done. Qed.

Lemma IS_EVICTED_spec x : 0 <= x < 2 ^ 32 -> IS_EVICTED x = (2 ^ 31 <=? x).
Proof.
  intros Hx. unfold IS_EVICTED. rewrite EVICTED_BIT_eq.
  assert (Z.land x (2 ^ 31) = if Z.testbit x 31 then 2 ^ 31 else 0) as ->.
  { apply Z.bits_inj'. intros i Hi. rewrite Z.land_spec, Z.pow2_bits_eqb by lia.
    destruct (Z.eqb_spec 31 i) as [<-|]; [|rewrite andb_false_r].
    - destruct (Z.testbit x 31); [by rewrite Z.pow2_bits_true by lia | by rewrite Z.bits_0].
    - destruct (Z.testbit x 31); [by rewrite Z.pow2_bits_false by lia | by rewrite Z.bits_0]. }
  rewrite Z.testbit_odd, Z.shiftr_div_pow2 by lia.
  assert (0 <= x / 2 ^ 31 < 2) as Hd by (split; [apply Z.div_pos; lia | apply Z.div_lt_upper_bound; lia]).
  pose proof (Z.div_mod x (2 ^ 31) ltac:(lia)). pose proof (Z.mod_pos_bound x (2 ^ 31) ltac:(lia)).
  destruct (Z.leb_spec (2 ^ 31) x).
  - replace (x / 2 ^ 31) with 1 by lia. done.
  - replace (x / 2 ^ 31) with 0 by lia. done.
Qed.

(** The entry of a page at place [i] of the page file. *)
Lemma evicted_entry i : 0 <= i < 2 ^ 31 -> Z.lor i EVICTED_BIT = i + 2 ^ 31.
Proof.
  intros Hi. rewrite EVICTED_BIT_eq. change (2 ^ 31) with (1 * 2 ^ 31) at 1.
  rewrite lor_disjoint_add by lia. lia.
Qed.

(** ** The tables as a map *)

Definition second (m : memory) (d p : Z) : Z := load_word m (d + 4 * DIRECTORY_INDEX p).

Definition pt_view (m : memory) (d p : Z) : option Z :=
  let sl := second m d p in
  if sl =? 0 then None
  else
    let e := load_word m (sl + 4 * TABLE_INDEX p) in
    if e =? 0 then None else Some e.

(** [a] is the address of a frame. *)
Definition frame_ok (a : Z) : Prop := 0 < a < 2 ^ 32 /\ a mod 4096 = 0.

(** The frames of the tables are distinct. *)
Record pt_wf (m : memory) (d : Z) : Prop := {
  pw_dir : frame_ok d;
  pw_second : forall i, 0 <= i < 1024 -> load_word m (d + 4 * i) <> 0 ->
    frame_ok (load_word m (d + 4 * i)) /\ load_word m (d + 4 * i) <> d;
  pw_inj : forall i j, 0 <= i < 1024 -> 0 <= j < 1024 -> load_word m (d + 4 * i) <> 0 ->
    load_word m (d + 4 * i) = load_word m (d + 4 * j) -> i = j
}.

(** The frames of distinct tables do not overlap. *)
Lemma frames_disjoint a b : frame_ok a -> frame_ok b -> a <> b -> a + 4096 <= b \/ b + 4096 <= a.
Proof.
  intros [Ha Am] [Hb Bm] Hn. pose proof (Z.div_mod a 4096 ltac:(lia)). pose proof (Z.div_mod b 4096 ltac:(lia)).
  rewrite Am in *. rewrite Bm in *. assert (a / 4096 <> b / 4096) by lia. lia.
Qed.

(** Storing an entry in the second-level table of [p]. *)
Section store_entry.
Context (m : memory) (d p w : Z).
Hypothesis Hwf : pt_wf m d.
Hypothesis Hp : is_u32 p.
Hypothesis Hs : second m d p <> 0.
Hypothesis Hw : 0 <= w < 2 ^ 32.

Definition store_entry : memory := store_word (second m d p + 4 * TABLE_INDEX p) w m.

Lemma second_ok : frame_ok (second m d p) /\ second m d p <> d.
Proof using All. exact (pw_second _ _ Hwf (DIRECTORY_INDEX p) (proj1 (index_range p Hp)) Hs). Qed.

Lemma store_entry_dir i : 0 <= i < 1024 -> load_word store_entry (d + 4 * i) = load_word m (d + 4 * i).
Proof using All.
  intros Hi. destruct second_ok as [Hf Hn]. destruct (index_range p Hp).
  destruct (frames_disjoint _ _ Hf (pw_dir _ _ Hwf) Hn); apply load_store_ne; lia.
Qed.

Lemma store_entry_wf : pt_wf store_entry d.
Proof using All.
  pose proof store_entry_dir as E. destruct Hwf as [Hd H2 Hi]. split; [done| |].
  - intros i Hr. rewrite E by done. by apply H2.
  - intros i j Hr Hr'. rewrite !E by done. by apply Hi.
Qed.

Lemma store_entry_eq : pt_view store_entry d p = if w =? 0 then None else Some w.
Proof using All.
  destruct (index_range p Hp) as [Hd _]. unfold pt_view, second. rewrite store_entry_dir by done.
  fold (second m d p). destruct (Z.eqb_spec (second m d p) 0); [done|].
  unfold store_entry. by rewrite load_store_eq.
Qed.

Lemma store_entry_ne q : is_u32 q -> p mod 4096 = 0 -> q mod 4096 = 0 -> q <> p ->
  pt_view store_entry d q = pt_view m d q.
Proof using All.
  intros Hq Ap Aq Hne. destruct (index_range p Hp) as [Hd Ht]. destruct (index_range q Hq) as [Hd' Ht'].
  unfold pt_view, second. rewrite store_entry_dir by done. fold (second m d q).
  destruct (Z.eqb_spec (second m d q) 0) as [|Hq0]; [done|].
  enough (load_word store_entry (second m d q + 4 * TABLE_INDEX q) = load_word m (second m d q + 4 * TABLE_INDEX q)) as ->; [done|].
  apply load_store_ne. destruct (Z.eq_dec (second m d q) (second m d p)) as [E|E].
  - rewrite E. assert (TABLE_INDEX q <> TABLE_INDEX p); [|lia]. intros Et. apply Hne.
    apply index_inj; try done. unfold second in E. by apply (pw_inj _ _ Hwf).
  - destruct second_ok as [Hf _].
    destruct (pw_second _ _ Hwf (DIRECTORY_INDEX q) Hd' Hq0) as [Hf' _].
    destruct (frames_disjoint _ _ Hf' Hf E); unfold second in *; lia.
Qed.
End store_entry.

(** Linking a zeroed frame as the second-level table of [p]. *)
Section new_second.
Context (m : memory) (d p fr : Z).
Hypothesis Hwf : pt_wf m d.
Hypothesis Hp : is_u32 p.
Hypothesis Hs : second m d p = 0.
Hypothesis Hfr : frame_ok fr.
Hypothesis Hnd : fr <> d.
Hypothesis Hfresh : forall i, 0 <= i < 1024 -> load_word m (d + 4 * i) <> fr.
Hypothesis Hzero : forall j, 0 <= j < 1024 -> load_word m (fr + 4 * j) = 0.

Definition link_second : memory := store_word (d + 4 * DIRECTORY_INDEX p) fr m.

Lemma link_second_dir i : 0 <= i < 1024 ->
  load_word link_second (d + 4 * i) = if i =? DIRECTORY_INDEX p then fr else load_word m (d + 4 * i).
Proof using All.
  intros Hi. unfold link_second. destruct (Z.eqb_spec i (DIRECTORY_INDEX p)) as [->|].
  - apply load_store_eq. destruct Hfr. lia.
  - apply load_store_ne. lia.
Qed.

Lemma link_second_frame a j : frame_ok a -> a <> d -> 0 <= j < 1024 ->
  load_word link_second (a + 4 * j) = load_word m (a + 4 * j).
Proof using All.
  intros Ha Hn Hj. destruct (index_range p Hp). apply load_store_ne.
  destruct (frames_disjoint _ _ Ha (pw_dir _ _ Hwf) Hn); lia.
Qed.

Lemma link_second_wf : pt_wf link_second d.
Proof using All.
  pose proof link_second_dir as E. destruct (index_range p Hp) as [Hdi _]. destruct Hwf as [Hd H2 Hi]. split; [done| |].
  - intros i Hr. rewrite E by done. destruct (Z.eqb_spec i (DIRECTORY_INDEX p)); [done|]. by apply H2.
  - intros i j Hr Hr'. rewrite !E by done.
    destruct (Z.eqb_spec i (DIRECTORY_INDEX p)), (Z.eqb_spec j (DIRECTORY_INDEX p)); intros Hne Heq.
    + lia.
    + by destruct (Hfresh j Hr').
    + by destruct (Hfresh i Hr).
    + by apply Hi.
Qed.

Lemma link_second_second : second link_second d p = fr.
Proof using All.
  unfold second. rewrite link_second_dir by (by apply dir_index_range). by rewrite Z.eqb_refl.
Qed.

Lemma link_second_view q : is_u32 q -> pt_view link_second d q = pt_view m d q.
Proof using All.
  intros Hq. destruct (index_range q Hq) as [Hdi Hti]. unfold pt_view.
  assert (second link_second d q = if DIRECTORY_INDEX q =? DIRECTORY_INDEX p then fr else second m d q) as ->
    by (by apply link_second_dir).
  destruct (Z.eqb_spec (DIRECTORY_INDEX q) (DIRECTORY_INDEX p)) as [E|E].
  - destruct (Z.eqb_spec fr 0); [destruct Hfr; lia|]. rewrite link_second_frame, Hzero by done.
    unfold second. rewrite E. fold (second m d p). by rewrite Hs.
  -  destruct (Z.eqb_spec (second m d q) 0) as [|Hne]; [done|].
    destruct (pw_second _ _ Hwf _ Hdi Hne). by rewrite link_second_frame.
Qed.
End new_second.

(** Memory outside the tables is not part of the map. *)
Definition same_bytes (m m' : memory) (a n : Z) : Prop := forall x, a <= x < a + n -> peek m' x = peek m x.

Lemma same_bytes_load m m' a n x : same_bytes m m' a n -> a <= x -> x + 4 <= a + n -> load_word m' x = load_word m x.
Proof. intros H ??. apply load_word_ext. intros i Hi. apply H. lia. Qed.

Definition same_tables (m m' : memory) (d : Z) : Prop :=
  same_bytes m m' d 4096 /\
  forall i, 0 <= i < 1024 -> load_word m (d + 4 * i) <> 0 -> same_bytes m m' (load_word m (d + 4 * i)) 4096.

Lemma same_tables_dir m m' d i : same_tables m m' d -> 0 <= i < 1024 -> load_word m' (d + 4 * i) = load_word m (d + 4 * i).
Proof. intros [H _] Hi. apply (same_bytes_load _ _ d 4096); [done | lia | lia]. Qed.

Lemma same_tables_wf m m' d : same_tables m m' d -> pt_wf m d -> pt_wf m' d.
Proof.
  intros H [Hd H2 Hi]. split; [done| |].
  - intros i Hr. rewrite (same_tables_dir m m') by done. by apply H2.
  - intros i j Hr Hr'. rewrite !(same_tables_dir m m') by done. by apply Hi.
Qed.

Lemma same_tables_view m m' d q : same_tables m m' d -> is_u32 q -> pt_view m' d q = pt_view m d q.
Proof.
  intros H Hq. destruct (index_range q Hq) as [Hdi Hti]. unfold pt_view, second.
  rewrite (same_tables_dir m m') by done. destruct (Z.eqb_spec (load_word m (d + 4 * DIRECTORY_INDEX q)) 0); [done|].
  destruct H as [_ H]. by rewrite (same_bytes_load _ _ _ _ _ (H _ Hdi n)) by lia.
Qed.

(** ** The functions *)

Section functions.
Context {U K : Type} `{!Kernel K} `{!UtAlloc U}.
Local Abbreviation S := (sos U K).
Context (s : S) (dir : Z) (d : page_directory) (p : Z).
Hypothesis Hdir : dir <> 0.
Hypothesis Hd : dirs s !! dir = Some d.
Hypothesis Hwf : pt_wf (mem s) (directory d).
Hypothesis Hp : is_u32 p.
Hypothesis Ap : p mod 4096 = 0.

Lemma wp_with_directory {A} (x : A) k Q : wp (k d) Q s -> wp (with_directory dir p x k) Q s.
Proof using All.
  intros H. unfold with_directory. sos_steps. apply wp_assert; [by apply IS_ALIGNED_4K_spec|].
  destruct (Z.eqb_spec dir 0); [done|]. sos_steps. eapply wp_load; [done..|].
  destruct (Z.eqb_spec (directory d) 0); [|done]. destruct (pw_dir _ _ Hwf). lia.
Qed.

Lemma page_directory_lookup_run Q :
  Q (pt_view (mem s) (directory d) p) s -> wp (page_directory_lookup dir p) Q s.
Proof using All.
  intros HQ. unfold page_directory_lookup. apply wp_with_directory. sos_steps. unfold pt_view, second in HQ.
  destruct (Z.eqb_spec (load_word (mem s) (directory d + 4 * DIRECTORY_INDEX p)) 0); by sos_steps.
Qed.

(** The tables after an eviction. *)
Definition evicted_mem (free_id : Z) : memory := store_entry (mem s) (directory d) p (free_id + 2 ^ 31).

Lemma page_directory_evict_run `{!KernelLaws K} c free_id Q :
  pt_view (mem s) (directory d) p = Some c -> 0 <= c < 2 ^ 31 -> 0 <= free_id < 2 ^ 31 ->
  (forall k, (forall x a, x <> c -> cap_paddr (kern s) x = Some a -> cap_paddr k x = Some a) ->
    Q 0 (set_kern k (set_mem (evicted_mem free_id) s))) ->
  wp (page_directory_evict dir p free_id) Q s.
Proof using All.
  intros Hv Hc Hf HQ. unfold page_directory_evict. apply wp_with_directory. sos_steps.
  unfold pt_view in Hv. fold (second (mem s) (directory d) p). set (sl := second (mem s) (directory d) p) in *.
  destruct (Z.eqb_spec sl 0); [done|]. sos_steps.
  destruct (Z.eqb_spec (load_word (mem s) (sl + 4 * TABLE_INDEX p)) 0); [done|]. injection Hv as ->. sos_steps.
  rewrite IS_EVICTED_spec by lia. destruct (Z.leb_spec (2 ^ 31) c); [lia|]. apply wp_assert; [done|].
  rewrite IS_EVICTED_spec by lia. destruct (Z.leb_spec (2 ^ 31) free_id); [lia|]. sos_steps. sred.
  rewrite store_store, load_store_eq, evicted_entry by lia.
  apply (HQ (cspace_delete_cap c (seL4_ARM_Page_Unmap c (kern s)).2).2).
  intros x a Hx Ha. destruct (delete_law (seL4_ARM_Page_Unmap c (kern s)).2 c) as [[_ E] | [_ E]]; rewrite E, page_unmap_law; [|done].
  by destruct (Z.eqb_spec x c).
Qed.
End functions.

Section claims.
Context {U K : Type} `{!Kernel K} `{!KernelLaws K} `{!UtAlloc U}.
Local Abbreviation S := (sos U K).

(** C10: Evicting a resident page replaces its entry by its place in the page
    file, marked as evicted; the entries of all other pages and the
    capabilities other than that of the page stay as they were. *)
Theorem page_directory_evict_spec (s : S) dir d p c free_id :
  dir <> 0 -> dirs s !! dir = Some d -> pt_wf (mem s) (directory d) -> is_u32 p -> p mod 4096 = 0 ->
  pt_view (mem s) (directory d) p = Some c -> 0 <= c < 2 ^ 31 -> 0 <= free_id < 2 ^ 31 ->
  exists s', page_directory_evict dir p free_id s = Ok (0, s') /\ dirs s' !! dir = Some d /\
    pt_wf (mem s') (directory d) /\
    (forall q, is_u32 q -> q mod 4096 = 0 ->
      pt_view (mem s') (directory d) q = if q =? p then Some (free_id + 2 ^ 31) else pt_view (mem s) (directory d) q) /\
    (forall x a, x <> c -> cap_paddr (kern s) x = Some a -> cap_paddr (kern s') x = Some a).
Proof.
  intros Hdir Hd Hwf Hp Ap Hv Hc Hf.
  assert (second (mem s) (directory d) p <> 0) as Hs.
  { unfold pt_view in Hv. by destruct (Z.eqb_spec (second (mem s) (directory d) p) 0). }
  assert (wp (page_directory_evict dir p free_id) (fun r s' => r = 0 /\ dirs s' !! dir = Some d /\
    mem s' = evicted_mem s d p free_id /\
    (forall x a, x <> c -> cap_paddr (kern s) x = Some a -> cap_paddr (kern s') x = Some a)) s) as Hwp.
  { eapply (page_directory_evict_run s dir d p); eauto 10. }
  destruct (proj1 (wp_ok _ _ _) Hwp) as (r & s' & E & -> & Hd' & Hm & Hk). exists s'. rewrite Hm. unfold evicted_mem.
  split; [done|]. split; [done|]. split; [apply store_entry_wf; (done || lia)|]. split; [|done].
  intros q Hq Aq. destruct (Z.eqb_spec q p) as [->|].
  - rewrite store_entry_eq by (done || lia). by destruct (Z.eqb_spec (free_id + 2 ^ 31) 0); [lia|].
  - apply store_entry_ne; (done || lia).
Qed.
End claims.

(** ** Example: one second-level table with one page *)

Definition demo_tables : memory := store_word 0x40006000 7 (store_word 0x40005004 0x40006000 ∅).
Definition demo_pt : sos UtAllocator.ut_state toy_kernel :=
  set_mem demo_tables (set_dirs {[1 := PageDirectory 0x40005000 0x40010000]} (set_kern (Toy {[7 := 0x5000]} ∅) boot_state)).

Lemma demo_tables_dir i : 0 <= i < 1024 ->
  load_word demo_tables (0x40005000 + 4 * i) = if i =? 1 then 0x40006000 else 0.
Proof.
  intros Hi. unfold demo_tables. rewrite load_store_ne by lia. destruct (Z.eqb_spec i 1) as [->|Hn].
  - by apply load_store_eq.
  - rewrite load_store_ne by lia. done.
Qed.

Lemma demo_tables_wf : pt_wf demo_tables 0x40005000.
Proof.
  split; [by split|..].
  - intros i Hi. rewrite demo_tables_dir by done. by destruct (Z.eqb_spec i 1).
  - intros i j Hi Hj. rewrite !demo_tables_dir by done. destruct (Z.eqb_spec i 1), (Z.eqb_spec j 1); lia.
Qed.

Lemma page_directory_evict_spec_witness :
  exists s', page_directory_evict 1 0x400000 5 demo_pt = Ok (0, s') /\ dirs s' !! 1 = Some (PageDirectory 0x40005000 0x40010000) /\
    pt_wf (mem s') 0x40005000 /\
    (forall q, is_u32 q -> q mod 4096 = 0 ->
      pt_view (mem s') 0x40005000 q = if q =? 0x400000 then Some (5 + 2 ^ 31) else pt_view (mem demo_pt) 0x40005000 q) /\
    (forall x a, x <> 7 -> cap_paddr (kern demo_pt) x = Some a -> cap_paddr (kern s') x = Some a).
Proof.
  apply (page_directory_evict_spec demo_pt 1 (PageDirectory 0x40005000 0x40010000) 0x400000 7 5); try done.
  apply demo_tables_wf.
Defined.
