(* ===== verification/AddrSpace.v ===== *)
(** * AddrSpace: the regions of an address space

    Models the region list of apps/sos/src/vm/addrspace.c and the break system
    call of apps/sos/src/syscall/sys_vm.c.  ([as_create] and [as_destroy],
    which also make and free the page tables, are in file Vm.)

    [as_inv s as_ a l]: the regions of the address space are the list [l], no
    two of them overlap, and the heap is one of them.  The theorems show that
    the search finds the region of an address, and that growing the heap keeps
    the regions apart. *)

From S2P Require Import Prelude Arith Memory SosState UtInterface PageTable.

Definition RLIMIT_STACK_SZ : Z := 16780000.

Definition WITHIN_REGION (r : region) (addr : Z) : bool := (start r <=? addr) && (addr <? end_ r).

Definition set_next_region x (r : region) := Region (start r) (end_ r) (permissions r) x.
Definition set_start x (r : region) := Region x (end_ r) (permissions r) (next_region r).
Definition set_end x (r : region) := Region (start r) x (permissions r) (next_region r).

Definition set_region_list x (a : addrspace) :=
  Addrspace x (region_stack a) (region_heap a) (vspace_addr a) (vspace a) (as_directory a).
Definition set_region_stack x (a : addrspace) :=
  Addrspace (region_list a) x (region_heap a) (vspace_addr a) (vspace a) (as_directory a).
Definition set_region_heap x (a : addrspace) :=
  Addrspace (region_list a) (region_stack a) x (vspace_addr a) (vspace a) (as_directory a).

Definition as_region_permission_check (reg : region) (access_type : Z) : bool :=
  if (access_type =? ACCESS_READ) && negb (Z.land (permissions reg) seL4_CanRead =? 0) then true
  else if (access_type =? ACCESS_WRITE) && negb (Z.land (permissions reg) seL4_CanWrite =? 0) then true
  else false.

Section addrspace.
Context {U K : Type} `{!Kernel K} `{!UtAlloc U}.
Local Abbreviation S := (sos U K).

(** The loops over the region list: a list without a cycle is not longer than
    the number of regions. *)
Definition region_fuel : M S nat := gets (fun s => Datatypes.S (size (regions s))).

(** [next_region] is not initialised here; [as_add_region] sets it. *)
Definition as_create_region (start_ size_ permissions_ : Z) : M S Z :=
  c_assert (0 <=? size_) ;;;
  malloc h_regions (Region start_ (u32 (start_ + size_)) permissions_ 0).

Definition as_destroy_region (reg : Z) : M S Z :=
  if reg =? 0 then ret 1 else free h_regions reg ;;; ret 0.

Fixpoint last_region (fuel : nat) (cur_reg prev_reg : Z) : M S Z :=
  match fuel with
  | O => fail FFuel
  | Datatypes.S n =>
      if cur_reg =? 0 then ret prev_reg
      else r <- load h_regions cur_reg ;; last_region n (next_region r) cur_reg
  end.

Definition as_add_region (as_ new_region : Z) : M S Z :=
  a <- load h_spaces as_ ;;
  (if region_list a =? 0 then update h_spaces as_ (set_region_list new_region)
   else
     fuel <- region_fuel ;;
     prev_reg <- last_region fuel (region_list a) (region_list a) ;;
     update h_regions prev_reg (set_next_region new_region)) ;;;
  update h_regions new_region (set_next_region 0) ;;;
  ret 0.

Definition as_define_region (as_ start_ size_ permissions_ : Z) : M S Z :=
  r <- as_create_region start_ size_ permissions_ ;;
  as_add_region as_ r.

Fixpoint find_region (fuel : nat) (curr vaddr : Z) : M S (option Z) :=
  match fuel with
  | O => fail FFuel
  | Datatypes.S n =>
      if curr =? 0 then ret None
      else
        r <- load h_regions curr ;;
        if (start r <=? vaddr) && (vaddr <? end_ r) then ret (Some curr)
        else find_region n (next_region r) vaddr
  end.

(** [None] is the failure of the function. *)
Definition as_find_region (as_ vaddr : Z) : M S (option Z) :=
  a <- load h_spaces as_ ;;
  fuel <- region_fuel ;;
  find_region fuel (region_list a) vaddr.

Fixpoint collision (fuel : nat) (curr exempt start_ end__ : Z) : M S Z :=
  match fuel with
  | O => fail FFuel
  | Datatypes.S n =>
      if curr =? 0 then ret 0
      else
        r <- load h_regions curr ;;
        if curr =? exempt then collision n (next_region r) exempt start_ end__
        else if ISINRANGE (start r) start_ (end_ r) then ret 1
        else if ISINRANGE start_ (start r) end__ then ret 1
        else collision n (next_region r) exempt start_ end__
  end.

Definition as_region_collision_check (as_ exempt start_ end__ : Z) : M S Z :=
  if end__ <? start_ then ret 1
  else
    a <- load h_spaces as_ ;;
    fuel <- region_fuel ;;
    collision fuel (region_list a) exempt start_ end__.

Definition as_define_stack (as_ : Z) : M S Z :=
  if as_ =? 0 then ret 1
  else
    a <- load h_spaces as_ ;;
    if negb (region_stack a =? 0) then ret 1
    else
      stack <- as_create_region (PROCESS_STACK_TOP - PAGE_SIZE_4K) PAGE_SIZE_4K (Z.lor seL4_CanRead seL4_CanWrite) ;;
      if stack =? 0 then ret 1
      else
        update h_spaces as_ (set_region_stack stack) ;;;
        as_add_region as_ stack.

Definition as_define_heap (as_ heap_loc : Z) : M S Z :=
  if as_ =? 0 then ret 1
  else
    a <- load h_spaces as_ ;;
    if negb (region_heap a =? 0) then ret 1
    else
      heap <- as_create_region heap_loc 0 (Z.lor seL4_CanRead seL4_CanWrite) ;;
      if heap =? 0 then ret 1
      else
        update h_spaces as_ (set_region_heap heap) ;;;
        as_add_region as_ heap.

(** *** syscall/sys_vm.c *)

Definition brk_epilogue (region_heap_ : Z) : M S Z :=
  heap <- load h_regions region_heap_ ;;
  seL4_SetMR 0 (end_ heap) ;;;
  ret 1.

Definition syscall_brk (curproc : Z) : M S Z :=
  newbrk <- seL4_GetMR 1 ;;
  p <- load h_procs curproc ;;
  a <- load h_spaces (p_addrspace p) ;;
  heap <- load h_regions (region_heap a) ;;
  (if negb (newbrk =? 0) then
     c <- as_region_collision_check (p_addrspace p) (region_heap a) (start heap) newbrk ;;
     if negb (c =? 0) then ret tt
     else update h_regions (region_heap a) (set_end newbrk)
   else ret tt) ;;;
  brk_epilogue (region_heap a).
End addrspace.

(** ** The list of regions *)

Fixpoint rchain (h : gmap Z region) (p : Z) (l : list Z) : Prop :=
  match l with
  | [] => p = 0
  | q :: l => p = q /\ q <> 0 /\ exists r, h !! q = Some r /\ rchain h (next_region r) l
  end.

Lemma rchain_det h p l l' : rchain h p l -> rchain h p l' -> l = l'.
Proof.
  revert p l'. induction l as [|q l IH]; intros p [|q' l']; simpl; [done| | |].
  - intros -> (<- & ? & _). done.
  - intros (-> & ? & _) ->. done.
  - intros (-> & _ & r & Hr & Hc) (<- & _ & r' & Hr' & Hc'). rewrite Hr in Hr'. injection Hr' as <-.
    f_equal. by eapply IH.
Qed.

Lemma rchain_suffix h p l1 q l2 : rchain h p (l1 ++ q :: l2) -> rchain h q (q :: l2).
Proof.
  revert p. induction l1 as [|x l1 IH]; intros p; simpl.
  - intros (-> & H). done.
  - intros (_ & _ & r & _ & Hc). by eapply IH.
Qed.

Lemma rchain_nodup h p l : rchain h p l -> NoDup l.
Proof.
  revert p. induction l as [|q l IH]; intros p Hc; [constructor|].
  destruct Hc as (-> & Hq & r & Hr & Hc). constructor; [|by eapply IH].
  intros (l1 & l2 & ->)%list_elem_of_split.
  assert (rchain h q (q :: l1 ++ q :: l2)) as H1 by (simpl; eauto).
  assert (rchain h q (q :: l2)) as H2 by (by eapply rchain_suffix).
  pose proof (rchain_det _ _ _ _ H1 H2) as E. injection E as E. apply (f_equal length) in E.
  rewrite length_app in E. simpl in E. lia.
Qed.

Lemma rchain_lookup h p l q : rchain h p l -> q ∈ l -> q <> 0 /\ exists r, h !! q = Some r.
Proof.
  revert p. induction l as [|x l IH]; intros p Hc Hq; [by apply not_elem_of_nil in Hq|].
  destruct Hc as (-> & Hx & r & Hr & Hc). apply elem_of_cons in Hq as [->|Hq]; eauto.
Qed.

Lemma rchain_length h p l : rchain h p l -> (length l <= size h)%nat.
Proof.
  intros Hc. rewrite <- (size_list_to_set (C := gset Z) l) by (by eapply rchain_nodup).
  rewrite <- size_dom. apply subseteq_size. intros q Hq%elem_of_list_to_set.
  apply elem_of_dom. destruct (rchain_lookup _ _ _ _ Hc Hq) as [_ [r Hr]]. eauto.
Qed.

(** Two maps that agree on the links have the same lists. *)
Lemma rchain_ext h h' p l :
  (forall q, q ∈ l -> next_region <$> h' !! q = next_region <$> h !! q) -> rchain h p l -> rchain h' p l.
Proof.
  revert p. induction l as [|q l IH]; intros p He Hc; [done|].
  destruct Hc as (-> & Hq & r & Hr & Hc). split; [done|]. split; [done|].
  pose proof (He q ltac:(left)) as E. rewrite Hr in E. destruct (h' !! q) as [r'|]; [|done]. injection E as E.
  exists r'. split; [done|]. rewrite E. apply IH; [|done]. intros x Hx. apply He. by right.
Qed.

(** Linking a new last region. *)
Lemma rchain_snoc h p l q x r r0 :
  rchain h p (l ++ [q]) -> x <> 0 -> x ∉ l ++ [q] -> h !! q = Some r -> next_region r0 = 0 ->
  rchain (<[x := r0]> (<[q := set_next_region x r]> h)) p ((l ++ [q]) ++ [x]).
Proof.
  intros Hc Hx Hn Hr H0. pose proof (rchain_nodup _ _ _ Hc) as Hd. revert p Hc.
  induction l as [|y l IH]; intros p Hc.
  - destruct Hc as (-> & Hq & r' & Hr' & Hc). split; [done|]. split; [done|]. exists (set_next_region x r). split.
    + rewrite lookup_insert_ne by set_solver. by rewrite lookup_insert_eq.
    + simpl. split; [done|]. split; [done|]. exists r0. split; [by rewrite lookup_insert_eq | done].
  - destruct Hc as (-> & Hy & r' & Hr' & Hc). apply NoDup_cons in Hd as [Hyl Hd]. split; [done|]. split; [done|].
    exists r'. split.
    + rewrite !lookup_insert_ne by set_solver. done.
    + apply IH; [set_solver | done | done].
Qed.

(** ** The invariant *)

Definition r_apart (r r' : region) : Prop := end_ r <= start r' \/ end_ r' <= start r.

Record regions_ok (h : gmap Z region) (l : list Z) : Prop := {
  ro_wf : forall q r, q ∈ l -> h !! q = Some r -> 0 <= start r <= end_ r /\ end_ r < 2 ^ 32;
  ro_apart : forall q q' r r', q ∈ l -> q' ∈ l -> q <> q' -> h !! q = Some r -> h !! q' = Some r' -> r_apart r r'
}.

Lemma regions_ok_tail h q l : regions_ok h (q :: l) -> regions_ok h l.
Proof.
  intros [Hw Ha]. split.
  - intros x r Hx. apply Hw. by right.
  - intros x y r r' Hx Hy. apply Ha; by right.
Qed.

(** The bounds of a region of the list may change if it stays apart from the
    others. *)
Lemma regions_ok_insert h l x r :
  regions_ok h l -> 0 <= start r <= end_ r -> end_ r < 2 ^ 32 ->
  (forall q r', q ∈ l -> q <> x -> h !! q = Some r' -> r_apart r r') -> regions_ok (<[x := r]> h) l.
Proof.
  intros [Hw Ha] Hr1 Hr2 Hx. split.
  - intros q r' Hq H. destruct (decide (q = x)) as [->|].
    + rewrite lookup_insert_eq in H. by injection H as <-.
    + rewrite lookup_insert_ne in H by done. by apply (Hw q).
  - intros q q' r1 r2 Hq Hq' Hne H1 H2. destruct (decide (q = x)) as [->|], (decide (q' = x)) as [->|]; [done| | |].
    + rewrite lookup_insert_eq in H1. rewrite lookup_insert_ne in H2 by done. injection H1 as <-. by apply (Hx q').
    + rewrite lookup_insert_eq in H2. rewrite lookup_insert_ne in H1 by done. injection H2 as <-.
      destruct (Hx q r1 Hq ltac:(done) H1); [by right | by left].
    + rewrite lookup_insert_ne in H1, H2 by done. by apply (Ha q q').
Qed.

(** The first region of the list that contains the address. *)
Fixpoint first_region (h : gmap Z region) (l : list Z) (v : Z) : option Z :=
  match l with
  | [] => None
  | q :: l =>
      match h !! q with
      | Some r => if WITHIN_REGION r v then Some q else first_region h l v
      | None => None
      end
  end.

(** Neither the start of the range lies in the region nor the start of the
    region in the range, ends included. *)
Definition no_collision (r : region) (s e : Z) : Prop :=
  ~ (start r <= s <= end_ r) /\ ~ (s <= start r <= e).

Lemma no_collision_apart r s e p n :
  no_collision r s e -> start r <= end_ r -> s <= e -> r_apart (Region s e p n) r.
Proof. unfold no_collision, r_apart. simpl. lia. Qed.

Section specs.
Context {U K : Type} `{!Kernel K} `{!UtAlloc U}.
Local Abbreviation S := (sos U K).
Implicit Types s : S.

Lemma last_default (q : Z) l d : List.last (q :: l) d = List.last l q.
Proof.
  destruct l as [|y l]; [done|]. change (List.last (q :: y :: l) d) with (List.last (y :: l) d).
  revert y. induction l as [|z l IH]; intros y; [done|]. apply (IH z).
Qed.

Lemma last_region_spec s l cur prev fuel Q :
  rchain (regions s) cur l -> (length l < fuel)%nat -> Q (List.last l prev) s ->
  wp (last_region fuel cur prev) Q s.
Proof.
  revert cur prev fuel. induction l as [|q l IH]; intros cur prev [|fuel] Hc Hf HQ; simpl in Hf; try lia; simpl.
  - simpl in Hc. subst cur. rewrite Z.eqb_refl. by sos_steps.
  - destruct Hc as (-> & Hq & r & Hr & Hc). destruct (Z.eqb_spec q 0); [done|]. sos_steps.
    eapply wp_load; [done..|]. apply IH; [done | lia |]. by rewrite <- (last_default q l prev).
Qed.

Lemma find_region_spec s l cur v fuel Q :
  rchain (regions s) cur l -> (length l < fuel)%nat -> Q (first_region (regions s) l v) s ->
  wp (find_region fuel cur v) Q s.
Proof.
  revert cur fuel. induction l as [|q l IH]; intros cur [|fuel] Hc Hf HQ; simpl in Hf; try lia; simpl.
  - simpl in Hc. subst cur. rewrite Z.eqb_refl. by sos_steps.
  - destruct Hc as (-> & Hq & r & Hr & Hc). destruct (Z.eqb_spec q 0); [done|]. sos_steps.
    eapply wp_load; [done..|]. simpl in HQ. rewrite Hr in HQ. unfold WITHIN_REGION in HQ.
    destruct ((start r <=? v) && (v <? end_ r)); [by sos_steps|]. apply IH; [done | lia | done].
Qed.

Lemma collision_spec s l cur exempt st en fuel Q :
  rchain (regions s) cur l -> (length l < fuel)%nat -> regions_ok (regions s) l -> st <= en ->
  (forall c, c = 0 \/ c = 1 ->
    (c = 0 <-> forall q r, q ∈ l -> q <> exempt -> regions s !! q = Some r -> no_collision r st en) -> Q c s) ->
  wp (collision fuel cur exempt st en) Q s.
Proof.
  revert cur fuel. induction l as [|q l IH]; intros cur [|fuel] Hc Hf Hok Hse HQ; simpl in Hf; try lia; simpl.
  - simpl in Hc. subst cur. rewrite Z.eqb_refl. sos_steps. apply HQ; [by left|]. split; [|done].
    intros _ q r Hq. by apply not_elem_of_nil in Hq.
  - destruct Hc as (-> & Hq & r & Hr & Hc). destruct (Z.eqb_spec q 0); [done|]. sos_steps.
    eapply wp_load; [done..|]. destruct (ro_wf _ _ Hok q r ltac:(left) Hr) as [Hrr _].
    apply regions_ok_tail in Hok. destruct (Z.eqb_spec q exempt) as [->|Hne].
    { apply IH; [done | lia | done | done |]. intros c H01 Hiff. apply HQ; [done|]. rewrite Hiff. split.
      - intros H x r' [->|Hx]%elem_of_cons Hn Hx'; [done|]. by eapply H.
      - intros H x r' Hx. apply H. by right. }
    assert (forall P : Prop, P -> (1 = 0 <-> forall x r', x ∈ q :: l -> x <> exempt -> regions s !! x = Some r' -> no_collision r' st en)
      \/ no_collision r st en) as Hone.
    { intros _ _. destruct (decide (start r <= st <= end_ r)); [|destruct (decide (st <= start r <= en)); [|right; by split]];
        left; (split; [done|]; intros H; destruct (H q r ltac:(left) Hne Hr); lia). }
    destruct (ISINRANGE (start r) st (end_ r)) eqn:E1.
    { apply ISINRANGE_spec in E1; [|lia]. sos_steps. apply HQ; [by right|]. destruct (Hone True I) as [|[]]; [done | lia]. }
    destruct (ISINRANGE st (start r) en) eqn:E2.
    { apply ISINRANGE_spec in E2; [|lia]. sos_steps. apply HQ; [by right|]. destruct (Hone True I) as [|[]]; [done | lia]. }
    assert (no_collision r st en) as Hnc.
    { split; intros H; apply ISINRANGE_spec in H; [congruence | lia | congruence | lia]. }
    apply IH; [done | lia | done | done |]. intros c H01 Hiff. apply HQ; [done|]. rewrite Hiff. split.
    + intros H x r' [->|Hx]%elem_of_cons Hn Hx'; [congruence|]. by eapply H.
    + intros H x r' Hx. apply H. by right.
Qed.

(** The address space at [as_], its struct [a], and its regions [l]. *)
Record as_inv s (as_ : Z) (a : addrspace) (l : list Z) : Prop := {
  ai_null : as_ <> 0;
  ai_space : spaces s !! as_ = Some a;
  ai_chain : rchain (regions s) (region_list a) l;
  ai_ok : regions_ok (regions s) l
}.

Lemma as_find_region_run s as_ a l v Q :
  as_inv s as_ a l -> Q (first_region (regions s) l v) s -> wp (as_find_region as_ v) Q s.
Proof.
  intros [Hn Ha Hc _] HQ. unfold as_find_region, region_fuel. sos_steps. eapply wp_load; [done..|]. sos_steps.
  eapply find_region_spec; [done| |done]. pose proof (rchain_length _ _ _ Hc). lia.
Qed.

Lemma collision_check_run s as_ a l exempt st en Q :
  as_inv s as_ a l ->
  (forall c, c = 0 \/ c = 1 ->
    (c = 0 <-> st <= en /\ forall q r, q ∈ l -> q <> exempt -> regions s !! q = Some r -> no_collision r st en) -> Q c s) ->
  wp (as_region_collision_check as_ exempt st en) Q s.
Proof.
  intros [Hn Ha Hc Hok] HQ. unfold as_region_collision_check, region_fuel. destruct (Z.ltb_spec en st).
  - sos_steps. apply HQ; [by right|]. split; [done|]. lia.
  - sos_steps. eapply wp_load; [done..|]. sos_steps. eapply collision_spec; try done.
    + pose proof (rchain_length _ _ _ Hc). lia.
    + intros c H01 Hiff. apply HQ; [done|]. rewrite Hiff. tauto.
Qed.

(** The search finds exactly the region of the address. *)
Lemma first_region_spec s as_ a l v :
  as_inv s as_ a l ->
  match first_region (regions s) l v with
  | Some q => q ∈ l /\ exists r, regions s !! q = Some r /\ start r <= v < end_ r
  | None => forall q r, q ∈ l -> regions s !! q = Some r -> ~ (start r <= v < end_ r)
  end.
Proof.
  intros [_ _ Hc _]. revert Hc. generalize (region_list a). induction l as [|q l IH]; intros p Hc; simpl.
  - intros q r Hq. by apply not_elem_of_nil in Hq.
  - destruct Hc as (-> & Hq & r & Hr & Hc). rewrite Hr. unfold WITHIN_REGION.
    destruct (Z.leb_spec (start r) v), (Z.ltb_spec v (end_ r)); simpl; try (split; [left | eauto]; fail);
      specialize (IH _ Hc); destruct (first_region (regions s) l v); try (destruct IH; split; [by right | done]);
      intros x r' [->|Hx]%elem_of_cons Hr'; try (by eapply IH); replace r' with r by congruence; lia.
Qed.

(** The search in an address space returns the region that contains the
    address, of which there is at most one, and fails exactly when no region
    contains it. *)
Theorem as_find_region_spec s as_ a l v :
  as_inv s as_ a l ->
  exists r, as_find_region as_ v s = Ok (r, s) /\
    forall q rq, q ∈ l -> regions s !! q = Some rq -> (r = Some q <-> start rq <= v < end_ rq).
Proof.
  intros Hinv. pose proof (first_region_spec s as_ a l v Hinv) as Hf.
  destruct (proj1 (wp_ok _ _ _) (as_find_region_run s as_ a l v
    (fun r s' => r = first_region (regions s) l v /\ s' = s) Hinv ltac:(done))) as (r & s' & E & -> & ->).
  eexists. split; [done|]. intros q rq Hq Hrq. destruct (first_region (regions s) l v) as [x|].
  - destruct Hf as (Hx & rx & Hrx & Hin). split; [intros [= ->]; congruence|]. intros Hv.
    destruct (decide (x = q)) as [->|Hne]; [done|].
    destruct (ro_apart _ _ (ai_ok _ _ _ _ Hinv) x q rx rq Hx Hq Hne Hrx Hrq); lia.
  - split; [done|]. intros Hv. by destruct (Hf q rq Hq Hrq).
Qed.

(** The break the heap of the process ends at after a request for [brk]. *)
Definition new_break (h : gmap Z region) (l : list Z) (hp : Z) (heap : region) (brk e : Z) : Prop :=
  (e = end_ heap \/ e = brk) /\
  (e = brk <-> brk = end_ heap \/ (brk <> 0 /\ start heap <= brk /\
    forall q r, q ∈ l -> q <> hp -> h !! q = Some r -> no_collision r (start heap) brk)).

(** The state after the call. *)
Definition brk_state s (hp : Z) (heap : region) (e : Z) : S :=
  set_mrs (insertZ 0 e (mrs s)) (set_regions (<[hp := set_end e heap]> (regions s)) s).

Lemma brk_unchanged s hp heap e :
  regions s !! hp = Some heap -> e = end_ heap -> set_mrs (insertZ 0 e (mrs s)) s = brk_state s hp heap e.
Proof.
  intros Hh ->. unfold brk_state. f_equal. destruct s. unfold set_regions. simpl in *. f_equal.
  symmetry. apply insert_id. by destruct heap.
Qed.

Lemma brk_inv s as_ a l hp heap brk e :
  as_inv s as_ a l -> hp ∈ l -> regions s !! hp = Some heap -> is_u32 brk ->
  new_break (regions s) l hp heap brk e -> as_inv (brk_state s hp heap e) as_ a l.
Proof.
  intros [Hn Ha Hc Hok] Hl Hh Hb [H01 Hiff]. destruct (ro_wf _ _ Hok _ _ Hl Hh) as [Hw1 Hw2]. unfold is_u32 in Hb.
  assert (e = end_ heap \/ (e = brk /\ start heap <= brk /\
    forall q r, q ∈ l -> q <> hp -> regions s !! q = Some r -> no_collision r (start heap) brk)) as Hcase.
  { destruct H01 as [|E]; [by left|]. destruct (proj1 Hiff E) as [|(? & ? & ?)]; [left; congruence | by right]. }
  split; try done.
  - apply rchain_ext with (regions s); [|done]. intros q Hq. simpl. destruct (decide (q = hp)) as [->|].
    + by rewrite lookup_insert_eq, Hh.
    + by rewrite lookup_insert_ne.
  - apply regions_ok_insert; [done | simpl; destruct Hcase as [->|(-> & ? & _)]; lia | simpl; destruct H01 as [->| ->]; lia |].
    intros q r Hq Hne Hr. destruct Hcase as [->|(-> & Hle & Hno)].
    + by apply (ro_apart _ _ Hok hp q heap r).
    + destruct (ro_wf _ _ Hok _ _ Hq Hr). apply no_collision_apart; [by apply (Hno q) | lia | lia].
Qed.

Lemma brk_epilogue_run s hp r Q :
  hp <> 0 -> regions s !! hp = Some r -> 0 < Z.of_nat (length (mrs s)) ->
  Q 1 (set_mrs (insertZ 0 (end_ r) (mrs s)) s) -> wp (brk_epilogue hp) Q s.
Proof.
  intros Hp Hr Hl HQ. unfold brk_epilogue, seL4_SetMR. sos_steps. eapply wp_load; [done..|]. sos_steps.
  apply wp_in_bounds; [lia|]. by sos_steps.
Qed.

Lemma syscall_brk_run s curproc p a l heap brk Q :
  curproc <> 0 -> procs s !! curproc = Some p -> as_inv s (p_addrspace p) a l ->
  region_heap a ∈ l -> regions s !! region_heap a = Some heap -> mrs s !z 1 = Some brk ->
  (forall e, new_break (regions s) l (region_heap a) heap brk e -> Q 1 (brk_state s (region_heap a) heap e)) ->
  wp (syscall_brk curproc) Q s.
Proof.
  intros Hp Hproc Hinv Hh Hheap Hmr HQ. pose proof Hinv as [Hn Ha Hc Hok].
  destruct (rchain_lookup _ _ _ _ Hc Hh) as [Hh0 _]. destruct (ro_wf _ _ Hok _ _ Hh Hheap) as [Hw1 Hw2].
  pose proof (lookupZ_lt _ _ _ Hmr) as Hlen. unfold syscall_brk, seL4_GetMR. sos_steps. eapply wp_rd; [done|].
  do 3 (sos_steps; eapply wp_load; [done..|]).
  assert (new_break (regions s) l (region_heap a) heap brk (end_ heap) -> wp (brk_epilogue (region_heap a)) Q s) as Hsame.
  { intros Hnb. apply brk_epilogue_run with heap; [done | done | lia |]. rewrite (brk_unchanged s _ heap) by done. by apply HQ. }
  destruct (Z.eqb_spec brk 0) as [->|Hb0]; bred; sos_steps.
  { apply Hsame. split; [by left|]. split; [intros; by left|]. intros [|[]]; done. }
  eapply collision_check_run; [done|]. intros c Hc01 Hiff. destruct (Z.eqb_spec c 0) as [Ec|Ec]; bred; sos_steps.
  - eapply wp_update; [done..|]. sred. eapply brk_epilogue_run; [done | sred; by apply lookup_insert_eq | sred; lia |].
    apply HQ. split; [by right|]. split; [|done]. intros _. right. split; [done|]. by apply Hiff.
  - apply Hsame. split; [by left|]. split; [intros; by left|]. intros [|(_ & H)]; [done|]. by rewrite <- Hiff in H.
Qed.

(** C6: The break system call keeps the regions of the process apart: it
    changes at most the end of the heap, to the requested break, and only when
    the heap then meets no other region; it returns the resulting break. *)
Theorem syscall_brk_spec s curproc p a l heap brk :
  curproc <> 0 -> procs s !! curproc = Some p -> as_inv s (p_addrspace p) a l ->
  region_heap a ∈ l -> regions s !! region_heap a = Some heap -> mrs s !z 1 = Some brk -> is_u32 brk ->
  exists s' e, syscall_brk curproc s = Ok (1, s') /\ new_break (regions s) l (region_heap a) heap brk e /\
    as_inv s' (p_addrspace p) a l /\ regions s' = <[region_heap a := set_end e heap]> (regions s) /\ mrs s' !z 0 = Some e.
Proof.
  intros Hp Hproc Hinv Hh Hheap Hmr Hb. pose proof (lookupZ_lt _ _ _ Hmr) as Hlen.
  assert (wp (syscall_brk curproc) (fun r s' => r = 1 /\ exists e, new_break (regions s) l (region_heap a) heap brk e /\
    s' = brk_state s (region_heap a) heap e) s) as Hwp by (eapply syscall_brk_run; eauto).
  apply wp_ok in Hwp as (r & s' & E & -> & e & Hnb & ->). exists (brk_state s (region_heap a) heap e), e.
  split; [done|]. split; [done|]. split; [by apply brk_inv with brk|]. split; [done|].
  apply lookupZ_insertZ_eq. lia.
Qed.
End specs.

(** ** Example: a process with a text region, a heap and a stack *)

Definition demo_regions : gmap Z region :=
  <[1 := Region 0x8000 0x10000 2 2]> (<[2 := Region 0x20000 0x24000 3 3]> {[3 := Region 0x8ffff000 0x90000000 3 0]}).
Definition demo_space : addrspace := Addrspace 1 3 2 0 0 0.
Definition demo_proc : proc := Proc 0 0 0 0 1 0 0 (-1) 0 0 1 None 0 BLOCKED 1 false false.
Definition demo_procs : sos UtAllocator.ut_state toy_kernel :=
  set_mrs (insertZ 1 0x30000 (mrs boot_state))
    (set_procs {[1 := demo_proc]} (set_spaces {[1 := demo_space]} (set_regions demo_regions boot_state))).

Lemma demo_as_inv : as_inv demo_procs 1 demo_space [1; 2; 3].
Proof.
  assert (forall q, q ∈ [1; 2; 3] -> q = 1 \/ q = 2 \/ q = 3) as Hq.
  { intros q H. repeat (apply elem_of_cons in H as [H|H]; [auto|]). by apply not_elem_of_nil in H. }
  split; [done | done | |].
  - simpl. repeat (split; [done|]; split; [done|]; eexists; split; [reflexivity|]; simpl). done.
  - split.
    + intros q r [->|[->| ->]]%Hq H; vm_compute in H; injection H as <-; simpl; lia.
    + intros q q' r r' [->|[->| ->]]%Hq [->|[->| ->]]%Hq Hne H H'; vm_compute in H, H'; try done;
        injection H as <-; injection H' as <-; unfold r_apart; simpl; lia.
Qed.

Lemma as_find_region_spec_witness :
  exists r, as_find_region 1 0x21000 demo_procs = Ok (r, demo_procs) /\
    forall q rq, q ∈ [1; 2; 3] -> regions demo_procs !! q = Some rq -> (r = Some q <-> start rq <= 0x21000 < end_ rq).
Proof. apply (as_find_region_spec demo_procs 1 demo_space [1; 2; 3]). apply demo_as_inv. Defined.

Lemma syscall_brk_spec_witness :
  exists s' e, syscall_brk 1 demo_procs = Ok (1, s') /\
    new_break (regions demo_procs) [1; 2; 3] 2 (Region 0x20000 0x24000 3 3) 0x30000 e /\
    as_inv s' 1 demo_space [1; 2; 3] /\
    regions s' = <[2 := set_end e (Region 0x20000 0x24000 3 3)]> (regions demo_procs) /\ mrs s' !z 0 = Some e.
Proof.
  apply (syscall_brk_spec demo_procs 1 demo_proc demo_space [1; 2; 3]); try done.
  - apply demo_as_inv.
  - simpl. right. left.
Defined.
