(* ===== verification/Nfs.v ===== *)
(** * Nfs: files of the network file server

    Models apps/sos/src/fs/sos_nfs.c, and [vnode_create] and [vfs_mount] of
    apps/sos/src/vfs/vfs.c which it calls.

    A request is sent to the server, the coroutine yields, and the callback of
    the reply resumes it with a value: nothing runs between the callback and
    the code after the yield, so [nfs_wait] sends the request, runs what other
    coroutines do in the meantime, and the callback is applied to the reply.

    The copy of a file handle that a lookup allocates lives as long as its
    vnode (both are freed together), so [vn_data] is the handle itself.

    The theorems show that a transfer that returns its full length has moved
    every byte, and what a failed transfer returns. *)

From S2P Require Import Prelude Arith Memory SosState UtInterface.

Definition NFS_OK : Z := 0.
Definition MS_IN_S : Z := 1000.
Definition US_IN_S : Z := 1000000.
Definition SEC_TO_MS (t : Z) : Z := u64 (t * MS_IN_S).
Definition US_TO_MS (t : Z) : Z := t / US_IN_MS.
Definition SECONDS (t : Z) : Z := u64 (t * US_IN_S).

Definition O_RDONLY : Z := 0.
Definition O_WRONLY : Z := 1.
Definition O_RDWR : Z := 2.

(** A pointer to a status struct: the one of the console, or an allocated one. *)
Inductive stat_ptr := StatConsole | StatHeap (st : sos_stat_t).

Definition set_readcount x (v : vnode) := Vnode (vn_data v) (vn_ops v) x (writecount v).
Definition set_writecount x (v : vnode) := Vnode (vn_data v) (vn_ops v) (readcount v) x.

(** What the callbacks of the transfers resume the coroutine with. *)
Definition sos_nfs_write_callback (status count : Z) : Z := if negb (status =? NFS_OK) then -1 else count.

Section nfs.
Context {U K : Type} `{!Kernel K} `{!UtAlloc U} `{!Threads K} `{!Nfs K} `{!World (sos U K)}.
Local Abbreviation S := (sos U K).

Definition on_fs (f : fsys -> fsys) : M S unit := modify (fun s => set_fs (f (fs s)) s).

Definition nfs_wait {A} (req : K -> option A * K) : M S (option A) :=
  r <- kcall req ;;
  match r with
  | None => ret None
  | Some a => meanwhile ;;; ret (Some a)
  end.

(** *** vfs.c *)

Definition vnode_create (data : Z) (ops : vnode_ops) (readcount_ writecount_ : Z) : M S Z :=
  malloc h_vnodes (Vnode data ops readcount_ writecount_).

(** [mount_points] is the list of mounted nodes, first mount first. *)
Definition vfs_mount (vn_ : Z) : M S Z :=
  ok <- kcall malloc_ok ;;
  if negb ok then ret 1
  else on_fs (fun f => set_mount_points (mount_points f ++ [vn_]) f) ;;; ret 0.

(** *** sos_nfs.c *)

Definition sos_nfs_init : M S Z :=
  nfs_mount <- vnode_create 0 nfs_dir_ops 0 0 ;;
  if nfs_mount =? 0 then ret 1
  else
    id <- kcall (register_timer (SECONDS 1)) ;;
    if id =? 0 then ret 1
    else
      r <- vfs_mount nfs_mount ;;
      ret (if negb (r =? 0) then 1 else 0).

(** The value the coroutine is resumed with: null or a new vnode. *)
Definition sos_nfs_lookup_callback (status fh : Z) : M S Z :=
  if negb (status =? NFS_OK) then ret 0
  else
    handle <- kcall malloc_ok ;;
    if negb handle then ret 0
    else vnode_create fh nfs_vnode_ops 0 0.

(** A request that is not sent is never answered: the coroutine does not
    continue. *)
Definition await_node (req : K -> option (Z * Z) * K) : M S Z :=
  r <- nfs_wait req ;;
  match r with
  | None => fail FFuel
  | Some (status, fh) => sos_nfs_lookup_callback status fh
  end.

(** [None] is the failure of the function; the node may be null when the file
    could not be created. *)
Definition sos_nfs_lookup (name : list Z) (create_file : bool) : M S (option Z) :=
  vn_ <- await_node (nfs_lookup name) ;;
  if vn_ =? 0 then
    if create_file then vn_ <- await_node (nfs_create name) ;; ret (Some vn_)
    else ret None
  else ret (Some vn_).

Definition sos_nfs_open (vnode_ mode_ : Z) : M S Z :=
  (if (mode_ =? O_RDONLY) || (mode_ =? O_RDWR) then
     update h_vnodes vnode_ (fun v => set_readcount (u32 (readcount v + 1)) v)
   else ret tt) ;;;
  if mode_ =? O_RDONLY then ret 0
  else update h_vnodes vnode_ (fun v => set_writecount (u32 (writecount v + 1)) v) ;;; ret 0.

(** One round of the loop of [sos_nfs_write].  The offset and the count of a
    request are [int]s: the position, of type [off_t], and the length are cut to
    32 bits when they are passed on. *)
Definition write_round (fh total : Z) (iov : uiovec) : M S (uiovec + Z) :=
  if uiov_len iov <=? 0 then ret (inr (i32 (total - uiov_len iov)))
  else
    s <- get ;;
    r <- nfs_wait (nfs_write fh (i32 (uiov_pos iov)) (peeks (mem s) (uiov_base iov) (i32 (uiov_len iov)))) ;;
    match r with
    | None => ret (inr (-1))
    | Some (status, count) =>
        let r := sos_nfs_write_callback status count in
        if (r =? 0) || (r =? -1) then ret (inr (i32 (total - uiov_len iov)))
        else ret (inl (Uiovec (u32 (uiov_base iov + r)) (u32 (uiov_len iov - r)) (uiov_pos iov + r)))
    end.

(** Every round but the last writes at least one byte. *)
Definition sos_nfs_write (fh : Z) (iov : uiovec) : M S Z :=
  while_fuel (Datatypes.S (Z.to_nat (uiov_len iov))) (write_round fh (uiov_len iov)) iov.

(** The callback copies the data to the memory of the vector. *)
Definition sos_nfs_read_callback (iov : uiovec) (status : Z) (data : list Z) : M S Z :=
  if negb (status =? NFS_OK) then ret (-1)
  else
    modify (fun s => set_mem (pokes (uiov_base iov) data (mem s)) s) ;;;
    ret (Z.of_nat (length data)).

Definition read_round (fh total : Z) (iov : uiovec) : M S (uiovec + Z) :=
  if uiov_len iov <=? 0 then ret (inr (i32 (total - uiov_len iov)))
  else
    r <- nfs_wait (nfs_read fh (i32 (uiov_pos iov)) (i32 (uiov_len iov))) ;;
    match r with
    | None => ret (inr (-1))
    | Some (status, data) =>
        r <- sos_nfs_read_callback iov status data ;;
        if (r =? 0) || (r =? -1) then ret (inr (i32 (total - uiov_len iov)))
        else ret (inl (Uiovec (u32 (uiov_base iov + r)) (u32 (uiov_len iov - r)) (uiov_pos iov + r)))
    end.

Definition sos_nfs_read (fh : Z) (iov : uiovec) : M S Z :=
  cb <- kcall malloc_ok ;;
  if negb cb then ret (-1)
  else while_fuel (Datatypes.S (Z.to_nat (uiov_len iov))) (read_round fh (uiov_len iov)) iov.

(** The directory callback: [None] when it reports failure. *)
Definition sos_nfs_readdir_callback (status : Z) (file_names : list (list Z)) (nfscookie : Z) : M S Z :=
  if negb (status =? NFS_OK) then ret (-1)
  else
    ok <- kcall malloc_ok ;;
    if negb ok then on_fs (set_global_dir DirNull) ;;; ret (-1)
    else
      on_fs (set_global_dir (Dir file_names)) ;;;
      on_fs (set_global_cookie nfscookie) ;;;
      ret 0.

Definition free_global_dir : M S unit :=
  f <- gets fs ;;
  match global_dir f with
  | DirNull => ret tt
  | Dir _ => on_fs (set_global_dir DirFreed)
  | DirFreed => fail FBounds
  end.

(** One round of the loop of [sos_nfs_list]: the names so far, or the result. *)
Definition list_round (big_list : list (list Z)) : M S (list (list Z) + option (list (list Z))) :=
  f <- gets fs ;;
  r <- nfs_wait (nfs_readdir (global_cookie f)) ;;
  match r with
  | None => ret (inr None)
  | Some (status, names, cookie) =>
      ret_val <- sos_nfs_readdir_callback status names cookie ;;
      if negb (ret_val =? 0) then free_global_dir ;;; ret (inr None)
      else
        ok <- kcall malloc_ok ;;
        if negb ok && (0 <? Z.of_nat (length names)) then fail FNull
        else
          free_global_dir ;;;
          f <- gets fs ;;
          ret (if global_cookie f =? 0 then inr (Some (big_list ++ names)) else inl (big_list ++ names))
  end.

(** The server decides when the listing ends; [fuel] bounds the number of
    replies. *)
Definition sos_nfs_list (fuel : nat) : M S (option (list (list Z))) :=
  ok <- kcall malloc_ok ;;
  if negb ok then ret None else while_fuel fuel list_round [].

(** [None]: the callback resumed the coroutine with null. *)
Definition sos_nfs_getattr_callback (status : Z) (a : fattr) : M S (option sos_stat_t) :=
  if negb (status =? NFS_OK) then ret None
  else
    ok <- kcall malloc_ok ;;
    if negb ok then ret None
    else ret (Some (SosStat (fa_type a) (fa_mode a) (fa_size a)
      (i32 (SEC_TO_MS (fst (fa_ctime a)) + US_TO_MS (snd (fa_ctime a))))
      (i32 (SEC_TO_MS (fst (fa_atime a)) + US_TO_MS (snd (fa_atime a)))))).

Definition sos_nfs_stat (fh : Z) : M S (option stat_ptr) :=
  r <- nfs_wait (nfs_getattr fh) ;;
  match r with
  | None => ret None
  | Some (status, a) =>
      st <- sos_nfs_getattr_callback status a ;;
      ret (option_map StatHeap st)
  end.

Definition sos_nfs_close (node mode_ : Z) : M S Z :=
  (if (mode_ =? O_RDONLY) || (mode_ =? O_RDWR) then
     update h_vnodes node (fun v => set_readcount (u32 (readcount v - 1)) v)
   else ret tt) ;;;
  (if mode_ =? O_RDONLY then ret tt
   else update h_vnodes node (fun v => set_writecount (u32 (writecount v - 1)) v)) ;;;
  v <- load h_vnodes node ;;
  (if (0 <? readcount v) || (0 <? writecount v) then free h_vnodes node else ret tt) ;;;
  ret 0.
End nfs.

(** ** What the file server promises

    [nfs_file k fh x]: byte [x] of the file with handle [fh].  A successful
    write stores a prefix of the data, a successful read returns bytes of the
    file, fewer than requested if the server chooses.  Nothing is promised for
    places of the file that an [int] does not reach. *)
Class NfsLaws (K : Type) `{!Kernel K} `{!Nfs K} := {
  nfs_file : K -> Z -> Z -> Z;
  nfs_malloc_law k g x : nfs_file (malloc_ok k).2 g x = nfs_file k g x;
  nfs_read_law k fh pos len : 0 <= pos -> 0 <= len -> pos + len <= 2 ^ 31 ->
    (forall g x, nfs_file (nfs_read fh pos len k).2 g x = nfs_file k g x) /\
    forall data, (nfs_read fh pos len k).1 = Some (NFS_OK, data) ->
      Z.of_nat (length data) <= len /\ forall i b, data !z i = Some b -> b = nfs_file k fh (pos + i);
  nfs_write_law k fh pos bs : 0 <= pos -> pos + Z.of_nat (length bs) <= 2 ^ 31 ->
    (forall g x, g <> fh \/ ~ (pos <= x < pos + Z.of_nat (length bs)) ->
      nfs_file (nfs_write fh pos bs k).2 g x = nfs_file k g x) /\
    forall count, (nfs_write fh pos bs k).1 = Some (NFS_OK, count) ->
      0 <= count <= Z.of_nat (length bs) /\
      forall i b, i < count -> bs !z i = Some b -> nfs_file (nfs_write fh pos bs k).2 fh (pos + i) = b
}.

Section transfer.
Context {U K : Type} `{!Kernel K} `{!UtAlloc U} `{!Threads K} `{!Nfs K} `{!World (sos U K)} `{!NfsLaws K}.
Local Abbreviation S := (sos U K).

(** While the transfer between the [n] bytes at [b] and the place [p] of the
    file waits, other coroutines leave both alone. *)
Definition quiet (fh b n p : Z) : Prop := forall s : S,
  wp meanwhile (fun _ s' =>
    (forall i, 0 <= i < n -> peek (mem s') (b + i) = peek (mem s) (b + i)) /\
    (forall i, 0 <= i < n -> nfs_file (kern s') fh (p + i) = nfs_file (kern s) fh (p + i))) s.

Context (fh b n p : Z).
Hypothesis Hq : quiet fh b n p.
Hypothesis Hb : 0 <= b.
Hypothesis Hn : 0 <= n < 2 ^ 31.
Hypothesis Hbn : b + n < 2 ^ 32.
Hypothesis Hp : 0 <= p.
Hypothesis Hpn : p + n <= 2 ^ 31.

(** The vector after [d] bytes. *)
Definition after (d : Z) : uiovec := Uiovec (b + d) (n - d) (p + d).

Lemma after_step d r : 0 <= d -> 0 <= r -> d + r <= n ->
  Uiovec (u32 (uiov_base (after d) + r)) (u32 (uiov_len (after d) - r)) (uiov_pos (after d) + r) = after (d + r).
Proof using All.
  intros. unfold after. simpl. rewrite !u32_small by (unfold is_u32; lia). f_equal; lia.
Qed.

(** After [d] bytes of a write that started with the memory of [s]. *)
Definition written (s : S) (d : Z) (s' : S) : Prop :=
  0 <= d <= n /\ (forall i, 0 <= i < n -> peek (mem s') (b + i) = peek (mem s) (b + i)) /\
  (forall i, 0 <= i < d -> nfs_file (kern s') fh (p + i) = peek (mem s) (b + i)).

Definition read_in (s : S) (d : Z) (s' : S) : Prop :=
  0 <= d <= n /\ (forall i, 0 <= i < n -> nfs_file (kern s') fh (p + i) = nfs_file (kern s) fh (p + i)) /\
  (forall i, 0 <= i < d -> peek (mem s') (b + i) = nfs_file (kern s) fh (p + i)).

Lemma write_round_spec s d s1 : written s d s1 ->
  wp (write_round fh n (after d)) (fun r s' =>
    match r with
    | inl iov => exists d', d < d' /\ iov = after d' /\ written s d' s'
    | inr r => exists d', written s d' s' /\ (r = d' \/ r = -1)
    end) s1.
Proof using All.
  intros (Hd & Hm & Hf). unfold write_round. cbn [after uiov_len uiov_base uiov_pos].
  destruct (Z.leb_spec (n - d) 0); [apply wp_ret; exists d; split; [done|]; left; rewrite ?i32_small; lia|].
  rewrite !i32_small by lia. unfold nfs_wait. sos_steps. set (bs := peeks (mem s1) (b + d) (n - d)).
  assert (Z.of_nat (length bs) = n - d) as Hl by (apply length_peeks; lia).
  destruct (nfs_write_law (kern s1) fh (p + d) bs) as [Hsame Hok]; [lia..|]. rewrite Hl in *.
  assert (forall i, 0 <= i < d -> nfs_file (nfs_write fh (p + d) bs (kern s1)).2 fh (p + i) = peek (mem s) (b + i)) as Hf'.
  { intros i Hi. rewrite Hsame by lia. by apply Hf. }
  destruct (nfs_write fh (p + d) bs (kern s1)) as [[[st count]|] k]; simpl in *; sos_steps.
  2: { exists d. split; [by split|]. by right. }
  eapply wp_mono; [apply Hq|]. intros [] s2 [Hm2 Hf2]. sos_steps. sred. simpl in Hm2, Hf2.
  assert (written s d s2) as Hw.
  { split; [done|]. split; [intros i Hi; by rewrite Hm2, Hm by lia|]. intros i Hi. rewrite Hf2 by lia. by apply Hf'. }
  unfold sos_nfs_write_callback. destruct (Z.eqb_spec st NFS_OK) as [->|]; cbn [negb].
  2: { change (-1 =? 0) with false. change (-1 =? -1) with true. cbn [orb]. apply wp_ret. exists d. split; [done|]. left. rewrite ?i32_small; lia. }
  destruct (Hok count eq_refl) as [Hc Hby].
  destruct (Z.eqb_spec count 0); [apply wp_ret; exists d; split; [done|]; left; rewrite ?i32_small; lia|].
  destruct (Z.eqb_spec count (-1)); [lia|]. cbn [orb]. apply wp_ret. exists (d + count). split; [lia|].
  split; [by rewrite <- after_step by lia|]. destruct Hw as (_ & Hw1 & Hw2). split; [lia|]. split; [done|].
  intros i Hi. destruct (Z.lt_ge_cases i d) as [|Hge]; [apply Hw2; lia|]. rewrite Hf2 by lia.
  replace (p + i) with (p + d + (i - d)) by lia. apply Hby; [lia|]. unfold bs. rewrite lookup_peeks by lia.
  replace (b + d + (i - d)) with (b + i) by lia. by rewrite Hm by lia.
Qed.

Lemma sos_nfs_write_spec s :
  wp (sos_nfs_write fh (Uiovec b n p)) (fun r s' => exists d, written s d s' /\ (r = d \/ r = -1)) s.
Proof using All.
  unfold sos_nfs_write. cbn [uiov_len].
  apply (wp_while_fuel (fun iov s' => exists d, iov = after d /\ written s d s') (fun iov _ => Z.to_nat (uiov_len iov))).
  - exists 0. split; [unfold after; f_equal; lia|]. split; [lia|]. split; [done|]. intros. lia.
  - simpl. lia.
  - intros iov s1 (d & -> & Hw). eapply wp_mono; [by apply write_round_spec|].
    intros [iov|r] s2 H; [|done]. destruct H as (d' & Hd & -> & Hw'). split; [eauto|].
    pose proof (proj1 Hw'). simpl. lia.
Qed.

Lemma read_round_spec s d s1 : read_in s d s1 ->
  wp (read_round fh n (after d)) (fun r s' =>
    match r with
    | inl iov => exists d', d < d' /\ iov = after d' /\ read_in s d' s'
    | inr r => exists d', read_in s d' s' /\ (r = d' \/ r = -1)
    end) s1.
Proof using All.
  intros (Hd & Hf & Hm). unfold read_round. cbn [after uiov_len uiov_base uiov_pos].
  destruct (Z.leb_spec (n - d) 0); [apply wp_ret; exists d; split; [done|]; left; rewrite ?i32_small; lia|].
  rewrite !i32_small by lia. unfold nfs_wait. sos_steps.
  destruct (nfs_read_law (kern s1) fh (p + d) (n - d) ltac:(lia) ltac:(lia) ltac:(lia)) as [Hsame Hok].
  destruct (nfs_read fh (p + d) (n - d) (kern s1)) as [[[st data]|] k]; simpl in *; sos_steps.
  2: { exists d. split; [|by right]. split; [done|]. split; [|done]. intros i Hi. sred. by rewrite Hsame, Hf. }
  eapply wp_mono; [apply Hq|]. intros [] s2 [Hm2 Hf2]. sos_steps. sred. simpl in Hm2, Hf2.
  assert (forall i, 0 <= i < n -> nfs_file (kern s2) fh (p + i) = nfs_file (kern s) fh (p + i)) as Hf3.
  { intros i Hi. by rewrite Hf2, Hsame, Hf. }
  assert (read_in s d s2) as Hr.
  { split; [done|]. split; [done|]. intros i Hi. rewrite Hm2 by lia. by apply Hm. }
  unfold sos_nfs_read_callback. destruct (Z.eqb_spec st NFS_OK) as [->|]; cbn [negb]; sos_steps.
  2: { change (-1 =? 0) with false. change (-1 =? -1) with true. cbn [orb]. apply wp_ret. exists d. split; [done|]. left. rewrite ?i32_small; lia. }
  destruct (Hok data eq_refl) as [Hc Hby]. set (count := Z.of_nat (length data)) in *.
  assert (read_in s (d + count) (set_mem (pokes (b + d) data (mem s2)) s2)) as Hr'.
  { split; [lia|]. split; [done|]. intros i Hi. sred. rewrite peek_pokes.
    destruct (data !z (b + i - (b + d))) as [x|] eqn:E.
    - rewrite (Hby _ _ E). replace (p + d + (b + i - (b + d))) with (p + i) by lia. by rewrite Hf by lia.
    - apply lookupZ_None in E. destruct Hr as (_ & _ & Hr). apply Hr. lia. }
  destruct (Z.eqb_spec count 0) as [E|].
  { apply wp_ret. exists (d + count). split; [done|]. left. rewrite ?i32_small; lia. }
  destruct (Z.eqb_spec count (-1)); [lia|]. cbn [orb]. apply wp_ret. exists (d + count). split; [lia|].
  split; [by rewrite <- after_step by lia|done].
Qed.

Lemma sos_nfs_read_spec s :
  wp (sos_nfs_read fh (Uiovec b n p)) (fun r s' => exists d, read_in s d s' /\ (r = d \/ r = -1)) s.
Proof using All.
  unfold sos_nfs_read. cbn [uiov_len]. sos_steps.
  assert (forall s1, mem s1 = mem s -> (forall i, nfs_file (kern s1) fh (p + i) = nfs_file (kern s) fh (p + i)) -> read_in s 0 s1) as H0.
  { intros s1 Em Ek. split; [lia|]. split; [intros; apply Ek|]. intros. lia. }
  assert (read_in s 0 (set_kern (malloc_ok (kern s)).2 s)) as Hi by (apply H0; [done|]; intros; apply nfs_malloc_law).
  destruct (malloc_ok (kern s)).1; cbn [negb]; [|apply wp_ret; exists 0; split; [done | by right]].
  apply (wp_while_fuel (fun iov s' => exists d, iov = after d /\ read_in s d s') (fun iov _ => Z.to_nat (uiov_len iov))).
  - exists 0. split; [unfold after; f_equal; lia | done].
  - simpl. lia.
  - intros iov s1 (d & -> & Hw). eapply wp_mono; [by apply read_round_spec|].
    intros [iov|r] s2 H; [|done]. destruct H as (d' & Hd & -> & Hw'). split; [eauto|].
    pose proof (proj1 Hw'). simpl. lia.
Qed.
End transfer.

Section claims.
Context {U K : Type} `{!Kernel K} `{!UtAlloc U} `{!Threads K} `{!Nfs K} `{!World (sos U K)} `{!NfsLaws K}.
Local Abbreviation S := (sos U K).

(** C7: In the first 2^31 bytes of a file, what [sos_nfs_write] wrote,
    [sos_nfs_read] brings back: when both report the full length, the target buffer holds the bytes of the source
    buffer, however the server splits the transfers, and whatever other
    coroutines do elsewhere while the transfers wait.  The loops end. *)
Theorem nfs_transfer_roundtrip (s : S) fh b b' n p :
  quiet (U := U) fh b n p -> quiet (U := U) fh b' n p -> 0 <= n < 2 ^ 31 ->
  0 <= b -> b + n < 2 ^ 32 -> 0 <= b' -> b' + n < 2 ^ 32 -> 0 <= p -> p + n <= 2 ^ 31 ->
  wp (w <- sos_nfs_write fh (Uiovec b n p) ;; r <- sos_nfs_read fh (Uiovec b' n p) ;; ret (w, r))
    (fun x s' => -1 <= x.1 <= n /\ -1 <= x.2 <= n /\ (x = (n, n) -> peeks (mem s') b' n = peeks (mem s) b n)) s.
Proof.
  intros Hq Hq' Hn Hb Hbn Hb' Hbn' Hp Hpn. sos_steps.
  eapply wp_mono; [by apply sos_nfs_write_spec|]. intros w s1 (d & (Hd & _ & Hf) & Hw). sos_steps.
  eapply wp_mono; [by apply sos_nfs_read_spec|]. intros r s2 (e & (He & _ & Hm) & Hr). sos_steps. simpl.
  split; [lia|]. split; [lia|]. intros [= -> ->]. apply peeks_ext. intros i Hi.
  rewrite Hm by lia. apply Hf. lia.
Qed.

(** C31: When the server answers the first request of a read with an error,
    [sos_nfs_read] returns 0, as for an empty file, and leaves the buffer as it
    is; only a request that could not be sent makes it return -1. *)
Theorem sos_nfs_read_error (s s1 : S) fh iov status data k1 k2 :
  0 < uiov_len iov -> malloc_ok (kern s) = (true, k1) ->
  nfs_read fh (i32 (uiov_pos iov)) (i32 (uiov_len iov)) k1 = (Some (status, data), k2) ->
  meanwhile (set_kern k2 s) = Ok (tt, s1) -> status <> NFS_OK ->
  sos_nfs_read fh iov s = Ok (0, s1).
Proof.
  intros Hl Hk1 Hk2 Hm Hst.
  assert (wp (sos_nfs_read fh iov) (fun r s' => r = 0 /\ s' = s1) s) as Hwp.
  { unfold sos_nfs_read. sos_steps. rewrite Hk1. cbn [fst snd negb while_fuel]. sos_steps. unfold read_round at 1.
    destruct (Z.leb_spec (uiov_len iov) 0); [lia|]. unfold nfs_wait. sos_steps. sred. rewrite Hk2. cbn [fst snd]. sos_steps.
    change (set_kern k2 (set_kern k1 s)) with (set_kern k2 s). eapply wp_eq; [exact Hm|]. sos_steps.
    unfold sos_nfs_read_callback. destruct (Z.eqb_spec status NFS_OK); [done|]. cbn [negb]. sos_steps.
    change ((-1 =? 0) || (-1 =? -1)) with true. cbv iota. sos_steps. by rewrite Z.sub_diag. }
  by apply wp_ok in Hwp as (r & s' & E & -> & ->).
Qed.
End claims.

(** ** Example: the disk of the toy kernel *)

#[export, refine] Instance toy_nfs_laws : NfsLaws toy_kernel := {
  nfs_file k fh x := default 0 (toy_disk k !! (fh, x))
}.
Proof.
  - done.
  - intros k fh pos len Hpos Hlen Hend. split; [done|]. intros data [= <-]. split.
    + rewrite length_take. unfold toy_bytes. rewrite length_fmap, length_seq. lia.
    + intros i b Hi. pose proof (lookupZ_lt _ _ _ Hi) as Hlt. rewrite length_take in Hlt. unfold lookupZ in Hi.
      destruct (Z.leb_spec 0 i); [|done]. rewrite lookup_take_Some in Hi. destruct Hi as [Hi _].
      unfold toy_bytes in Hi. apply list_lookup_fmap_Some in Hi as (j & -> & Hj). apply lookup_seq in Hj as [-> _].
      do 3 f_equal. lia.
  - intros k fh pos bs Hpos Hend. split.
    + intros g x Hx. simpl. rewrite toy_store_out; [done|]. destruct Hx as [|Hx]; [by left|]. right.
      rewrite length_take. lia.
    + intros count [= <-]. rewrite length_take. split; [lia|]. intros i b Hi Hb. simpl.
      rewrite (toy_store_in _ _ _ _ i b); [done|]. pose proof (lookupZ_lt _ _ _ Hb). unfold lookupZ in *.
      destruct (Z.leb_spec 0 i); [|done]. apply lookup_take_Some. split; [done|]. lia.
Defined.

Lemma toy_quiet fh b n p : quiet (U := UtAllocator.ut_state) (K := toy_kernel) fh b n p.
Proof. intros s. by apply wp_ret. Qed.

Lemma nfs_transfer_roundtrip_witness :
  wp (w <- sos_nfs_write 1 (Uiovec 0x20005000 4096 8192) ;; r <- sos_nfs_read 1 (Uiovec 0x20007000 4096 8192) ;; ret (w, r))
    (fun x s' => -1 <= x.1 <= 4096 /\ -1 <= x.2 <= 4096 /\
      (x = (4096, 4096) -> peeks (mem s') 0x20007000 4096 = peeks (mem boot_state) 0x20005000 4096)) boot_state.
Proof. apply (nfs_transfer_roundtrip boot_state 1 0x20005000 0x20007000 4096 8192); (apply toy_quiet || lia). Defined.

(** A server that answers every read with an input/output error. *)
Definition broken_nfs : Nfs toy_kernel := {|
  nfs_lookup := nfs_lookup;
  nfs_create := nfs_create;
  nfs_read _ _ _ k := (Some (5, []), k);
  nfs_write _ _ _ k := (Some (5, 0), k);
  nfs_getattr := nfs_getattr;
  nfs_readdir := nfs_readdir
|}.

Lemma sos_nfs_read_error_witness :
  sos_nfs_read (Nfs0 := broken_nfs) 1 (Uiovec 0x20005000 4096 0) boot_state = Ok (0, boot_state).
Proof.
  apply (sos_nfs_read_error (Nfs0 := broken_nfs) boot_state boot_state 1 (Uiovec 0x20005000 4096 0) 5 []
    (kern boot_state) (kern boot_state)); done.
Defined.
