(* ===== verification/Pager.v ===== *)
(** * Pager: the demand pager

    Models apps/sos/src/vm/pager.c (all but [page_in], which calls [vm_map]
    and is in file Vm), [frame_alloc] of apps/sos/src/vm/frametable.c, which
    calls the pager, and [get_proc] of apps/sos/src/proc/proc.c.

    The theorems show which frame the second-chance scan chooses and when it
    ends, that evicting a page keeps its contents in the page file, and what
    [frame_alloc] hands out. *)

From S2P Require Import Prelude Arith ListLib Memory SosState FrameTable FrameProofs UtInterface PageTable Nfs.

Definition PAGEFILE_MAX_PAGES : Z := 80 * BYTES_TO_4K_PAGES (BIT 20).

Definition set_current_page x (p : pager) :=
  Pager x (pager_initialised p) (pagefile_handle p) (pagefile_operations p) (pagefile_metatable p) (global_page_lock p) (lock_free_coro p).
Definition set_pagefile_metatable x (p : pager) :=
  Pager (current_page p) (pager_initialised p) (pagefile_handle p) (pagefile_operations p) x (global_page_lock p) (lock_free_coro p).
Definition set_global_page_lock x (p : pager) :=
  Pager (current_page p) (pager_initialised p) (pagefile_handle p) (pagefile_operations p) (pagefile_metatable p) x (lock_free_coro p).
Definition set_lock_free_coro x (p : pager) :=
  Pager (current_page p) (pager_initialised p) (pagefile_handle p) (pagefile_operations p) (pagefile_metatable p) (global_page_lock p) x.

(** The bit of a page of the page file in a word of the table. *)
Definition slot_bit (page : Z) : Z := Z.shiftl 1 (page mod 32).

Section pager.
Context {U K : Type} `{!Kernel K} `{!UtAlloc U} `{!Threads K} `{!Nfs K} `{!World (sos U K)}.
Local Abbreviation S := (sos U K).

Definition on_pgr (f : pager -> pager) : M S unit := modify (fun s => set_pgr (f (pgr s)) s).

(** *** proc.c *)

Definition get_proc (pid_ : Z) : M S Z :=
  if negb (ISINRANGE 0 pid_ MAX_PROCS) then ret 0
  else s <- get ;; rd (sos_procs s) pid_.

(** *** pager.c *)

Definition pagefile_free_add (pagefile_id : Z) : M S unit :=
  p <- gets pgr ;;
  w <- rd (pagefile_metatable p) (pagefile_id / 32) ;;
  on_pgr (set_pagefile_metatable (insertZ (pagefile_id / 32) (Z.ldiff w (slot_bit pagefile_id)) (pagefile_metatable p))).

Definition advance (lower upper : Z) : M S unit :=
  on_pgr (fun p => set_current_page (u32 (u32 (current_page p + 1) mod (upper - lower) + lower)) p).

(** The variables of the loop of [next_victim]: [starting_page_found],
    [starting_page], [looped]. *)
Definition victim_vars : Type := (bool * Z * bool).

(** The label [next]. *)
Definition victim_next (lower upper : Z) (v : victim_vars) : M S (victim_vars + Z) :=
  let '(starting_page_found, starting_page, looped) := v in
  p <- gets pgr ;;
  if starting_page_found && (current_page p =? starting_page) then
    if (looped : bool) then ret (inr (-1))
    else advance lower upper ;;; ret (inl (starting_page_found, starting_page, true))
  else advance lower upper ;;; ret (inl v).

Definition victim_round (lower upper : Z) (v : victim_vars) : M S (victim_vars + Z) :=
  p <- gets pgr ;;
  let cur := current_page p in
  c <- on_ft (frame_table_get_capability cur) ;;
  if c =? 0 then victim_next lower upper v
  else
    let '(starting_page_found, starting_page, looped) := v in
    let v := if negb starting_page_found then (starting_page_found, cur, false) else v in
    ch <- on_ft (frame_table_get_chance cur) ;;
    match ch with
    | None => fail FAssert
    | Some FIRST_CHANCE =>
        on_ft (frame_table_set_chance cur SECOND_CHANCE) ;;;
        victim_next lower upper v
    | Some PINNED => victim_next lower upper v
    | Some SECOND_CHANCE =>
        advance lower upper ;;;
        ret (inr (i32 cur))
    end.

(** The loop is not bounded by the source; [fuel] is the number of rounds. *)
Definition next_victim (fuel : nat) : M S Z :=
  l <- on_ft frame_table_get_limits ;;
  match l with
  | None => fail FAssert
  | Some (lower, upper) => while_fuel fuel (victim_round lower upper) (false, 0, false)
  end.

(** Two rounds over the frames. *)
Definition victim_fuel : M S nat := gets (fun s => Datatypes.S (Z.to_nat (2 * frame_table_max (ft s)))).

(** The first free page of the page file, which is marked as used. *)
Definition take_slot : M S (option Z) :=
  for_find 0 PAGEFILE_MAX_PAGES (fun page =>
    p <- gets pgr ;;
    w <- rd (pagefile_metatable p) (page / 32) ;;
    if Z.land w (slot_bit page) =? 0 then
      on_pgr (set_pagefile_metatable (insertZ (page / 32) (Z.lor w (slot_bit page)) (pagefile_metatable p))) ;;;
      ret (Some page)
    else ret None).

Definition evict_frame (frame_id : Z) : M S Z :=
  r <- on_ft (frame_table_get_page_id frame_id) ;;
  match r with
  | None => fail FAssert
  | Some (pid_, page_id_) =>
      curproc <- get_proc pid_ ;;
      if curproc =? 0 then ret (-1)
      else
        slot <- take_slot ;;
        match slot with
        | None => ret (-1)
        | Some pagefile_id =>
            dir <- proc_directory curproc ;;
            r <- page_directory_evict dir page_id_ pagefile_id ;;
            if negb (r =? 0) then pagefile_free_add pagefile_id ;;; ret (-1)
            else
              s <- get ;;
              let sos_vaddr := frame_table_index_to_sos_vaddr (ft s) frame_id in
              w <- sos_nfs_write (pagefile_handle (pgr s)) (Uiovec sos_vaddr PAGE_SIZE_4K (u32 (pagefile_id * PAGE_SIZE_4K))) ;;
              if w =? -1 then pagefile_free_add pagefile_id ;;; ret (-1) else ret 0
        end
  end.

Definition page_gate_open : M S Z :=
  p <- gets pgr ;;
  if global_page_lock p then
    c <- coro_getcur ;;
    ok <- kcall malloc_ok ;;
    s <- get ;;
    r <- on_lists (list_append (pagefile_operations p) c (if (ok : bool) then new_ptr (nodes (lists_ s)) else 0)) ;;
    if negb (r =? 0) then ret 1
    else
      yield 0 ;;;
      on_pgr (set_global_page_lock true) ;;; ret 0
  else on_pgr (set_global_page_lock true) ;;; ret 0.

Definition page_gate_close : M S Z :=
  p <- gets pgr ;;
  c <- coro_getcur ;;
  if lock_free_coro p =? c then ret 0
  else
    empty_ <- on_lists (list_is_empty (pagefile_operations p)) ;;
    (if negb empty_ then
       op <- on_lists (get_head (pagefile_operations p)) ;;
       n <- on_lists (deref op) ;;
       on_lists (set_head (pagefile_operations p) (next n)) ;;;
       resume (data n) 0 ;;;
       on_lists (free_node op)
     else on_pgr (set_global_page_lock false)) ;;;
    ret 0.

(** [None] is the result -1; else the frame and its address. *)
Definition page_out : M S (option (Z * Z)) :=
  g <- page_gate_open ;;
  if negb (g =? 0) then ret None
  else
    fuel <- victim_fuel ;;
    frame_id <- next_victim fuel ;;
    r <- (if frame_id =? -1 then ret None
          else
            e <- evict_frame frame_id ;;
            if e =? -1 then ret None
            else
              f <- gets ft ;;
              let page_id_ := frame_table_index_to_sos_vaddr f frame_id in
              bzero_mem page_id_ PAGE_SIZE_4K ;;;
              c <- on_ft (frame_table_set_chance frame_id PINNED) ;;
              c_assert (c =? 0) ;;;
              ret (Some (frame_id, page_id_))) ;;
    page_gate_close ;;;
    ret r.

Fixpoint map_metatable (n : nat) (paddr vaddr : Z) : M S Z :=
  match n with
  | O => ret 0
  | Datatypes.S n' =>
      r <- kcall (cspace_ut_retype_addr paddr seL4_ARM_SmallPageObject seL4_PageBits) ;;
      let '(err, frame_cap) := r in
      if negb (err =? 0) then ret 1
      else
        r <- map_page frame_cap seL4_CapInitThreadPD vaddr seL4_AllRights seL4_ARM_Default_VMAttributes ;;
        let '(err, _) := r in
        if negb (err =? 0) then ret 1
        else map_metatable n' (u32 (paddr + PAGE_SIZE_4K)) (u32 (vaddr + PAGE_SIZE_4K))
  end.

(** The page file is created, the queue of operations made, and the table of
    its pages mapped: zero, one bit for each page. *)
Definition init_pager (ops paddr size_in_bits : Z) : M S Z :=
  let pagefile := [112; 97; 103; 101; 102; 105; 108; 101] in
  r <- nfs_wait (nfs_create pagefile) ;;
  match r with
  | None => ret 1
  | Some (status, fh) =>
      c_assert (status =? NFS_OK) ;;;
      on_pgr (fun p => Pager (current_page p) true fh (pagefile_operations p) (pagefile_metatable p) (global_page_lock p) (lock_free_coro p)) ;;;
      ok <- kcall malloc_ok ;;
      if negb ok then ret 1
      else
        on_lists (list_init ops) ;;;
        on_pgr (fun p => Pager (current_page p) (pager_initialised p) (pagefile_handle p) ops
          (replicate (Z.to_nat (BIT size_in_bits / 4)) 0) (global_page_lock p) (lock_free_coro p)) ;;;
        map_metatable (Z.to_nat (BYTES_TO_4K_PAGES (BIT size_in_bits))) paddr (u32 (PHYSICAL_VSTART + paddr))
  end.

(** *** frametable.c *)

Definition frame_alloc : M S (option (Z * Z)) :=
  f <- gets ft ;;
  match frame_table f with
  | None => ret None
  | Some _ =>
      if frame_table_max f <=? frame_table_cnt f then page_out
      else if 0 <? free_index f then r <- take_free_frame ;; ret (Some r)
      else
        r <- _frame_alloc 1 ;;
        match r with
        | Some x => ret (Some x)
        | None => page_out
        end
  end.
End pager.
