(* ===== verification/FrameClaims.v ===== *)
(** * FrameClaims: what the frame table promises

    The theorems about [frame_alloc] and [frame_free] of vm/frametable.c, with
    the untyped allocator of this development behind them in the examples. *)

From S2P Require Import Prelude Arith Memory SosState FrameTable FrameProofs UtInterface Pager.

Lemma lookupZ_insert_unique {A} (t t' : list A) id e e' :
  t !z id = Some e -> t' !z id = Some e' -> (forall i, i <> id -> t' !z i = t !z i) -> t' = insertZ id e' t.
Proof.
  intros He He' Hi. apply list_eq. intros i. pose proof (lookupZ_lt _ _ _ He) as Hlt.
  assert (forall l : list A, l !! i = l !z Z.of_nat i) as E.
  { intros l. unfold lookupZ. destruct (Z.leb_spec 0 (Z.of_nat i)); [|lia]. by rewrite Nat2Z.id. }
  rewrite !E, lookupZ_insertZ by done. destruct (decide (id = Z.of_nat i)) as [->|Hne]; [done|]. apply Hi. congruence.
Qed.

Section claims.
Context {U K : Type} `{!Kernel K} `{!UtAlloc U} `{!Threads K} `{!Nfs K} `{!World (sos U K)} `{!KernelLaws K} `{!UtLaws U}.
Local Abbreviation S := (sos U K).

(** A frame nobody holds can be handed out. *)
Lemma ft_inv_own (s : S) t L own id :
  ft_inv s t L own -> single (ft s) t L id -> ~ id ∈ buffered (ft s) -> ft_inv s t L ({[id]} ∪ own).
Proof.
  intros [] Hs Hb. split; try done.
  - intros i Hi. destruct (fi_buf i Hi) as [? Hno]. split; [done|].
    intros [->%elem_of_singleton|]%elem_of_union; done.
  - intros i [->%elem_of_singleton|]%elem_of_union; [done | by apply fi_own].
Qed.

(** A frame that was handed out: it was not held, belongs to the caller now,
    its memory is zero and nothing else changed. *)
Record handed_out (s s' : S) (t t' : list frame_entry) (L' : gset (Z * Z)) (own : gset Z) (id va : Z) : Prop := {
  ho_new : ~ id ∈ own;
  ho_range : 0 <= id < n_frames (ft s);
  ho_addr : va = PHYSICAL_VSTART + frame_addr (ft s) id;
  ho_inv : ft_inv s' t' L' ({[id]} ∪ own);
  ho_entry : exists e, t' !z id = Some e /\ cap e <> 0 /\ chance e = FIRST_CHANCE;
  ho_others : forall i, i <> id -> t' !z i = t !z i;
  ho_mem : mem s' = bzero va 4096 (mem s);
  ho_rest : same_rest s s';
  ho_caps : caps_grow (kern s) (kern s');
  ho_ft : same_range (ft s) (ft s') /\ frame_table_max (ft s') = frame_table_max (ft s);
  ho_cnt : frame_table_cnt (ft s') <= frame_table_cnt (ft s) + 1;
  ho_ready : ut_ready (ut s')
}.

Lemma take_free_frame_out (s : S) t L own :
  ft_inv s t L own -> ut_ready (ut s) -> 0 < free_index (ft s) ->
  wp take_free_frame (fun r s' => exists t', handed_out s s' t t' L own r.1 r.2) s.
Proof.
  intros Hinv Hr Hi. eapply wp_mono; [by eapply take_free_frame_spec|]. intros [id va] s' (e & He & Hc & Hno & -> & Hinv' & Hrest & Hk & Hu & Hm & Hran & Hmax & _).
  destruct (ti_cap _ _ _ _ (fi_tinv _ _ _ _ Hinv) id e He Hc) as [Hid _].
  eexists. split.
  - exact Hno.
  - exact Hid.
  - reflexivity.
  - exact Hinv'.
  - exists (set_chance FIRST_CHANCE e). split; [|by split]. apply lookupZ_insertZ_eq. by eapply lookupZ_lt.
  - intros i Hne. by apply lookupZ_insertZ_ne.
  - exact Hm.
  - exact Hrest.
  - by rewrite Hk.
  - by split.
  - rewrite (proj1 (fi_cnt _ _ _ _ Hinv')), (proj1 (fi_cnt _ _ _ _ Hinv)), (count_caps_insert t id e _ He).
    cbn [cap set_chance]. lia.
  - by rewrite Hu.
Qed.

Lemma frame_alloc_ut (s : S) t L own :
  ft_inv s t L own -> ut_ready (ut s) ->
  wp (_frame_alloc 1) (fun r s' => exists t' L',
    match r with
    | Some (id, va) => handed_out s s' t t' L' own id va
    | None => ft_inv s' t' L' own /\ mem s' = mem s /\ same_rest s s' /\ caps_grow (kern s) (kern s')
    end) s.
Proof.
  intros Hinv Hr. eapply wp_mono; [by apply _frame_alloc_spec; auto|]. intros r s' (t' & L' & Hinv' & Hsub & Hnew).
  exists t', L'. destruct r as [[id va]|].
  2: { destruct Hnew as (i & k & [] & Hm & _). done. }
  destruct Hnew as (Hid & Hidn & -> & Hr' & [Hcap Hrest Hran Hmax Hbuf Hoth] & Hm & HL & Hj).
  destruct (Hj id ltac:(lia)) as [(e & He & He0) (c & Hc & He')].
  assert (~ id ∈ buffered (ft s)) as Hnb.
  { intros Hin. destruct (fi_buf _ _ _ _ Hinv id Hin) as [[_ (e2 & He2 & Hne)] _]. congruence. }
  rewrite Z.mul_1_r in Hm. split.
  - intros Hin. destruct (fi_own _ _ _ _ Hinv id Hin) as [_ (e2 & He2 & Hne)]. congruence.
  - lia.
  - reflexivity.
  - apply ft_inv_own; [done| |by rewrite Hbuf]. split; [|eauto].
    rewrite (frame_addr_range _ _ id Hran). exact HL.
  - eauto.
  - intros i Hi. apply Hoth. lia.
  - exact Hm.
  - exact Hrest.
  - exact Hcap.
  - by split.
  - rewrite (proj1 (fi_cnt _ _ _ _ Hinv')), (proj1 (fi_cnt _ _ _ _ Hinv)).
    rewrite (lookupZ_insert_unique t t' id e _ He He') by (intros i Hi; apply Hoth; lia).
    rewrite (count_caps_insert t id e _ He). cbn [cap]. destruct (c =? 0), (cap e =? 0); lia.
  - exact Hr'.
Qed.

Lemma frame_alloc_run (s : S) t L own Q :
  ft_inv s t L own -> ut_ready (ut s) -> frame_table_cnt (ft s) < frame_table_max (ft s) ->
  (forall id va s' t' L', handed_out s s' t t' L' own id va -> Q (Some (id, va)) s') ->
  (forall s' t' L', free_index (ft s) = 0 -> ft_inv s' t' L' own -> mem s' = mem s -> same_rest s s' ->
    caps_grow (kern s) (kern s') -> wp page_out Q s') ->
  wp frame_alloc Q s.
Proof.
  intros Hinv Hr Hcnt HQ Hpo. unfold frame_alloc. sos_steps. rewrite (fi_table _ _ _ _ Hinv).
  destruct (Z.leb_spec (frame_table_max (ft s)) (frame_table_cnt (ft s))); [lia|].
  destruct (Z.ltb_spec 0 (free_index (ft s))).
  - sos_steps. eapply wp_mono; [by eapply take_free_frame_out|]. intros [id va] s' [t' H']. sos_steps. by eapply HQ.
  - sos_steps. eapply wp_mono; [by eapply frame_alloc_ut|]. intros [[id va]|] s' (t' & L' & H').
    + sos_steps. by eapply HQ.
    + destruct H' as (? & ? & ? & ?). eapply Hpo; try done. pose proof (fi_index _ _ _ _ Hinv). lia.
Qed.

(** Why no frame can be made of untyped memory: the allocator has none, or the
    kernel refuses to make or to map the frame. *)
Definition page_refused (s : S) : Prop := exists paddr u, ut_alloc seL4_PageBits (ut s) = Ok (paddr, u) /\
  (paddr = 0 \/ exists err c s', retype_and_map paddr (u32 (PHYSICAL_VSTART + paddr)) (set_ut u s) = Ok ((err, c), s') /\ err <> 0).

Lemma frame_alloc_ut_refused (s s' : S) : _frame_alloc 1 s = Ok (None, s') -> page_refused s.
Proof.
  unfold _frame_alloc, bind, on_ut, zoom. change (seL4_PageBits + LOG_BASE_2 1) with seL4_PageBits.
  destruct (ut_alloc seL4_PageBits (ut s)) as [[paddr u]|] eqn:Eu; [|done]. intros H. exists paddr, u. split; [done|].
  destruct (Z.eqb_spec paddr 0) as [|Hp]; [by left|]. right. unfold gets in H. change (Z.to_nat 1) with 1%nat in H.
  cbn [alloc_rounds] in H. unfold alloc_round, bind in H. change (u32 (0 * PAGE_SIZE_4K)) with 0 in H. rewrite Z.add_0_r in H.
  replace (u32 (u32 (PHYSICAL_VSTART + paddr))) with (u32 (PHYSICAL_VSTART + paddr)) in H by (unfold u32; by rewrite Z.mod_mod).
  destruct (retype_and_map paddr _ (set_ut u s)) as [[[err c] s1]|]; [|done]. destruct (Z.eqb_spec err 0) as [->|]; [|eauto 6].
  exfalso. cbn [negb] in H. unfold gets, ret in H. repeat (case_match; try done).
Qed.

(** C4: Let the search hints of the untyped allocator be in range ([ut_ready]).
    At the limit of frames in use [frame_alloc] is [page_out].  Below it, it
    hands out a frame that nobody holds: its entry has a capability to the
    frame, its memory is zeroed, no other memory and no other entry changes, and
    the number of frames in use stays within the limit.  Only when the buffer of
    free frames is empty and no frame can be made of untyped memory (the
    allocator returns 0, or the kernel refuses the frame) does it turn to
    [page_out] there, with the invariant intact. *)
Theorem frame_alloc_spec (s : S) t L own :
  ft_inv s t L own -> ut_ready (ut s) ->
  (frame_table_max (ft s) <= frame_table_cnt (ft s) /\ frame_alloc s = page_out s) \/
  (frame_table_cnt (ft s) < frame_table_max (ft s) /\
   ((exists id va s' t' L', frame_alloc s = Ok (Some (id, va), s') /\ handed_out s s' t t' L' own id va /\
      frame_table_cnt (ft s') <= frame_table_max (ft s')) \/
    (exists s' t' L', frame_alloc s = page_out s' /\ free_index (ft s) = 0 /\ page_refused s /\ ft_inv s' t' L' own /\
      mem s' = mem s /\ same_rest s s'))).
Proof.
  intros Hinv Hr. unfold frame_alloc, bind, gets. rewrite (fi_table _ _ _ _ Hinv).
  destruct (Z.leb_spec (frame_table_max (ft s)) (frame_table_cnt (ft s))) as [|Hcnt]; [by left | right; split; [done|]].
  destruct (Z.ltb_spec 0 (free_index (ft s))).
  - destruct (proj1 (wp_ok _ _ _) (take_free_frame_out s t L own Hinv Hr ltac:(done))) as ([id va] & s' & E & t' & Hout).
    left. exists id, va, s', t', L. rewrite E. split; [done|]. split; [done|]. destruct Hout as [? ? ? ? ? ? ? ? ? [_ Emax] ? ?]. lia.
  - destruct (proj1 (wp_ok _ _ _) (frame_alloc_ut s t L own Hinv Hr)) as (r & s' & E & t' & L' & Hpost). rewrite E.
    destruct r as [[id va]|].
    + left. exists id, va, s', t', L'. split; [done|]. split; [done|]. destruct Hpost as [? ? ? ? ? ? ? ? ? [_ Emax] ? ?]. lia.
    + right. destruct Hpost as (? & ? & ? & ?). exists s', t', L'. pose proof (fi_index _ _ _ _ Hinv).
      split_and!; try done; [lia | by eapply frame_alloc_ut_refused].
Qed.

(** C12: Giving back a frame one holds keeps the invariant: the frame is no
    longer held, every other frame in use keeps its entry, and no memory
    changes, whether the frame goes to the buffer or, when the buffer is full,
    half of the buffer goes back to the untyped allocator. *)
Theorem frame_free_spec (s : S) t L own id :
  ft_inv s t L own -> id ∈ own ->
  exists s' t' L', frame_free id s = Ok (tt, s') /\ ft_inv s' t' L' (own ∖ {[id]}) /\ mem s' = mem s /\
    same_rest s s' /\ (forall j, j ∈ own ∖ {[id]} -> t' !z j = t !z j) /\ (ut_ready (ut s) -> ut_ready (ut s')).
Proof.
  intros Hinv Hid. destruct (proj1 (wp_ok _ _ _) (frame_free_run s t L own id Hinv Hid)) as ([] & s' & E & t' & L' & Hinv' & []).
  by exists s', t', L'.
Qed.

(** The addresses SOS uses for the bytes of a frame lead back to the frame. *)
Theorem frame_vaddr_roundtrip f id off :
  ft_geom f -> 0 <= id < n_frames f -> 0 <= off < 4096 ->
  frame_table_sos_vaddr_to_index f (u32 (frame_table_index_to_sos_vaddr f id + off)) = id.
Proof.
  intros Hg Hid Hoff. rewrite frame_vaddr by done. pose proof (n_frames_addr f Hg). pose proof Hg as [Hb [Ht [Hp _]]].
  unfold frame_addr. rewrite u32_small by (unfold is_u32, PHYSICAL_VSTART in *; lia). by apply vaddr_frame.
Qed.
End claims.

(** ** Example: the first frames after start-up *)

Lemma boot_inv : ft_inv boot_state (replicate 9 zero_entry) ∅ ∅.
Proof.
  split.
  - split; cbn [boot_state ft ut_base ut_top]; unfold PHYSICAL_VSTART; split_and!; done.
  - reflexivity.
  - split.
    + done.
    + intros id e He Hc. by apply lookupZ_replicate_inv in He as ->.
    + intros id e He _. by apply lookupZ_replicate_inv in He as ->.
  - exists 2. apply UtRefine.demo_rep.
  - done.
  - done.
  - cbn [boot_state ft free_index]. unfold HIGH_WATERMARK. lia.
  - constructor.
  - intros id Hid. by apply not_elem_of_nil in Hid.
  - intros id Hid. by apply not_elem_of_empty in Hid.
  - done.
Qed.

Lemma boot_ready : ut_ready (ut boot_state).
Proof. exact (proj2 UtRefine.demo_rep). Qed.

(** The state after one [frame_alloc]. *)
Definition one_frame : sos UtAllocator.ut_state toy_kernel :=
  match _frame_alloc 1 boot_state with Ok (_, s) => s | Err _ => boot_state end.
Definition one_frame_table : list frame_entry := Eval vm_compute in default [] (frame_table (ft one_frame)).

Lemma one_frame_run : _frame_alloc 1 boot_state = Ok (Some (0, 0x20004000), one_frame).
Proof.
  assert (match _frame_alloc 1 boot_state with Ok (r, _) => r | Err _ => None end = Some (0, 0x20004000)) as E by (by vm_compute).
  unfold one_frame. destruct (_frame_alloc 1 boot_state) as [[r s]|]; [by rewrite E | done].
Qed.

Lemma one_frame_inv : exists L, ft_inv one_frame one_frame_table L {[0]} /\ ut_ready (ut one_frame).
Proof.
  pose proof (frame_alloc_ut boot_state _ _ _ boot_inv boot_ready) as Hwp.
  apply (wp_run _ _ _ (Some (0, 0x20004000)) one_frame) in Hwp; [|apply one_frame_run]. destruct Hwp as (t' & L' & Hout).
  exists L'. pose proof (ho_inv _ _ _ _ _ _ _ _ Hout) as Hinv. split; [|apply Hout].
  pose proof (fi_table _ _ _ _ Hinv) as Ht.
  assert (frame_table (ft one_frame) = Some one_frame_table) as Et by (by vm_compute). rewrite Et in Ht. by injection Ht as <-.
Qed.

Lemma frame_alloc_spec_witness :
  (frame_table_max (ft boot_state) <= frame_table_cnt (ft boot_state) /\ frame_alloc boot_state = page_out boot_state) \/
  (frame_table_cnt (ft boot_state) < frame_table_max (ft boot_state) /\
   ((exists id va s' t' L', frame_alloc boot_state = Ok (Some (id, va), s') /\
      handed_out boot_state s' (replicate 9 zero_entry) t' L' ∅ id va /\ frame_table_cnt (ft s') <= frame_table_max (ft s')) \/
    (exists s' t' L', frame_alloc boot_state = page_out s' /\ free_index (ft boot_state) = 0 /\ page_refused boot_state /\
      ft_inv s' t' L' ∅ /\ mem s' = mem boot_state /\ same_rest boot_state s'))).
Proof. apply (frame_alloc_spec boot_state (replicate 9 zero_entry) ∅ ∅); [apply boot_inv | apply boot_ready]. Defined.

Lemma frame_free_spec_witness :
  exists L s' t' L', frame_free 0 one_frame = Ok (tt, s') /\ ft_inv s' t' L' ({[0]} ∖ {[0]}) /\ mem s' = mem one_frame /\
    same_rest one_frame s' /\ (forall j, j ∈ ({[0]} ∖ {[0]} : gset Z) -> t' !z j = one_frame_table !z j) /\
    (ut_ready (ut one_frame) -> ut_ready (ut s')) /\ ft_inv one_frame one_frame_table L {[0]}.
Proof.
  destruct one_frame_inv as (L & Hinv & _). exists L.
  destruct (frame_free_spec one_frame one_frame_table L {[0]} 0 Hinv) as (s' & t' & L' & ?); [set_solver|].
  exists s', t', L'. tauto.
Defined.

Lemma frame_vaddr_roundtrip_witness :
  frame_table_sos_vaddr_to_index (ft boot_state) (u32 (frame_table_index_to_sos_vaddr (ft boot_state) 3 + 17)) = 3.
Proof. apply (frame_vaddr_roundtrip (ft boot_state) 3 17); [apply boot_inv | done | done]. Defined.
