(* ===== verification/Boot.v ===== *)
(** * Boot: the division of physical memory at start

    The first part of [sos_init] (apps/sos/src/main.c): the table of untyped
    memory is built, memory is stolen for DMA, for the table of the page file
    and for the frame table, and what remains is given to the untyped
    allocator.  The theorem composes the files UtTable, Arith and UtRefine. *)

From S2P Require Import Prelude Arith SosState Pager UtAllocator UtRefine UtTable.

(** [sizeof(frame_entry)] *)
Definition FRAME_ENTRY_SIZE : Z := 16.

(** The two modules that are initialised. *)
Record boot_state := BootState { table : ut_table; allocator : ut_state }.

Definition on_table {A} (m : M ut_table A) : M boot_state A :=
  zoom table (fun t s => BootState t (allocator s)) m.
Definition on_allocator {A} (m : M ut_state A) : M boot_state A :=
  zoom allocator (fun a s => BootState (table s) a) m.

(** [conditional_panic]: the system stops. *)
Definition conditional_panic {S} (b : bool) : M S unit := c_assert (negb b).

(** Where the parts are: start and size in bits of the stolen blocks, and the
    memory of the allocator. *)
Record memory_plan := MemoryPlan {
  dma_addr : Z;
  pagefile_table : Z;
  pagefile_table_bits : Z;
  frame_table_paddr : Z;
  frame_table_bits : Z;
  plan_low : Z;
  plan_high : Z
}.

Definition pagefile_table_size_in_bits : Z := LOG_BASE_2 (nearest_power_of_two (PAGEFILE_MAX_PAGES / 8)).
Definition frame_table_size_in_bits (low high : Z) : Z :=
  let n_pages := BYTES_TO_4K_PAGES (u32 (high - low)) in
  LOG_BASE_2 (nearest_power_of_two (FRAME_ENTRY_SIZE * n_pages)).

Section init.
Context (qsort : (Z -> Z -> Z) -> list Z -> list Z).

(** The [malloc]s of the allocator succeed or not as [ok14], [ok12], [ok10]. *)
Definition sos_init_memory (bi : option seL4_BootInfo) (ok14 ok12 ok10 : bool) : M boot_state memory_plan :=
  conditional_panic (match bi with Some _ => false | None => true end) ;;;
  err <- on_table (ut_table_init qsort bi) ;;
  conditional_panic (negb (err =? 0)) ;;;
  dma_addr <- on_table (ut_steal_mem DMA_SIZE_BITS) ;;
  conditional_panic (dma_addr =? 0) ;;;
  pagefile <- on_table (ut_steal_mem pagefile_table_size_in_bits) ;;
  conditional_panic (pagefile =? 0) ;;;
  let! (low, high) := on_table ut_find_memory in
  let bits := frame_table_size_in_bits low high in
  frame_table <- on_table (ut_steal_mem bits) ;;
  conditional_panic (frame_table =? 0) ;;;
  let! (low, high) := on_table ut_find_memory in
  on_allocator (ut_allocator_init ok14 ok12 ok10 low high) ;;;
  ret (MemoryPlan dma_addr pagefile pagefile_table_size_in_bits frame_table bits low high).
End init.

Lemma on_table_ok {A B} (m : M ut_table A) (k : A -> M boot_state B) s a t :
  m (table s) = Ok (a, t) -> bind (on_table m) k s = k a (BootState t (allocator s)).
Proof. intros E. unfold bind, on_table, zoom. by rewrite E. Qed.

Lemma panic_ok {B} b (k : unit -> M boot_state B) s : b = false -> bind (conditional_panic b) k s = k tt s.
Proof. by intros ->. Qed.

(** ** Stealing *)

(** The same table of objects, with other bounds of the free memory. *)
Definition same_objects (s s' : ut_table) : Prop := bi s' = bi s /\ map s' = map s /\ count s' = count s.

Lemma steal_run s n :
  0 <= n < 31 -> 0 < low s -> low s + 2 * 2 ^ n <= high s -> high s + 2 ^ n < 2 ^ 31 ->
  exists p s', ut_steal_mem n s = Ok (p, s') /\ same_objects s s' /\ low s' = p + 2 ^ n /\ high s' = high s /\
    p mod 2 ^ n = 0 /\ low s <= p /\ p + 2 ^ n < low s + 2 * 2 ^ n /\ p <> 0.
Proof.
  intros Hn Hl Hh Hb. assert (0 < 2 ^ n) by (apply Z.pow_pos_nonneg; lia).
  unfold ut_steal_mem, bind, get. rewrite Z.shiftl_1_l.
  destruct (ALIGN_TOP_spec (low s) n ltac:(lia) ltac:(lia) ltac:(lia)) as [Hm Hr].
  rewrite u32_small by (unfold is_u32; lia). destruct (Z.leb_spec (ALIGN_TOP (low s) (2 ^ n) + 2 ^ n) (high s)); [|lia].
  eexists _, _. split; [done|]. cbn [low high]. split; [done|]. lia.
Qed.

Lemma same_objects_ok x s s' : same_objects s s' -> table_ok x s -> table_ok x s'.
Proof. intros (Hb & Hm & Hc) []. split; rewrite ?Hb, ?Hm, ?Hc; done. Qed.

#[global] Instance same_objects_preorder : PreOrder same_objects.
Proof.
  split; [by intros s |]. intros s1 s2 s3 (? & ? & ?) (? & ? & ?). split_and!; congruence.
Qed.

Lemma log2_nearest v : 1 <= v <= 2 ^ 31 ->
  LOG_BASE_2 (nearest_power_of_two v) = Z.log2_up v /\ v <= 2 ^ Z.log2_up v /\ (1 < v -> 2 ^ Z.log2_up v < 2 * v).
Proof.
  intros Hv. destruct (nearest_power_of_two_spec v Hv) as (E & Hle & Hlt). rewrite E in *.
  rewrite LOG_BASE_2_log2, Z.log2_pow2 by apply Z.log2_up_nonneg. done.
Qed.

Lemma pagefile_bits : pagefile_table_size_in_bits = 12.
Proof. by vm_compute. Qed.

(** The frame table: an entry for every page, and at least 16K when the memory
    is larger than two megabytes. *)
Lemma frame_table_bits_spec low high :
  0 <= low -> low + 2 ^ 21 < high -> high < 2 ^ 31 ->
  let b := frame_table_size_in_bits low high in
  14 <= b < 31 /\ FRAME_ENTRY_SIZE * ((high - low + 4095) / 4096) <= 2 ^ b /\ 2 ^ b * 100 < high - low.
Proof.
  intros Hl Hlh Hh. unfold frame_table_size_in_bits, FRAME_ENTRY_SIZE. rewrite u32_small by (unfold is_u32; lia).
  set (n := BYTES_TO_4K_PAGES (high - low)).
  destruct (BYTES_TO_4K_PAGES_spec (high - low) n) as [H1 H2]; [lia | done |].
  destruct (log2_nearest (16 * n)) as (-> & Hle & Hlt); [lia|]. specialize (Hlt ltac:(lia)).
  assert (2 ^ 13 < 2 ^ Z.log2_up (16 * n)) as Hge by lia.
  apply Z.pow_lt_mono_r_iff in Hge; [|lia|apply Z.log2_up_nonneg].
  assert (Z.log2_up (16 * n) < 31).
  { apply (Z.pow_lt_mono_r_iff 2); [lia | lia |]. lia. }
  split; [lia|]. split; [|lia]. etransitivity; [|exact Hle].
  assert ((high - low + 4095) / 4096 <= n); [|lia]. Z.to_euclidean_division_equations; lia.
Qed.

Lemma aligned_14 a b : 14 <= b -> a mod 2 ^ b = 0 -> a mod 2 ^ 14 = 0 /\ 2 ^ b mod 2 ^ 14 = 0.
Proof.
  intros Hb Ha. assert (2 ^ b mod 2 ^ 14 = 0) as Hp.
  { replace b with (14 + (b - 14)) by lia. rewrite Z.pow_add_r, Z.mul_comm by lia. by apply Z.mod_mul. }
  split; [|done]. apply Z.mod_divide in Ha; [|lia]. apply Z.mod_divide in Hp; [|lia].
  apply Z.mod_divide; [lia|]. by transitivity (2 ^ b).
Qed.

Lemma FLOOR14_id a : a mod 2 ^ 14 = 0 -> FLOOR14 a = a.
Proof. intros H. rewrite FLOOR14_spec. lia. Qed.

Lemma CEILING14_id a : 0 <= a < 2 ^ 31 -> a mod 2 ^ 14 = 0 -> CEILING14 a = a.
Proof.
  intros Ha H. unfold CEILING14. change (Z.shiftl 1 14) with 16384. rewrite u32_small by (unfold is_u32; lia).
  rewrite FLOOR14_spec. Z.to_euclidean_division_equations; lia.
Qed.

Lemma table_translates x s addr :
  table_ok x s -> 1 <= count s -> within x (map s) 0 (count s) addr -> exists k p z,
    ut_translate addr s = Ok (Some (untyped_start x + k, addr - p), s) /\
    untypedPaddrList x !z k = Some p /\ untypedSizeBitsList x !z k = Some z /\ 0 <= addr - p < 2 ^ z.
Proof.
  intros Ht Hc Hw. destruct (proj1 (wp_ok _ _ _) (ut_translate_run x s addr Ht Hc Hw))
    as (r & s' & E & -> & k & q & z & -> & Hk & Hq & Hz & Hoff).
  exists k, q, z. rewrite E. destruct (bo_start x (to_bi_ok x s Ht)). by rewrite u32_small by (unfold is_u32; lia).
Qed.

(** ** The plan *)

Section plan.
Context (qsort : (Z -> Z -> Z) -> list Z -> list Z).
Hypothesis qsort_perm : forall cmp l, qsort cmp l ≡ₚ l.

(** C18: the division of memory by the first part of [sos_init], up to the
    initialisation of the allocator (main.c:132-168; the later steps of the
    function are not part of this definition).  Suppose that the boot
    information describes at most 800 objects inside the 32-bit physical
    memory, one of them not too small for the table, that [ut_table_init]
    succeeds and reports memory [low, high) of at least 16 megabytes that
    starts at 16K or above and ends at a 16K boundary below 0x7e000000 (the
    memory of the board ends at 0x50000000), and that the three allocations of
    the allocator's nodes and bitfields succeed.  Then this part of starting
    SOS does not panic; the DMA memory, the table of the page file, the frame table and
    the memory of the allocator are aligned and follow one another inside the
    reported memory; the frame table has an entry for every page of the
    allocator; the allocator starts empty on exactly its memory; and every
    address of all parts is translated to the untyped object that contains
    it. *)
Theorem sos_init_memory_spec x s s1 :
  bi_ok x -> has_large x -> length (map (table s)) = Z.to_nat CONFIG_MAX_NUM_BOOTINFO_UNTYPED_CAPS ->
  allocator s = ut_state0 -> ut_table_init qsort (Some x) (table s) = Ok (0, s1) ->
  2 ^ 14 <= low s1 -> low s1 + 2 ^ 24 <= high s1 -> high s1 < 2 ^ 31 - 2 ^ 25 -> high s1 mod 2 ^ 14 = 0 ->
  exists m s', sos_init_memory qsort (Some x) true true true s = Ok (m, s') /\
    low s1 <= dma_addr m /\ dma_addr m + 2 ^ DMA_SIZE_BITS <= pagefile_table m /\
    pagefile_table m + 2 ^ pagefile_table_bits m <= frame_table_paddr m /\
    frame_table_paddr m + 2 ^ frame_table_bits m = plan_low m /\ plan_low m < plan_high m /\ plan_high m = high s1 /\
    (dma_addr m) mod 2 ^ DMA_SIZE_BITS = 0 /\ (pagefile_table m) mod 2 ^ pagefile_table_bits m = 0 /\
    (frame_table_paddr m) mod 2 ^ frame_table_bits m = 0 /\
    PAGEFILE_MAX_PAGES / 8 <= 2 ^ pagefile_table_bits m /\
    FRAME_ENTRY_SIZE * ((plan_high m - plan_low m) / 4096) <= 2 ^ frame_table_bits m /\
    pool_base (allocator s') = plan_low m /\ ut_rep ((plan_high m - plan_low m) / 2 ^ 14) (allocator s') ∅ /\
    forall addr, low s1 <= addr < high s1 -> exists k p z,
      ut_translate addr (table s') = Ok (Some (untyped_start x + k, addr - p), table s') /\
      untypedPaddrList x !z k = Some p /\ untypedSizeBitsList x !z k = Some z /\ 0 <= addr - p < 2 ^ z.
Proof.
  intros Hx Hlarge Hlen Hal E1 Hlow Hsize Hhigh Hal14. change (2 ^ 24) with 16777216 in Hsize. change (2 ^ 31 - 2 ^ 25) with 2113929216 in Hhigh.
  pose proof (wp_run _ _ _ _ _ (ut_table_init_run qsort qsort_perm x (table s) Hx Hlarge Hlen) E1)
    as (_ & Htab & Hcnt & p0 & e0 & p1 & e1 & En0 & En1 & Hlo & Hhi).
  change (2 ^ 14) with 16384 in Hlow.
  destruct (steal_run s1 22) as (dma & s2 & E2 & So2 & Hl2 & Hh2 & Hd1 & Hd2 & Hd3 & Hd0); [lia..|].
  destruct (steal_run s2 12) as (pf & s3 & E3 & So3 & Hl3 & Hh3 & Hp1 & Hp2 & Hp3 & Hp0); [lia..|].
  change (2 ^ 22) with 4194304 in *. change (2 ^ 12) with 4096 in *.
  destruct (frame_table_bits_spec (low s3) (high s3)) as (Hb & Hpages & Hsmall); [lia..|].
  remember (frame_table_size_in_bits (low s3) (high s3)) as b eqn:Eb.
  destruct (steal_run s3 b) as (ft & s4 & E4 & So4 & Hl4 & Hh4 & Hf1 & Hf2 & Hf3 & Hf0); [lia..|].
  assert (same_objects s1 s4) as So by (etransitivity; [exact So2|]; by etransitivity).
  destruct (aligned_14 ft b ltac:(lia) Hf1) as [Hf14 Hb14].
  destruct (proj1 (wp_ok _ _ _) (ut_allocator_init_inv (low s4) (high s4) ltac:(lia) ltac:(lia)))
    as ([] & a & E5 & Hrep & _ & Hbase).
  rewrite FLOOR14_id in Hrep, Hbase by (rewrite Hl4, Z.add_mod, Hf14, Hb14 by lia; done).
  rewrite CEILING14_id in Hrep by (rewrite Hh4, Hh3, Hh2; lia || done).
  exists (MemoryPlan dma pf 12 ft b (low s4) (high s4)), (BootState s4 a). split.
  { unfold sos_init_memory. rewrite panic_ok by done. erewrite on_table_ok by exact E1.
    rewrite panic_ok by done. erewrite on_table_ok by exact E2. rewrite panic_ok by by apply Z.eqb_neq.
    rewrite pagefile_bits. erewrite on_table_ok by exact E3. rewrite panic_ok by by apply Z.eqb_neq.
    erewrite on_table_ok by reflexivity. cbv beta iota zeta. cbn [table allocator]. rewrite <- Eb.
    erewrite on_table_ok by exact E4. rewrite panic_ok by by apply Z.eqb_neq.
    erewrite on_table_ok by reflexivity. cbv beta iota. unfold on_allocator, zoom, bind. cbn [table allocator].
    rewrite Hal. by rewrite E5. }
  cbn [dma_addr pagefile_table pagefile_table_bits frame_table_paddr frame_table_bits plan_low plan_high table allocator].
  change (2 ^ DMA_SIZE_BITS) with 4194304. change (2 ^ 12) with 4096.
  split_and!; [lia.. | | | | |].
  - done.
  - unfold FRAME_ENTRY_SIZE in *. pose proof (Z.div_le_mono (high s4 - low s4) (high s3 - low s3 + 4095) 4096). lia.
  - done.
  - done.
  - intros addr Ha. apply (table_translates x); [by apply (same_objects_ok x s1) | |];
      destruct So as (_ & Em & Ec); rewrite ?Em, Ec; [done|].
    exists p0, e0, p1, e1. split_and!; done || lia.
Qed.
End plan.

(** ** A machine with one gigabyte, in three objects, as on the i.MX6 board *)

Definition boot_bi : seL4_BootInfo :=
  BootInfo 100 104 200 200 [0x00900000; 0x10000000; 0x20000000; 0x40000000] [14; 28; 29; 28].
Definition boot0 : boot_state := BootState sample_table ut_state0.

Lemma boot_bi_ok : bi_ok boot_bi.
Proof.
  split; [vm_compute; split; congruence | vm_compute; split; congruence |].
  intros k Hk. change (n_untyped boot_bi) with 4 in Hk. unfold obj_ok.
  assert (k = 0 \/ k = 1 \/ k = 2 \/ k = 3) as [-> | [-> | [-> | ->]]] by lia;
    eexists _, _; (split; [reflexivity|]; split; [reflexivity|]; vm_compute; intuition congruence).
Qed.

Lemma sos_init_memory_spec_witness :
  exists m s', sos_init_memory insertion_sort (Some boot_bi) true true true boot0 = Ok (m, s') /\
    pagefile_table m + 2 ^ pagefile_table_bits m <= frame_table_paddr m /\ plan_high m = 0x50000000.
Proof.
  destruct (sos_init_memory_spec insertion_sort insertion_sort_perm boot_bi boot0
    (UtTable (Some boot_bi) (<[0%nat := 1]> (<[1%nat := 2]> (<[2%nat := 3]> (<[3%nat := 3]> (map sample_table))))) 3 0x10000000 0x50000000))
    as (m & s' & E & _ & _ & H1 & _ & _ & H2 & _).
  - exact boot_bi_ok.
  - exists 0, 14. vm_compute. intuition congruence.
  - reflexivity.
  - reflexivity.
  - vm_compute. reflexivity.
  - simpl. lia.
  - simpl. lia.
  - simpl. lia.
  - reflexivity.
  - exists m, s'. split; [exact E|]. split; [exact H1 | exact H2].
Defined.
