(* ===== verification/Dma.v ===== *)
(** * Dma: memory for devices

    Models apps/sos/src/dma.c: a pool of physical memory from which the drivers
    allocate, mapped page by page when it is first used.  The state of the rest
    of SOS is that of file SosState; flushing of the cache is a class. *)

From S2P Require Import Prelude Arith UtAllocator UtRefine SosState Partial UtInterface FrameTable FrameProofs Boot.

(** The operations on the cache (libs/libplatsupport). *)
Inductive dma_cache_op_t := DMA_CACHE_OP_CLEAN | DMA_CACHE_OP_INVALIDATE | DMA_CACHE_OP_CLEAN_INVALIDATE.
Class Cache (K : Type) := {
  seL4_ARM_PageDirectory_Cache : dma_cache_op_t -> Z -> Z -> Z -> K -> Z * K
}.

Definition PAGE_OFFSET (a : Z) : Z := Z.land a (MASK_UNSAFE seL4_PageBits).
Definition seL4_CapNull : Z := 0.
Definition DMA_ALIGN_BITS : Z := 7.
Definition DMA_ALIGN (a : Z) : Z := ROUND_UP a DMA_ALIGN_BITS.

(** The static variables, and the rest of the system. *)
Record dma (U K : Type) := Dma {
  _dma_caps : list Z;
  _dma_pstart : Z;
  _dma_pend : Z;
  _dma_pnext : Z;
  alloc_cached : Z;
  dma_sos : sos U K
}.
Arguments Dma {U K}.
Arguments _dma_caps {U K}.
Arguments _dma_pstart {U K}.
Arguments _dma_pend {U K}.
Arguments _dma_pnext {U K}.
Arguments alloc_cached {U K}.
Arguments dma_sos {U K}.

Section dma.
Context {U K : Type} `{!Kernel K} `{!UtAlloc U} `{!Cache K}.
Local Abbreviation S := (dma U K).

Definition set_caps x (s : S) : S := Dma x (_dma_pstart s) (_dma_pend s) (_dma_pnext s) (alloc_cached s) (dma_sos s).
Definition set_pool x y (s : S) : S := Dma (_dma_caps s) x y x (alloc_cached s) (dma_sos s).
Definition set_pnext x (s : S) : S := Dma (_dma_caps s) (_dma_pstart s) (_dma_pend s) x (alloc_cached s) (dma_sos s).
Definition set_cached x (s : S) : S := Dma (_dma_caps s) (_dma_pstart s) (_dma_pend s) (_dma_pnext s) x (dma_sos s).
Definition set_sos x (s : S) : S := Dma (_dma_caps s) (_dma_pstart s) (_dma_pend s) (_dma_pnext s) (alloc_cached s) x.
Definition on_sos {A} (m : M (sos U K) A) : M S A := zoom dma_sos set_sos m.

Definition DMA_SIZE (s : S) : Z := u32 (_dma_pend s - _dma_pstart s).
Definition DMA_PAGES (s : S) : Z := Z.shiftr (DMA_SIZE s) seL4_PageBits.
Definition PHYS (vaddr : Z) (s : S) : Z := u32 (vaddr - DMA_VSTART + _dma_pstart s).
Definition VIRT (paddr : Z) (s : S) : Z := u32 (paddr + DMA_VSTART - _dma_pstart s).

(** A page without a frame gets one; [index] is the position of [caps]. *)
Definition fill_page (pstart index : Z) : M S unit :=
  s <- get ;;
  cap <- rd (_dma_caps s) index ;;
  if cap =? seL4_CapNull then
    let! (err, cap) := on_sos (kcall (cspace_ut_retype_addr pstart seL4_ARM_SmallPageObject seL4_PageBits)) in
    modify (fun s => set_caps (insertZ index cap (_dma_caps s)) s) ;;;
    c_assert (err =? 0) ;;;
    s <- get ;;
    let! (err, _) := on_sos (map_page cap seL4_CapInitThreadPD (VIRT pstart s) seL4_AllRights 0) in
    c_assert (err =? 0)
  else ret tt.

(** The attributes are 0 whether [cached] or not. *)
Definition _dma_fill (pstart pend : Z) : M S unit :=
  s <- get ;;
  let index := Z.shiftr (u32 (pstart - _dma_pstart s)) seL4_PageBits in
  let pstart := u32 (pstart - PAGE_OFFSET pstart) in
  while_fuel (Datatypes.S (Z.to_nat ((pend - pstart) / PAGE_SIZE_4K + 1))) (fun v =>
    let '(pstart, index) := v in
    if pstart <? pend then
      fill_page pstart index ;;;
      ret (inl (u32 (pstart + BIT seL4_PageBits), index + 1))
    else ret (inr tt)) (pstart, index).

Definition dma_init (dma_paddr_start sizebits : Z) : M S Z :=
  s <- get ;;
  c_assert (_dma_pstart s =? 0) ;;;
  modify (set_pool dma_paddr_start (u32 (dma_paddr_start + BIT sizebits))) ;;;
  ok <- on_sos (kcall malloc_ok) ;;
  conditional_panic (negb ok) ;;;
  modify (fun s => set_caps (replicate (Z.to_nat (DMA_PAGES s)) seL4_CapNull) s) ;;;
  ret 0.

Definition cache_foreach (vaddr range : Z) (op : dma_cache_op_t) : M S unit :=
  let end_ := u32 (vaddr + range) in
  while_fuel (Datatypes.S (Z.to_nat ((end_ - vaddr) / PAGE_SIZE_4K + 2))) (fun addr =>
    if addr <? end_ then
      let next := MIN (PAGE_ALIGN_4K (u32 (addr + PAGE_SIZE_4K))) end_ in
      error <- on_sos (kcall (seL4_ARM_PageDirectory_Cache op seL4_CapInitThreadPD addr next)) ;;
      c_assert (error =? 0) ;;;
      ret (inl next)
    else ret (inr tt)) vaddr.

Definition sos_dma_cache_op (addr size : Z) (op : dma_cache_op_t) : M S unit := cache_foreach addr (i32 size) op.

Definition sos_dma_malloc (size align cached : Z) : M S Z :=
  s <- get ;;
  c_assert (negb (_dma_pstart s =? 0)) ;;;
  modify (set_pnext (DMA_ALIGN (_dma_pnext s))) ;;;
  s <- get ;;
  dma_addr <-
    (if _dma_pnext s <? _dma_pend s then
       (if negb (alloc_cached s =? cached) && negb (PAGE_OFFSET (_dma_pnext s) =? 0)
        then modify (set_pnext (ROUND_UP (_dma_pnext s) (BIT seL4_PageBits))) else ret tt) ;;;
       modify (fun s => set_pnext (ROUND_UP (_dma_pnext s) align) s) ;;;
       modify (set_cached cached) ;;;
       s <- get ;;
       _dma_fill (_dma_pnext s) (u32 (_dma_pnext s + size)) ;;;
       modify (fun s => set_pnext (u32 (_dma_pnext s + size)) s) ;;;
       ret (VIRT (_dma_pnext s) s)
     else ret 0) ;;
  sos_dma_cache_op dma_addr size DMA_CACHE_OP_CLEAN_INVALIDATE ;;;
  ret dma_addr.

(** Memory is never given back. *)
Definition sos_dma_free (addr size : Z) : M S unit := ret tt.

Definition sos_dma_pin (addr size : Z) : M S Z :=
  s <- get ;;
  ret (if (addr <? DMA_VSTART) || (DMA_VEND <=? addr) then 0 else PHYS addr s).

Definition sos_dma_unpin (addr size : Z) : M S unit := ret tt.
End dma.

(** ** Lemmas *)

(** Flushing the cache does not change capabilities. *)
Class CacheLaws (K : Type) `{!Kernel K} `{!KernelLaws K} `{!Cache K} : Prop :=
  cache_law op pd a b (k : K) : cap_paddr (seL4_ARM_PageDirectory_Cache op pd a b k).2 = cap_paddr k.

Abbreviation len l := (Z.of_nat (length l)).

Lemma ROUND_UP_spec n b : 0 <= n -> 0 < b -> n + b <= 2 ^ 32 -> n <= ROUND_UP n b < n + b /\ ROUND_UP n b mod b = 0.
Proof.
  intros Hn Hb Hs. unfold ROUND_UP. pose proof (Z.mod_pos_bound n b Hb). pose proof (Z.div_mod n b).
  destruct (Z.eqb_spec (n mod b) 0).
  - rewrite Z.add_0_r, u32_small by (unfold is_u32; lia). lia.
  - rewrite u32_small by (unfold is_u32; lia). split; [lia|].
    replace (n + (b - n mod b)) with ((n / b + 1) * b) by lia. by apply Z_mod_mult.
Qed.

Section proofs.
Context {U K : Type} `{!Kernel K} `{!KernelLaws K} `{!UtAlloc U} `{!UtLaws U} `{!Cache K} `{!CacheLaws K}.
Local Abbreviation S := (dma U K).
Implicit Types (s : dma U K) (L : gset (Z * Z)).

(** The pool is a range of whole pages that fits in the window of addresses for
    devices; a capability in the table is for the page of its index. *)
Record dma_inv s L : Prop := {
  di_start : 0 < _dma_pstart s /\ _dma_pstart s mod 4096 = 0;
  di_end : _dma_pend s = _dma_pstart s + 4096 * len (_dma_caps s);
  di_size : _dma_pend s <= _dma_pstart s + 2 ^ DMA_SIZE_BITS /\ _dma_pend s < 2 ^ 32 - 2 ^ DMA_SIZE_BITS;
  di_next : _dma_pstart s <= _dma_pnext s;
  di_rep : ut_rep (ut (dma_sos s)) L;
  di_ready : ut_ready (ut (dma_sos s));
  di_caps i c : _dma_caps s !z i = Some c -> c <> 0 -> cap_paddr (kern (dma_sos s)) c = Some (_dma_pstart s + 4096 * i)
}.

(** Only pages are added. *)
Record grows s s' : Prop := {
  gr_start : _dma_pstart s' = _dma_pstart s;
  gr_end : _dma_pend s' = _dma_pend s;
  gr_len : length (_dma_caps s') = length (_dma_caps s);
  gr_caps i c : _dma_caps s !z i = Some c -> c <> 0 -> _dma_caps s' !z i = Some c
}.

#[export] Instance grows_preorder : PreOrder grows.
Proof. split; [by intros s; split|]. intros s1 s2 s3 [] []. split; try congruence. eauto. Qed.

Definition filled s i : Prop := exists c, _dma_caps s !z i = Some c /\ c <> 0.

Lemma filled_grows s s' i : grows s s' -> filled s i -> filled s' i.
Proof. intros Hg (c & Hc & Hn). exists c. split; [|done]. by apply (gr_caps _ _ Hg). Qed.

Context (R : fault -> Prop) (may_assert : R FAssert).

Lemma wpf_same {A} (m m' : M S A) (Q : A -> S -> Prop) s : m s = m' s -> wpf R m' Q s -> wpf R m Q s.
Proof. unfold wpf. by intros ->. Qed.

Lemma wpf_on_sos {A} (m : M (sos U K) A) (Q : A -> S -> Prop) s :
  wpf R m (fun a x => Q a (set_sos x s)) (dma_sos s) -> wpf R (on_sos m) Q s.
Proof. unfold wpf, on_sos, zoom. by destruct (m (dma_sos s)) as [[]|]. Qed.

Lemma wpf_kcall {A} (f : K -> A * K) (Q : A -> S -> Prop) s :
  Q (f (kern (dma_sos s))).1 (set_sos (set_kern (f (kern (dma_sos s))).2 (dma_sos s)) s) -> wpf R (on_sos (kcall f)) Q s.
Proof. intros H. apply wpf_on_sos. unfold wpf, kcall. by destruct (f _). Qed.

(** The kernel and the allocator move on. *)
Lemma dma_inv_sos s L L' x :
  dma_inv s L -> ut_rep (ut x) L' -> ut_ready (ut x) -> caps_grow (kern (dma_sos s)) (kern x) -> dma_inv (set_sos x s) L'.
Proof. intros [] Hr Hy Hc. split; try done. intros i c Hi Hn. apply Hc. by apply di_caps0. Qed.

Lemma fill_page_run s L p i :
  dma_inv s L -> 0 <= i < len (_dma_caps s) -> p = _dma_pstart s + 4096 * i ->
  wpf R (fill_page p i) (fun _ s' => exists L', dma_inv s' L' /\ grows s s' /\ filled s' i /\ _dma_pnext s' = _dma_pnext s) s.
Proof using may_assert UtLaws0 KernelLaws0.
  intros Hinv Hi ->. destruct (proj2 (lookupZ_is_Some (_dma_caps s) i) Hi) as [c Hc]. unfold fill_page. wpf_steps.
  eapply wpf_rd; [exact Hc|]. unfold seL4_CapNull. destruct (Z.eqb_spec c 0) as [->|Hne].
  2:{ wpf_steps. exists L. split; [done|]. split; [done|]. split; [by exists c | done]. }
  wpf_steps. apply wpf_kcall. set (a := _dma_pstart s + 4096 * i). set (k := kern (dma_sos s)).
  pose proof (retype_law k a seL4_ARM_SmallPageObject seL4_PageBits) as Hl. cbv zeta in Hl.
  pose proof (retype_grow k a seL4_ARM_SmallPageObject seL4_PageBits) as Hg.
  destruct (cspace_ut_retype_addr a seL4_ARM_SmallPageObject seL4_PageBits k) as [[err c] k']. cbn [fst snd] in *.
  wpf_steps. apply wpf_may_assert; [done|]. intros Herr%Z.eqb_eq. subst err. wpf_steps.
  destruct Hl as [(_ & Hc0 & Hn & Hk)|[? _]]; [|done].
  apply wpf_on_sos. eapply wpf_mono.
  { apply wp_wpf, (map_page_spec _ L); [apply Hinv | apply Hinv]. }
  intros [err pt] x (L' & Hm & Hready). cbn [fst] in Hready. wpf_steps. apply wpf_may_assert; [done|]. intros Herr%Z.eqb_eq. subst err.
  exists L'. split; [|split; [|split; [|done]]].
  - destruct Hinv as [H1 H2 H3 H4 H5 H6 H7]. split; cbn in *; rewrite ?length_insertZ; try done; [apply Hm | by apply Hready |].
    intros j d Hj Hd. apply (ms_caps _ _ _ _ Hm). cbn. rewrite lookupZ_insertZ in Hj by done.
    case_decide; [|by apply Hg, H7]. simplify_eq. by rewrite Hk, Z.eqb_refl.
  - split; cbn; rewrite ?length_insertZ; try done. intros j d Hj Hd. rewrite lookupZ_insertZ by done. case_decide; [|done]. congruence.
  - exists c. cbn. rewrite lookupZ_insertZ by done. case_decide; [|done]. split; [done | lia].
Qed.

(** The pages from that of [a] on, up to [e]. *)
Definition page_of s a : Z := (a - _dma_pstart s) / 4096.

Lemma fill_start s L a : dma_inv s L -> _dma_pstart s <= a < 2 ^ 32 ->
  Z.shiftr (u32 (a - _dma_pstart s)) seL4_PageBits = page_of s a /\
  u32 (a - PAGE_OFFSET a) = _dma_pstart s + 4096 * page_of s a.
Proof.
  intros [[H1 H2] _ _ _ _ _ _] Ha. unfold page_of, PAGE_OFFSET. change seL4_PageBits with 12.
  assert (Z.land a (MASK_UNSAFE 12) = a mod 4096) as -> by (change (MASK_UNSAFE 12) with (Z.ones 12); by rewrite Z.land_ones by lia).
  rewrite Z.shiftr_div_pow2, !u32_small by (unfold is_u32; Z.to_euclidean_division_equations; lia).
  split; [done|]. Z.to_euclidean_division_equations; lia.
Qed.

Definition ceil_pages (n : Z) : Z := (n + 4095) / 4096.

Lemma dma_fill_run s L a e :
  dma_inv s L -> _dma_pstart s <= a -> a <= e <= _dma_pend s ->
  wpf R (_dma_fill a e) (fun _ s' => exists L', dma_inv s' L' /\ grows s s' /\ _dma_pnext s' = _dma_pnext s /\
    forall i, page_of s a <= i -> _dma_pstart s + 4096 * i < e -> filled s' i) s.
Proof using may_assert UtLaws0 KernelLaws0.
  intros Hinv Ha He. pose proof Hinv as [[H1 H2] H3 H4 H5 _ _ _]. unfold DMA_SIZE_BITS in *.
  unfold _dma_fill. wpf_steps. destruct (fill_start s L a Hinv) as [-> ->]; [lia|]. set (i0 := page_of s a).
  apply (wpf_while_fuel R (fun v s' => v.1 = _dma_pstart s + 4096 * v.2 /\ i0 <= v.2 /\ (exists L', dma_inv s' L') /\ grows s s' /\
      _dma_pnext s' = _dma_pnext s /\ forall i, i0 <= i < v.2 -> filled s' i)
    (fun v _ => Z.to_nat (ceil_pages (e - v.1)))).
  - cbn. split_and!; try done; [by exists L|]. intros. lia.
  - cbn [fst]. unfold ceil_pages. rewrite PAGE_SIZE_4K_eq. Z.to_euclidean_division_equations; lia.
  - intros [p i] s' (Hp & Hi & (L' & Hinv') & Hg & Hn & Hf). cbn [fst snd] in *. destruct (Z.ltb_spec p e).
    2:{ wpf_steps. exists L'. split_and!; try done. intros j Hj Hlt. apply Hf. lia. }
    wpf_steps. assert (0 <= i0) by (unfold i0, page_of; apply Z.div_pos; lia).
    eapply wpf_mono; [apply (fill_page_run s' L'); [done | rewrite (gr_len _ _ Hg); lia | rewrite (gr_start _ _ Hg); lia]|].
    intros [] s2 (L2 & Hinv2 & Hg2 & Hf2 & Hn2). wpf_steps. change (BIT seL4_PageBits) with 4096.
    rewrite u32_small by (unfold is_u32; lia). cbn [fst snd]. split.
    + split_and!; [lia | lia | by exists L2 | by etrans | congruence |]. intros j Hj.
      destruct (decide (j = i)) as [->|]; [done|]. eapply filled_grows; [exact Hg2|]. apply Hf. lia.
    + unfold ceil_pages. Z.to_euclidean_division_equations; lia.
Qed.

Lemma cache_grow op pd a b k : caps_grow k (seL4_ARM_PageDirectory_Cache op pd a b k).2.
Proof using CacheLaws0. apply caps_grow_same, cache_law. Qed.

Lemma page_step a : 0 <= a < 2 ^ 32 - 4096 -> a < PAGE_ALIGN_4K (u32 (a + PAGE_SIZE_4K)) /\
  PAGE_ALIGN_4K (u32 (a + PAGE_SIZE_4K)) = (a / 4096 + 1) * 4096.
Proof.
  intros Ha. rewrite PAGE_SIZE_4K_eq, u32_small, PAGE_ALIGN_4K_spec by (unfold is_u32; lia).
  Z.to_euclidean_division_equations; lia.
Qed.

(** Flushing ends, and changes no state of this module. *)
Lemma cache_run s L a n op :
  dma_inv s L -> 0 <= a -> 0 <= n < 2 ^ 31 -> a + n < 2 ^ 32 - 4096 ->
  wpf R (sos_dma_cache_op a n op) (fun _ s' => exists x, s' = set_sos x s /\ dma_inv s' L) s.
Proof using may_assert UtLaws0 KernelLaws0 CacheLaws0.
  intros Hinv Ha Hn Hs. unfold sos_dma_cache_op, cache_foreach. rewrite i32_small, u32_small by (unfold is_u32; lia).
  set (e := a + n). apply (wpf_while_fuel R (fun v s' => a <= v <= e /\ exists x, s' = set_sos x s /\ dma_inv s' L)
    (fun v _ => if v <? e then Z.to_nat (ceil_pages e - v / 4096) else O)).
  - split; [lia|]. exists (dma_sos s). by destruct s.
  - rewrite PAGE_SIZE_4K_eq. unfold ceil_pages. destruct (Z.ltb_spec a e); [|lia]. Z.to_euclidean_division_equations; lia.
  - intros v s' (Hv & x & -> & Hi). destruct (Z.ltb_spec v e); [|wpf_steps; eauto].
    wpf_steps. apply wpf_kcall. wpf_steps. apply wpf_may_assert; [done|]. intros _. wpf_steps.
    destruct (page_step v) as [Hp Ep]; [lia|]. set (nx := MIN _ e).
    assert (v < nx <= e /\ (nx = e \/ nx = (v / 4096 + 1) * 4096)) as [Hnx Hor] by (unfold nx, MIN; rewrite Ep in *; case_bool; lia).
    split; [split; [lia|]|].
    + eexists. split; [reflexivity|]. eapply dma_inv_sos in Hi; [exact Hi | apply Hi | apply Hi | apply cache_grow].
    + destruct (Z.ltb_spec nx e); [|unfold ceil_pages; Z.to_euclidean_division_equations; lia].
      destruct Hor as [->| ->]; [lia|]. unfold ceil_pages. Z.to_euclidean_division_equations; lia.
Qed.

(** Where the next allocation is placed. *)
Definition placed s align cached : Z :=
  let p := DMA_ALIGN (_dma_pnext s) in
  ROUND_UP (if negb (alloc_cached s =? cached) && negb (PAGE_OFFSET p =? 0) then ROUND_UP p (BIT seL4_PageBits) else p) align.

Lemma placed_spec s L align cached : dma_inv s L -> _dma_pnext s <= _dma_pend s -> 0 < align <= 2 ^ 20 ->
  _dma_pnext s <= DMA_ALIGN (_dma_pnext s) <= placed s align cached /\ placed s align cached < 2 ^ 32 - 2 ^ 20 /\
  placed s align cached mod align = 0.
Proof.
  intros [[H1 _] _ [H2 H3] H4 _ _ _] H5 Ha. unfold DMA_SIZE_BITS in *.
  destruct (ROUND_UP_spec (_dma_pnext s) 7) as [Hr1 _]; [lia | lia | lia |]. unfold placed. set (p := DMA_ALIGN _).
  assert (_dma_pnext s <= p < _dma_pnext s + 7) as Hp by done.
  destruct (ROUND_UP_spec p 4096) as [Hr2 _]; [lia | lia | lia |]. change (BIT seL4_PageBits) with 4096.
  set (q := if _ && _ then _ else p). assert (p <= q < p + 4096) as Hq by (unfold q; destruct (_ && _); lia).
  destruct (ROUND_UP_spec q align) as [Hr3 Hmod]; [lia | lia | lia |]. split; [|split]; [lia | lia | done].
Qed.

(** The part of the allocation before the flush. *)
Definition take_block (size align cached : Z) : M S Z :=
  s <- get ;;
  c_assert (negb (_dma_pstart s =? 0)) ;;;
  modify (set_pnext (DMA_ALIGN (_dma_pnext s))) ;;;
  s <- get ;;
  if _dma_pnext s <? _dma_pend s then
    (if negb (alloc_cached s =? cached) && negb (PAGE_OFFSET (_dma_pnext s) =? 0)
     then modify (set_pnext (ROUND_UP (_dma_pnext s) (BIT seL4_PageBits))) else ret tt) ;;;
    modify (fun s => set_pnext (ROUND_UP (_dma_pnext s) align) s) ;;;
    modify (set_cached cached) ;;;
    s <- get ;;
    _dma_fill (_dma_pnext s) (u32 (_dma_pnext s + size)) ;;;
    modify (fun s => set_pnext (u32 (_dma_pnext s + size)) s) ;;;
    ret (VIRT (_dma_pnext s) s)
  else ret 0.

Lemma dma_malloc_split size align cached s :
  sos_dma_malloc size align cached s =
  (dma_addr <- take_block size align cached ;; sos_dma_cache_op dma_addr size DMA_CACHE_OP_CLEAN_INVALIDATE ;;; ret dma_addr) s.
Proof.
  unfold sos_dma_malloc, take_block, bind, get, modify, c_assert, ret. destruct (negb _); done.
Qed.

(** Before the pages are filled. *)
Definition placed_state s align cached : S := set_cached cached (set_pnext (placed s align cached) s).

Lemma take_block_eq size align cached s L (Q : Z -> S -> Prop) :
  dma_inv s L -> DMA_ALIGN (_dma_pnext s) < _dma_pend s ->
  wpf R (_dma_fill (placed s align cached) (u32 (placed s align cached + size)))
    (fun _ s' => Q (VIRT (placed s align cached) s) (set_pnext (u32 (_dma_pnext s' + size)) s')) (placed_state s align cached) ->
  wpf R (take_block size align cached) Q s.
Proof.
  intros Hinv Hlt H. unfold take_block. wpf_steps. apply wpf_assert.
  { destruct (di_start _ _ Hinv). apply negb_true_iff, Z.eqb_neq. lia. }
  wpf_steps. cbn [_dma_pnext set_pnext _dma_pend alloc_cached]. destruct (Z.ltb_spec (DMA_ALIGN (_dma_pnext s)) (_dma_pend s)); [|lia].
  unfold placed_state, placed in H. cbv zeta in H.
  destruct (negb (alloc_cached s =? cached) && negb (PAGE_OFFSET (DMA_ALIGN (_dma_pnext s)) =? 0)); wpf_steps; (eapply wpf_mono; [exact H|]); intros [] s' HQ; wpf_steps; exact HQ.
Qed.

Lemma dma_inv_placed s L align cached : dma_inv s L -> _dma_pnext s <= placed s align cached ->
  dma_inv (placed_state s align cached) L.
Proof.
  intros Hinv Hp. destruct Hinv as [K1 K2 K3 K4 K5 K6 K7].
  split; try done. cbn. lia.
Qed.

Lemma VIRT_spec s L p : dma_inv s L -> _dma_pstart s <= p <= _dma_pend s ->
  VIRT p s = DMA_VSTART + (p - _dma_pstart s) /\ DMA_VSTART <= VIRT p s <= DMA_VEND /\ (p < _dma_pend s -> VIRT p s < DMA_VEND).
Proof.
  intros [[H1 _] _ [H2 H3] _ _ _ _] Hp. unfold VIRT. change DMA_VEND with (DMA_VSTART + 2 ^ DMA_SIZE_BITS). unfold DMA_SIZE_BITS, DMA_VSTART in *.
  rewrite u32_small by (unfold is_u32; lia). lia.
Qed.

Lemma dma_malloc_run s L size align cached :
  dma_inv s L -> _dma_pnext s <= _dma_pend s -> 0 < align <= 2 ^ 20 -> 0 < size -> placed s align cached + size <= _dma_pend s ->
  wpf R (sos_dma_malloc size align cached) (fun v s' => exists L', dma_inv s' L' /\ grows s s' /\
    let p := placed s align cached in
    v = DMA_VSTART + (p - _dma_pstart s) /\ _dma_pnext s' = p + size /\
    forall i, page_of s p <= i -> _dma_pstart s + 4096 * i < p + size -> filled s' i) s.
Proof using may_assert UtLaws0 KernelLaws0 CacheLaws0.
  intros Hinv Hnp Ha Hsz Hfit. set (p := placed s align cached) in *. destruct (placed_spec s L align cached Hinv Hnp Ha) as [[H1 H2] [H3 _]]. fold p in H2, H3.
  pose proof Hinv as [[K1 _] _ [K2 K3] K4 _ _ _]. unfold DMA_SIZE_BITS in *.
  destruct (VIRT_spec s L p Hinv) as (Ev & Hv & _); [lia|].
  eapply wpf_same; [apply dma_malloc_split|]. apply wpf_bind.
  eapply take_block_eq; [exact Hinv | lia |]. fold p. rewrite u32_small by (unfold is_u32; lia).
  eapply wpf_mono; [apply (dma_fill_run _ L); [apply dma_inv_placed; try done; lia | cbn; lia | cbn; lia]|].
  intros [] s1 (L1 & Hinv1 & Hg & Hn & Hf). cbn [placed_state set_cached set_pnext _dma_pnext] in Hn. rewrite Hn. fold p.
  rewrite u32_small by (unfold is_u32; lia). wpf_steps.
  assert (dma_inv (set_pnext (p + size) s1) L1) as Hinv2.
  { pose proof (gr_start _ _ Hg) as Es. pose proof (gr_end _ _ Hg) as Ee. cbn in Es, Ee. destruct Hinv1. split; try done. cbn. lia. }
  eapply wpf_mono; [apply (cache_run _ L1); [done | | | ]|]; unfold DMA_VEND, DMA_VSTART, DMA_SIZE_BITS in *; [lia | lia | cbn in Hv; lia |].
  intros [] s2 (x & -> & Hinv3). wpf_steps. exists L1. split; [done|]. split; [by destruct Hg|]. cbv zeta.
  split; [done|]. split; [done|]. intros i Hi Hlt. destruct (Hf i Hi Hlt) as (c & Hc & Hne). by exists c.
Qed.

(** A range that ends after the pool. *)
Lemma dma_fill_overrun s L a e :
  R FBounds -> dma_inv s L -> _dma_pstart s <= a -> a < e -> _dma_pend s < e < 2 ^ 32 ->
  wpf R (_dma_fill a e) (fun _ _ => False) s.
Proof using may_assert UtLaws0 KernelLaws0.
  intros Hb Hinv Ha Hae He. pose proof Hinv as [[H1 H2] H3 H4 H5 _ _ _]. unfold DMA_SIZE_BITS in *.
  unfold _dma_fill. wpf_steps. destruct (fill_start s L a Hinv) as [-> ->]; [lia|].
  assert (0 <= page_of s a) as Hi0 by (unfold page_of; apply Z.div_pos; lia).
  apply (wpf_while_fuel R (fun v s' => v.1 = _dma_pstart s + 4096 * v.2 /\ 0 <= v.2 /\ v.1 < e /\ (exists L', dma_inv s' L') /\ grows s s')
    (fun v _ => Z.to_nat (ceil_pages (e - v.1)))).
  - cbn. split_and!; try done; [|by exists L]. unfold page_of. Z.to_euclidean_division_equations; lia.
  - cbn [fst]. unfold ceil_pages, page_of. rewrite PAGE_SIZE_4K_eq. Z.to_euclidean_division_equations; lia.
  - intros [p i] s' (Hp & Hi & Hpe & (L' & Hinv') & Hg). cbn [fst snd] in *. destruct (Z.ltb_spec p e); [|lia]. wpf_steps.
    destruct (decide (i < len (_dma_caps s'))) as [Hin|Hout].
    2:{ unfold fill_page, wpf, bind, get, rd. destruct (_dma_caps s' !z i) eqn:E; [|done]. apply lookupZ_lt in E. lia. }
    eapply wpf_mono; [apply (fill_page_run s' L'); [done | lia | rewrite (gr_start _ _ Hg); lia]|].
    intros [] s2 (L2 & Hinv2 & Hg2 & _ & _). wpf_steps. change (BIT seL4_PageBits) with 4096. rewrite (gr_len _ _ Hg) in Hin.
    rewrite u32_small by (unfold is_u32; lia). cbn [fst snd]. split.
    + split_and!; [lia | lia | lia | by exists L2 | by etrans].
    + unfold ceil_pages. Z.to_euclidean_division_equations; lia.
Qed.

Lemma dma_malloc_overrun_run s L size align cached :
  R FBounds -> dma_inv s L -> _dma_pnext s <= _dma_pend s -> 0 < align <= 2 ^ 20 -> 0 < size < 2 ^ 20 -> DMA_ALIGN (_dma_pnext s) < _dma_pend s ->
  _dma_pend s < placed s align cached + size -> wpf R (sos_dma_malloc size align cached) (fun _ _ => False) s.
Proof using may_assert UtLaws0 KernelLaws0.
  intros Hb Hinv Hnp Ha Hsz Hlt Hover. destruct (placed_spec s L align cached Hinv Hnp Ha) as [[H1 H2] [H3 _]].
  eapply wpf_same; [apply dma_malloc_split|]. apply wpf_bind. eapply take_block_eq; [exact Hinv | done |].
  pose proof Hinv as [[K1 _] _ [K2 K3] K4 _ _ _]. unfold DMA_SIZE_BITS in *. rewrite u32_small by (unfold is_u32; lia).
  eapply wpf_mono; [apply (dma_fill_overrun _ L); [done | apply dma_inv_placed; [done | lia] | cbn; lia | lia | cbn; lia]|]. done.
Qed.
End proofs.

(** ** Properties *)

Section claims.
Context {U K : Type} `{!Kernel K} `{!KernelLaws K} `{!UtAlloc U} `{!UtLaws U} `{!Cache K} `{!CacheLaws K}.
Implicit Types (s : dma U K) (L : gset (Z * Z)).


End claims.

(** ** Witnesses *)

#[export] Instance toy_cache : Cache toy_kernel := {| seL4_ARM_PageDirectory_Cache _ _ _ _ k := (0, k) |}.
#[export] Instance toy_cache_laws : CacheLaws toy_kernel.
Proof. done. Qed.

(** A pool of two pages of which 100 bytes are used. *)
Definition demo_dma : dma ut_state toy_kernel := Dma (replicate 2 0) 0x400000 0x402000 0x400064 0 UtInterface.boot_state.

Lemma demo_dma_inv : dma_inv demo_dma ∅.
Proof.
  split; try done.
  - exists 2. apply UtRefine.demo_rep.
  - exact (proj2 UtRefine.demo_rep).
  - intros i c Hi Hc. by apply lookupZ_replicate_inv in Hi.
Qed.


