(* ===== verification/Morecore.v ===== *)
(** * Morecore: the heap of the C library

    Models apps/sos/src/sys/sys_morecore.c: a static area that [brk] hands out
    from below and [mmap] from above. *)

From S2P Require Import Prelude.

Definition MORECORE_AREA_BYTE_SIZE : Z := 0x100000.
Definition MAP_ANONYMOUS : Z := 0x20.
Definition ENOMEM : Z := 12.

Record morecore := Morecore { morecore_base : Z; morecore_top : Z }.

Section morecore.
(** The address of the array. *)
Context (morecore_area : Z).

Definition morecore_init : morecore := Morecore morecore_area (u32 (morecore_area + MORECORE_AREA_BYTE_SIZE)).

Definition sys_brk (newbrk : Z) : M morecore Z :=
  s <- get ;;
  if newbrk =? 0 then ret (morecore_base s)
  else if (newbrk <? morecore_top s) && (morecore_area <? newbrk) then put (Morecore newbrk (morecore_top s)) ;;; ret newbrk
  else ret 0.

Definition sys_mmap2 (length flags : Z) : M morecore Z :=
  if negb (Z.land flags MAP_ANONYMOUS =? 0) then
    s <- get ;;
    let base := u32 (morecore_top s - length) in
    if base <? morecore_base s then ret (- ENOMEM)
    else put (Morecore (morecore_base s) base) ;;; ret base
  else fail FAssert.

Definition sys_mremap : M morecore Z := fail FAssert.

(** ** Properties *)

(** The uses of the heap. *)
Inductive heap_op := Brk (newbrk : Z) | Mmap (length : Z).

(** The blocks [mmap] has returned, the last one first. *)
Definition heap_step (o : heap_op) (blocks : list (Z * Z)) : M morecore (list (Z * Z)) :=
  match o with
  | Brk newbrk => sys_brk newbrk ;;; ret blocks
  | Mmap n => r <- sys_mmap2 n MAP_ANONYMOUS ;; ret (if r =? - ENOMEM then blocks else (r, n) :: blocks)
  end.
Fixpoint heap_run (ops : list heap_op) (blocks : list (Z * Z)) : M morecore (list (Z * Z)) :=
  match ops with
  | [] => ret blocks
  | o :: ops => blocks <- heap_step o blocks ;; heap_run ops blocks
  end.

(** A request is longer than no address: the subtraction does not wrap. *)
Definition sane (o : heap_op) : Prop :=
  match o with Brk newbrk => 0 <= newbrk < 2 ^ 32 | Mmap n => 0 <= n <= morecore_area end.

(** The heap below, the blocks above, one after the other. *)
Inductive stacked (hi : Z) : Z -> list (Z * Z) -> Prop :=
  | stacked_nil : stacked hi hi []
  | stacked_cons a n l : 0 <= n -> stacked hi (a + n) l -> stacked hi a ((a, n) :: l).

Definition heap_inv (s : morecore) (blocks : list (Z * Z)) : Prop :=
  morecore_area <= morecore_base s /\ morecore_base s <= morecore_top s /\
  stacked (morecore_area + MORECORE_AREA_BYTE_SIZE) (morecore_top s) blocks.

Hypothesis area : 0 < morecore_area < 2 ^ 32 - MORECORE_AREA_BYTE_SIZE.

Lemma stacked_le hi lo l : stacked hi lo l -> lo <= hi.
Proof using. induction 1; lia. Qed.

Lemma heap_step_run o s blocks : sane o -> heap_inv s blocks ->
  wp (heap_step o blocks) (fun blocks' s' => heap_inv s' blocks' /\ exists l, blocks' = l ++ blocks) s.
Proof using area.
  intros Ho Hinv. pose proof Hinv as (H1 & H2 & H3). pose proof (stacked_le _ _ _ H3) as H4. unfold MORECORE_AREA_BYTE_SIZE in *. destruct o as [newbrk|n]; cbn [heap_step sane] in *.
  - unfold sys_brk. wp_steps. destruct (Z.eqb_spec newbrk 0); wp_steps; [split; [done | by exists []]|].
    destruct (Z.ltb_spec newbrk (morecore_top s)), (Z.ltb_spec morecore_area newbrk); cbn [andb]; wp_steps;
      (split; [|by exists []]); try done. split; [cbn; lia|]. split; [cbn; lia | done].
  - unfold sys_mmap2. change (negb (Z.land MAP_ANONYMOUS MAP_ANONYMOUS =? 0)) with true. cbv iota. wp_steps.
    rewrite u32_small by (unfold is_u32; lia). destruct (Z.ltb_spec (morecore_top s - n) (morecore_base s)); wp_steps.
    { split; [done | by exists []]. }
    destruct (Z.eqb_spec (morecore_top s - n) (- ENOMEM)); [unfold ENOMEM in *; lia|]. split; [|by exists [(morecore_top s - n, n)]].
    split; [cbn; lia|]. split; [cbn; lia|]. cbn. constructor; [lia|]. by replace (morecore_top s - n + n) with (morecore_top s) by lia.
Qed.

(** C40: whatever is asked of the heap, in requests that are not longer than the
    address of its area, nothing faults and the part given out by [brk] and the
    blocks given out by [mmap] lie in the area and never overlap. *)
Theorem morecore_disjoint ops s blocks : Forall sane ops -> heap_inv s blocks ->
  wp (heap_run ops blocks) (fun blocks' s' => heap_inv s' blocks' /\ exists l, blocks' = l ++ blocks) s.
Proof using area.
  intros Hops. revert s blocks. induction Hops as [|o ops Ho _ IH]; intros s blocks Hinv; cbn [heap_run]; wp_steps; [split; [done | by exists []]|].
  eapply wp_mono; [by apply heap_step_run|]. intros b1 s1 [Hinv1 [l1 ->]]. eapply wp_mono; [by apply IH|].
  intros b2 s2 [Hinv2 [l2 ->]]. split; [done|]. exists (l2 ++ l1). by rewrite app_assoc.
Qed.

(** A longer request wraps around: it succeeds, returns an address above all
    memory that is free, and moves the top of the heap there. *)
Theorem sys_mmap2_wraps n s blocks : heap_inv s blocks -> morecore_top s < n < 2 ^ 32 ->
  let base := morecore_top s + (2 ^ 32 - n) in
  sys_mmap2 n MAP_ANONYMOUS s = Ok (base, Morecore (morecore_base s) base) /\ morecore_top s < base.
Proof using area.
  intros (H1 & H2 & H3) Hn base. pose proof (stacked_le _ _ _ H3). unfold MORECORE_AREA_BYTE_SIZE in *. split; [|lia].
  unfold sys_mmap2. change (negb (Z.land MAP_ANONYMOUS MAP_ANONYMOUS =? 0)) with true. cbv iota. unfold bind, get, put, ret.
  replace (u32 (morecore_top s - n)) with base; [by destruct (Z.ltb_spec base (morecore_base s)); [lia|]|].
  unfold u32, base. rewrite <- (Z.mod_add _ 1), Z.mod_small by lia. lia.
Qed.
End morecore.

Lemma morecore_disjoint_witness :
  wp (heap_run 0x500000 [Brk 0x540000; Mmap 0x8000; Brk 0x5f9000; Mmap 0x200000] [])
    (fun blocks' s' => heap_inv 0x500000 s' blocks' /\ exists l, blocks' = l ++ []) (morecore_init 0x500000).
Proof.
  apply (morecore_disjoint 0x500000).
  - unfold MORECORE_AREA_BYTE_SIZE. lia.
  - repeat (apply Forall_cons; split); [..|apply Forall_nil; exact I]; simpl; lia.
  - split; [simpl; lia|]. split; [vm_compute; discriminate|]. apply stacked_nil.
Defined.
