(* ===== verification/Cpio.v ===== *)
(** * Cpio: archives of files in memory

    Models libs/libcpio/src/cpio.c: the parser of the headers, the search for a
    file by index and by name, the summary and the listing of the names.  An
    encoder of the format is the reference for the theorems. *)

From S2P Require Import Prelude.

(** Character codes of [070701] and [TRAILER!!!], with their terminators. *)
Definition CPIO_HEADER_MAGIC : list Z := [48; 55; 48; 55; 48; 49; 0].
Definition CPIO_FOOTER_MAGIC : list Z := [84; 82; 65; 73; 76; 69; 82; 33; 33; 33; 0].
Definition CPIO_ALIGNMENT : Z := 4.

(** [struct cpio_header]: the offsets of the fields that are read. *)
Definition c_magic : Z := 0.
Definition c_filesize : Z := 54.
Definition c_namesize : Z := 94.
Definition sizeof_cpio_header : Z := 110.

(** The memory that holds the archive, from address [ar_base], and the buffers
    the names are listed to. *)
Record cpio_mem := CpioMem { ar_base : Z; ar_bytes : list Z; ls_bufs : list (list Z) }.

Definition byte (p : Z) : M cpio_mem Z := s <- get ;; rd (ar_bytes s) (p - ar_base s).

Definition align_up (n align : Z) : Z := Z.land (u32 (n + align - 1)) (u32 (Z.lnot (align - 1))).

Definition hex_digit (c : Z) : option Z :=
  if (48 <=? c) && (c <=? 57) then Some (c - 48)
  else if (97 <=? c) && (c <=? 102) then Some (c - 97 + 10)
  else if (65 <=? c) && (c <=? 70) then Some (c - 65 + 10)
  else None.

Fixpoint parse_hex_loop (n : nat) (s r : Z) : M cpio_mem Z :=
  match n with
  | O => ret r
  | S n' =>
      let r := u32 (r * 16) in
      c <- byte s ;;
      match hex_digit c with
      | Some d => parse_hex_loop n' (s + 1) (u32 (r + d))
      | None => ret r
      end
  end.
Definition parse_hex_str (s max_len : Z) : M cpio_mem Z := parse_hex_loop (Z.to_nat max_len) s 0.

(** The second string is an object of its own; the loop reads at most one
    character past it, which is a fault. *)
Definition cpio_strncmp (a : Z) (b : list Z) (n : Z) : M cpio_mem Z :=
  while_fuel (S (length b)) (fun i =>
    if i <? n then
      x <- byte (a + i) ;;
      y <- rd b i ;;
      ret (if negb (x =? y) then inr (x - y) else if x =? 0 then inr 0 else inl (i + 1))
    else ret (inr 0)) 0.

Definition cpio_strlen (str : Z) : M cpio_mem Z :=
  s <- get ;;
  while_fuel (S (length (ar_bytes s))) (fun p =>
    c <- byte p ;; ret (if negb (c =? 0) then inl (p + 1) else inr (p - str))) str.

(** Copies to the buffer [k]; the terminator is not copied. *)
Definition set_buf (k j c : Z) : M cpio_mem unit :=
  s <- get ;;
  b <- rd (ls_bufs s) k ;;
  in_bounds b j ;;;
  put (CpioMem (ar_base s) (ar_bytes s) (insertZ k (insertZ j c b) (ls_bufs s))).
Definition cpio_strcpy (k from : Z) : M cpio_mem unit :=
  s <- get ;;
  while_fuel (S (length (ar_bytes s))) (fun j =>
    c <- byte (from + j) ;;
    if negb (c =? 0) then set_buf k j c ;;; ret (inl (j + 1)) else ret (inr tt)) 0.

(** The results [-1], [1] and [0] of [cpio_parse_header], with what it stores. *)
Inductive parsed := BadHeader | EndOfArchive (filename : Z) | Entry (filename filesize data next : Z).

Definition cpio_parse_header (archive : Z) : M cpio_mem parsed :=
  m <- cpio_strncmp (archive + c_magic) CPIO_HEADER_MAGIC 6 ;;
  if negb (m =? 0) then ret BadHeader
  else
    filesize <- parse_hex_str (archive + c_filesize) 8 ;;
    let filename := archive + sizeof_cpio_header in
    e <- cpio_strncmp filename CPIO_FOOTER_MAGIC 11 ;;
    if e =? 0 then ret (EndOfArchive filename)
    else
      filename_length <- parse_hex_str (archive + c_namesize) 8 ;;
      let data := align_up (u32 (archive + sizeof_cpio_header + filename_length)) CPIO_ALIGNMENT in
      let next := align_up (u32 (data + filesize)) CPIO_ALIGNMENT in
      ret (Entry filename filesize data next).

(** The address, the name and the size of the entry; [None] is the null pointer. *)
Definition cpio_get_entry (archive n : Z) : M cpio_mem (option (Z * Z * Z)) :=
  while_fuel (S (Z.to_nat (n + 1))) (fun v =>
    let '(i, header, result) := v in
    if i <=? n then
      p <- cpio_parse_header header ;;
      ret (match p with
           | Entry name size data next => inl (i + 1, next, Some (data, name, size))
           | _ => inr None
           end)
    else ret (inr result)) (0, archive, None).

(** The address and the size of the file. *)
Definition cpio_get_file (archive : Z) (name : list Z) : M cpio_mem (option (Z * Z)) :=
  s <- get ;;
  while_fuel (S (length (ar_bytes s))) (fun header =>
    p <- cpio_parse_header header ;;
    match p with
    | Entry current_filename size result next =>
        c <- cpio_strncmp current_filename name (2 ^ 32 - 1) ;;
        ret (if c =? 0 then inr (Some (result, size)) else inl next)
    | _ => ret (inr None)
    end) archive.

(** The result, [file_count] and [max_path_sz]. *)
Definition cpio_info (archive : Z) (info : bool) : M cpio_mem (Z * Z * Z) :=
  if negb info then ret (1, 0, 0)
  else
    s <- get ;;
    while_fuel (S (length (ar_bytes s))) (fun v =>
      let '(header, file_count, max_path_sz) := v in
      p <- cpio_parse_header header ;;
      match p with
      | BadHeader => ret (inr (-1, file_count, max_path_sz))
      | EndOfArchive _ => ret (inr (0, file_count, max_path_sz))
      | Entry current_filename _ _ next =>
          current_path_sz <- cpio_strlen current_filename ;;
          ret (inl (next, u32 (file_count + 1), Z.max max_path_sz current_path_sz))
      end) (archive, 0, 0).

Definition cpio_ls (archive buf_len : Z) : M cpio_mem unit :=
  while_fuel (S (Z.to_nat buf_len)) (fun v =>
    let '(i, header) := v in
    if i <? buf_len then
      p <- cpio_parse_header header ;;
      match p with
      | Entry current_filename _ _ next => cpio_strcpy i current_filename ;;; ret (inl (i + 1, next))
      | _ => ret (inr tt)
      end
    else ret (inr tt)) (0, archive).

(** ** The format *)

(** A file: its name, its contents and the header fields that are not read. *)
Record cpio_file := CpioFile {
  f_fields1 : list Z;
  f_fields2 : list Z;
  f_check : list Z;
  f_name : list Z;
  f_data : list Z
}.

Definition hex_char (d : Z) : Z := if d <? 10 then 48 + d else 55 + d.
Fixpoint hex (n : nat) (v : Z) : list Z :=
  match n with
  | O => []
  | S n' => hex n' (v / 16) ++ [hex_char (v mod 16)]
  end.
Definition pad4 (n : Z) : list Z := replicate (Z.to_nat (- n mod 4)) 0.

Abbreviation len l := (Z.of_nat (length l)).

Definition header_of (f : cpio_file) : list Z :=
  take 6 CPIO_HEADER_MAGIC ++ f_fields1 f ++ hex 8 (len (f_data f)) ++ f_fields2 f ++
  hex 8 (len (f_name f) + 1) ++ f_check f.
Definition encode (f : cpio_file) : list Z :=
  header_of f ++ f_name f ++ [0] ++ pad4 (sizeof_cpio_header + len (f_name f) + 1) ++
  f_data f ++ pad4 (len (f_data f)).

Definition trailer : cpio_file :=
  CpioFile (replicate 48 48) (replicate 32 48) (replicate 8 48) (take 10 CPIO_FOOTER_MAGIC) [].
Definition archive_of (fs : list cpio_file) : list Z := concat (encode <$> fs) ++ encode trailer.

Definition cstring (l : list Z) : Prop := Forall (fun c => 0 < c < 256) l.

(** The header has the right size and the name is a C string. *)
Record shape_ok (f : cpio_file) : Prop := {
  so_fields1 : length (f_fields1 f) = 48%nat;
  so_fields2 : length (f_fields2 f) = 32%nat;
  so_check : length (f_check f) = 8%nat;
  so_name : cstring (f_name f)
}.

(** The name of a file is not that of the end mark. *)
Definition file_ok (f : cpio_file) : Prop := shape_ok f /\ f_name f <> f_name trailer.

(** ** Bytes in memory *)

(** The bytes [l] are at address [p]. *)
Definition holds (s : cpio_mem) (p : Z) (l : list Z) : Prop :=
  exists pre post, ar_bytes s = pre ++ l ++ post /\ p = ar_base s + len pre.

Lemma holds_app s p l k : holds s p (l ++ k) -> holds s p l /\ holds s (p + len l) k.
Proof.
  intros (pre & post & E & ->). split.
  - exists pre, (k ++ post). by rewrite <- app_assoc in E.
  - exists (pre ++ l), post. rewrite <- !app_assoc in *. split; [done|]. rewrite length_app. lia.
Qed.

Lemma byte_holds s p l i x : holds s p l -> l !z i = Some x -> byte (p + i) s = Ok (x, s).
Proof.
  intros (pre & post & E & ->) Hx. pose proof (lookupZ_lt _ _ _ Hx). unfold byte, bind, get, rd. rewrite E.
  rewrite lookupZ_app_r by lia. rewrite lookupZ_app_l by lia.
  by replace (ar_base s + len pre + i - ar_base s - len pre) with i by lia; rewrite Hx.
Qed.

Lemma byte_first s p x l : holds s p (x :: l) -> byte p s = Ok (x, s) /\ holds s (p + 1) l.
Proof.
  intros H. split.
  - rewrite <- (Z.add_0_r p). by apply (byte_holds s p (x :: l) 0).
  - by apply (holds_app s p [x] l) in H as [_ ?].
Qed.

Lemma holds_data s p l : holds s p l -> take (length l) (drop (Z.to_nat (p - ar_base s)) (ar_bytes s)) = l.
Proof.
  intros (pre & post & E & ->). rewrite E. replace (Z.to_nat _) with (length pre) by lia.
  by rewrite drop_app_length, take_app_length.
Qed.

(** ** Numbers *)

Lemma length_hex n v : length (hex n v) = n.
Proof. revert v. induction n as [|n IH]; intros v; simpl; [done|]. rewrite length_app, IH. simpl. lia. Qed.

Lemma hex_digit_char d : 0 <= d < 16 -> hex_digit (hex_char d) = Some d.
Proof.
  intros H. unfold hex_char, hex_digit.
  destruct (Z.ltb_spec d 10); repeat (case_bool; try lia; bred); f_equal; lia.
Qed.

(** Digits read one after the other. *)
Lemma parse_hex_loop_app s n m p r v :
  holds s p (hex n v) -> 0 <= r -> 0 <= v < 16 ^ Z.of_nat n -> r * 16 ^ Z.of_nat n + v < 2 ^ 32 ->
  parse_hex_loop (n + m) p r s = parse_hex_loop m (p + Z.of_nat n) (r * 16 ^ Z.of_nat n + v) s.
Proof.
  revert m p v. induction n as [|n IH]; intros m p v Hh Hr Hv Hb.
  - simpl. f_equal; lia.
  - simpl in Hh. apply holds_app in Hh as [Hh Hd]. rewrite length_hex in Hd. apply byte_first in Hd as [Hd _].
    rewrite Nat2Z.inj_succ, Z.pow_succ_r in * by lia.
    assert (0 <= v mod 16 < 16) by (apply Z.mod_pos_bound; lia).
    assert (0 <= v / 16 < 16 ^ Z.of_nat n) by (Z.to_euclidean_division_equations; lia).
    pose proof (Z.div_mod v 16). set (b := 16 ^ Z.of_nat n) in *.
    replace (S n + m)%nat with (n + S m)%nat by lia. rewrite (IH (S m) p (v / 16)) by (done || nia).
    cbn [parse_hex_loop]. rewrite u32_small by (unfold is_u32; nia). unfold bind. rewrite Hd, hex_digit_char by done.
    rewrite u32_small by (unfold is_u32; nia). f_equal; nia.
Qed.

Lemma parse_hex_str_spec s p v :
  holds s p (hex 8 v) -> 0 <= v < 2 ^ 32 -> parse_hex_str p 8 s = Ok (v, s).
Proof.
  intros Hh Hv. unfold parse_hex_str. change (Z.to_nat 8) with (8 + 0)%nat.
  rewrite (parse_hex_loop_app s 8 0 p 0 v); simpl; try done; try lia.
Qed.

Lemma align_up_spec n : 0 <= n -> n + 3 < 2 ^ 32 -> align_up n CPIO_ALIGNMENT = n + - n mod 4.
Proof.
  intros Hn Hb. unfold align_up, CPIO_ALIGNMENT. rewrite u32_small by (unfold is_u32; lia).
  replace (Z.land (n + 4 - 1) (u32 (Z.lnot (4 - 1)))) with (Z.ldiff (n + 3) (2 ^ 2 - 1)).
  - rewrite ldiff_mask by lia. change (2 ^ 2) with 4. Z.to_euclidean_division_equations; lia.
  - apply Z.bits_inj'. intros i Hi. rewrite Z.ldiff_spec, Z.land_spec.
    replace (n + 4 - 1) with (n + 3) by lia.
    destruct (Z.ltb_spec i 32).
    + f_equal. unfold u32. rewrite Z.mod_pow2_bits_low by lia. change (2 ^ 2 - 1) with 3. by rewrite Z.lnot_spec.
    + rewrite (testbit_bounded (n + 3) 32) by lia. done.
Qed.

(** ** Strings *)

Lemma cstring_lookup l i x : cstring l -> (l ++ [0]) !z i = Some x -> (x = 0 /\ i = len l) \/ (0 < x /\ l !z i = Some x).
Proof.
  intros Hl Hx. pose proof (lookupZ_lt _ _ _ Hx) as Hi. rewrite length_app in Hi. simpl in Hi.
  destruct (Z.eq_dec i (len l)) as [->|].
  - rewrite lookupZ_app_r, Z.sub_diag in Hx by lia. left. by injection Hx as <-.
  - rewrite lookupZ_app_l in Hx by lia. right. split; [|done]. pose proof (Forall_lookupZ _ _ _ _ Hl Hx). simpl in *. lia.
Qed.

(** Comparing two strings gives 0 exactly when they are equal. *)
Lemma cpio_strncmp_spec s a x y n :
  holds s a (x ++ [0]) -> cstring x -> cstring y -> len y < n ->
  exists r, cpio_strncmp a (y ++ [0]) n s = Ok (r, s) /\ (r = 0 <-> x = y).
Proof.
  intros Hh Hx Hy Hn. unfold cpio_strncmp.
  enough (wp (while_fuel (S (length (y ++ [0]))) (fun i =>
    if i <? n then
      u <- byte (a + i) ;; v <- rd (y ++ [0]) i ;;
      ret (if negb (u =? v) then inr (u - v) else if u =? 0 then inr 0 else inl (i + 1))
    else ret (inr 0)) 0) (fun r s' => s' = s /\ (r = 0 <-> x = y)) s) as H.
  { apply wp_ok in H as (r & s' & E & -> & H). eauto. }
  apply (wp_while_fuel (fun i s' => s' = s /\ 0 <= i <= len x /\ i <= len y /\ forall j, 0 <= j < i -> x !z j = y !z j)
    (fun i _ => Z.to_nat (len y + 1 - i))).
  - split; [done|]. split; [lia|]. split; [lia|]. intros; lia.
  - rewrite length_app. simpl. lia.
  - intros i s' (-> & Hi & Hi' & Hp). destruct (Z.ltb_spec i n); [|lia].
    destruct (lookupZ_in_range (x ++ [0]) i) as [u Hu]; [rewrite length_app; simpl; lia|].
    destruct (lookupZ_in_range (y ++ [0]) i) as [v Hv]; [rewrite length_app; simpl; lia|].
    wp_steps. eapply wp_eq; [by eapply byte_holds|]. wp_steps. eapply wp_rd; [done|]. wp_steps.
    apply cstring_lookup in Hu as [[-> Eu]|[Hu Eu]]; [| |done]; apply cstring_lookup in Hv as [[-> Ev]|[Hv Ev]]; try done.
    + simpl. split; [done|]. split; [|done]. intros _. apply listZ_eq; [lia|]. intros j Hj. apply Hp. lia.
    + destruct (Z.eqb_spec 0 v); [lia|]. simpl. split; [done|]. split; [lia|]. intros ->. apply lookupZ_lt in Ev. lia.
    + destruct (Z.eqb_spec u 0); [lia|]. simpl. split; [done|]. split; [lia|]. intros ->. apply lookupZ_lt in Eu. lia.
    + pose proof (lookupZ_lt _ _ _ Eu). pose proof (lookupZ_lt _ _ _ Ev). destruct (Z.eqb_spec u v) as [<-|]; simpl.
      * destruct (Z.eqb_spec u 0); [lia|]. split; [|lia]. split; [done|]. split; [lia|]. split; [lia|].
        intros j Hj. destruct (Z.eq_dec j i) as [->|]; [congruence|]. apply Hp. lia.
      * split; [done|]. split; [lia|]. intros ->. congruence.
Qed.

(** Comparing only the characters of a string without its terminator. *)
Lemma cpio_strncmp_prefix s a x y :
  holds s a x -> cstring x -> cpio_strncmp a (x ++ y) (len x) s = Ok (0, s).
Proof.
  intros Hh Hx.
  enough (wp (cpio_strncmp a (x ++ y) (len x)) (fun r s' => s' = s /\ r = 0) s) as H.
  { apply wp_ok in H as (r & s' & E & -> & ->). done. }
  apply (wp_while_fuel (fun i s' => s' = s /\ 0 <= i <= len x) (fun i _ => Z.to_nat (len x - i))).
  - split; [done | lia].
  - rewrite length_app. lia.
  - intros i s' (-> & Hi). destruct (Z.ltb_spec i (len x)); [|by wp_steps].
    destruct (lookupZ_in_range x i) as [u Hu]; [lia|]. wp_steps. eapply wp_eq; [by eapply byte_holds|].
    wp_steps. eapply wp_rd; [by rewrite lookupZ_app_l|]. wp_steps. rewrite Z.eqb_refl. simpl.
    pose proof (Forall_lookupZ _ _ _ _ Hx Hu). simpl in *. destruct (Z.eqb_spec u 0); [lia|]. split; [split; [done | lia] | lia].
Qed.

Lemma cpio_strlen_spec s a x : holds s a (x ++ [0]) -> cstring x -> cpio_strlen a s = Ok (len x, s).
Proof.
  intros Hh Hx.
  enough (wp (cpio_strlen a) (fun r s' => s' = s /\ r = len x) s) as H.
  { apply wp_ok in H as (r & s' & E & -> & ->). done. }
  unfold cpio_strlen. wp_steps.
  apply (wp_while_fuel (fun p s' => s' = s /\ a <= p <= a + len x) (fun p _ => Z.to_nat (a + len x - p))).
  - split; [done | lia].
  - destruct Hh as (pre & post & -> & _). rewrite !length_app. simpl. lia.
  - intros p s' (-> & Hp). destruct (lookupZ_in_range (x ++ [0]) (p - a)) as [u Hu]; [rewrite length_app; simpl; lia|].
    wp_steps. eapply wp_eq; [replace p with (a + (p - a)) by lia; by eapply byte_holds|]. wp_steps.
    apply cstring_lookup in Hu as [[-> Eu]|[Hu Eu]]; [| |done].
    + simpl. split; [done | lia].
    + destruct (Z.eqb_spec u 0); [lia|]. simpl. apply lookupZ_lt in Eu. split; [split; [done | lia] | lia].
Qed.

(** ** One header *)

Lemma length_pad4 n : len (pad4 n) = - n mod 4.
Proof. unfold pad4. rewrite length_replicate. pose proof (Z.mod_pos_bound (- n) 4). lia. Qed.

Lemma length_header f : shape_ok f -> len (header_of f) = sizeof_cpio_header.
Proof. intros [H1 H2 H3 _]. unfold header_of. by rewrite !length_app, !length_hex, H1, H2, H3. Qed.

(** Where the data of the entry at [p] is, and where the entry ends. *)
Definition data_at (p : Z) (f : cpio_file) : Z :=
  p + sizeof_cpio_header + len (f_name f) + 1 + - (sizeof_cpio_header + len (f_name f) + 1) mod 4.

Lemma length_encode f : shape_ok f ->
  len (encode f) = data_at 0 f + len (f_data f) + - len (f_data f) mod 4.
Proof.
  intros Hf. unfold encode, data_at. rewrite !length_app, !Nat2Z.inj_add, length_header, !length_pad4 by done. simpl. lia.
Qed.

(** The parts of an entry in memory. *)
Lemma holds_encode s p f : shape_ok f -> holds s p (encode f) ->
  holds s p (take 6 CPIO_HEADER_MAGIC) /\ holds s (p + c_filesize) (hex 8 (len (f_data f))) /\
  holds s (p + c_namesize) (hex 8 (len (f_name f) + 1)) /\ holds s (p + sizeof_cpio_header) (f_name f ++ [0]) /\
  holds s (data_at p f) (f_data f).
Proof.
  intros Hf H. unfold encode in H. apply holds_app in H as [Hh H]. rewrite length_header in H by done.
  rewrite app_assoc in H. apply holds_app in H as [Hn H]. apply holds_app in H as [_ H]. apply holds_app in H as [Hd _].
  rewrite length_app, length_pad4 in Hd. simpl in Hd.
  destruct Hf as [H1 H2 H3 _]. unfold header_of in Hh. apply holds_app in Hh as [Hm Hh].
  apply holds_app in Hh as [_ Hh]. rewrite H1 in Hh. apply holds_app in Hh as [Hs Hh]. rewrite length_hex in Hh.
  apply holds_app in Hh as [_ Hh]. rewrite H2 in Hh. apply holds_app in Hh as [Hl _].
  rewrite <- !Z.add_assoc in Hs. rewrite <- !Z.add_assoc in Hl. split; [done|]. split; [exact Hs|]. split; [exact Hl|]. split; [done|].
  unfold data_at. replace (_ + 1 + _) with (p + sizeof_cpio_header + Z.of_nat (length (f_name f) + 1) +
    - (sizeof_cpio_header + len (f_name f) + 1) mod 4) by lia. done.
Qed.

Definition entry_of (p : Z) (f : cpio_file) : parsed :=
  Entry (p + sizeof_cpio_header) (len (f_data f)) (data_at p f) (p + len (encode f)).

Lemma align_to_4 p n : 0 <= p + n -> p + n + 3 < 2 ^ 32 -> p mod 4 = 0 -> align_up (u32 (p + n)) CPIO_ALIGNMENT = p + n + - n mod 4.
Proof.
  intros Hn Hb Hp. rewrite u32_small by (unfold is_u32; lia). rewrite align_up_spec by lia.
  Z.to_euclidean_division_equations; lia.
Qed.

Lemma data_at_mod4 p f : p mod 4 = 0 -> data_at p f mod 4 = 0.
Proof. intros H. unfold data_at. Z.to_euclidean_division_equations; lia. Qed.

Lemma cstring_magic : cstring (take 6 CPIO_HEADER_MAGIC).
Proof. repeat constructor. Qed.
Lemma cstring_footer : cstring (f_name trailer).
Proof. repeat constructor. Qed.

Lemma parse_magic s p f : shape_ok f -> holds s p (encode f) ->
  cpio_strncmp (p + c_magic) CPIO_HEADER_MAGIC 6 s = Ok (0, s).
Proof.
  intros Hf Hh. apply holds_encode in Hh as [Hh _]; [|done]. unfold c_magic. rewrite Z.add_0_r.
  by apply (cpio_strncmp_prefix s p (take 6 CPIO_HEADER_MAGIC) [0]); [|apply cstring_magic].
Qed.

Lemma parse_entry s p f : file_ok f -> holds s p (encode f) -> 0 <= p -> p mod 4 = 0 -> p + len (encode f) + 3 < 2 ^ 32 ->
  cpio_parse_header p s = Ok (entry_of p f, s).
Proof.
  intros [Hf Ht] Hh Hp Hal Hb. pose proof (length_encode f Hf) as Hlen. unfold cpio_parse_header, bind.
  rewrite (parse_magic s p f) by done. apply holds_encode in Hh as (_ & Hs & Hl & Hn & _); [|done].
  change (negb (0 =? 0)) with false. cbv iota beta.
  assert (0 <= - len (f_data f) mod 4 < 4) by (apply Z.mod_pos_bound; lia).
  pose proof (data_at_mod4 p f Hal) as Hd4.
  assert (data_at p f = p + data_at 0 f) as Hd by (unfold data_at; lia).
  assert (0 <= sizeof_cpio_header + len (f_name f) + 1 <= data_at 0 f)
    by (unfold data_at, sizeof_cpio_header; Z.to_euclidean_division_equations; lia).
  rewrite (parse_hex_str_spec s _ _ Hs) by lia.
  destruct (cpio_strncmp_spec s _ (f_name f) (f_name trailer) 11 Hn) as (r & E & Hr);
    [apply Hf | apply cstring_footer | done |].
  change (f_name trailer ++ [0]) with CPIO_FOOTER_MAGIC in E. rewrite E.
  destruct (Z.eqb_spec r 0) as [->|]; [by destruct Ht; apply Hr|].
  rewrite (parse_hex_str_spec s _ _ Hl) by (unfold sizeof_cpio_header in *; lia).
  replace (p + sizeof_cpio_header + (len (f_name f) + 1)) with (p + (sizeof_cpio_header + len (f_name f) + 1)) by lia.
  rewrite align_to_4 by (done || lia).
  replace (p + _ + _) with (data_at p f) by (unfold data_at; lia). rewrite align_to_4 by (done || lia).
  replace (data_at p f + _ + _) with (p + len (encode f)) by lia. done.
Qed.

Lemma trailer_shape : shape_ok trailer.
Proof. split; [done | done | done | apply cstring_footer]. Qed.

Lemma parse_trailer s p : holds s p (encode trailer) -> cpio_parse_header p s = Ok (EndOfArchive (p + sizeof_cpio_header), s).
Proof.
  intros Hh. unfold cpio_parse_header, bind. rewrite (parse_magic s p trailer trailer_shape Hh).
  apply holds_encode in Hh as (_ & Hs & _ & Hn & _); [|apply trailer_shape].
  change (negb (0 =? 0)) with false. cbv iota beta.
  rewrite (parse_hex_str_spec s _ _ Hs) by done.
  destruct (cpio_strncmp_spec s _ (f_name trailer) (f_name trailer) 11 Hn) as (r & E & Hr); [apply cstring_footer.. | done |].
  change (f_name trailer ++ [0]) with CPIO_FOOTER_MAGIC in E. rewrite E. by rewrite (proj2 Hr).
Qed.

(** ** The archive *)

Section archive.
Context (base : Z) (fs : list cpio_file) (rest : list Z).
Hypothesis Hfiles : Forall file_ok fs.
Hypothesis Hbase : 0 <= base /\ base mod 4 = 0.
Hypothesis Hfits : base + len (archive_of fs ++ rest) + 3 < 2 ^ 32.

(** The memory holds the archive. *)
Definition has_archive (s : cpio_mem) : Prop := ar_base s = base /\ ar_bytes s = archive_of fs ++ rest.

(** The address of the entry [k]. *)
Definition entry_pos (k : nat) : Z := base + len (concat (encode <$> take k fs)).

Lemma length_encode_mod4 f : shape_ok f -> len (encode f) mod 4 = 0 /\ sizeof_cpio_header < len (encode f).
Proof.
  intros Hf. rewrite length_encode by done. pose proof (data_at_mod4 0 f). unfold data_at in *.
  unfold sizeof_cpio_header in *. Z.to_euclidean_division_equations; lia.
Qed.

Lemma entry_pos_S k f : fs !! k = Some f -> entry_pos (S k) = entry_pos k + len (encode f).
Proof.
  intros Hk. unfold entry_pos. rewrite (take_S_r _ _ _ Hk), fmap_app, concat_app, length_app. simpl.
  rewrite app_nil_r. lia.
Qed.

Lemma entry_pos_mod4 k : entry_pos k mod 4 = 0.
Proof using Hfiles Hbase Hfits.
  unfold entry_pos. assert (Forall file_ok (take k fs)) as H by by apply Forall_take. revert H.
  generalize (take k fs). intros l Hl. induction Hl as [|f l [Hf _] _ IH].
  - simpl. rewrite Z.add_0_r. apply Hbase.
  - change (concat (encode <$> f :: l)) with (encode f ++ concat (encode <$> l)).
    rewrite length_app, Nat2Z.inj_add. destruct (length_encode_mod4 f Hf) as [H _]. Z.to_euclidean_division_equations; lia.
Qed.

(** What follows the first [k] entries. *)
Lemma archive_at k : (k <= length fs)%nat ->
  archive_of fs ++ rest = concat (encode <$> take k fs) ++ concat (encode <$> drop k fs) ++ encode trailer ++ rest.
Proof.
  intros Hk. unfold archive_of. rewrite <- (take_drop k fs) at 1. by rewrite fmap_app, concat_app, <- !app_assoc.
Qed.

Lemma holds_entry s k f : has_archive s -> fs !! k = Some f -> holds s (entry_pos k) (encode f).
Proof.
  intros [Eb El] Hk. pose proof (lookup_lt_Some _ _ _ Hk). unfold holds, entry_pos. rewrite Eb, El, (archive_at k) by lia.
  rewrite (drop_S _ _ _ Hk). simpl. rewrite <- app_assoc. eauto.
Qed.

Lemma holds_trailer s : has_archive s -> holds s (entry_pos (length fs)) (encode trailer).
Proof.
  intros [Eb El]. unfold holds, entry_pos. rewrite Eb, El, (archive_at (length fs)) by lia.
  rewrite drop_all. simpl. eauto.
Qed.

Lemma entry_pos_fits k : (k <= length fs)%nat -> base <= entry_pos k <= base + len (archive_of fs ++ rest).
Proof. intros Hk. rewrite (archive_at k Hk). unfold entry_pos. rewrite length_app. lia. Qed.

Lemma parse_at s k f : has_archive s -> fs !! k = Some f ->
  cpio_parse_header (entry_pos k) s = Ok (entry_of (entry_pos k) f, s) /\ entry_pos (S k) = entry_pos k + len (encode f).
Proof using Hfiles Hbase Hfits.
  intros Hs Hk. split; [|by apply entry_pos_S]. pose proof (lookup_lt_Some _ _ _ Hk).
  pose proof (entry_pos_fits k ltac:(lia)). pose proof (entry_pos_fits (S k) ltac:(lia)).
  rewrite (entry_pos_S _ _ Hk) in *.
  apply parse_entry; [by eapply Forall_lookup_1 | by apply holds_entry | lia | apply entry_pos_mod4 | lia].
Qed.

Lemma parse_at_end s : has_archive s ->
  cpio_parse_header (entry_pos (length fs)) s = Ok (EndOfArchive (entry_pos (length fs) + sizeof_cpio_header), s).
Proof. intros Hs. by apply parse_trailer, holds_trailer. Qed.

Lemma name_at s k f : has_archive s -> fs !! k = Some f ->
  cstring (f_name f) /\ holds s (entry_pos k + sizeof_cpio_header) (f_name f ++ [0]) /\
  holds s (data_at (entry_pos k) f) (f_data f).
Proof using Hfiles Hbase Hfits.
  intros Hs Hk. pose proof (proj1 (Forall_lookup_1 _ _ _ _ Hfiles Hk)) as Hf.
  split; [apply Hf|]. by apply (holds_encode s (entry_pos k) f Hf), holds_entry.
Qed.

(** The measure of the walk over the entries. *)
Definition remaining (header : Z) : nat := Z.to_nat (base + len (archive_of fs ++ rest) - header).

Lemma remaining_S k f : fs !! k = Some f -> (remaining (entry_pos (S k)) < remaining (entry_pos k))%nat.
Proof using Hfiles Hbase Hfits.
  intros Hk. unfold remaining. pose proof (lookup_lt_Some _ _ _ Hk). pose proof (entry_pos_fits (S k) ltac:(lia)).
  rewrite (entry_pos_S _ _ Hk) in *. pose proof (proj1 (Forall_lookup_1 _ _ _ _ Hfiles Hk)) as Hf.
  destruct (length_encode_mod4 f Hf) as [_ ?]. unfold sizeof_cpio_header in *. lia.
Qed.

Lemma remaining_start s : has_archive s -> (remaining base < S (length (ar_bytes s)))%nat.
Proof. intros [_ ->]. unfold remaining. lia. Qed.

Lemma entry_pos_0 : entry_pos 0 = base.
Proof. unfold entry_pos. simpl. lia. Qed.

(** The entry after the first [k], or the end. *)
Lemma at_or_end k : (k <= length fs)%nat -> (exists f, fs !! k = Some f) \/ k = length fs.
Proof.
  intros Hk. destruct (fs !! k) as [f|] eqn:E; [eauto|]. apply lookup_ge_None in E. right. lia.
Qed.

Lemma cpio_get_file_run s name : has_archive s -> cstring name -> len name < 2 ^ 32 - 1 ->
  wp (cpio_get_file base (name ++ [0])) (fun r s' => s' = s /\
    match r with
    | Some (addr, size) => exists k f, fs !! k = Some f /\ f_name f = name /\ size = len (f_data f) /\
        holds s addr (f_data f) /\ forall j g, (j < k)%nat -> fs !! j = Some g -> f_name g <> name
    | None => forall j g, fs !! j = Some g -> f_name g <> name
    end) s.
Proof using Hfiles Hbase Hfits.
  intros Hs Hname Hlen. unfold cpio_get_file. wp_steps.
  apply (wp_while_fuel (fun header s' => s' = s /\ exists k, (k <= length fs)%nat /\ header = entry_pos k /\
    forall j g, (j < k)%nat -> fs !! j = Some g -> f_name g <> name) (fun header _ => remaining header)).
  - split; [done|]. exists O. rewrite entry_pos_0. split; [lia|]. split; [done|]. intros; lia.
  - by apply remaining_start.
  - intros header s' (-> & k & Hk & -> & Hno). wp_steps. destruct (at_or_end k Hk) as [(f & Hf)| ->].
    + destruct (parse_at s k f Hs Hf) as [E Enext]. eapply wp_eq; [exact E|]. unfold entry_of. wp_steps.
      destruct (name_at s k f Hs Hf) as (Hc & Hn & Hd).
      destruct (cpio_strncmp_spec s _ _ name (2 ^ 32 - 1) Hn Hc Hname Hlen) as (r & Er & Hr).
      eapply wp_eq; [exact Er|]. wp_steps. destruct (Z.eqb_spec r 0) as [->|Hr0].
      * split; [done|]. exists k, f. split; [done|]. split; [by apply Hr|]. done.
      * rewrite <- Enext. split; [|by eapply remaining_S]. split; [done|]. exists (S k).
        split; [by apply lookup_lt_Some in Hf|]. split; [done|]. intros j g Hj Hg.
        destruct (decide (j = k)) as [->|]; [|eapply Hno; [|done]; lia]. simplify_eq. by intros E'; apply Hr0, Hr.
    + eapply wp_eq; [by apply parse_at_end|]. wp_steps. split; [done|]. intros j g Hg. eapply Hno; [|done].
      by apply lookup_lt_Some in Hg.
Qed.

Lemma cpio_get_entry_run s (n : nat) : has_archive s ->
  cpio_get_entry base (Z.of_nat n) s = Ok (
    f ← fs !! n; Some (data_at (entry_pos n) f, entry_pos n + sizeof_cpio_header, len (f_data f)), s).
Proof using Hfiles Hbase Hfits.
  intros Hs. set (found k := f ← fs !! k; Some (data_at (entry_pos k) f, entry_pos k + sizeof_cpio_header, len (f_data f))).
  enough (wp (cpio_get_entry base (Z.of_nat n)) (fun r s' => s' = s /\ r = found n) s) as H.
  { apply wp_ok in H as (r & s' & E & -> & ->). done. }
  apply (wp_while_fuel (fun v s' => s' = s /\ exists k, (k <= length fs)%nat /\ (k <= S n)%nat /\
    v = (Z.of_nat k, entry_pos k, match k with O => None | S k' => found k' end)) (fun v _ => Z.to_nat (Z.of_nat n + 1 - v.1.1))).
  - split; [done|]. exists O. rewrite entry_pos_0. split; [lia|]. split; [lia | done].
  - simpl. lia.
  - intros [[i header] result] s' (-> & k & Hk & Hkn & [= -> -> ->]). simpl fst. destruct (Z.leb_spec (Z.of_nat k) (Z.of_nat n)).
    + wp_steps. destruct (at_or_end k Hk) as [(f & Hf)| ->].
      * destruct (parse_at s k f Hs Hf) as [E Enext]. eapply wp_eq; [exact E|]. unfold entry_of. wp_steps. rewrite <- Enext. simpl fst.
        split; [|lia]. split; [done|]. exists (S k). split; [by apply lookup_lt_Some in Hf|]. split; [lia|].
        unfold found. rewrite Hf. simpl. by replace (Z.of_nat k + 1) with (Z.of_nat (S k)) by lia.
      * eapply wp_eq; [by apply parse_at_end|]. wp_steps. split; [done|]. unfold found. rewrite lookup_ge_None_2 by lia. done.
    + wp_steps. split; [done|]. by replace k with (S n) by lia.
Qed.

(** The number of files and the length of the longest name. *)
Definition max_path (l : list cpio_file) : Z := foldl (fun m f => Z.max m (len (f_name f))) 0 l.

Lemma max_path_snoc l f : max_path (l ++ [f]) = Z.max (max_path l) (len (f_name f)).
Proof. unfold max_path. by rewrite foldl_app. Qed.

Lemma files_bound k : (k <= length fs)%nat -> Z.of_nat k <= entry_pos k - base.
Proof using Hfiles Hbase Hfits.
  induction k as [|k IH]; intros Hk; [rewrite entry_pos_0; lia|].
  destruct (lookup_lt_is_Some_2 fs k ltac:(lia)) as [f Hf]. rewrite (entry_pos_S _ _ Hf).
  destruct (length_encode_mod4 f (proj1 (Forall_lookup_1 _ _ _ _ Hfiles Hf))). unfold sizeof_cpio_header in *. lia.
Qed.

Lemma cpio_info_run s : has_archive s -> cpio_info base true s = Ok ((0, Z.of_nat (length fs), max_path fs), s).
Proof using Hfiles Hbase Hfits.
  intros Hs.
  enough (wp (cpio_info base true) (fun r s' => s' = s /\ r = (0, Z.of_nat (length fs), max_path fs)) s) as H.
  { apply wp_ok in H as (r & s' & E & -> & ->). done. }
  unfold cpio_info. cbn [negb]. wp_steps.
  apply (wp_while_fuel (fun v s' => s' = s /\ exists k, (k <= length fs)%nat /\
    v = (entry_pos k, Z.of_nat k, max_path (take k fs))) (fun v _ => remaining v.1.1)).
  - split; [done|]. exists O. rewrite entry_pos_0. split; [lia | done].
  - by apply remaining_start.
  - intros [[header c] m] s' (-> & k & Hk & [= -> -> ->]). simpl fst. wp_steps. destruct (at_or_end k Hk) as [(f & Hf)| ->].
    + destruct (parse_at s k f Hs Hf) as [E Enext]. eapply wp_eq; [exact E|]. unfold entry_of. wp_steps.
      destruct (name_at s k f Hs Hf) as (Hc & Hn & _). eapply wp_eq; [by apply cpio_strlen_spec|]. wp_steps.
      rewrite <- Enext. cbn [fst]. split; [|by eapply remaining_S]. split; [done|]. exists (S k). pose proof (lookup_lt_Some _ _ _ Hf).
      split; [lia|]. rewrite (take_S_r _ _ _ Hf), max_path_snoc.
      pose proof (files_bound (S k) ltac:(lia)). pose proof (entry_pos_fits (S k) ltac:(lia)).
      rewrite u32_small by (unfold is_u32; lia). by replace (Z.of_nat k + 1) with (Z.of_nat (S k)) by lia.
    + eapply wp_eq; [by apply parse_at_end|]. wp_steps. by rewrite firstn_all.
Qed.
End archive.

(** ** Listing *)

Lemma holds_bufs s p l bufs : holds s p l -> holds (CpioMem (ar_base s) (ar_bytes s) bufs) p l.
Proof. done. Qed.

Lemma insertZ_splice (x b : list Z) j c : 0 <= j < len b -> x !z j = Some c -> (length x <= length b)%nat ->
  insertZ j c (take (Z.to_nat j) x ++ drop (Z.to_nat j) b) = take (Z.to_nat (j + 1)) x ++ drop (Z.to_nat (j + 1)) b.
Proof.
  intros Hj Hc Hl. pose proof (lookupZ_lt _ _ _ Hc) as Hjx. unfold insertZ, lookupZ in *.
  destruct (Z.leb_spec 0 j); [|lia]. replace (Z.to_nat (j + 1)) with (S (Z.to_nat j)) by lia.
  rewrite (take_S_r _ _ _ Hc), insert_app_r_alt by (rewrite length_take; lia).
  rewrite length_take, Nat.min_l, Nat.sub_diag by lia.
  destruct (lookup_lt_is_Some_2 b (Z.to_nat j) ltac:(lia)) as [d Hd]. rewrite (drop_S _ _ _ Hd). simpl. by rewrite <- app_assoc.
Qed.

(** The name is copied over the start of the buffer; the byte after it stays. *)
Lemma cpio_strcpy_spec s k from x b :
  holds s from (x ++ [0]) -> cstring x -> ls_bufs s !z k = Some b -> (length x <= length b)%nat ->
  cpio_strcpy k from s = Ok (tt, CpioMem (ar_base s) (ar_bytes s) (insertZ k (x ++ drop (length x) b) (ls_bufs s))).
Proof.
  intros Hh Hx Hb Hl. pose proof (lookupZ_lt _ _ _ Hb) as Hk.
  set (st j := CpioMem (ar_base s) (ar_bytes s) (insertZ k (take (Z.to_nat j) x ++ drop (Z.to_nat j) b) (ls_bufs s))).
  enough (wp (cpio_strcpy k from) (fun _ s' => s' = st (len x)) s) as H.
  { apply wp_ok in H as ([] & s' & E & ->). rewrite E. unfold st. by rewrite Nat2Z.id, take_ge by lia. }
  unfold cpio_strcpy. wp_steps.
  apply (wp_while_fuel (fun j s' => s' = st j /\ 0 <= j <= len x) (fun j _ => Z.to_nat (len x - j))).
  - split; [|lia]. unfold st. cbn [Z.to_nat take drop app]. rewrite insertZ_id by done. by destruct s.
  - destruct Hh as (pre & post & -> & _). rewrite !length_app. simpl. lia.
  - intros j s' (-> & Hj). destruct (lookupZ_in_range (x ++ [0]) j) as [u Hu]; [rewrite length_app; simpl; lia|].
    wp_steps. eapply wp_eq; [by eapply byte_holds; [apply (holds_bufs s)|]|]. wp_steps.
    apply cstring_lookup in Hu as [[-> Eu]|[Hu Eu]]; [| |done].
    + bred. wp_steps. by subst j.
    + pose proof (lookupZ_lt _ _ _ Eu). destruct (Z.eqb_spec u 0); [lia|]. bred. unfold set_buf. wp_steps. cbn [ls_bufs st].
      eapply wp_rd; [by apply lookupZ_insertZ_eq|]. wp_steps. apply wp_in_bounds; [rewrite length_app, length_take, length_drop; lia|].
      wp_steps. cbn [ar_base ar_bytes]. rewrite insertZ_insertZ, insertZ_splice by (done || lia). split; [split; [done | lia] | lia].
Qed.

(** ** The claim *)

(** The [n] bytes at address [p]. *)
Definition bytes_at (s : cpio_mem) (p n : Z) : list Z := take (Z.to_nat n) (drop (Z.to_nat (p - ar_base s)) (ar_bytes s)).

Lemma bytes_at_holds s p l : holds s p l -> bytes_at s p (len l) = l.
Proof. intros H. unfold bytes_at. rewrite Nat2Z.id. by apply holds_data. Qed.

(** C19: reading back an archive: of every archive in the format, the summary
    gives the number of files and the length of the longest name, the [n]-th
    entry is found with its name and contents, and a file is found by its name,
    the first of that name, with its contents; a name or an index that is not
    there gives the null pointer. *)
Theorem cpio_roundtrip base fs rest bufs :
  Forall file_ok fs -> 0 <= base -> base mod 4 = 0 -> base + len (archive_of fs ++ rest) + 3 < 2 ^ 32 ->
  let s := CpioMem base (archive_of fs ++ rest) bufs in
  cpio_info base true s = Ok ((0, len fs, max_path fs), s) /\
  (forall n : nat, exists r, cpio_get_entry base (Z.of_nat n) s = Ok (r, s) /\
     match r with
     | Some (addr, name, size) => exists f, fs !! n = Some f /\ bytes_at s addr size = f_data f /\
         bytes_at s name (len (f_name f) + 1) = f_name f ++ [0]
     | None => (length fs <= n)%nat
     end) /\
  (forall name, cstring name -> len name < 2 ^ 32 - 1 -> exists r, cpio_get_file base (name ++ [0]) s = Ok (r, s) /\
     match r with
     | Some (addr, size) => exists k f, fs !! k = Some f /\ f_name f = name /\ bytes_at s addr size = f_data f /\
         forall j g, (j < k)%nat -> fs !! j = Some g -> f_name g <> name
     | None => forall j g, fs !! j = Some g -> f_name g <> name
     end).
Proof.
  intros Hf Hb Hal Hfit s. assert (has_archive base fs rest s) as Hs by done. split; [|split].
  - by apply (cpio_info_run base fs rest).
  - intros n. rewrite (cpio_get_entry_run base fs rest) by done. eexists. split; [done|].
    destruct (fs !! n) as [f|] eqn:E; simpl; [|by apply lookup_ge_None].
    destruct (name_at base fs rest Hf ltac:(done) Hfit s n f Hs E) as (_ & Hn & Hd).
    exists f. split; [done|]. split; [by apply bytes_at_holds|].
    replace (len (f_name f) + 1) with (len (f_name f ++ [0])) by (rewrite length_app; simpl; lia). by apply bytes_at_holds.
  - intros name Hn Hl.
    destruct (proj1 (wp_ok _ _ _) (cpio_get_file_run base fs rest Hf ltac:(done) Hfit s name Hs Hn Hl)) as (r & s' & E & -> & H).
    exists r. split; [done|]. destruct r as [[addr size]|]; [|done].
    destruct H as (k & f & Hk & Hnm & -> & Hd & Hfirst). exists k, f. split; [done|]. split; [done|]. split; [|done].
    by apply bytes_at_holds.
Qed.

(** An archive of two files, at an address that is a multiple of 4. *)
Definition sample_files : list cpio_file :=
  [CpioFile (replicate 48 48) (replicate 32 48) (replicate 8 48) [97; 98] [1; 2; 3; 4; 5];
   CpioFile (replicate 48 48) (replicate 32 48) (replicate 8 48) [99] [0; 255]].

Lemma cpio_roundtrip_witness :
  let s := CpioMem 4096 (archive_of sample_files ++ []) [] in
  (exists r, cpio_get_file 4096 ([99] ++ [0]) s = Ok (r, s)) /\ cpio_get_file 4096 [99; 0] s = Ok (Some (4332, 2), s).
Proof.
  intros s. split; [|vm_compute; reflexivity].
  destruct (cpio_roundtrip 4096 sample_files [] []) as (_ & _ & H).
  - repeat constructor; discriminate.
  - lia.
  - reflexivity.
  - vm_compute. reflexivity.
  - destruct (H [99]) as (r & E & _); [repeat constructor | vm_compute; reflexivity |]. exists r. exact E.
Defined.
