(* ===== verification/Pbuf.v ===== *)
(** * Pbuf: packets and the external data representation

    Models the packet buffers of the network library as the clients in libs/libnfs
    and libs/libserial use them (lwip-1.4.1/src/core/pbuf.c) and
    libs/libnfs/src/pbuf_helpers.c: reading and writing at a position of a
    packet that may be a chain of buffers.  The theorems show that a chain
    behaves as one buffer with the bytes of all its parts. *)

From S2P Require Import Prelude.

Abbreviation len l := (Z.of_nat (length l)).

Definition u16 (z : Z) : Z := z mod 2 ^ 16.

(** A packet: the payloads of its buffers.  [tot_len] of a buffer is the
    length of the rest of the chain. *)
Definition chain := list (list Z).
Definition tot_len (c : chain) : Z := len (concat c).

Definition ERR_OK : Z := 0.
Definition ERR_MEM : Z := -1.
Definition ERR_RTE : Z := -4.
Definition ERR_ARG : Z := -14.

(** [memcpy(p + offset, data, n)] *)
Definition overwrite (p : list Z) (offset : Z) (data : list Z) : list Z :=
  take (Z.to_nat offset) p ++ data ++ drop (Z.to_nat offset + length data) p.

(** ** lwip *)

Fixpoint pbuf_copy_partial (buf : chain) (n offset : Z) : list Z :=
  match buf with
  | [] => []
  | p :: next =>
      if n =? 0 then []
      else if negb (offset =? 0) && (len p <=? offset) then pbuf_copy_partial next n (offset - len p)
      else
        let buf_copy_len := Z.min (len p - offset) n in
        take (Z.to_nat buf_copy_len) (drop (Z.to_nat offset) p) ++ pbuf_copy_partial next (n - buf_copy_len) 0
  end.

(** The chain after the copy; running off its end is the assertion. *)
Fixpoint pbuf_take_loop (buf : chain) (data : list Z) (total_copy_len : Z) : res chain :=
  if total_copy_len =? 0 then Ok buf
  else
    match buf with
    | [] => Err FAssert
    | p :: next =>
        let buf_copy_len := Z.min total_copy_len (len p) in
        match pbuf_take_loop next (drop (Z.to_nat buf_copy_len) data) (total_copy_len - buf_copy_len) with
        | Ok next' => Ok (overwrite p 0 (take (Z.to_nat buf_copy_len) data) :: next')
        | Err f => Err f
        end
    end.

(** [data] is the object the pointer points to. *)
Definition need_data {S} (data : list Z) (n : Z) : M S unit := if n <=? len data then ret tt else fail FBounds.

Definition pbuf_take (data : list Z) (n : Z) : M chain Z :=
  buf <- get ;;
  if tot_len buf <? n then ret ERR_ARG
  else
    need_data data n ;;;
    match pbuf_take_loop buf data n with
    | Ok c => put c ;;; ret ERR_OK
    | Err f => fail f
    end.

Fixpoint pbuf_shrink (c : chain) (rem_len : Z) : res chain :=
  match c with
  | [] => Err FAssert
  | q :: next =>
      if len q <? rem_len then
        match pbuf_shrink next (rem_len - len q) with Ok next' => Ok (q :: next') | Err f => Err f end
      else Ok [take (Z.to_nat rem_len) q]
  end.
Definition pbuf_realloc (new_len : Z) : M chain unit :=
  p <- get ;;
  if tot_len p <=? new_len then ret tt
  else match pbuf_shrink p new_len with Ok c => put c | Err f => fail f end.

(** The loop variables of [pbuf_copy]: the buffers of the target that are full,
    the two chains that are left and the offsets in their first buffers. *)
Record copy_vars := CopyVars { cp_done : chain; p_to : chain; offset_to : Z; p_from : chain; offset_from : Z }.

(** A packet queue: the first buffer is a whole packet and another follows. *)
Definition packet_queue (c : chain) : bool :=
  match c with p :: next => (tot_len next =? 0) && negb (bool_decide (next = [])) | [] => false end.

Definition copy_round (v : copy_vars) : M unit (copy_vars + chain) :=
  match p_to v, p_from v with
  | t :: tnext, f :: fnext =>
      let n := if len f - offset_from v <=? len t - offset_to v then len f - offset_from v else len t - offset_to v in
      let t' := overwrite t (offset_to v) (take (Z.to_nat n) (drop (Z.to_nat (offset_from v)) f)) in
      let offset_to := offset_to v + n in
      let offset_from := offset_from v + n in
      c_assert (offset_to <=? len t) ;;;
      c_assert (offset_from <=? len f) ;;;
      let '(p_from, offset_from) := if len f <=? offset_from then (fnext, 0) else (f :: fnext, offset_from) in
      let '(cp_done, p_to, offset_to) :=
        if offset_to =? len t then (cp_done v ++ [t'], tnext, 0) else (cp_done v, t' :: tnext, offset_to) in
      c_assert (negb (bool_decide (p_to = [])) || bool_decide (p_from = [])) ;;;
      c_assert (negb (packet_queue p_from)) ;;;
      c_assert (negb (packet_queue p_to)) ;;;
      ret (if bool_decide (p_from = []) then inr (cp_done ++ p_to)
           else inl (CopyVars cp_done p_to offset_to p_from offset_from))
  | _, _ => fail FNull
  end.
Definition pbuf_copy (to from : chain) : M unit chain :=
  c_assert (tot_len from <=? tot_len to) ;;;
  while_fuel (S (length to + length from)) copy_round (CopyVars [] to 0 from 0).

(** ** pbuf_helpers.c *)

Definition ROUNDDOWN (v r : Z) : Z := v - Z.land v (r - 1).
Definition ROUNDUP (v r : Z) : Z := ROUNDDOWN (v + r - 1) r.

(** [pos] is a local of the caller: the functions return it. *)
Definition pb_alignl (pos : Z) : Z := ROUNDUP pos 4.

Fixpoint take_partial_write (p : chain) (data : list Z) (offset left : Z) : res chain :=
  if left <=? 0 then Ok p
  else
    match p with
    | [] => Err FNull
    | b :: next =>
        let bytes := Z.min (len b - offset) left in
        match take_partial_write next (drop (Z.to_nat bytes) data) 0 (left - bytes) with
        | Ok next' => Ok (overwrite b offset (take (Z.to_nat bytes) data) :: next')
        | Err f => Err f
        end
    end.
Fixpoint take_partial_seek (p : chain) (data : list Z) (offset n : Z) : res chain :=
  match p with
  | [] => Err FNull
  | b :: next =>
      if len b <=? offset then
        match take_partial_seek next data (offset - len b) n with Ok next' => Ok (b :: next') | Err f => Err f end
      else take_partial_write p data offset n
  end.
Definition pbuf_take_partial (data : list Z) (n offset : Z) : M chain Z :=
  if n =? 0 then ret 0
  else
    p <- get ;;
    c_assert (offset <? tot_len p) ;;;
    c_assert (offset + n <=? tot_len p) ;;;
    need_data data n ;;;
    match take_partial_seek p data offset n with
    | Ok c => put c ;;; ret n
    | Err f => fail f
    end.

Definition pb_write (data : list Z) (count pos : Z) : M chain Z :=
  n <- pbuf_take_partial data (u16 count) (u16 pos) ;; ret (pos + n).

(** A host-order long in network order. *)
Definition htonl_bytes (v : Z) : list Z :=
  [Z.shiftr v 24 mod 256; Z.shiftr v 16 mod 256; Z.shiftr v 8 mod 256; v mod 256].
Definition ntohl_bytes (l : list Z) : Z := foldl (fun acc b => acc * 256 + b) 0 l.

Definition pb_write_arrl (arr : list Z) (pos : Z) : M chain Z :=
  pb_write (concat (htonl_bytes <$> arr)) (4 * len arr) pos.
Definition pb_writel (v pos : Z) : M chain Z := pb_write_arrl [v] pos.

(** The padding is written from a zero word. *)
Definition pb_write_str (str : list Z) (n pos : Z) : M chain Z :=
  pos <- pb_write_arrl [n] pos ;;
  pos <- pb_write str n pos ;;
  pb_write [0; 0; 0; 0] (ROUNDUP pos 4 - pos) pos.

(** [cap] is the size of the object the bytes are copied to. *)
Definition pb_read (cap count pos : Z) : M chain (list Z * Z) :=
  p <- get ;;
  c_assert (pos <=? tot_len p) ;;;
  c_assert (pos + count <=? tot_len p) ;;;
  let data := pbuf_copy_partial p (u16 count) (u16 pos) in
  (if len data <=? cap then ret tt else fail FBounds) ;;;
  c_assert (count =? len data) ;;;
  ret (data, pos + len data).

Fixpoint longs (n : nat) (l : list Z) : list Z :=
  match n with
  | O => []
  | S n' => ntohl_bytes (take 4 l) :: longs n' (drop 4 l)
  end.
(** [n] longs. *)
Definition pb_read_arrl (n pos : Z) : M chain (list Z * Z) :=
  let! (data, pos) := pb_read (4 * n) (4 * n) pos in ret (longs (Z.to_nat n) data, pos).
Definition pb_readl (pos : Z) : M chain (Z * Z) :=
  let! (data, pos) := pb_read 4 4 pos in ret (ntohl_bytes data, pos).

(** The string, of less than [maxlen - 1] characters. *)
Definition pb_read_str (maxlen pos : Z) : M chain (list Z * Z) :=
  let! (strlen, pos) := pb_readl pos in
  c_assert (strlen <? maxlen - 1) ;;;
  let! (str, pos) := pb_read maxlen strlen pos in
  ret (str, pb_alignl pos).

(** ** Chains behave as one buffer *)

Lemma length_overwrite p o d : 0 <= o -> o + len d <= len p -> length (overwrite p o d) = length p.
Proof. intros Ho Hl. unfold overwrite. rewrite !length_app, length_take, length_drop. lia. Qed.

Lemma tot_len_cons p c : tot_len (p :: c) = len p + tot_len c.
Proof. unfold tot_len. simpl. rewrite length_app. lia. Qed.

Lemma pbuf_copy_partial_flat c n o : 0 <= n -> 0 <= o ->
  pbuf_copy_partial c n o = take (Z.to_nat n) (drop (Z.to_nat o) (concat c)).
Proof.
  revert n o. induction c as [|p c IH]; intros n o Hn Ho; cbn [pbuf_copy_partial concat].
  - by rewrite drop_nil, take_nil.
  - destruct (Z.eqb_spec n 0) as [->|]; [done|].
    destruct (Z.eqb_spec o 0) as [->|]; cbn [negb andb].
    + rewrite IH by lia. rewrite !drop_0. rewrite Z.sub_0_r.
      destruct (Z.le_gt_cases n (len p)).
      * rewrite Z.min_r by lia. rewrite Z.sub_diag. simpl. rewrite take_0, app_nil_r. by rewrite take_app_le by lia.
      * rewrite Z.min_l by lia. rewrite Nat2Z.id, firstn_all, take_app_ge by lia. do 2 f_equal. lia.
    + destruct (Z.leb_spec (len p) o).
      * rewrite IH by lia. rewrite drop_app_ge by lia. do 2 f_equal. lia.
      * rewrite IH by lia. rewrite drop_0, drop_app_le by lia.
        destruct (Z.le_gt_cases n (len p - o)).
        -- rewrite Z.min_r by lia. rewrite Z.sub_diag. simpl. rewrite take_0, app_nil_r.
           by rewrite take_app_le by (rewrite length_drop; lia).
        -- rewrite Z.min_l by lia. rewrite take_app_ge by (rewrite length_drop; lia).
           rewrite (take_ge (drop _ p)) by (rewrite length_drop; lia). do 2 f_equal. rewrite length_drop. lia.
Qed.

Lemma overwrite_app_l p q o d : 0 <= o -> o + len d <= len p -> overwrite (p ++ q) o d = overwrite p o d ++ q.
Proof.
  intros Ho Hl. unfold overwrite. rewrite take_app_le, drop_app_le by lia. by rewrite !app_assoc.
Qed.

Lemma overwrite_app_r p q o d : len p <= o -> overwrite (p ++ q) o d = p ++ overwrite q (o - len p) d.
Proof.
  intros Ho. unfold overwrite. rewrite take_app_ge, drop_app_ge by lia. rewrite <- !app_assoc. repeat f_equal; lia.
Qed.

(** A write that starts in [p] and ends in [q]. *)
Lemma overwrite_app p q o d1 d2 : 0 <= o -> o + len d1 = len p -> len d2 <= len q ->
  overwrite (p ++ q) o (d1 ++ d2) = overwrite p o d1 ++ overwrite q 0 d2.
Proof.
  intros Ho Hl Hq. unfold overwrite. rewrite take_app_le by lia.
  rewrite (drop_ge p) by lia. rewrite drop_app_ge by (rewrite length_app; lia).
  rewrite app_nil_r, <- !app_assoc. simpl. repeat f_equal. rewrite length_app. lia.
Qed.

Lemma overwrite_nil p o : overwrite p o [] = p.
Proof. unfold overwrite. simpl. rewrite Nat.add_0_r. apply take_drop. Qed.

Lemma take_partial_write_flat c data o n :
  0 <= o -> 0 <= n <= len data -> o + n <= tot_len c -> (forall b, head c = Some b -> o <= len b) ->
  exists c', take_partial_write c data o n = Ok c' /\
    concat c' = overwrite (concat c) o (take (Z.to_nat n) data) /\ length <$> c' = length <$> c.
Proof.
  revert data o n. induction c as [|b c IH]; intros data o n Ho Hn Hl Hh; cbn [take_partial_write].
  - change (tot_len []) with 0 in Hl. destruct (Z.leb_spec n 0); [|lia]. replace n with 0 by lia. exists []. simpl.
    by rewrite overwrite_nil.
  - rewrite tot_len_cons in Hl. specialize (Hh b eq_refl).
    destruct (Z.leb_spec n 0).
    { exists (b :: c). replace n with 0 by lia. simpl take. by rewrite overwrite_nil. }
    remember (Z.min (len b - o) n) as k eqn:Hk.
    assert (0 <= tot_len c) by (unfold tot_len; lia).
    destruct (IH (drop (Z.to_nat k) data) 0 (n - k)) as (c' & -> & Ec & El); [lia | rewrite length_drop; lia | lia | intros; lia |].
    exists (overwrite b o (take (Z.to_nat k) data) :: c'). split; [done|]. split.
    + cbn [concat]. rewrite Ec. destruct (Z.le_gt_cases n (len b - o)).
      * replace (Z.to_nat (n - k)) with O by lia. simpl take. rewrite overwrite_nil.
        rewrite overwrite_app_l by (rewrite ?length_take; lia). repeat f_equal. lia.
      * replace (take (Z.to_nat n) data) with (take (Z.to_nat k) data ++ take (Z.to_nat (n - k)) (drop (Z.to_nat k) data)).
        -- rewrite overwrite_app; [done | lia | rewrite length_take; lia |]. rewrite length_take, length_drop.
           unfold tot_len in Hl. lia.
        -- rewrite take_take_drop. f_equal. lia.
    + rewrite !fmap_cons, El, length_overwrite; [done | lia | rewrite length_take; lia].
Qed.

Lemma take_partial_seek_flat c data o n :
  0 <= o -> 0 <= n <= len data -> o < tot_len c -> o + n <= tot_len c ->
  exists c', take_partial_seek c data o n = Ok c' /\
    concat c' = overwrite (concat c) o (take (Z.to_nat n) data) /\ length <$> c' = length <$> c.
Proof.
  revert o. induction c as [|b c IH]; intros o Ho Hn Hlt Hl; cbn [take_partial_seek].
  - change (tot_len []) with 0 in Hlt. lia.
  - rewrite tot_len_cons in Hl, Hlt. destruct (Z.leb_spec (len b) o).
    + destruct (IH (o - len b)) as (c' & -> & Ec & El); [lia..|]. exists (b :: c'). split; [done|]. split.
      * cbn [concat]. by rewrite Ec, overwrite_app_r by lia.
      * by rewrite !fmap_cons, El.
    + apply take_partial_write_flat; [done | done | rewrite tot_len_cons; lia |]. intros b' [= <-]. lia.
Qed.

(** A computation that treats a chain as one buffer. *)
Definition forget {A} (r : res (A * chain)) : res (A * list Z) :=
  match r with Ok (a, c) => Ok (a, concat c) | Err f => Err f end.
Definition chain_free {A} (m : M chain A) : Prop := forall c d, concat c = concat d -> forget (m c) = forget (m d).

Lemma chain_free_bind {A B} (m : M chain A) (k : A -> M chain B) :
  chain_free m -> (forall a, chain_free (k a)) -> chain_free (bind m k).
Proof.
  intros Hm Hk c d E. specialize (Hm c d E). unfold bind, forget in *.
  destruct (m c) as [[a c']|], (m d) as [[a' d']|]; simplify_eq; [|done]. by apply Hk.
Qed.

Lemma chain_free_ret {A} (a : A) : chain_free (ret a).
Proof. intros c d E. unfold ret, forget. by rewrite E. Qed.

Lemma chain_free_fail {A} f : chain_free (fail f : M chain A).
Proof. by intros c d E. Qed.

Lemma chain_free_assert b : chain_free (c_assert b).
Proof. destruct b; [apply chain_free_ret | apply chain_free_fail]. Qed.

(** A computation that looks at the bytes of the chain only. *)
Lemma chain_free_get {A} (k : chain -> M chain A) :
  (forall c d, concat c = concat d -> forget (k c c) = forget (k d d)) -> chain_free (p <- get ;; k p).
Proof. intros H c d E. by apply H. Qed.

Create HintDb chain.
#[export] Hint Resolve chain_free_bind chain_free_ret chain_free_fail chain_free_assert : chain.

(** What writing does to the bytes. *)
Lemma pbuf_take_partial_flat data n o c : 0 <= n -> 0 <= o ->
  forget (pbuf_take_partial data n o c) =
    if n =? 0 then Ok (0, concat c)
    else if (tot_len c <=? o) || (tot_len c <? o + n) then Err FAssert
    else if len data <? n then Err FBounds
    else Ok (n, overwrite (concat c) o (take (Z.to_nat n) data)).
Proof.
  intros Hn Ho. unfold pbuf_take_partial. destruct (Z.eqb_spec n 0) as [->|]; [done|]. unfold bind, get, c_assert, need_data.
  repeat (case_bool; try lia; cbn [orb]); try done.
  destruct (take_partial_seek_flat c data o n) as (c' & E & Ec & _); [lia..|]. unfold ret. rewrite E. cbn. by rewrite Ec.
Qed.

Lemma tot_len_flat c d : concat c = concat d -> tot_len c = tot_len d.
Proof. unfold tot_len. by intros ->. Qed.

Lemma u16_nonneg z : 0 <= u16 z.
Proof. apply Z.mod_pos_bound. lia. Qed.

Lemma chain_free_write data n pos : chain_free (pb_write data n pos).
Proof.
  apply chain_free_bind; [|auto with chain]. intros c d E.
  by rewrite !pbuf_take_partial_flat, E, (tot_len_flat c d E) by apply u16_nonneg.
Qed.

Lemma chain_free_read cap n pos : chain_free (pb_read cap n pos).
Proof.
  apply chain_free_get. intros c d E. rewrite (tot_len_flat c d E), !pbuf_copy_partial_flat, E by apply u16_nonneg.
  unfold bind, c_assert. repeat (case_bool; cbn [ret fail forget]; try done). unfold ret, forget. by rewrite E.
Qed.
#[export] Hint Resolve chain_free_write chain_free_read : chain.

Lemma chain_free_pair {A B C} (m : M chain (A * B)) (k : A -> B -> M chain C) :
  chain_free m -> (forall a b, chain_free (k a b)) -> chain_free (let! (a, b) := m in k a b).
Proof. intros Hm Hk. apply chain_free_bind; [done|]. by intros [a b]. Qed.
#[export] Hint Resolve chain_free_pair : chain.

(** C20: a packet may be split into buffers in any way: writing, reading and
    the encodings built on them give the same result, the same bytes and the
    same faults on every chain with the same bytes. *)
Theorem pbuf_chain_equivalence (c d : chain) : concat c = concat d -> forall data n cap pos,
  forget (pb_write data n pos c) = forget (pb_write data n pos d) /\
  forget (pb_write_arrl data pos c) = forget (pb_write_arrl data pos d) /\
  forget (pb_write_str data n pos c) = forget (pb_write_str data n pos d) /\
  forget (pb_read cap n pos c) = forget (pb_read cap n pos d) /\
  forget (pb_read_arrl n pos c) = forget (pb_read_arrl n pos d) /\
  forget (pb_read_str cap pos c) = forget (pb_read_str cap pos d).
Proof.
  intros E data n cap pos. unfold pb_write_arrl, pb_write_str, pb_read_arrl, pb_read_str, pb_readl, pb_write_arrl.
  assert (forall A (m : M chain A), chain_free m -> forget (m c) = forget (m d)) as H by (intros A m Hm; by apply Hm).
  split_and!; apply H; eauto 10 with chain.
Qed.

Lemma pbuf_chain_equivalence_witness :
  forget (pb_write_str [104; 105] 2 0 [[1; 2; 3]; []; [4; 5; 6; 7; 8; 9]]) = Ok (8, [0; 0; 0; 2; 104; 105; 0; 0; 9]) /\
  forget (pb_write_str [104; 105] 2 0 [[1; 2; 3]; []; [4; 5; 6; 7; 8; 9]]) =
  forget (pb_write_str [104; 105] 2 0 [[1; 2; 3; 4; 5; 6; 7; 8; 9]]).
Proof.
  split; [vm_compute; reflexivity|].
  apply (pbuf_chain_equivalence [[1; 2; 3]; []; [4; 5; 6; 7; 8; 9]] [[1; 2; 3; 4; 5; 6; 7; 8; 9]] eq_refl [104; 105] 2 0 0).
Defined.

(** ** Packets written and read from the front *)

(** The packet starts with the bytes [l]. *)
Definition starts (c : chain) (l : list Z) : Prop := exists post, concat c = l ++ post.

Lemma starts_len c l : starts c l -> len l <= tot_len c.
Proof. intros (post & E). unfold tot_len. rewrite E, length_app. lia. Qed.

Lemma overwrite_mid l d d' post : length d' = length d -> overwrite (l ++ d ++ post) (len l) d' = l ++ d' ++ post.
Proof.
  intros E. unfold overwrite. rewrite Nat2Z.id, take_app_length, E, <- drop_drop, drop_app_length.
  by rewrite drop_app_length.
Qed.

Lemma wp_pb_write data n c l Q :
  starts c l -> 0 <= n <= len data -> len l + n <= tot_len c < 2 ^ 16 ->
  (forall c', starts c' (l ++ take (Z.to_nat n) data) -> tot_len c' = tot_len c -> Q (len l + n) c') ->
  wp (pb_write data n (len l)) Q c.
Proof.
  intros (post & E) Hn Hl HQ. unfold pb_write, u16. rewrite !Z.mod_small by lia. wp_steps.
  pose proof (pbuf_take_partial_flat data n (len l) c) as Hf. unfold wp.
  assert (tot_len c = len l + len post) as Ht by (unfold tot_len; rewrite E, length_app; lia).
  destruct (Z.eqb_spec n 0) as [->|].
  { unfold pbuf_take_partial. cbn. apply HQ; [|done]. rewrite app_nil_r. by exists post. }
  revert Hf. repeat (case_bool; cbn [orb]; try lia). intros Hf. specialize (Hf ltac:(lia) ltac:(lia)).
  destruct (pbuf_take_partial data n (len l) c) as [[m c']|]; [|done]. injection Hf as -> Ec.
  set (d := take (Z.to_nat n) post). assert (length (take (Z.to_nat n) data) = length d) as Hd.
  { unfold d. rewrite !length_take. lia. }
  rewrite E, <- (take_drop (Z.to_nat n) post), overwrite_mid in Ec by done. apply HQ.
  - exists (drop (Z.to_nat n) post). by rewrite Ec, <- app_assoc.
  - rewrite Ht. unfold tot_len. rewrite Ec, !length_app, Hd. unfold d. rewrite length_take, length_drop. lia.
Qed.

Lemma wp_pb_read cap c l d post (Q : list Z * Z -> chain -> Prop) :
  concat c = l ++ d ++ post -> tot_len c < 2 ^ 16 -> len d <= cap ->
  Q (d, len l + len d) c -> wp (pb_read cap (len d) (len l)) Q c.
Proof.
  intros E Ht Hc HQ. assert (tot_len c = len l + len d + len post) as Htl by (unfold tot_len; rewrite E, !length_app; lia).
  unfold pb_read, u16. rewrite !Z.mod_small by lia. wp_steps.
  apply wp_assert; [apply Z.leb_le; lia|]. wp_steps. apply wp_assert; [apply Z.leb_le; lia|].
  rewrite pbuf_copy_partial_flat, E, !Nat2Z.id, drop_app_length, take_app_length by lia.
  destruct (Z.leb_spec (len d) cap); [|lia]. wp_steps. apply wp_assert; [by apply Z.eqb_refl|]. by wp_steps.
Qed.

(** ** Longs and strings *)

Lemma htonl_roundtrip v : is_u32 v -> ntohl_bytes (htonl_bytes v) = v.
Proof.
  unfold is_u32, ntohl_bytes, htonl_bytes. intros Hv. cbn [foldl]. rewrite !Z.shiftr_div_pow2 by lia.
  change (2 ^ 24) with 16777216. change (2 ^ 16) with 65536. change (2 ^ 8) with 256. change (2 ^ 32) with 4294967296 in Hv.
  Z.to_euclidean_division_equations; lia.
Qed.

Definition xdr_longs (arr : list Z) : list Z := concat (htonl_bytes <$> arr).

Lemma length_xdr_longs arr : len (xdr_longs arr) = 4 * len arr.
Proof. unfold xdr_longs. induction arr as [|v arr IH]; [done|]. cbn [fmap list_fmap concat]. rewrite length_app. cbn [htonl_bytes length]. lia. Qed.

Lemma longs_xdr arr : Forall is_u32 arr -> longs (length arr) (xdr_longs arr) = arr.
Proof.
  unfold xdr_longs. induction 1 as [|v arr Hv _ IH]; [done|]. cbn [longs length fmap list_fmap concat].
  rewrite take_app_length', drop_app_length' by done. by rewrite htonl_roundtrip, IH by done.
Qed.

Lemma ROUNDUP_spec pos : 0 <= pos -> ROUNDUP pos 4 = pos + - pos mod 4.
Proof.
  intros Hp. unfold ROUNDUP, ROUNDDOWN. change (4 - 1) with (2 ^ 2 - 1). rewrite land_pow2_mask by lia. change (2 ^ 2) with 4.
  Z.to_euclidean_division_equations; lia.
Qed.

Definition xdr_pad (n : Z) : list Z := replicate (Z.to_nat (- n mod 4)) 0.
Definition xdr_str (str : list Z) : list Z := xdr_longs [len str] ++ str ++ xdr_pad (len str).

Lemma length_xdr_pad n : len (xdr_pad n) = - n mod 4.
Proof. unfold xdr_pad. rewrite length_replicate. pose proof (Z.mod_pos_bound (- n) 4). lia. Qed.

Lemma length_xdr_str str : len (xdr_str str) = 4 + len str + - len str mod 4.
Proof. unfold xdr_str. rewrite !length_app, !Nat2Z.inj_add, length_xdr_longs, length_xdr_pad. simpl. lia. Qed.

Lemma wp_pb_write_arrl arr c l Q :
  starts c l -> len l + 4 * len arr <= tot_len c < 2 ^ 16 ->
  (forall c', starts c' (l ++ xdr_longs arr) -> tot_len c' = tot_len c -> Q (len (l ++ xdr_longs arr)) c') ->
  wp (pb_write_arrl arr (len l)) Q c.
Proof.
  intros Hs Hl HQ. unfold pb_write_arrl. pose proof (length_xdr_longs arr) as E. unfold xdr_longs in *. rewrite <- E in *.
  apply wp_pb_write; [done | lia | lia |]. rewrite Nat2Z.id, firstn_all. intros c' H1 H2. rewrite <- Nat2Z.inj_add, <- length_app. by apply HQ.
Qed.

Lemma wp_pb_write_all data n c l Q :
  starts c l -> n = len data -> len l + len data <= tot_len c < 2 ^ 16 ->
  (forall c', starts c' (l ++ data) -> tot_len c' = tot_len c -> Q (len (l ++ data)) c') -> wp (pb_write data n (len l)) Q c.
Proof.
  intros Hs -> Hl HQ. apply wp_pb_write; [done | lia | lia |]. rewrite Nat2Z.id, firstn_all. intros c' H1 H2.
  rewrite <- Nat2Z.inj_add, <- length_app. by apply HQ.
Qed.

Lemma wp_pb_write_str str n c l Q :
  starts c l -> n = len str -> len l mod 4 = 0 -> len l + len (xdr_str str) <= tot_len c < 2 ^ 16 ->
  (forall c', starts c' (l ++ xdr_str str) -> tot_len c' = tot_len c -> Q (len (l ++ xdr_str str)) c') ->
  wp (pb_write_str str n (len l)) Q c.
Proof.
  intros Hs -> Hal Hl HQ. pose proof (length_xdr_str str) as Hx. rewrite Hx in Hl.
  assert (0 <= - len str mod 4 < 4) by (apply Z.mod_pos_bound; lia).
  unfold pb_write_str. wp_steps. apply wp_pb_write_arrl; [done | simpl; lia |]. intros c1 H1 T1. wp_steps.
  apply wp_pb_write_all; [done | done | rewrite length_app, Nat2Z.inj_add, length_xdr_longs; simpl; lia |].
  intros c2 H2 T2. wp_steps.
  assert (len ((l ++ xdr_longs [len str]) ++ str) = len l + 4 + len str) as E
    by (rewrite !length_app, !Nat2Z.inj_add, length_xdr_longs; simpl; lia).
  assert (ROUNDUP (len ((l ++ xdr_longs [len str]) ++ str)) 4 - len ((l ++ xdr_longs [len str]) ++ str) = - len str mod 4) as Ep
    by (rewrite ROUNDUP_spec, E by lia; Z.to_euclidean_division_equations; lia).
  rewrite Ep. apply wp_pb_write; [done | simpl; lia | lia |]. intros c3 H3 T3.
  replace (take _ [0; 0; 0; 0]) with (xdr_pad (len str)) in H3.
  - rewrite E. unfold xdr_str in *. rewrite <- !app_assoc in H3.
    replace (len l + 4 + len str + _) with (len (l ++ xdr_longs [len str] ++ str ++ xdr_pad (len str))).
    + apply HQ; [done | lia].
    + rewrite length_app. lia.
  - unfold xdr_pad. assert (- len str mod 4 = 0 \/ - len str mod 4 = 1 \/ - len str mod 4 = 2 \/ - len str mod 4 = 3) as [-> | [-> | [-> | ->]]] by lia; done.
Qed.

(** Reading on: the bytes read move from the rest to the front. *)
Lemma wp_pb_read_bytes cap c l d post n (Q : list Z * Z -> chain -> Prop) :
  concat c = l ++ d ++ post -> n = len d -> tot_len c < 2 ^ 16 -> len d <= cap ->
  (concat c = (l ++ d) ++ post -> Q (d, len (l ++ d)) c) -> wp (pb_read cap n (len l)) Q c.
Proof.
  intros E -> Ht Hc HQ. eapply wp_pb_read; [done | done | done |]. rewrite <- Nat2Z.inj_add, <- length_app. apply HQ.
  by rewrite <- app_assoc.
Qed.

Lemma wp_pb_read_arrl c l arr post n (Q : list Z * Z -> chain -> Prop) :
  concat c = l ++ xdr_longs arr ++ post -> n = len arr -> Forall is_u32 arr -> tot_len c < 2 ^ 16 ->
  (concat c = (l ++ xdr_longs arr) ++ post -> Q (arr, len (l ++ xdr_longs arr)) c) -> wp (pb_read_arrl n (len l)) Q c.
Proof.
  intros E -> Ha Ht HQ. unfold pb_read_arrl. wp_steps. rewrite <- length_xdr_longs. eapply wp_pb_read_bytes; [done..|].
  intros E'. wp_steps. rewrite Nat2Z.id, longs_xdr by done. by apply HQ.
Qed.

Lemma wp_pb_readl c l v post (Q : Z * Z -> chain -> Prop) :
  concat c = l ++ xdr_longs [v] ++ post -> is_u32 v -> tot_len c < 2 ^ 16 ->
  (concat c = (l ++ xdr_longs [v]) ++ post -> Q (v, len (l ++ xdr_longs [v])) c) -> wp (pb_readl (len l)) Q c.
Proof.
  intros E Hv Ht HQ. unfold pb_readl. wp_steps. eapply wp_pb_read_bytes; [exact E | done | done | done |].
  intros E'. wp_steps. replace (ntohl_bytes (xdr_longs [v])) with v; [by apply HQ|].
  unfold xdr_longs. cbn [fmap list_fmap concat]. rewrite app_nil_r. by rewrite htonl_roundtrip.
Qed.

Lemma pb_alignl_pad (l d : list Z) : len l mod 4 = 0 -> pb_alignl (len (l ++ d)) = len (l ++ d ++ xdr_pad (len d)).
Proof.
  intros Hl. unfold pb_alignl. rewrite ROUNDUP_spec by lia. rewrite !length_app, !Nat2Z.inj_add, length_xdr_pad.
  Z.to_euclidean_division_equations; lia.
Qed.

Lemma wp_pb_read_str c l str post maxlen (Q : list Z * Z -> chain -> Prop) :
  concat c = l ++ xdr_str str ++ post -> len l mod 4 = 0 -> len str < maxlen - 1 -> tot_len c < 2 ^ 16 ->
  (concat c = (l ++ xdr_str str) ++ post -> Q (str, len (l ++ xdr_str str)) c) -> wp (pb_read_str maxlen (len l)) Q c.
Proof.
  intros E Hl Hs Ht HQ. assert (concat c = (l ++ xdr_str str) ++ post) as E0 by by rewrite <- app_assoc.
  assert (len str <= tot_len c) as Hb.
  { unfold tot_len. rewrite E, !length_app, !Nat2Z.inj_add, length_xdr_str. pose proof (Z.mod_pos_bound (- len str) 4). lia. }
  unfold pb_read_str. wp_steps. unfold xdr_str in E. rewrite <- !app_assoc in E.
  eapply wp_pb_readl; [exact E | unfold is_u32; lia | done |]. intros E1. wp_steps.
  apply wp_assert; [apply Z.ltb_lt; lia|]. wp_steps. eapply wp_pb_read_bytes; [exact E1 | done | done | lia |]. intros E2. wp_steps.
  rewrite pb_alignl_pad by (rewrite length_app, Nat2Z.inj_add, length_xdr_longs; simpl; Z.to_euclidean_division_equations; lia).
  rewrite <- app_assoc. by apply HQ.
Qed.

(** A string that is written is read back, from any chain. *)
Lemma xdr_str_roundtrip c l str maxlen :
  starts c l -> len l mod 4 = 0 -> len l + len (xdr_str str) <= tot_len c < 2 ^ 16 -> len str < maxlen - 1 ->
  exists c' pos, pb_write_str str (len str) (len l) c = Ok (pos, c') /\ pb_read_str maxlen (len l) c' = Ok ((str, pos), c').
Proof.
  intros Hs Hal Hl Hm.
  destruct (proj1 (wp_ok _ _ _) (wp_pb_write_str str (len str) c l
    (fun pos c' => starts c' (l ++ xdr_str str) /\ tot_len c' = tot_len c /\ pos = len (l ++ xdr_str str)) Hs eq_refl Hal Hl ltac:(done)))
    as (pos & c' & E & (post & Ec) & Ht & ->).
  destruct (proj1 (wp_ok _ _ _) (wp_pb_read_str c' l str post maxlen (fun r c'' => r = (str, len (l ++ xdr_str str)) /\ c'' = c')
    ltac:(by rewrite app_assoc) Hal Hm ltac:(lia) ltac:(done))) as (r & c'' & E' & -> & ->).
  eauto.
Qed.

(** ** Other operations of lwip *)

Lemma pbuf_take_loop_flat c data n : 0 <= n <= len data -> n <= tot_len c ->
  exists c', pbuf_take_loop c data n = Ok c' /\ concat c' = overwrite (concat c) 0 (take (Z.to_nat n) data).
Proof.
  revert data n. induction c as [|p c IH]; intros data n Hn Hl; cbn [pbuf_take_loop].
  - change (tot_len []) with 0 in Hl. destruct (Z.eqb_spec n 0) as [->|]; [|lia]. by exists [].
  - destruct (Z.eqb_spec n 0) as [->|]; [exists (p :: c); by rewrite overwrite_nil|].
    rewrite tot_len_cons in Hl. assert (0 <= tot_len c) by (unfold tot_len; lia).
    remember (Z.min n (len p)) as k eqn:Hk.
    destruct (IH (drop (Z.to_nat k) data) (n - k)) as (c' & -> & Ec); [rewrite length_drop; lia | lia |].
    eexists. split; [done|]. cbn [concat]. rewrite Ec. destruct (Z.le_gt_cases n (len p)).
    + replace (Z.to_nat (n - k)) with O by lia. simpl take. rewrite overwrite_nil.
      rewrite overwrite_app_l by (rewrite ?length_take; lia). repeat f_equal. lia.
    + replace (take (Z.to_nat n) data) with (take (Z.to_nat k) data ++ take (Z.to_nat (n - k)) (drop (Z.to_nat k) data))
        by (rewrite take_take_drop; f_equal; lia).
      rewrite overwrite_app; [done | lia | rewrite length_take; lia |]. rewrite length_take, length_drop. unfold tot_len in Hl. lia.
Qed.

Lemma pbuf_shrink_flat c n : 0 <= n -> n < tot_len c -> exists c', pbuf_shrink c n = Ok c' /\ concat c' = take (Z.to_nat n) (concat c).
Proof.
  revert n. induction c as [|q c IH]; intros n Hn Hl; cbn [pbuf_shrink].
  - change (tot_len []) with 0 in Hl. lia.
  - rewrite tot_len_cons in Hl. destruct (Z.ltb_spec (len q) n).
    + destruct (IH (n - len q)) as (c' & -> & Ec); [lia..|]. eexists. split; [done|]. cbn [concat].
      rewrite Ec, take_app_ge by lia. repeat f_equal. lia.
    + eexists. split; [done|]. cbn [concat]. by rewrite app_nil_r, take_app_le by lia.
Qed.

Lemma wp_pbuf_realloc c n Q : 0 <= n ->
  (forall c', concat c' = take (Z.to_nat n) (concat c) -> Q tt c') -> wp (pbuf_realloc n) Q c.
Proof.
  intros Hn HQ. unfold pbuf_realloc. wp_steps. destruct (Z.leb_spec (tot_len c) n).
  - wp_steps. apply HQ. rewrite take_ge; [done|]. unfold tot_len in *. lia.
  - destruct (pbuf_shrink_flat c n) as (c' & -> & Ec); [lia..|]. wp_steps. by apply HQ.
Qed.

(** Copying one buffer to another that is large enough. *)
Lemma wp_pbuf_copy_single (t f : list Z) Q s : len f <= len t -> Q [overwrite t 0 f] s -> wp (pbuf_copy [t] [f]) Q s.
Proof.
  intros Hl HQ. unfold pbuf_copy. wp_steps.
  apply wp_assert; [apply Z.leb_le; unfold tot_len; simpl; rewrite !app_nil_r; lia|].
  cbn [length Nat.add while_fuel]. apply wp_bind. unfold copy_round. cbn [p_to p_from offset_to offset_from cp_done].
  rewrite !Z.sub_0_r. destruct (Z.leb_spec (len f) (len t)); [|lia].
  rewrite !Z.add_0_l. wp_steps. apply wp_assert; [by apply Z.leb_le|]. wp_steps. apply wp_assert; [apply Z.leb_refl|].
  rewrite Z.leb_refl. replace (take (Z.to_nat (len f)) (drop (Z.to_nat 0) f)) with f by (rewrite Nat2Z.id, drop_0, firstn_all; done).
  destruct (Z.eqb_spec (len f) (len t)); wp_steps; (apply wp_assert; [done|]); wp_steps; (apply wp_assert; [done|]);
    wp_steps; (apply wp_assert; [done|]); wp_steps; exact HQ.
Qed.

(** ** The number of buffers *)

(** Writing keeps the buffers of the chain. *)
Definition keeps_length {A} (m : M chain A) : Prop := forall c a c', m c = Ok (a, c') -> length c' = length c.

Lemma keeps_length_bind {A B} (m : M chain A) (k : A -> M chain B) :
  keeps_length m -> (forall a, keeps_length (k a)) -> keeps_length (bind m k).
Proof.
  intros Hm Hk c b c'. unfold bind. destruct (m c) as [[a c1]|] eqn:E; [|done]. intros H.
  rewrite (Hk _ _ _ _ H). by eapply Hm.
Qed.

Lemma keeps_length_ret {A} (a : A) : keeps_length (ret a).
Proof. by intros c ? ? [= <- <-]. Qed.

Lemma take_partial_write_length c data o n c' : take_partial_write c data o n = Ok c' -> length c' = length c.
Proof.
  revert data o n c'. induction c as [|b c IH]; intros data o n c'; cbn [take_partial_write]; destruct (n <=? 0); try done; try congruence.
  destruct (take_partial_write c _ 0 _) as [c1|] eqn:E; [|done]. intros [= <-]. simpl. by erewrite IH.
Qed.

Lemma take_partial_seek_length c data o n c' : take_partial_seek c data o n = Ok c' -> length c' = length c.
Proof.
  revert o c'. induction c as [|b c IH]; intros o c'; cbn [take_partial_seek]; [done|].
  destruct (len b <=? o); [|apply take_partial_write_length].
  destruct (take_partial_seek c _ _ _) as [c1|] eqn:E; [|done]. intros [= <-]. simpl. by erewrite IH.
Qed.

Lemma keeps_length_write data n pos : keeps_length (pb_write data n pos).
Proof.
  apply keeps_length_bind; [|intros a; apply keeps_length_ret]. intros c a c'. unfold pbuf_take_partial.
  destruct (u16 n =? 0); [by intros [= <- <-]|]. unfold bind, get, c_assert, need_data, ret.
  repeat (case_bool; cbn; try done). destruct (take_partial_seek _ _ _ _) as [c1|] eqn:E; [|done]. intros [= <- <-].
  by eapply take_partial_seek_length.
Qed.
#[export] Hint Resolve keeps_length_bind keeps_length_ret keeps_length_write : chain.

(** A packet of one buffer stays one. *)
Lemma wp_single {A} (m : M chain A) b (Q : A -> chain -> Prop) :
  keeps_length m -> wp m Q [b] -> wp m (fun a c => exists b', c = [b'] /\ Q a [b']) [b].
Proof.
  intros Hk. unfold wp. destruct (m [b]) as [[a c]|] eqn:E; [|done]. intros HQ. specialize (Hk _ _ _ E).
  destruct c as [|b' [|]]; try done. eauto.
Qed.

(** ** Reading *)

(** A computation that reads the packet and stops only with faults in [R]. *)
Definition reader {A} (R : fault -> Prop) (m : M chain A) : Prop :=
  forall c, match m c with Ok (_, c') => c' = c | Err f => R f end.

Lemma reader_bind {A B} R (m : M chain A) (k : A -> M chain B) :
  reader R m -> (forall a, reader R (k a)) -> reader R (bind m k).
Proof.
  intros Hm Hk c. unfold bind. specialize (Hm c). destruct (m c) as [[a c']|]; [|done]. subst. apply Hk.
Qed.

Lemma reader_pair {A B C} R (m : M chain (A * B)) (k : A -> B -> M chain C) :
  reader R m -> (forall a b, reader R (k a b)) -> reader R (let! (a, b) := m in k a b).
Proof. intros Hm Hk. apply reader_bind; [done|]. by intros [a b]. Qed.

Lemma reader_ret {A} R (a : A) : reader R (ret a).
Proof. done. Qed.

Lemma reader_assert (R : fault -> Prop) b : R FAssert -> reader R (c_assert b).
Proof. intros HR c. by destruct b. Qed.

Lemma reader_read (R : fault -> Prop) cap n pos : R FAssert -> u16 n <= cap -> reader R (pb_read cap n pos).
Proof.
  intros HR Hcap c. unfold pb_read, bind, get, c_assert, ret, fail.
  destruct (pos <=? tot_len c); [|done]. destruct (pos + n <=? tot_len c); [|done].
  destruct (Z.leb_spec (len (pbuf_copy_partial c (u16 n) (u16 pos))) cap) as [|H]; [by destruct (n =? _)|].
  exfalso. rewrite pbuf_copy_partial_flat, length_take in H by apply u16_nonneg. pose proof (u16_nonneg n). lia.
Qed.

Lemma reader_readl (R : fault -> Prop) pos : R FAssert -> reader R (pb_readl pos).
Proof. intros HR. apply reader_pair; [by apply reader_read | done]. Qed.

(** ** Encoders *)

(** [m] writes [bytes] at a position that is a multiple of 4. *)
Definition encodes (m : Z -> M chain Z) (bytes : list Z) : Prop :=
  (forall pos, keeps_length (m pos)) /\
  forall c l, starts c l -> len l mod 4 = 0 -> len l + len bytes <= tot_len c < 2 ^ 16 ->
    wp (m (len l)) (fun pos c' => starts c' (l ++ bytes) /\ tot_len c' = tot_len c /\ pos = len (l ++ bytes)) c.

Lemma encodes_write data : encodes (pb_write data (len data)) data.
Proof. split; [intros; apply keeps_length_write|]. intros c l Hs _ Hl. by apply wp_pb_write_all. Qed.

Lemma encodes_take data n : 0 <= n <= len data -> encodes (pb_write data n) (take (Z.to_nat n) data).
Proof.
  intros Hn. split; [intros; apply keeps_length_write|]. intros c l Hs _ Hl. rewrite length_take in Hl.
  apply wp_pb_write; [done | done | lia |]. intros c' H1 H2. split; [done|]. split; [done|]. rewrite length_app, length_take. lia.
Qed.

Lemma encodes_arrl arr : encodes (pb_write_arrl arr) (xdr_longs arr).
Proof.
  split; [intros; apply keeps_length_write|]. intros c l Hs _ Hl. rewrite length_xdr_longs in Hl. by apply wp_pb_write_arrl.
Qed.

Lemma encodes_str str : encodes (pb_write_str str (len str)) (xdr_str str).
Proof.
  split; [intros pos; unfold pb_write_str, pb_write_arrl; eauto 10 with chain|]. intros c l Hs Ha Hl. by apply wp_pb_write_str.
Qed.

Lemma encodes_bind m1 m2 bytes1 bytes2 : len bytes1 mod 4 = 0 ->
  encodes m1 bytes1 -> encodes m2 bytes2 -> encodes (fun pos => pos <- m1 pos ;; m2 pos) (bytes1 ++ bytes2).
Proof.
  intros H4 [K1 W1] [K2 W2]. split; [auto with chain|]. intros c l Hs Ha Hl. rewrite length_app in Hl. wp_steps.
  eapply wp_mono; [apply W1; [done | done | lia]|]. intros pos c1 (S1 & T1 & ->).
  assert (len (l ++ bytes1) mod 4 = 0) by (rewrite length_app; Z.to_euclidean_division_equations; lia).
  eapply wp_mono; [apply W2; [done | done | rewrite length_app; lia]|]. intros pos c2 (S2 & T2 & ->).
  rewrite <- app_assoc in *. split; [done|]. split; [congruence | done].
Qed.

(** An encoder on a packet of one buffer. *)
Lemma encodes_single m bytes b l post :
  encodes m bytes -> b = l ++ post -> len l mod 4 = 0 -> len l + len bytes <= len b < 2 ^ 16 ->
  wp (m (len l)) (fun pos c => exists b' post', c = [b'] /\ b' = (l ++ bytes) ++ post' /\ len b' = len b /\ pos = len (l ++ bytes)) [b].
Proof.
  intros [K W] E Ha Hl. assert (tot_len [b] = len b) as Et by (unfold tot_len; simpl; by rewrite app_nil_r).
  eapply wp_mono; [apply wp_single; [apply K|apply W]|].
  - exists post. simpl. by rewrite app_nil_r.
  - done.
  - by rewrite Et.
  - intros pos c' (b' & -> & (post' & E') & Ht & ->). exists b', post'. rewrite Et in Ht.
    unfold tot_len in Ht. cbn [concat] in *. rewrite app_nil_r in *. done.
Qed.
