(* ===== verification/Rpc.v ===== *)
(** * Rpc: remote procedure calls

    Models libs/libnfs/src/rpc.c and libs/libnfs/src/time.c: transaction
    numbers, the queue of calls that wait for their reply, sending,
    retransmission, the dispatch of replies, blocking calls, headers, and the
    sockets they use.  The function a client gives with a call is a tag of type
    [F]; what the tags run is a parameter. *)

From S2P Require Import Prelude Pbuf.

Definition SRPC_VERSION : Z := 2.
Definition AUTH_STAMP : Z := 37.
Definition ROOT : Z := 0.
(** The characters of [boggo]. *)
Definition NFS_MACHINE_NAME : list Z := [98; 111; 103; 103; 111].
Definition CALL_TIMEOUT_MS : Z := 10.
Definition CALL_RETRIES : Z := 5.
Definition ROOT_PORT_MIN : Z := 45.
Definition ROOT_PORT_MAX : Z := 1024.
Definition UDP_PAYLOAD : Z := 1400.
Definition RETRANSMIT_DELAY_MS : Z := 500.
Definition AUTH_NULL : Z := 0.
Definition AUTH_UNIX : Z := 1.
Definition SUCCESS : Z := 0.
Definition MSG_CALL : Z := 0.
Definition MSG_REPLY : Z := 1.
Definition MSG_ACCEPTED : Z := 0.

Definition RPC_OK : Z := 0.
Definition RPCERR_NOMEM : Z := 1.
Definition RPCERR_NOBUF : Z := 2.
Definition RPCERR_COMM : Z := 3.
Definition RPCERR_NOSUP : Z := 4.

Definition RPCERR_OK : Z := 0.
Definition RPCERR_BAD_MSG : Z := -1.
Definition RPCERR_NOT_ACCEPTED : Z := -2.
Definition RPCERR_FAILURE : Z := -3.

Definition TIME_PORT : Z := 37.
Definition TIME_RETRIES : Z := 5.
Definition TIME_RETRY_TO_US : Z := 10000.
Definition TIME_DELAY_US : Z := 1000.

(** The functions registered with [udp_recv]. *)
Inductive recv_fn := MyRecv | TimeRecv.
Record udp_pcb := UdpPcb { recv : recv_fn; local_port : Z; remote_ip : Z; remote_port : Z }.

Inductive port_type := PORT_ANY | PORT_ROOT.

(** The function of a queued call: one of the client, or [rpc_call_cb]. *)
Inductive queue_fn F := Direct (f : F) | RpcCallCb.
Arguments Direct {F}.
Arguments RpcCallCb {F}.

Record rpc_queue F := RpcQueue {
  q_pcb : Z;
  q_pbuf : Z;
  q_xid : Z;
  q_timeout : Z;
  q_next : Z;
  q_func : queue_fn F;
  q_callback : Z;
  q_arg : Z
}.
Arguments RpcQueue {F}.
Arguments q_pcb {F}.
Arguments q_pbuf {F}.
Arguments q_xid {F}.
Arguments q_timeout {F}.
Arguments q_next {F}.
Arguments q_func {F}.
Arguments q_callback {F}.
Arguments q_arg {F}.

Record rpc_call_arg F := RpcCallArg { ca_func : F; ca_token : Z; ca_callback : Z; complete : bool }.
Arguments RpcCallArg {F}.
Arguments ca_func {F}.
Arguments ca_token {F}.
Arguments ca_callback {F}.
Arguments complete {F}.

(** The network below: whether memory is available, what new packet memory
    contains, the outcome of sending and binding, and the packets that arrive
    while the system waits, each with the socket it is for. *)
Class Net (N : Type) := {
  mem_ok : N -> bool * N;
  garbage : nat -> N -> list Z;
  length_garbage n x : length (garbage n x) = n;
  udp_output : udp_pcb -> list Z -> N -> Z * N;
  bind_ok : Z -> N -> bool * N;
  arrivals : N -> list (Z * chain) * N
}.

(** The objects the clients pass to their functions: locals of the blocking
    calls ([None] where a variable is not set yet) and the wrapper of a write. *)
Inductive token_obj :=
  | PortToken (port : option Z)
  | ExportsToken (err : option Z)
  | MountToken (stat : Z) (fh : list Z)
  | WriteToken (token count : Z).

(** The static variables and the heap objects of the library. *)
Record rpc (F N : Type) := Rpc {
  net : N;
  pbufs : gmap Z chain;
  items : gmap Z (rpc_queue F);
  queue : Z;
  cur_xid : Z;
  call_args : gmap Z (rpc_call_arg F);
  pcbs : gmap Z udp_pcb;
  root_port : Z;
  utc1900_seconds : Z;
  tokens : gmap Z token_obj;
  _nfs_pcb : Z
}.
Arguments Rpc {F N}.
Arguments net {F N}.
Arguments pbufs {F N}.
Arguments items {F N}.
Arguments queue {F N}.
Arguments cur_xid {F N}.
Arguments call_args {F N}.
Arguments pcbs {F N}.
Arguments root_port {F N}.
Arguments utc1900_seconds {F N}.
Arguments tokens {F N}.
Arguments _nfs_pcb {F N}.

Section setters.
Context {F N : Type}.
Definition set_net x (s : rpc F N) : rpc F N :=
  Rpc x (pbufs s) (items s) (queue s) (cur_xid s) (call_args s) (pcbs s) (root_port s) (utc1900_seconds s) (tokens s) (_nfs_pcb s).
Definition set_pbufs x (s : rpc F N) : rpc F N :=
  Rpc (net s) x (items s) (queue s) (cur_xid s) (call_args s) (pcbs s) (root_port s) (utc1900_seconds s) (tokens s) (_nfs_pcb s).
Definition set_items x (s : rpc F N) : rpc F N :=
  Rpc (net s) (pbufs s) x (queue s) (cur_xid s) (call_args s) (pcbs s) (root_port s) (utc1900_seconds s) (tokens s) (_nfs_pcb s).
Definition set_queue x (s : rpc F N) : rpc F N :=
  Rpc (net s) (pbufs s) (items s) x (cur_xid s) (call_args s) (pcbs s) (root_port s) (utc1900_seconds s) (tokens s) (_nfs_pcb s).
Definition set_cur_xid x (s : rpc F N) : rpc F N :=
  Rpc (net s) (pbufs s) (items s) (queue s) x (call_args s) (pcbs s) (root_port s) (utc1900_seconds s) (tokens s) (_nfs_pcb s).
Definition set_call_args x (s : rpc F N) : rpc F N :=
  Rpc (net s) (pbufs s) (items s) (queue s) (cur_xid s) x (pcbs s) (root_port s) (utc1900_seconds s) (tokens s) (_nfs_pcb s).
Definition set_pcbs x (s : rpc F N) : rpc F N :=
  Rpc (net s) (pbufs s) (items s) (queue s) (cur_xid s) (call_args s) x (root_port s) (utc1900_seconds s) (tokens s) (_nfs_pcb s).
Definition set_root_port x (s : rpc F N) : rpc F N :=
  Rpc (net s) (pbufs s) (items s) (queue s) (cur_xid s) (call_args s) (pcbs s) x (utc1900_seconds s) (tokens s) (_nfs_pcb s).
Definition set_utc x (s : rpc F N) : rpc F N :=
  Rpc (net s) (pbufs s) (items s) (queue s) (cur_xid s) (call_args s) (pcbs s) (root_port s) x (tokens s) (_nfs_pcb s).
Definition set_tokens x (s : rpc F N) : rpc F N :=
  Rpc (net s) (pbufs s) (items s) (queue s) (cur_xid s) (call_args s) (pcbs s) (root_port s) (utc1900_seconds s) x (_nfs_pcb s).
Definition set_nfs_pcb x (s : rpc F N) : rpc F N :=
  Rpc (net s) (pbufs s) (items s) (queue s) (cur_xid s) (call_args s) (pcbs s) (root_port s) (utc1900_seconds s) (tokens s) x.
Definition set_next x (q : rpc_queue F) := RpcQueue (q_pcb q) (q_pbuf q) (q_xid q) (q_timeout q) x (q_func q) (q_callback q) (q_arg q).
Definition set_timeout x (q : rpc_queue F) := RpcQueue (q_pcb q) (q_pbuf q) (q_xid q) x (q_next q) (q_func q) (q_callback q) (q_arg q).
Definition set_complete (c : rpc_call_arg F) := RpcCallArg (ca_func c) (ca_token c) (ca_callback c) true.
End setters.

Section rpc.
Context {F N : Type} `{!Net N}.
Local Abbreviation S := (rpc F N).

Definition ncall {A} (f : N -> A * N) : M S A := fun s => let '(a, x) := f (net s) in Ok (a, set_net x s).

(** *** Packets *)

Definition on_pbuf {A} (p : Z) (m : M chain A) : M S A :=
  s <- get ;;
  match pbufs s !! p with
  | None => fail FNull
  | Some c =>
      r <- run_on m c ;;
      let '(a, c') := r in
      modify (set_pbufs (<[p := c']> (pbufs s))) ;;; ret a
  end.

(** [pbuf_alloc(PBUF_TRANSPORT, length, PBUF_RAM)]: one buffer. *)
Definition pbuf_alloc (n : Z) : M S Z :=
  ok <- ncall mem_ok ;;
  if negb ok then ret 0
  else
    s <- get ;;
    let p := new_ptr (pbufs s) in
    put (set_pbufs (<[p := [garbage (Z.to_nat (u16 n)) (net s)]]> (pbufs s)) s) ;;; ret p.

(** The packets of this library are held by one pointer. *)
Definition pbuf_free (p : Z) : M S unit :=
  s <- get ;;
  c_assert (negb (p =? 0)) ;;;
  match pbufs s !! p with
  | None => fail FNull
  | Some _ => put (set_pbufs (delete p (pbufs s)) s)
  end.

Definition pbuf_bytes (p : Z) : M S chain := on_pbuf p get.

(** *** Sockets *)

Definition the_pcb (pcb : Z) : M S udp_pcb :=
  s <- get ;; match pcbs s !! pcb with None => fail FNull | Some x => ret x end.

Definition udp_send (pcb p : Z) : M S Z :=
  x <- the_pcb pcb ;;
  c <- pbuf_bytes p ;;
  ncall (udp_output x (concat c)).

Definition udp_new : M S Z :=
  ok <- ncall mem_ok ;;
  if negb ok then ret 0
  else
    s <- get ;;
    let p := new_ptr (pcbs s) in
    put (set_pcbs (<[p := UdpPcb MyRecv 0 0 0]> (pcbs s)) s) ;;; ret p.

Definition upd_pcb (pcb : Z) (f : udp_pcb -> udp_pcb) : M S unit :=
  x <- the_pcb pcb ;; modify (fun s => set_pcbs (<[pcb := f x]> (pcbs s)) s).
Definition udp_recv (pcb : Z) (fn : recv_fn) : M S unit :=
  upd_pcb pcb (fun x => UdpPcb fn (local_port x) (remote_ip x) (remote_port x)).
(** The result of [udp_bind] is not used by the callers. *)
Definition udp_bind (pcb port : Z) : M S unit :=
  ok <- ncall (bind_ok port) ;;
  if ok then upd_pcb pcb (fun x => UdpPcb (recv x) (u16 port) (remote_ip x) (remote_port x)) else ret tt.
Definition udp_connect (pcb ip port : Z) : M S unit :=
  upd_pcb pcb (fun x => UdpPcb (recv x) (local_port x) ip (u16 port)).
Definition udp_remove (pcb : Z) : M S unit :=
  _x <- the_pcb pcb ;; modify (fun s => set_pcbs (delete pcb (pcbs s)) s).

(** *** Sending *)

(** [pbuf_copy] fails only through [LWIP_ERROR], which asserts before it returns
    the error (and the new packet is as long as the old one), so the branch that
    frees the copy and returns this error is never taken. *)
Definition my_udp_send (pcb pbuf : Z) : M S Z :=
  c <- pbuf_bytes pbuf ;;
  p <- pbuf_alloc (tot_len c) ;;
  if p =? 0 then ret RPCERR_NOBUF
  else
    to <- pbuf_bytes p ;;
    r <- run_on (pbuf_copy to c) tt ;;
    on_pbuf p (put r.1) ;;;
    err <- udp_send pcb p ;;
    pbuf_free p ;;;
    ret (if err =? ERR_MEM then RPCERR_NOMEM else if err =? ERR_RTE then RPCERR_COMM
         else if err =? ERR_OK then RPC_OK else err).

(** *** Transaction numbers *)

Definition extract_xid (pbuf : Z) : M S Z := let! (xid, _) := on_pbuf pbuf (pb_readl 0) in ret xid.
Definition seed_xid (seed : Z) : M S unit := modify (set_cur_xid (u32 (seed * 10000))).
Definition get_xid : M S Z :=
  modify (fun s => set_cur_xid (u32 (cur_xid s + 1)) s) ;;; gets cur_xid.

(** *** The queue *)

Definition item (q : Z) : M S (rpc_queue F) :=
  s <- get ;; match items s !! q with None => fail FNull | Some x => ret x end.
Definition set_item (q : Z) (x : rpc_queue F) : M S unit := modify (fun s => set_items (<[q := x]> (items s)) s).

(** The walks over the queue visit every item at most once. *)
Definition queue_fuel : M S nat := s <- get ;; ret (Datatypes.S (size (items s))).

Definition rpc_timeout (ms : Z) : M S unit :=
  fuel <- queue_fuel ;;
  q <- gets queue ;;
  while_fuel fuel (fun q_item =>
    if q_item =? 0 then ret (inr tt)
    else
      x <- item q_item ;;
      set_item q_item (set_timeout (i32 (q_timeout x + ms)) x) ;;;
      (if RETRANSMIT_DELAY_MS <? i32 (q_timeout x + ms) then
         e <- my_udp_send (q_pcb x) (q_pbuf x) ;;
         if e =? 0 then set_item q_item (set_timeout 0 x) else ret tt
       else ret tt) ;;;
      x <- item q_item ;;
      ret (inl (q_next x))) q.

Definition add_to_queue (pbuf pcb : Z) (func : queue_fn F) (callback arg : Z) : M S unit :=
  ok <- ncall mem_ok ;;
  c_assert ok ;;;
  xid <- extract_xid pbuf ;;
  s <- get ;;
  let q_item := new_ptr (items s) in
  set_item q_item (RpcQueue pcb pbuf xid 0 0 func callback arg) ;;;
  if queue s =? 0 then modify (set_queue q_item)
  else
    fuel <- queue_fuel ;;
    tmp <- while_fuel fuel (fun tmp =>
      x <- item tmp ;; ret (if negb (q_next x =? 0) then inl (q_next x) else inr tmp)) (queue s) ;;
    x <- item tmp ;;
    set_item tmp (set_next q_item x).

Definition get_from_queue (xid : Z) : M S Z :=
  fuel <- queue_fuel ;;
  q <- gets queue ;;
  let! (tmp, last) := while_fuel fuel (fun v =>
    let '(tmp, last) := v in
    if tmp =? 0 then ret (inr v)
    else x <- item tmp ;; ret (if negb (q_xid x =? xid) then inl (q_next x, tmp) else inr v)) (q, 0) in
  if tmp =? 0 then ret 0
  else
    x <- item tmp ;;
    (if last =? 0 then modify (set_queue (q_next x))
     else y <- item last ;; set_item last (set_next (q_next x) y)) ;;;
    ret tmp.

Definition free_item (q : Z) : M S unit :=
  _x <- item q ;; modify (fun s => set_items (delete q (items s)) s).

Definition rpc_send (pbuf n pcb : Z) (func : queue_fn F) (callback token : Z) : M S Z :=
  c_assert (negb (pcb =? 0)) ;;;
  on_pbuf pbuf (pbuf_realloc (u16 n)) ;;;
  err <- my_udp_send pcb pbuf ;;
  (if err =? 0 then add_to_queue pbuf pcb func callback token else pbuf_free pbuf) ;;;
  ret err.
End rpc.

(** *** Headers *)

Definition rpc_read_hdr : M chain (Z * Z) :=
  let! (hdr, pos) := pb_read_arrl 3 0 in
  msg_type <- rd hdr 1 ;;
  reply_stat <- rd hdr 2 ;;
  if negb (msg_type =? MSG_REPLY) then ret (RPCERR_BAD_MSG, pos)
  else if negb (reply_stat =? MSG_ACCEPTED) then
    let! (err, pos) := pb_readl pos in
    if err =? 1 then let! (_, pos) := pb_readl pos in ret (RPCERR_NOT_ACCEPTED, pos)
    else ret (RPCERR_NOT_ACCEPTED, pos)
  else
    let! (auth, pos) := pb_read_arrl 2 pos in
    flavour <- rd auth 0 ;;
    c_assert (flavour =? AUTH_NULL) ;;;
    let! (auth_stat, pos) := pb_readl pos in
    ret ((if auth_stat =? SUCCESS then RPCERR_OK else RPCERR_FAILURE), pos).

Definition cred_size : Z := ROUNDUP (4 + 4 + len NFS_MACHINE_NAME + 12) 4.

(** The header of a call; the result is the position after it. *)
Definition rpc_write_hdr (xid prog vers proc : Z) : M chain Z :=
  pos <- pb_write_arrl [xid; MSG_CALL; SRPC_VERSION; prog; vers; proc] 0 ;;
  pos <- pb_write_arrl [AUTH_UNIX; cred_size] pos ;;
  pos <- pb_writel AUTH_STAMP pos ;;
  pos <- pb_write_str NFS_MACHINE_NAME (len NFS_MACHINE_NAME) pos ;;
  pos <- pb_write_arrl [ROOT; ROOT; ROOT] pos ;;
  pb_write_arrl [AUTH_NULL; 0] pos.

Section transport.
Context {F N : Type} `{!Net N}.
Local Abbreviation S := (rpc F N).

(** The packet and the position after the header; address 0 is the null
    pointer. *)
Definition rpcpbuf_init (prognum vernum procnum : Z) : M S (Z * Z) :=
  pbuf <- pbuf_alloc UDP_PAYLOAD ;;
  if pbuf =? 0 then ret (0, 0)
  else
    xid <- get_xid ;;
    pos <- on_pbuf pbuf (rpc_write_hdr xid prognum vernum procnum) ;;
    ret (pbuf, pos).

Definition rpc_new_udp (server remote_port : Z) (local_port : port_type) : M S Z :=
  pcb <- udp_new ;;
  c_assert (negb (pcb =? 0)) ;;;
  udp_recv pcb MyRecv ;;;
  (match local_port with
   | PORT_ROOT =>
       s <- get ;;
       (if (ROOT_PORT_MAX <=? root_port s) || (root_port s <? ROOT_PORT_MIN)
        then modify (set_root_port ROOT_PORT_MIN) else ret tt) ;;;
       s <- get ;;
       modify (set_root_port (root_port s + 1)) ;;;
       udp_bind pcb (root_port s)
   | PORT_ANY => ret tt
   end) ;;;
  udp_connect pcb server remote_port ;;;
  ret pcb.

(** *** Replies *)

(** What the functions of the clients do: [func(callback, arg, pbuf)]. *)
Context (func : F -> Z -> Z -> Z -> M S unit).

Definition call_arg (a : Z) : M S (rpc_call_arg F) :=
  s <- get ;; match call_args s !! a with None => fail FNull | Some x => ret x end.

Definition rpc_call_cb (token pbuf : Z) : M S unit :=
  c_assert (negb (token =? 0)) ;;;
  c <- call_arg token ;;
  func (ca_func c) (ca_callback c) (ca_token c) pbuf ;;;
  c <- call_arg token ;;
  modify (fun s => set_call_args (<[token := set_complete c]> (call_args s)) s).

Definition func_call (f : queue_fn F) (callback arg pbuf : Z) : M S unit :=
  match f with
  | Direct f => func f callback arg pbuf
  | RpcCallCb => rpc_call_cb arg pbuf
  end.

Definition my_recv (p : Z) : M S unit :=
  xid <- extract_xid p ;;
  q_item <- get_from_queue xid ;;
  (if negb (q_item =? 0) then
     x <- item q_item ;;
     func_call (q_func x) (q_callback x) (q_arg x) p ;;;
     x <- item q_item ;;
     pbuf_free (q_pbuf x) ;;;
     free_item q_item
   else ret tt) ;;;
  pbuf_free p.

Definition time_recv (p : Z) : M S unit :=
  let! (t, _) := on_pbuf p (pb_readl 0) in
  modify (set_utc t) ;;;
  pbuf_free p.

(** A packet that arrives is handed to the function of its socket; a packet
    for no socket is dropped. *)
Definition udp_input (a : Z * chain) : M S unit :=
  s <- get ;;
  match pcbs s !! a.1 with
  | None => ret tt
  | Some x =>
      let p := new_ptr (pbufs s) in
      put (set_pbufs (<[p := a.2]> (pbufs s)) s) ;;;
      match recv x with MyRecv => my_recv p | TimeRecv => time_recv p end
  end.

Fixpoint input_all (l : list (Z * chain)) : M S unit :=
  match l with
  | [] => ret tt
  | a :: l' => udp_input a ;;; input_all l'
  end.

(** [sos_usleep]: the system spins and then handles pending network traffic. *)
Definition _usleep : M S unit := l <- ncall arrivals ;; input_all l.

(** *** Blocking calls *)

(** The rounds of the wait: [time_out] runs from 3000 down in steps of 10. *)
Definition call_rounds : nat := Z.to_nat ((RETRANSMIT_DELAY_MS * (CALL_RETRIES + 1)) / CALL_TIMEOUT_MS + 2).

(** The argument lives on the stack of the function: it is gone when the
    function returns. *)
Definition rpc_call (pbuf pcb : Z) (f : F) (callback token : Z) : M S Z :=
  c_assert (negb (pcb =? 0)) ;;;
  c_assert (negb (pbuf =? 0)) ;;;
  s <- get ;;
  let arg := new_ptr (call_args s) in
  modify (fun s => set_call_args (<[arg := RpcCallArg f token callback false]> (call_args s)) s) ;;;
  xid <- extract_xid pbuf ;;
  c <- pbuf_bytes pbuf ;;
  stat <- rpc_send pbuf (tot_len c) pcb RpcCallCb 0 arg ;;
  r <- (if negb (stat =? 0) then ret stat
        else
          while_fuel call_rounds (fun time_out =>
            if 0 <=? time_out then
              _usleep ;;;
              c <- call_arg arg ;;
              if complete c then ret (inr 0)
              else rpc_timeout CALL_TIMEOUT_MS ;;; ret (inl (time_out - CALL_TIMEOUT_MS))
            else
              q_item <- get_from_queue xid ;;
              c_assert (negb (q_item =? 0)) ;;;
              x <- item q_item ;;
              pbuf_free (q_pbuf x) ;;;
              free_item q_item ;;;
              ret (inr RPCERR_COMM)) (RETRANSMIT_DELAY_MS * (CALL_RETRIES + 1))) ;;
  modify (fun s => set_call_args (delete arg (call_args s)) s) ;;;
  ret r.

(** *** time.c *)

Definition time_wait : M S unit :=
  while_fuel (Datatypes.S (Z.to_nat (TIME_RETRY_TO_US / TIME_DELAY_US))) (fun cnt_out =>
    s <- get ;;
    if (utc1900_seconds s =? 0) && (cnt_out <? TIME_RETRY_TO_US)
    then _usleep ;;; ret (inl (cnt_out + TIME_DELAY_US)) else ret (inr tt)) 0.

Definition udp_time_get (server : Z) : M S Z :=
  time_pcb <- udp_new ;;
  if time_pcb =? 0 then ret 0
  else
    udp_recv time_pcb TimeRecv ;;;
    udp_connect time_pcb server TIME_PORT ;;;
    modify (set_utc 0) ;;;
    while_fuel (Datatypes.S (Z.to_nat (TIME_RETRIES + 1))) (fun retry_count =>
      s <- get ;;
      if (utc1900_seconds s =? 0) && (0 <=? retry_count) then
        pbuf <- pbuf_alloc 0 ;;
        c_assert (negb (pbuf =? 0)) ;;;
        err <- udp_send time_pcb pbuf ;;
        if negb (err =? 0) then ret (inr tt)
        else pbuf_free pbuf ;;; time_wait ;;; ret (inl (retry_count - 1))
      else ret (inr tt)) TIME_RETRIES ;;;
    udp_remove time_pcb ;;;
    gets utc1900_seconds.

Definition init_rpc (server : Z) : M S bool :=
  time <- udp_time_get server ;;
  seed_xid time ;;;
  ret (time =? 0).
End transport.
