(* ===== verification/RpcProofs.v ===== *)
(** * RpcProofs: the queue of calls

    The invariant of the queue of file Rpc, with the list of the calls that
    wait for their reply as the abstract state, and what the operations on the
    queue and the sending of packets do to it. *)

From S2P Require Import Prelude Partial Pbuf Rpc.

Section queue.
Context {F N : Type} `{!Net N}.
Local Abbreviation S := (rpc F N).
Implicit Types (s : rpc F N) (m : gmap Z (rpc_queue F)) (l : list (Z * rpc_queue F)) (x : rpc_queue F).

(** The items from [p] to [q], with their addresses.  The link of an item is
    not part of its value in the list. *)
Fixpoint lseg m (p : Z) l (q : Z) : Prop :=
  match l with
  | [] => p = q
  | (a, x) :: l' => a = p /\ p <> 0 /\ exists n, m !! p = Some (set_next n x) /\ lseg m n l' q
  end.

Lemma lseg_app m p l1 l2 q : lseg m p (l1 ++ l2) q <-> exists n, lseg m p l1 n /\ lseg m n l2 q.
Proof.
  revert p. induction l1 as [|[a x] l1 IH]; intros p; simpl.
  - split; [eauto|]. by intros (n & -> & H).
  - setoid_rewrite IH. naive_solver.
Qed.

Lemma lseg_ext m m' p l q : (forall a, a ∈ l.*1 -> m' !! a = m !! a) -> lseg m p l q -> lseg m' p l q.
Proof.
  revert p. induction l as [|[a x] l IH]; intros p Heq; simpl; [done|].
  intros (-> & Hp & n & Hm & Hl). split; [done|]. split; [done|]. exists n. rewrite Heq by (simpl; set_solver).
  split; [done|]. apply IH; [|done]. intros b Hb. apply Heq. simpl. set_solver.
Qed.

Lemma lseg_insert m p l q a x : a ∉ l.*1 -> lseg m p l q -> lseg (<[a := x]> m) p l q.
Proof. intros Ha. apply lseg_ext. intros b Hb. apply lookup_insert_ne. set_solver. Qed.

Lemma lseg_delete m p l q a : a ∉ l.*1 -> lseg m p l q -> lseg (delete a m) p l q.
Proof. intros Ha. apply lseg_ext. intros b Hb. apply lookup_delete_ne. set_solver. Qed.

Lemma lseg_dom m p l q a : lseg m p l q -> a ∈ l.*1 -> a <> 0 /\ is_Some (m !! a).
Proof.
  revert p. induction l as [|[b x] l IH]; intros p; simpl; [set_solver|].
  intros (-> & Hp & n & Hm & Hl) [->|Ha]%elem_of_cons; [eauto | by eapply IH].
Qed.

Lemma lseg_size m p l q : lseg m p l q -> NoDup l.*1 -> (length l <= size m)%nat.
Proof.
  intros Hl Hn. rewrite <- (length_fmap fst l), <- (size_list_to_set (C := gset Z)), <- (size_dom m) by done.
  apply subseteq_size. intros a Ha%elem_of_list_to_set. apply elem_of_dom. by eapply lseg_dom.
Qed.

(** Changing the link of the last item. *)
Lemma lseg_relink m p l a x q q' :
  NoDup (l ++ [(a, x)]).*1 -> lseg m p (l ++ [(a, x)]) q -> lseg (<[a := set_next q' x]> m) p (l ++ [(a, x)]) q'.
Proof.
  intros Hn (n & H1 & H2)%lseg_app. simpl in H2. destruct H2 as (-> & Hp & k & Hm & ->).
  rewrite fmap_app in Hn. simpl in Hn. apply NoDup_app in Hn as (_ & Hn & _).
  apply lseg_app. exists n. split; [apply lseg_insert; [|done]; set_solver|]. simpl.
  split; [done|]. split; [done|]. exists q'. by rewrite lookup_insert_eq.
Qed.

(** ** The invariant *)

(** A call that waits: its packet is there and starts with its number, its
    socket is open, and the argument of a blocking call is on the stack. *)
Definition call_ok s x : Prop :=
  is_u32 (q_xid x) /\ 0 < q_pbuf x /\
  (exists b post, pbufs s !! q_pbuf x = Some [b] /\ len b < 2 ^ 16 /\ b = xdr_longs [q_xid x] ++ post) /\
  is_Some (pcbs s !! q_pcb x) /\
  (q_func x = RpcCallCb -> 0 < q_arg x /\ is_Some (call_args s !! q_arg x)).

Definition calls_ok s l : Prop :=
  NoDup l.*1 /\ NoDup ((fun ax => q_pbuf ax.2) <$> l) /\ Forall (fun ax => call_ok s ax.2) l.

Definition wf s l : Prop := lseg (items s) (queue s) l 0 /\ calls_ok s l.

Lemma calls_ok_sublist s l l' : sublist l' l -> calls_ok s l -> calls_ok s l'.
Proof.
  intros Hs (H1 & H2 & H3). split; [|split].
  - eapply sublist_NoDup; [exact H1|]. by apply fmap_sublist.
  - eapply sublist_NoDup; [exact H2|]. by apply fmap_sublist.
  - rewrite Forall_forall in *. intros ax Hax. apply H3. eapply elem_of_submseteq; [done|]. by apply sublist_submseteq.
Qed.

Lemma call_ok_heaps s s' x :
  (forall b, pbufs s !! q_pbuf x = Some b -> pbufs s' !! q_pbuf x = Some b) ->
  (is_Some (pcbs s !! q_pcb x) -> is_Some (pcbs s' !! q_pcb x)) ->
  (is_Some (call_args s !! q_arg x) -> is_Some (call_args s' !! q_arg x)) ->
  call_ok s x -> call_ok s' x.
Proof.
  intros H1 H2 H3 (Hx & H0 & (b & post & Hb & Hl & E) & Hp & Hc). split; [done|]. split; [done|]. split; [|split; [by apply H2|]].
  - exists b, post. eauto.
  - intros Hf. destruct (Hc Hf). eauto.
Qed.

Lemma wf_heaps s s' l :
  pbufs s' = pbufs s -> pcbs s' = pcbs s -> call_args s' = call_args s -> calls_ok s l -> calls_ok s' l.
Proof.
  intros E1 E2 E3 (H1 & H2 & H3). split; [done|]. split; [done|]. eapply Forall_impl; [exact H3|]. intros ax.
  apply call_ok_heaps; rewrite ?E1, ?E2, ?E3; done.
Qed.

(** ** Taking a call from the queue *)

(** The position of the search: the items passed, the last of them, and the
    items to come. *)
Definition searching s l (xid : Z) (tmp last : Z) l1 l2 : Prop :=
  l = l1 ++ l2 /\ lseg (items s) (queue s) l1 tmp /\ lseg (items s) tmp l2 0 /\
  Forall (fun ax => q_xid ax.2 <> xid) l1 /\
  ((last = 0 /\ l1 = []) \/ exists l1' y, l1 = l1' ++ [(last, y)] /\ last <> 0).

Lemma search_loop s l xid fuel tmp last l1 l2 :
  searching s l xid tmp last l1 l2 -> (length l2 < fuel)%nat ->
  wp (while_fuel fuel (fun v : Z * Z =>
    let '(tmp, last) := v in
    if tmp =? 0 then ret (inr v)
    else x <- item tmp ;; ret (if negb (q_xid x =? xid) then inl (q_next x, tmp) else inr v)) (tmp, last))
  (fun v s' => s' = s /\ exists l1 l2, searching s l xid v.1 v.2 l1 l2 /\
    match l2 with [] => v.1 = 0 | (a, x) :: _ => a = v.1 /\ v.1 <> 0 /\ q_xid x = xid end) s.
Proof.
  revert fuel tmp last l1. induction l2 as [|[a x] l2 IH]; intros [|fuel] tmp last l1 Hs Hf; [simpl in Hf; lia| |simpl in Hf; lia|].
  - pose proof Hs as (_ & _ & Ht & _). simpl in Ht. cbn [while_fuel]. rewrite Ht. cbn [Z.eqb]. wp_steps.
    split; [done|]. rewrite Ht in Hs. by exists l1, [].
  - pose proof Hs as (E & H1 & H2 & Hx & _). simpl in H2. destruct H2 as (-> & Ha & n & Hm & H2).
    cbn [while_fuel]. destruct (Z.eqb_spec tmp 0); [done|]. unfold item. wp_steps. rewrite Hm. wp_steps.
    change (q_xid (set_next n x)) with (q_xid x). change (q_next (set_next n x)) with n.
    destruct (Z.eqb_spec (q_xid x) xid) as [Ex|Ex]; cbn [negb].
    + wp_steps. split; [done|]. by exists l1, ((tmp, x) :: l2).
    + apply (IH fuel n tmp (l1 ++ [(tmp, x)])); [|simpl in Hf; lia].
      split; [by rewrite <- app_assoc|]. split; [apply lseg_app; exists tmp; split; [done|]; simpl; eauto|].
      split; [done|]. split; [apply Forall_app; split; [done|]; by constructor|]. right. eauto.
Qed.

Lemma get_from_queue_run s l xid :
  wf s l ->
  wp (get_from_queue xid) (fun r s' =>
    (r = 0 /\ s' = s /\ Forall (fun ax => q_xid ax.2 <> xid) l) \/
    (exists l1 x l2 m h, l = l1 ++ (r, x) :: l2 /\ q_xid x = xid /\ Forall (fun ax => q_xid ax.2 <> xid) l1 /\ r <> 0 /\
      s' = set_queue h (set_items m s) /\ lseg m h (l1 ++ l2) 0 /\ (exists n, m !! r = Some (set_next n x)))) s.
Proof.
  intros [Hseg (Hnd & _ & _)]. unfold get_from_queue, queue_fuel. wp_steps.
  eapply wp_mono; [apply (search_loop s l xid _ _ _ [] l)|].
  - split; [done|]. split; [done|]. split; [done|]. split; [by constructor | by left].
  - pose proof (lseg_size _ _ _ _ Hseg Hnd). lia.
  - intros [tmp last] s' (-> & l1 & l2 & (E & H1 & H2 & Hx & Hlast) & Hend). simpl in *.
    destruct l2 as [|[a x] l2].
    { rewrite Hend. cbn. left. rewrite app_nil_r in E. by subst. }
    destruct Hend as (-> & Ht & Ex). simpl in H2. destruct H2 as (_ & _ & n & Hm & H2).
    destruct (Z.eqb_spec tmp 0); [done|]. unfold item. wp_steps. rewrite Hm. wp_steps.
    rewrite E, fmap_app in Hnd. simpl in Hnd. apply NoDup_app in Hnd as (Hn1 & Hn12 & Hn2). apply NoDup_cons in Hn2 as [Ht2 Hn2].
    destruct Hlast as [[-> ->]|(l1' & y & -> & Hl0)].
    + cbn. wp_steps. right. exists [], x, l2, (items s), n. simpl in *. split_and!; try done; by eauto || destruct s.
    + destruct (Z.eqb_spec last 0); [done|]. wp_steps.
      pose proof H1 as (k & H1a & H1b)%lseg_app. simpl in H1b. destruct H1b as (<- & _ & n' & Hy & ->). rewrite Hy.
      wp_steps. unfold set_item. wp_steps. change (set_next n (set_next tmp y)) with (set_next n y).
      change (q_next (set_next n x)) with n.
      right. exists (l1' ++ [(last, y)]), x, l2, (<[last := set_next n y]> (items s)), (queue s).
      assert (last ∈ (l1' ++ [(last, y)]).*1) as Hin by (rewrite fmap_app; set_solver).
      split_and!; try done.
      * apply lseg_app. exists n. split; [by apply (lseg_relink _ _ _ _ _ tmp)|].
        apply lseg_insert; [|done]. intros Hc. apply (Hn12 last Hin). set_solver.
      * exists n. rewrite lookup_insert_ne; [done|]. intros ->. apply (Hn12 tmp Hin). set_solver.
Qed.

(** ** Adding a call *)

(** The last item of the walk. *)
Lemma last_item m p l x a q : lseg m p (l ++ [(a, x)]) q -> m !! a = Some (set_next q x).
Proof. intros (n & _ & H)%lseg_app. simpl in H. by destruct H as (-> & _ & k & Hm & ->). Qed.

Lemma walk_loop s p l a x fuel :
  lseg (items s) p (l ++ [(a, x)]) 0 -> (length l < fuel)%nat ->
  wp (while_fuel fuel (fun tmp : Z =>
    y <- item tmp ;; ret (if negb (q_next y =? 0) then inl (q_next y) else inr tmp)) p)
  (fun r s' => r = a /\ s' = s) s.
Proof.
  revert p fuel. induction l as [|[b y] l IH]; intros p [|fuel] Hl Hf; try (simpl in Hf; lia); simpl in Hl;
    destruct Hl as (-> & Hp & n & Hm & Hl); cbn [while_fuel]; unfold item; wp_steps; rewrite Hm; wp_steps;
    change (q_next (set_next n _)) with n.
  - rewrite Hl. by wp_steps.
  - assert (n <> 0) by (intros ->; destruct l as [|[]]; simpl in Hl; naive_solver).
    destruct (Z.eqb_spec n 0); [done|]. cbn [negb]. apply IH; [done | simpl in Hf; lia].
Qed.

Lemma wpf_ncall {A} R (f : N -> A * N) (Q : A -> S -> Prop) s :
  Q (f (net s)).1 (set_net (f (net s)).2 s) -> wpf R (ncall f) Q s.
Proof. unfold wpf, ncall. by destruct (f (net s)). Qed.

Lemma wpf_on_pbuf {A} R p (m : M chain A) c Q s :
  pbufs s !! p = Some c -> wpf R m (fun a c' => Q a (set_pbufs (<[p := c']> (pbufs s)) s)) c -> wpf R (on_pbuf p m) Q s.
Proof.
  intros Hp Hm. unfold on_pbuf. wpf_steps. rewrite Hp. wpf_steps. unfold wpf, run_on in *.
  destruct (m c) as [[a c']|]; done.
Qed.

(** A computation that only reads the packet. *)
Lemma wpf_read_pbuf {A} R p (m : M chain A) c Q s :
  pbufs s !! p = Some c -> wpf R m (fun a c' => c' = c /\ Q a s) c -> wpf R (on_pbuf p m) Q s.
Proof.
  intros Hp Hm. eapply wpf_on_pbuf; [exact Hp|]. eapply wpf_mono; [exact Hm|]. intros a c' [-> HQ].
  replace (set_pbufs (<[p := c]> (pbufs s)) s) with s; [done|]. rewrite insert_id by done. by destruct s.
Qed.

Lemma wpf_pbuf_free R p (c : chain) (Q : unit -> S -> Prop) s :
  pbufs s !! p = Some c -> p <> 0 -> Q tt (set_pbufs (delete p (pbufs s)) s) -> wpf R (pbuf_free p) Q s.
Proof.
  intros Hp H0 HQ. unfold pbuf_free. wpf_steps. apply wpf_assert; [by apply negb_true_iff, Z.eqb_neq|].
  rewrite Hp. by wpf_steps.
Qed.

(** The number at the start of a packet. *)
Lemma wpf_extract_xid R p b xid post Q s :
  pbufs s !! p = Some [b] -> b = xdr_longs [xid] ++ post -> is_u32 xid -> len b < 2 ^ 16 ->
  Q xid s -> wpf R (extract_xid p) Q s.
Proof.
  intros Hp -> Hx Hl HQ. unfold extract_xid. wpf_steps. eapply wpf_read_pbuf; [exact Hp|].
  apply wp_wpf. change 0 with (len ([] : list Z)). eapply wp_pb_readl; [cbn [concat app]; by rewrite app_nil_r | done | |].
  - unfold tot_len. simpl concat. by rewrite app_nil_r.
  - intros _. split; [done|]. by wpf_steps.
Qed.

Lemma wpf_add_to_queue R s l pbuf b xid post pcb f cb arg (Q : unit -> S -> Prop) :
  R FAssert -> wf s l -> pbufs s !! pbuf = Some [b] -> b = xdr_longs [xid] ++ post -> is_u32 xid -> len b < 2 ^ 16 ->
  (forall a x m h, x = RpcQueue pcb pbuf xid 0 0 f cb arg -> a ∉ l.*1 -> lseg m h (l ++ [(a, x)]) 0 ->
     Q tt (set_queue h (set_items m (set_net (mem_ok (net s)).2 s)))) ->
  wpf R (add_to_queue pbuf pcb f cb arg) Q s.
Proof.
  intros HR [Hseg (Hnd & _)] Hp Hb Hx Hlb HQ. unfold add_to_queue. wpf_steps. apply wpf_ncall. wpf_steps.
  apply wpf_may_assert; [done|]. intros _. wpf_steps. eapply wpf_extract_xid; [exact Hp | done | done | done |].
  wpf_steps. unfold set_item. wpf_steps. cbn [items queue set_net set_items].
  set (a := new_ptr (items s)). set (x := RpcQueue _ _ _ _ _ _ _ _).
  assert (a ∉ l.*1) as Ha.
  { intros Ha. destruct (lseg_dom _ _ _ _ a Hseg Ha) as [_ [y Hy]]. unfold a in Hy. by rewrite new_ptr_fresh in Hy. }
  assert (a <> 0) as Ha0 by (pose proof (new_ptr_pos (items s)); subst a; lia).
  destruct (Z.eqb_spec (queue s) 0) as [E|E].
  - wpf_steps. assert (l = []) as ->.
    { destruct l as [|[b' y] l]; [done|]. simpl in Hseg. rewrite E in Hseg. naive_solver. }
    apply (HQ a x); [done | done |]. simpl. split; [done|]. split; [done|]. exists 0. by rewrite lookup_insert_eq.
  - destruct l as [|ay l _] using rev_ind; [by simpl in Hseg|]. destruct ay as [b' y].
    assert (lseg (<[a := x]> (items s)) (queue s) (l ++ [(b', y)]) 0) as Hseg' by by apply lseg_insert.
    unfold queue_fuel. wpf_steps. cbn [items set_net set_items].
    eapply wpf_mono; [apply wp_wpf, (walk_loop _ (queue s) l b' y); [done|]|].
    + cbn [items set_net set_items]. pose proof (lseg_size _ _ _ _ Hseg' Hnd) as H. rewrite length_app in H. simpl in H. lia.
    + intros r s' [-> ->]. wpf_steps. unfold item. wpf_steps. cbn [items set_net set_items].
      rewrite (last_item _ _ _ _ _ _ Hseg'). wpf_steps. cbn [items set_net set_items].
      change (set_next a (set_next 0 y)) with (set_next a y).
      lazymatch goal with |- Q tt ?t =>
        change t with (set_queue (queue s) (set_items (<[b' := set_next a y]> (<[a := x]> (items s))) (set_net (mem_ok (net s)).2 s)))
      end.
      apply (HQ a x); [done | done |]. apply lseg_app. exists a. split; [by apply (lseg_relink _ _ _ _ _ 0)|].
      simpl. split; [done|]. split; [done|]. exists 0. split; [|done]. rewrite lookup_insert_ne, lookup_insert_eq; [done|].
      intros ->. apply Ha. rewrite fmap_app. set_solver.
Qed.

(** ** Sending *)

Lemma overwrite_all (t f : list Z) : length t = length f -> overwrite t 0 f = f.
Proof. intros E. unfold overwrite. simpl. by rewrite drop_ge, app_nil_r by lia. Qed.

Lemma single_tot_len b : tot_len [b] = len b.
Proof. unfold tot_len. simpl. by rewrite app_nil_r. Qed.

(** Sending a packet changes nothing but the network, which gets its bytes. *)
Lemma wpf_my_udp_send R s pcb (x : udp_pcb) pbuf b (Q : Z -> S -> Prop) :
  pbufs s !! pbuf = Some [b] -> len b < 2 ^ 16 -> pcbs s !! pcb = Some x ->
  (forall err n, (err = 0 -> exists n0, udp_output x b n0 = (ERR_OK, n)) -> Q err (set_net n s)) ->
  wpf R (my_udp_send pcb pbuf) Q s.
Proof.
  intros Hp Hl Hx HQ. unfold my_udp_send, pbuf_bytes. wpf_steps. eapply wpf_read_pbuf; [exact Hp|]. wpf_steps. split; [done|].
  wpf_steps. unfold pbuf_alloc. wpf_steps. apply wpf_ncall. destruct (mem_ok (net s)).1; cbn [negb].
  2:{ wpf_steps. cbn. apply HQ. by intros [=]. }
  wpf_steps. set (s1 := set_net _ s). set (p := new_ptr (pbufs s1)).
  assert (p <> 0) as Hp0 by (pose proof (new_ptr_pos (pbufs s1)); subst p; lia).
  destruct (Z.eqb_spec p 0); [done|]. rewrite single_tot_len. unfold u16. rewrite Z.mod_small, Nat2Z.id by lia.
  set (g := garbage _ _). set (s2 := set_pbufs _ s1).
  assert (pbufs s2 !! p = Some [g]) as Hg by by (cbn [pbufs s2 set_pbufs]; rewrite lookup_insert_eq).
  wpf_steps. eapply wpf_read_pbuf; [exact Hg|]. wpf_steps. split; [done|]. wpf_steps.
  assert (length g = length b) as Elen by apply length_garbage.
  eapply (wpf_run_on _ (pbuf_copy [g] [b]) tt). apply wp_wpf, wp_pbuf_copy_single; [lia|]. cbn [fst].
  rewrite (overwrite_all g b Elen). wpf_steps. eapply wpf_on_pbuf; [exact Hg|]. wpf_steps. unfold udp_send, the_pcb. wpf_steps.
  cbn [pcbs set_pbufs s2 set_net s1]. rewrite Hx. wpf_steps. unfold pbuf_bytes.
  eapply wpf_read_pbuf; [cbn [pbufs set_pbufs]; apply lookup_insert_eq|]. wpf_steps. split; [done|].
  apply wpf_ncall. cbn [net set_net set_pbufs concat]. rewrite app_nil_r.
  destruct (udp_output x b (net s1)) as [err n1] eqn:Eo. cbn [fst snd]. wpf_steps.
  eapply wpf_pbuf_free; [cbn [pbufs set_net set_pbufs]; apply lookup_insert_eq | done |]. wpf_steps.
  lazymatch goal with |- Q ?e ?t => replace t with (set_net n1 s) end.
  - apply HQ. intros He. exists (net s1). cbn [net set_net set_pbufs s1 s2] in *. rewrite Eo in *. cbn [fst] in He. f_equal.
    unfold ERR_MEM, ERR_RTE, ERR_OK, RPCERR_NOMEM, RPCERR_COMM, RPC_OK in *. repeat case_bool; lia.
  - subst s2. cbn [set_net set_pbufs net pbufs items queue cur_xid call_args pcbs root_port utc1900_seconds tokens _nfs_pcb].
    subst p s1. unfold set_net at 1, set_pbufs. cbn. f_equal; [by cbn in Eo; rewrite Eo|]. rewrite !insert_insert_eq, delete_insert_id; [done|]. apply new_ptr_fresh.
Qed.

(** What the operations on the queue do not touch. *)
Record same_env s s' : Prop := {
  se_call_args : call_args s' = call_args s;
  se_pcbs : pcbs s' = pcbs s;
  se_cur_xid : cur_xid s' = cur_xid s;
  se_root_port : root_port s' = root_port s;
  se_utc : utc1900_seconds s' = utc1900_seconds s;
  se_tokens : tokens s' = tokens s;
  se_nfs_pcb : _nfs_pcb s' = _nfs_pcb s
}.

#[export] Instance same_env_preorder : PreOrder same_env.
Proof. split; [by intros s |]. intros s1 s2 s3 [] []. split; congruence. Qed.

Lemma calls_ok_snoc s l a x :
  calls_ok s l -> a ∉ l.*1 -> q_pbuf x ∉ (fun ax => q_pbuf ax.2) <$> l -> call_ok s x -> calls_ok s (l ++ [(a, x)]).
Proof.
  intros (H1 & H2 & H3) Ha Hp Hx. split; [|split].
  - rewrite fmap_app. apply NoDup_app. split; [done|]. split; [set_solver | apply NoDup_singleton].
  - rewrite fmap_app. apply NoDup_app. split; [done|]. split; [set_solver | apply NoDup_singleton].
  - apply Forall_app. split; [done|]. by constructor.
Qed.

(** The calls do not depend on packets that are not theirs. *)
Lemma calls_ok_pbufs s s' l :
  same_env s s' -> (forall p, p ∈ (fun ax => q_pbuf ax.2) <$> l -> pbufs s' !! p = pbufs s !! p) -> calls_ok s l -> calls_ok s' l.
Proof.
  intros [] Hp (H1 & H2 & H3). split; [done|]. split; [done|]. rewrite Forall_forall in *. intros ax Hax.
  eapply call_ok_heaps; [| | |by apply H3]; [|by rewrite se_pcbs0|by rewrite se_call_args0].
  intros b. rewrite Hp; [done|]. apply list_elem_of_fmap. eauto.
Qed.

Lemma take_xid xid post n : 4 <= n ->
  take (Z.to_nat n) (xdr_longs [xid] ++ post) = xdr_longs [xid] ++ take (Z.to_nat n - 4) post.
Proof.
  intros Hn. assert (length (xdr_longs [xid]) = 4%nat) as E by done. rewrite take_app_ge by lia. by rewrite E.
Qed.

(** The outcomes of [rpc_send]. *)
Definition sent s l pbuf b n pcb (x : udp_pcb) xid f cb arg (err : Z) s' : Prop :=
  same_env s s' /\
  ((err <> 0 /\ wf s' l /\ pbufs s' = delete pbuf (pbufs s)) \/
   (err = 0 /\ (exists a, wf s' (l ++ [(a, RpcQueue pcb pbuf xid 0 0 f cb arg)])) /\
    pbufs s' = <[pbuf := [take (Z.to_nat n) b]]> (pbufs s) /\
    exists n0 n1, udp_output x (take (Z.to_nat n) b) n0 = (ERR_OK, n1) /\ net s' = (mem_ok n1).2)).

Lemma wpf_rpc_send R s l pbuf b xid post n pcb (x : udp_pcb) f cb arg :
  R FAssert -> wf s l -> pbufs s !! pbuf = Some [b] -> b = xdr_longs [xid] ++ post -> is_u32 xid -> len b < 2 ^ 16 ->
  pbuf ∉ (fun ax => q_pbuf ax.2) <$> l -> 0 < pbuf -> 0 < pcb -> pcbs s !! pcb = Some x -> 4 <= n < 2 ^ 16 ->
  (f = RpcCallCb -> 0 < arg /\ is_Some (call_args s !! arg)) ->
  wpf R (rpc_send pbuf n pcb f cb arg) (sent s l pbuf b n pcb x xid f cb arg) s.
Proof.
  intros HR Hwf Hp Eb Hx Hlb Hnew Hp0 Hpcb0 Hpcb Hn Harg. unfold rpc_send. wpf_steps.
  apply wpf_assert; [by apply negb_true_iff, Z.eqb_neq; lia|]. wpf_steps. unfold u16. rewrite Z.mod_small by lia.
  eapply wpf_on_pbuf; [exact Hp|].
  assert (wpf R (pbuf_realloc n) (fun _ c => c = [take (Z.to_nat n) b]) [b]) as Hre.
  { unfold pbuf_realloc. wpf_steps. rewrite single_tot_len. destruct (Z.leb_spec (len b) n).
    - wpf_steps. by rewrite take_ge by lia.
    - cbn [pbuf_shrink]. destruct (Z.ltb_spec (len b) n); [lia|]. by wpf_steps. }
  eapply wpf_mono; [exact Hre|]. intros [] c ->. wpf_steps.
  set (b' := take (Z.to_nat n) b). set (s1 := set_pbufs _ s).
  assert (pbufs s1 !! pbuf = Some [b']) as Hp1 by (cbn; apply lookup_insert_eq).
  assert (len b' < 2 ^ 16) as Hlb' by (subst b'; rewrite length_take; lia).
  assert (b' = xdr_longs [xid] ++ take (Z.to_nat n - 4) post) as Eb' by (unfold b'; rewrite Eb; apply take_xid; lia).
  destruct Hwf as [Hseg Hcalls].
  assert (calls_ok s1 l) as Hcalls1.
  { apply (calls_ok_pbufs s); [by split | | done]. intros p Hpl. cbn. rewrite lookup_insert_ne; [done|]. by intros ->. }
  eapply (wpf_my_udp_send R s1 pcb x pbuf b'); [done | done | done |]. intros err n1 Hout.
  wpf_steps. destruct (Z.eqb_spec err 0) as [->|He].
  - destruct (Hout eq_refl) as (n0 & En0).
    eapply (wpf_add_to_queue R (set_net n1 s1) l pbuf b' xid); [done | exact (conj Hseg Hcalls1) | done | done | done | done |].
    intros a e m h -> Ha Hl. wpf_steps. split; [by split|]. right. split; [done|]. split; [|split; [done|]; by exists n0, n1].
    exists a. split; [done|]. apply calls_ok_snoc; [exact Hcalls1 | done | done |]. split; [done|]. split; [done|]. split; [|split; [by exists x | done]].
    exists b', (take (Z.to_nat n - 4) post). done.
  - apply (wpf_pbuf_free R pbuf [b']); [exact Hp1 | lia |]. wpf_steps. split; [by split|]. left. split; [done|]. split; [|cbn; by rewrite delete_insert_eq].
    split; [done|]. eapply (calls_ok_pbufs s); [by split | | done]. intros p Hpl. cbn. rewrite delete_insert_eq, lookup_delete_ne; [done|]. by intros ->.
Qed.

(** ** Retransmission *)

(** The same calls, with other times. *)
Definition same_call (ax bx : Z * rpc_queue F) : Prop := bx.1 = ax.1 /\ exists t, bx.2 = set_timeout t ax.2.
Definition same_calls l l' : Prop := Forall2 same_call l l'.

#[export] Instance same_calls_preorder : PreOrder same_calls.
Proof.
  split.
  - intros l. apply Forall_Forall2_diag, Forall_true. intros [a x]. split; [done|]. exists (q_timeout x). by destruct x.
  - intros l1 l2 l3 H12. revert l3. induction H12 as [|[a x] [b y] l l' [E1 [t1 H1]] _ IH]; intros l3 H23; [done|].
    apply Forall2_cons_inv_l in H23 as ([c z] & l3' & [E2 [t2 H2]] & H23 & ->). simpl in *. subst.
    constructor; [split; [done | by exists t2] | by apply IH].
Qed.

Lemma same_calls_proj {A} (g : Z * rpc_queue F -> A) l l' :
  (forall a x t, g (a, set_timeout t x) = g (a, x)) -> same_calls l l' -> g <$> l' = g <$> l.
Proof.
  intros Hg. induction 1 as [|[a x] [b y] l l' [E [t H]] _ IH]; [done|]. simpl in E, H. subst.
  rewrite !fmap_cons, IH. f_equal. apply Hg.
Qed.

Lemma calls_ok_same s l l' : same_calls l l' -> calls_ok s l -> calls_ok s l'.
Proof.
  intros Hs (H1 & H2 & H3). split; [|split].
  - by rewrite (same_calls_proj fst _ _ ltac:(done) Hs).
  - by rewrite (same_calls_proj (fun ax => q_pbuf ax.2) _ _ ltac:(done) Hs).
  - clear H1 H2. induction Hs as [|[a x] [b y] l l' [E [t H]] _ IH]; [done|]. simpl in E, H. subst.
    apply Forall_cons in H3 as [Hx H3]. constructor; [exact Hx | by apply IH].
Qed.

Definition timeout_round (ms q_item : Z) : M S (Z + unit) :=
  if q_item =? 0 then ret (inr tt)
  else
    x <- item q_item ;;
    set_item q_item (set_timeout (i32 (q_timeout x + ms)) x) ;;;
    (if RETRANSMIT_DELAY_MS <? i32 (q_timeout x + ms) then
       e <- my_udp_send (q_pcb x) (q_pbuf x) ;;
       if e =? 0 then set_item q_item (set_timeout 0 x) else ret tt
     else ret tt) ;;;
    x <- item q_item ;;
    ret (inl (q_next x)).

(** One item: only its time and the network change. *)
Lemma timeout_round_run R ms s q x n :
  q <> 0 -> items s !! q = Some (set_next n x) -> call_ok s x ->
  wpf R (timeout_round ms q) (fun r s' => r = inl n /\ exists t k, s' = set_net k (set_items (<[q := set_next n (set_timeout t x)]> (items s)) s)) s.
Proof.
  intros Hq Hm (Hx & _ & (b & post & Hb & Hl & _) & [y Hy] & _). unfold timeout_round. destruct (Z.eqb_spec q 0); [done|].
  unfold item, set_item. wpf_steps. rewrite Hm. wpf_steps. set (s1 := set_items _ s).
  assert (items s1 !! q = Some (set_next n (set_timeout (i32 (q_timeout x + ms)) x))) as Hm1 by (cbn; apply lookup_insert_eq).
  destruct (Z.ltb_spec RETRANSMIT_DELAY_MS (i32 (q_timeout (set_next n x) + ms))).
  - wpf_steps. eapply (wpf_my_udp_send R s1 _ y _ b); [exact Hb | done | exact Hy |]. intros err k _.
    destruct (Z.eqb_spec err 0).
    + wpf_steps. cbn [items set_items set_net]. rewrite lookup_insert_eq. wpf_steps. split; [done|]. exists 0, k.
      cbn. by rewrite insert_insert_eq.
    + wpf_steps. change (items (set_net k s1)) with (items s1). rewrite Hm1. wpf_steps. split; [done|]. eauto.
  - wpf_steps. rewrite Hm1. wpf_steps. split; [done|]. exists (i32 (q_timeout x + ms)), (net s). done.
Qed.

Lemma timeout_loop R ms fuel s l1 l2 q :
  lseg (items s) (queue s) l1 q -> lseg (items s) q l2 0 -> calls_ok s (l1 ++ l2) -> (length l2 < fuel)%nat ->
  wpf R (while_fuel fuel (timeout_round ms) q)
    (fun _ s' => exists l2', same_calls l2 l2' /\ wf s' (l1 ++ l2') /\ same_env s s' /\ pbufs s' = pbufs s) s.
Proof.
  revert fuel s l1 q. induction l2 as [|[a x] l2 IH]; intros [|fuel] s l1 q H1 H2 Hok Hf; try (simpl in Hf; lia); cbn [while_fuel].
  - simpl in H2. subst q. unfold timeout_round. cbn. exists []. split; [constructor|]. rewrite app_nil_r in *. done.
  - simpl in H2. destruct H2 as (-> & Hq & n & Hm & H2). pose proof Hok as (Hnd & _ & Hall).
    apply Forall_app in Hall as [_ Hall]. apply Forall_cons in Hall as [Hx _].
    rewrite fmap_app in Hnd. simpl in Hnd. apply NoDup_app in Hnd as (_ & Hn12 & [Hq2 _]%NoDup_cons).
    wpf_steps. eapply wpf_mono; [by apply (timeout_round_run R ms s q x n)|]. intros r s' (-> & t & k & ->).
    set (x' := set_timeout t x). set (s1 := set_net k _).
    assert (same_calls ((q, x) :: l2) ((q, x') :: l2)) as Hsame by (constructor; [split; [done | by exists t] | reflexivity]).
    eapply wpf_mono; [apply (IH fuel s1 (l1 ++ [(q, x')]) n)|].
    + apply lseg_app. exists q. split.
      * apply lseg_insert; [|done]. intros Hin. apply (Hn12 q Hin). set_solver.
      * simpl. split; [done|]. split; [done|]. exists n. split; [cbn; apply lookup_insert_eq | done].
    + by apply lseg_insert.
    + rewrite <- app_assoc. eapply (wf_heaps s); [done.. |]. eapply calls_ok_same; [|exact Hok].
      apply Forall2_app; [reflexivity | exact Hsame].
    + simpl in Hf. lia.
    + intros [] s' (l2' & Hs2 & Hwf & He & Hp). exists ((q, x') :: l2'). rewrite <- app_assoc in Hwf.
      split; [constructor; [split; [done | by exists t] | done]|]. split; [exact Hwf|]. split; [|exact Hp].
      etransitivity; [|exact He]. by split.
Qed.

Lemma wpf_rpc_timeout R ms s l :
  wf s l -> wpf R (rpc_timeout ms) (fun _ s' => exists l', same_calls l l' /\ wf s' l' /\ same_env s s' /\ pbufs s' = pbufs s) s.
Proof.
  intros [Hseg Hok]. unfold rpc_timeout, queue_fuel. wpf_steps.
  eapply wpf_mono; [apply (timeout_loop R ms _ s [] l (queue s)); [done | done | done |]|].
  - destruct Hok as [Hnd _]. pose proof (lseg_size _ _ _ _ Hseg Hnd). lia.
  - done.
Qed.
End queue.

(** ** Headers *)

(** The header of a call in the external data representation. *)
Definition rpc_hdr (xid prog vers proc : Z) : list Z :=
  xdr_longs [xid; MSG_CALL; SRPC_VERSION; prog; vers; proc] ++ xdr_longs [AUTH_UNIX; cred_size] ++ xdr_longs [AUTH_STAMP] ++
  xdr_str NFS_MACHINE_NAME ++ xdr_longs [ROOT; ROOT; ROOT] ++ xdr_longs [AUTH_NULL; 0].

Definition hdr_size : Z := 68.

Lemma length_rpc_hdr xid prog vers proc : len (rpc_hdr xid prog vers proc) = hdr_size.
Proof. done. Qed.

Lemma rpc_hdr_xid xid prog vers proc : exists rest, rpc_hdr xid prog vers proc = xdr_longs [xid] ++ rest.
Proof. eexists. reflexivity. Qed.

(** The bounds of a write at a position known by its bytes. *)
Ltac packet_bound := repeat match goal with H : tot_len _ = _ |- _ => rewrite H end;
  rewrite ?length_app, ?Nat2Z.inj_add; change (len (xdr_str NFS_MACHINE_NAME)) with 12; cbn; lia.

Lemma rpc_write_hdr_run xid prog vers proc c :
  hdr_size <= tot_len c < 2 ^ 16 ->
  wp (rpc_write_hdr xid prog vers proc)
    (fun pos c' => starts c' (rpc_hdr xid prog vers proc) /\ tot_len c' = tot_len c /\ pos = len (rpc_hdr xid prog vers proc)) c.
Proof.
  unfold hdr_size. intros Hc. remember (tot_len c) as T eqn:HT. symmetry in HT. unfold rpc_write_hdr, pb_writel. wp_steps. change 0 with (len ([] : list Z)) at 1.
  apply wp_pb_write_arrl; [by exists (concat c) | packet_bound |]. intros c1 H1 T1. wp_steps.
  apply wp_pb_write_arrl; [done | packet_bound |]. intros c2 H2 T2. wp_steps.
  apply wp_pb_write_arrl; [done | packet_bound |]. intros c3 H3 T3. wp_steps.
  apply wp_pb_write_str; [done | done | done | packet_bound |]. intros c4 H4 T4. wp_steps.
  apply wp_pb_write_arrl; [done | packet_bound |]. intros c5 H5 T5.
  apply wp_pb_write_arrl; [done | packet_bound |]. intros c6 H6 T6. split; [exact H6|]. split; [congruence | done].
Qed.

Lemma rpc_write_hdr_single xid prog vers proc b :
  hdr_size <= len b < 2 ^ 16 ->
  wp (rpc_write_hdr xid prog vers proc) (fun pos c' => exists b' post, c' = [b'] /\ b' = rpc_hdr xid prog vers proc ++ post /\
    len b' = len b /\ pos = hdr_size) [b].
Proof.
  intros Hb. eapply wp_mono; [apply wp_single; [|apply rpc_write_hdr_run; by rewrite single_tot_len]|].
  - unfold rpc_write_hdr, pb_writel, pb_write_arrl, pb_write_str, pb_write_arrl. eauto 20 with chain.
  - intros pos c' (b' & -> & (post & E) & Ht & ->). exists b', post. rewrite !single_tot_len in Ht.
    cbn [concat] in E. rewrite app_nil_r in E. done.
Qed.

(** A new packet with a header. *)
Lemma wpf_rpcpbuf_init {F N} `{!Net N} R (s : rpc F N) prog vers proc (Q : Z * Z -> rpc F N -> Prop) :
  (forall n, Q (0, 0) (set_net n s)) ->
  (forall p b post n, pbufs s !! p = None -> 0 < p -> b = rpc_hdr (u32 (cur_xid s + 1)) prog vers proc ++ post -> len b = UDP_PAYLOAD ->
     Q (p, hdr_size) (set_pbufs (<[p := [b]]> (pbufs s)) (set_cur_xid (u32 (cur_xid s + 1)) (set_net n s)))) ->
  wpf R (rpcpbuf_init prog vers proc) Q s.
Proof.
  intros H0 HQ. unfold rpcpbuf_init, pbuf_alloc. wpf_steps. apply wpf_ncall. destruct (mem_ok (net s)).1; cbn [negb].
  2:{ wpf_steps. cbn. apply H0. }
  wpf_steps. cbn [pbufs net set_net]. set (p := new_ptr (pbufs s)). set (g := garbage _ _).
  assert (0 < p) as Hp by apply new_ptr_pos. destruct (Z.eqb_spec p 0); [lia|]. unfold get_xid. wpf_steps.
  cbn [cur_xid set_cur_xid set_pbufs set_net pbufs].
  eapply wpf_on_pbuf; [cbn [pbufs set_cur_xid set_pbufs]; apply lookup_insert_eq|].
  assert (len g = UDP_PAYLOAD) as Hg by (unfold g; rewrite length_garbage; done).
  eapply wpf_mono; [apply wp_wpf, rpc_write_hdr_single; rewrite Hg; done|].
  intros pos c (b & post & -> & Eb & Hl & ->). wpf_steps. cbn [pbufs set_cur_xid set_pbufs set_net].
  rewrite insert_insert_eq. eapply (HQ p b post); [apply new_ptr_fresh | done | done | lia].
Qed.
