(* ===== verification/RpcClaims.v ===== *)
(** * RpcClaims: replies, blocking calls and the safety of the transport

    What a reply does, given what the functions of the clients may do, and the
    theorems about the transport of file Rpc: its state stays well formed, a
    reply is handled once, and a blocking call leaves no reference to its
    stack behind. *)

From S2P Require Import Prelude Partial Pbuf Rpc RpcProofs.

Section claims.
Context {F N : Type} `{!Net N}.
Local Abbreviation S := (rpc F N).
Implicit Types (s : rpc F N) (l : list (Z * rpc_queue F)) (x : rpc_queue F).

Definition queue_pbufs l : list Z := (fun ax => q_pbuf ax.2) <$> l.

Lemma wf_split s l1 q x l2 : wf s (l1 ++ (q, x) :: l2) ->
  (q ∉ (l1 ++ l2).*1) /\ (q_pbuf x ∉ queue_pbufs (l1 ++ l2)) /\ call_ok s x /\ calls_ok s (l1 ++ l2).
Proof.
  intros [_ Hok]. pose proof Hok as (H1 & H2 & H3). split; [|split; [|split]].
  - rewrite fmap_app in *. simpl in H1. apply NoDup_app in H1 as (_ & H & [? _]%NoDup_cons). set_solver.
  - unfold queue_pbufs. rewrite fmap_app in *. simpl in H2. apply NoDup_app in H2 as (_ & H & [? _]%NoDup_cons). set_solver.
  - apply Forall_app in H3 as [_ [? _]%Forall_cons]. done.
  - eapply calls_ok_sublist; [|exact Hok]. apply sublist_app; [done|]. by constructor.
Qed.

(** What the functions of the clients may do: send calls, whose functions are
    again those of clients, and open sockets.  Objects that are in nobody's
    queue stay. *)
Record evolves s l s' (ca : gmap Z (rpc_call_arg F)) l' new : Prop := {
  ev_same : same_calls l l';
  ev_wf : wf s' (l' ++ new);
  ev_new : Forall (fun ax => q_func ax.2 <> RpcCallCb) new;
  ev_items a y : items s !! a = Some y -> a ∉ l.*1 -> items s' !! a = Some y /\ a ∉ (l' ++ new).*1;
  ev_pbufs p (c : chain) : pbufs s !! p = Some c -> p ∉ queue_pbufs l -> pbufs s' !! p = Some c /\ p ∉ queue_pbufs (l' ++ new);
  ev_pcbs k : is_Some (pcbs s !! k) -> is_Some (pcbs s' !! k);
  ev_call_args : call_args s' = ca
}.

(** A function of a client may stop with a fault in [R] only. *)
Class FuncLaws (R : fault -> Prop) (func : F -> Z -> Z -> Z -> M S unit) : Prop := {
  may_assert : R FAssert;
  func_law f cb arg p (c : chain) s l :
    wf s l -> pbufs s !! p = Some c -> p ∉ queue_pbufs l ->
    wpf R (func f cb arg p) (fun _ s' => exists l' new, evolves s l s' (call_args s) l' new) s
}.

Context (R : fault -> Prop) (func : F -> Z -> Z -> Z -> M S unit) `{!FuncLaws R func}.

(** The arguments of the blocking calls after the function of [x]. *)
Definition called x (ca : gmap Z (rpc_call_arg F)) : gmap Z (rpc_call_arg F) :=
  match q_func x with Direct _ => ca | RpcCallCb => alter set_complete (q_arg x) ca end.

Lemma wf_call_args s l ca : (forall k, is_Some (call_args s !! k) -> is_Some (ca !! k)) -> wf s l -> wf (set_call_args ca s) l.
Proof.
  intros H [Hseg (H1 & H2 & H3)]. split; [done|]. split; [done|]. split; [done|]. eapply Forall_impl; [exact H3|].
  intros ax. apply call_ok_heaps; [done | done |]. apply H.
Qed.

Lemma func_call_law x p (c : chain) s l :
  wf s l -> pbufs s !! p = Some c -> p ∉ queue_pbufs l -> call_ok s x ->
  wpf R (func_call func (q_func x) (q_callback x) (q_arg x) p)
    (fun _ s' => exists l' new, evolves s l s' (called x (call_args s)) l' new) s.
Proof using FuncLaws0.
  intros Hwf Hp Hpl (_ & _ & _ & _ & Harg). unfold func_call, called. destruct (q_func x) as [f|]; [by eapply func_law|].
  destruct (Harg eq_refl) as [H0 [a Ha]]. unfold rpc_call_cb, call_arg. wpf_steps.
  apply wpf_assert; [by apply negb_true_iff, Z.eqb_neq; lia|]. wpf_steps. rewrite Ha. wpf_steps.
  eapply wpf_mono; [by eapply func_law|]. intros [] s1 (l' & new & [Hs Hw Hn Hi Hb Hk Hc]). wpf_steps. rewrite Hc, Ha. wpf_steps.
  assert (<[q_arg x := set_complete a]> (call_args s1) = alter set_complete (q_arg x) (call_args s)) as E.
  { rewrite Hc. apply map_eq. intros k. destruct (decide (k = q_arg x)) as [->|]; [|by rewrite lookup_insert_ne, lookup_alter_ne].
    by rewrite lookup_insert_eq, lookup_alter_eq, Ha. }
  rewrite E. exists l', new. split; try done. apply wf_call_args; [|done]. intros k [y Hy]. rewrite Hc in Hy.
  destruct (decide (k = q_arg x)) as [->|]; [rewrite lookup_alter_eq, Hy; by eexists | rewrite lookup_alter_ne by done; by eexists].
Qed.

(** ** Replies *)

Lemma wpf_reader {A} (m : M chain A) p (c : chain) (Q : A -> S -> Prop) s :
  reader R m -> pbufs s !! p = Some c -> (forall a, Q a s) -> wpf R (on_pbuf p m) Q s.
Proof.
  intros Hm Hp HQ. eapply wpf_read_pbuf; [exact Hp|]. specialize (Hm c). unfold wpf. destruct (m c) as [[a c']|]; [|done].
  by split.
Qed.

(** Freeing a packet that is in nobody's queue. *)
Lemma wf_free_pbuf s l p : wf s l -> p ∉ queue_pbufs l -> wf (set_pbufs (delete p (pbufs s)) s) l.
Proof.
  intros [Hseg Hok] Hp. split; [done|]. apply (calls_ok_pbufs s); [by split | | done]. intros k Hk. cbn.
  rewrite lookup_delete_ne; [done|]. by intros ->.
Qed.

Lemma wf_free_item s l a : wf s l -> a ∉ l.*1 -> wf (set_items (delete a (items s)) s) l.
Proof. intros [Hseg Hok] Ha. split; [by apply lseg_delete | exact Hok]. Qed.

(** The state after a reply: nothing waits for it and no call changes, or the
    first call with its number is gone and its function has run. *)
Definition handled s l s' : Prop :=
  (wf s' l /\ call_args s' = call_args s /\ pcbs s' = pcbs s) \/
  (exists l1 q x l2 l' new, l = l1 ++ (q, x) :: l2 /\ same_calls (l1 ++ l2) l' /\ wf s' (l' ++ new) /\
    Forall (fun ax => q_func ax.2 <> RpcCallCb) new /\ call_args s' = called x (call_args s) /\
    forall k, is_Some (pcbs s !! k) -> is_Some (pcbs s' !! k)).

Lemma wpf_item a y (Q : rpc_queue F -> S -> Prop) s : items s !! a = Some y -> Q y s -> wpf R (item a) Q s.
Proof. intros Ha HQ. unfold item. wpf_steps. rewrite Ha. by wpf_steps. Qed.

Lemma wpf_free_item a y (Q : unit -> S -> Prop) s : items s !! a = Some y -> Q tt (set_items (delete a (items s)) s) -> wpf R (free_item a) Q s.
Proof. intros Ha HQ. unfold free_item, item. wpf_steps. rewrite Ha. by wpf_steps. Qed.

Lemma my_recv_run p (c : chain) s l :
  wf s l -> pbufs s !! p = Some c -> p ∉ queue_pbufs l -> p <> 0 ->
  wpf R (my_recv func p) (fun _ s' => handled s l s') s.
Proof using FuncLaws0.
  intros Hwf Hp Hpl Hp0. unfold my_recv. wpf_steps. unfold extract_xid. wpf_steps.
  eapply wpf_reader; [apply reader_readl, may_assert | exact Hp |]. intros [xid pos]. wpf_steps.
  eapply wpf_mono; [by apply wp_wpf, get_from_queue_run|]. intros q s1 [(-> & -> & Hno)|(l1 & x & l2 & m & h & -> & Ex & Hno & Hq & -> & Hseg & n & Hm)].
  - cbn. eapply wpf_pbuf_free; [exact Hp | done |]. left. split; [by apply wf_free_pbuf | done].
  - destruct (wf_split _ _ _ _ _ Hwf) as (Hql & Hxl & Hx & Hok). destruct (Z.eqb_spec q 0); [done|]. cbn [negb].
    set (s1 := set_queue h (set_items m s)). assert (wf s1 (l1 ++ l2)) as Hwf1 by (split; [exact Hseg | exact Hok]).
    assert ((p ∉ queue_pbufs (l1 ++ l2)) /\ p <> q_pbuf x) as [Hpl1 Hpx].
    { unfold queue_pbufs in *. rewrite !fmap_app, fmap_cons in *. simpl in *. set_solver. }
    wpf_steps. eapply wpf_item; [exact Hm|]. wpf_steps.
    eapply wpf_mono; [by apply (func_call_law x p c s1 (l1 ++ l2))|]. intros [] s2 (l' & new & [Hs Hw Hn Hi Hb Hk Hc]).
    destruct (Hi q _ Hm Hql) as [Hq2 Hql2]. destruct (Hb p _ Hp Hpl1) as [Hp2 Hpl2].
    pose proof Hx as (_ & Hx0 & (b & post & Hbx & _) & _). destruct (Hb (q_pbuf x) _ Hbx Hxl) as [Hx2 Hxl2].
    wpf_steps. eapply wpf_item; [exact Hq2|]. wpf_steps. eapply wpf_pbuf_free; [exact Hx2 | cbn; lia |].
    change (q_pbuf (set_next n x)) with (q_pbuf x). eapply wpf_free_item; [exact Hq2|].
    eapply wpf_pbuf_free; [|done|]. { cbn. rewrite lookup_delete_ne by done. exact Hp2. }
    right. exists l1, q, x, l2, l', new. split; [done|]. split; [done|]. split; [|done].
    apply wf_free_pbuf; [|done]. apply wf_free_item; [|done]. by apply wf_free_pbuf.
Qed.

Lemma time_recv_run p (c : chain) s l :
  wf s l -> pbufs s !! p = Some c -> p ∉ queue_pbufs l -> p <> 0 ->
  wpf R (time_recv p) (fun _ s' => handled s l s') s.
Proof using FuncLaws0.
  intros Hwf Hp Hpl Hp0. unfold time_recv. wpf_steps. eapply wpf_reader; [apply reader_readl, may_assert | exact Hp |].
  intros [t pos]. wpf_steps. eapply wpf_pbuf_free; [exact Hp | done |]. left. split; [|done].
  by apply (wf_free_pbuf (set_utc t s)).
Qed.

(** A packet that arrives. *)
Lemma udp_input_run a s l : wf s l -> wpf R (udp_input func a) (fun _ s' => handled s l s') s.
Proof using FuncLaws0.
  intros Hwf. unfold udp_input. wpf_steps. destruct (pcbs s !! a.1) as [x|]; [|wpf_steps; by left].
  wpf_steps. set (p := new_ptr (pbufs s)). set (s1 := set_pbufs _ s).
  assert (pbufs s1 !! p = Some a.2) as Hp by (cbn; apply lookup_insert_eq).
  assert (p <> 0) as Hp0 by (pose proof (new_ptr_pos (pbufs s)); subst p; lia).
  assert (p ∉ queue_pbufs l) as Hpl.
  { intros ([b y] & Ep & Hin)%list_elem_of_fmap. simpl in Ep. destruct Hwf as [_ (_ & _ & Hall)].
    rewrite Forall_forall in Hall. destruct (Hall _ Hin) as (_ & _ & (b' & post & Hb & _) & _). simpl in Hb. rewrite <- Ep in Hb.
    unfold p in Hb. by rewrite new_ptr_fresh in Hb. }
  assert (wf s1 l) as Hwf1.
  { destruct Hwf as [Hseg Hok]. split; [done|]. apply (calls_ok_pbufs s); [by split | | done]. intros k Hk. cbn.
    rewrite lookup_insert_ne; [done|]. by intros ->. }
  destruct (recv x); [exact (my_recv_run p _ s1 l Hwf1 Hp Hpl Hp0) | exact (time_recv_run p _ s1 l Hwf1 Hp Hpl Hp0)].
Qed.

(** ** Blocking calls *)

(** No call of the queue has the argument [arg]. *)
Definition norefs (arg : Z) l : Prop := Forall (fun ax => q_func ax.2 = RpcCallCb -> q_arg ax.2 <> arg) l.

(** The call with argument [arg] and number [xid] is in the queue, or it is
    complete; nothing else refers to the argument. *)
Definition pending (arg xid : Z) (ca : gmap Z (rpc_call_arg F)) l : Prop :=
  exists c, ca !! arg = Some c /\
    ((complete c = false /\ exists l1 a x l2, l = l1 ++ (a, x) :: l2 /\ q_func x = RpcCallCb /\ q_arg x = arg /\ q_xid x = xid /\
        Forall (fun ax => q_xid ax.2 <> xid) l1 /\ norefs arg (l1 ++ l2)) \/
     (complete c = true /\ norefs arg l)).

Lemma norefs_same arg l l' : same_calls l l' -> norefs arg l -> norefs arg l'.
Proof.
  intros Hs. induction Hs as [|[a x] [b y] l l' [E [t H]] _ IH]; [done|]. simpl in E, H. subst.
  intros [Hx Hl]%Forall_cons. constructor; [exact Hx | by apply IH].
Qed.

Lemma norefs_app arg l new : norefs arg l -> Forall (fun ax => q_func ax.2 <> RpcCallCb) new -> norefs arg (l ++ new).
Proof. intros H1 H2. apply Forall_app. split; [done|]. eapply Forall_impl; [exact H2|]. intros ax Hn Hf. by destruct Hn. Qed.

Lemma xids_same (xid : Z) l l' :
  same_calls l l' -> Forall (fun ax => q_xid ax.2 <> xid) l -> Forall (fun ax => q_xid ax.2 <> xid) l'.
Proof.
  intros Hs. induction Hs as [|[a x] [b y] l l' [E [t H]] _ IH]; [done|]. simpl in E, H. subst.
  intros [Hx Hl]%Forall_cons. constructor; [exact Hx | by apply IH].
Qed.

Lemma pending_same arg xid ca l l' new :
  same_calls l l' -> Forall (fun ax => q_func ax.2 <> RpcCallCb) new -> pending arg xid ca l -> pending arg xid ca (l' ++ new).
Proof.
  intros Hs Hn (c & Hc & [(Hf & l1 & a & x & l2 & -> & H1 & H2 & H3 & H4 & H5)|[Hf Hr]]); exists c; (split; [done|]).
  - left. split; [done|]. apply Forall2_app_inv_l in Hs as (k1 & k & Hk1 & Hk & ->).
    apply Forall2_cons_inv_l in Hk as ([b y] & k2 & [E [t H]] & Hk2 & ->). simpl in E, H. subst.
    exists k1, a, (set_timeout t x), (k2 ++ new). split; [by rewrite <- app_assoc|]. split; [done|]. split; [done|]. split; [done|].
    split; [by eapply xids_same|]. rewrite app_assoc. apply norefs_app; [|done]. eapply norefs_same; [|exact H5]. by apply Forall2_app.
  - right. split; [done|]. apply norefs_app; [|done]. by eapply norefs_same.
Qed.

(** The two positions of a list. *)
Lemma app_cons_cases {A} (l1 l2 k1 k2 : list A) (y x : A) : l1 ++ y :: l2 = k1 ++ x :: k2 ->
  (l1 = k1 /\ y = x /\ l2 = k2) \/ (exists m, k1 = l1 ++ y :: m /\ l2 = m ++ x :: k2) \/ (exists m, l1 = k1 ++ x :: m /\ k2 = m ++ y :: l2).
Proof.
  revert k1. induction l1 as [|z l1 IH]; intros [|w k1]; simpl; intros E.
  - simplify_eq. by left.
  - simplify_eq. right. left. by exists k1.
  - simplify_eq. right. right. by exists l1.
  - injection E as -> E. destruct (IH _ E) as [(-> & -> & ->)|[(m & -> & ->)|(m & -> & ->)]]; eauto.
Qed.

Lemma called_other x arg ca : (q_func x = RpcCallCb -> q_arg x <> arg) -> called x ca !! arg = ca !! arg.
Proof. unfold called. destruct (q_func x); [done|]. intros H. rewrite lookup_alter_ne; [done|]. by apply H. Qed.

Lemma norefs_remove arg l1 q x l2 : norefs arg (l1 ++ (q, x) :: l2) -> (q_func x = RpcCallCb -> q_arg x <> arg) /\ norefs arg (l1 ++ l2).
Proof. unfold norefs. rewrite !Forall_app, Forall_cons. naive_solver. Qed.

(** Handling one call of the queue. *)
Lemma pending_remove arg xid ca l1 q x l2 :
  pending arg xid ca (l1 ++ (q, x) :: l2) -> pending arg xid (called x ca) (l1 ++ l2).
Proof.
  intros (c & Hc & [(Hf & k1 & a & y & k2 & E & H1 & H2 & H3 & H4 & H5)|[Hf Hr]]).
  - destruct (app_cons_cases _ _ _ _ _ _ E) as [(-> & [= -> ->] & ->)|Hother].
    + exists (set_complete c). split; [unfold called; by rewrite H1, H2, lookup_alter_eq, Hc|]. by right.
    + assert ((q_func x = RpcCallCb -> q_arg x <> arg) /\ exists l1' l2', l1 ++ l2 = l1' ++ (a, y) :: l2' /\
        Forall (fun ax => q_xid ax.2 <> xid) l1' /\ norefs arg (l1' ++ l2')) as (Hx & l1' & l2' & E' & Hl1 & Hl2).
      { destruct Hother as [(m & -> & ->)|(m & -> & ->)].
        - rewrite <- app_assoc in H5. apply norefs_remove in H5 as [? H5]. split; [done|]. exists (l1 ++ m), k2.
          rewrite <- !app_assoc. split; [done|]. split; [|done]. rewrite Forall_app, Forall_cons in H4. rewrite Forall_app. naive_solver.
        - rewrite app_assoc in H5. apply norefs_remove in H5 as [? H5]. split; [done|]. exists k1, (m ++ l2).
          rewrite <- !app_assoc in *. done. }
      exists c. split; [by rewrite called_other|]. left. split; [done|]. exists l1', a, y, l2'. done.
  - apply norefs_remove in Hr as [Hx Hr]. exists c. split; [by rewrite called_other|]. by right.
Qed.

(** The wait: the sockets [P] stay open and no argument is lost. *)
Definition waiting (P : Z -> Prop) (D : gset Z) (arg xid : Z) s : Prop :=
  exists l, wf s l /\ dom (call_args s) = D /\ (forall k, P k -> is_Some (pcbs s !! k)) /\ pending arg xid (call_args s) l.

Lemma dom_called x ca : dom (called x ca) = dom ca.
Proof. unfold called. destruct (q_func x); [done|]. apply dom_alter_L. Qed.

Lemma waiting_handled P D arg xid s l s' :
  wf s l -> dom (call_args s) = D -> (forall k, P k -> is_Some (pcbs s !! k)) -> pending arg xid (call_args s) l ->
  handled s l s' -> waiting P D arg xid s'.
Proof.
  intros Hwf HD HP Hpend [(Hw & Hc & Hk)|(l1 & q & x & l2 & l' & new & -> & Hs & Hw & Hn & Hc & Hk)].
  - exists l. rewrite Hc, Hk. done.
  - exists (l' ++ new). rewrite Hc, dom_called. split; [done|]. split; [done|]. split; [eauto|].
    eapply pending_same; [exact Hs | exact Hn |]. by eapply pending_remove.
Qed.

Lemma input_all_run P D arg xid al s :
  waiting P D arg xid s -> wpf R (input_all func al) (fun _ s' => waiting P D arg xid s') s.
Proof using FuncLaws0.
  revert s. induction al as [|a al IH]; intros s Hw; cbn [input_all]; [by wpf_steps|].
  wpf_steps. destruct Hw as (l & Hwf & HD & HP & Hpend).
  eapply wpf_mono; [by apply (udp_input_run a s l)|]. intros [] s' Hh. apply IH. by eapply waiting_handled.
Qed.

Lemma usleep_run P D arg xid s : waiting P D arg xid s -> wpf R (_usleep func) (fun _ s' => waiting P D arg xid s') s.
Proof using FuncLaws0. intros Hw. unfold _usleep. wpf_steps. apply wpf_ncall. by apply input_all_run. Qed.

Lemma timeout_run P D arg xid ms s :
  waiting P D arg xid s -> wpf R (rpc_timeout ms) (fun _ s' => waiting P D arg xid s' /\ call_args s' = call_args s) s.
Proof.
  intros (l & Hwf & HD & HP & Hpend). eapply wpf_mono; [by apply (wpf_rpc_timeout R ms s l)|].
  intros [] s' (l' & Hs & Hw & He & _). destruct He. split; [|done]. exists l'. rewrite se_call_args, se_pcbs. split; [done|]. split; [done|].
  split; [done|]. rewrite <- (app_nil_r l'). by eapply pending_same.
Qed.

Lemma wf_delete_arg s l arg : wf s l -> norefs arg l -> wf (set_call_args (delete arg (call_args s)) s) l.
Proof.
  intros [Hseg (H1 & H2 & H3)] Hr. split; [done|]. split; [done|]. split; [done|]. unfold norefs in Hr. rewrite Forall_forall in *.
  intros ax Hax. destruct (H3 ax Hax) as (Hx & H0 & Hb & Hp & Hc). split; [done|]. split; [done|]. split; [done|]. split; [done|].
  intros Hf. destruct (Hc Hf) as [? ?]. split; [done|]. cbn. by rewrite lookup_delete_ne by (apply not_eq_sym; by apply Hr).
Qed.

(** Giving up: the call is taken from the queue. *)
Definition abandon (xid : Z) : M S (Z + Z) :=
  q_item <- get_from_queue xid ;;
  c_assert (negb (q_item =? 0)) ;;;
  x <- item q_item ;;
  pbuf_free (q_pbuf x) ;;;
  free_item q_item ;;;
  ret (inr RPCERR_COMM).

(** The state in which the call is over. *)
Definition over (P : Z -> Prop) (D : gset Z) (arg : Z) s : Prop :=
  exists l, wf s l /\ norefs arg l /\ dom (call_args s) = D /\ forall k, P k -> is_Some (pcbs s !! k).

Lemma abandon_run P D arg xid c s :
  waiting P D arg xid s -> call_args s !! arg = Some c -> complete c = false ->
  wpf R (abandon xid) (fun r s' => r = inr RPCERR_COMM /\ over P D arg s') s.
Proof.
  intros (l & Hwf & HD & HP & c' & Hc' & Hpend) Hc Hf. rewrite Hc in Hc'. injection Hc' as <-.
  destruct Hpend as [(_ & l1 & a & x & l2 & -> & H1 & H2 & H3 & H4 & H5)|[? _]]; [|congruence].
  unfold abandon. wpf_steps. eapply wpf_mono; [by apply wp_wpf, get_from_queue_run|].
  intros q s1 [(_ & _ & Hno)|(k1 & y & k2 & m & h & E & Ey & Hno & Hq & -> & Hseg & n & Hm)].
  { exfalso. apply Forall_app in Hno as [_ [Hno _]%Forall_cons]. by apply Hno. }
  destruct (app_cons_cases _ _ _ _ _ _ E) as [(-> & [= -> ->] & ->)|[(k & -> & _)|(k & -> & _)]].
  - destruct (wf_split _ _ _ _ _ Hwf) as (Hql & Hxl & Hx & Hok). wpf_steps.
    apply wpf_assert; [by apply negb_true_iff, Z.eqb_neq|]. wpf_steps. eapply wpf_item; [exact Hm|]. wpf_steps.
    pose proof Hx as (_ & Hx0 & (b & post & Hbx & _) & _).
    eapply wpf_pbuf_free; [exact Hbx | cbn; lia |]. wpf_steps. eapply wpf_free_item; [exact Hm|]. wpf_steps. split; [done|].
    exists (k1 ++ k2). split; [|done]. apply wf_free_item; [|done]. apply wf_free_pbuf; [|done]. split; [exact Hseg | exact Hok].
  - exfalso. apply Forall_app in Hno as [_ [Hno _]%Forall_cons]. by apply Hno.
  - exfalso. apply Forall_app in H4 as [_ [Hno' _]%Forall_cons]. by apply Hno'.
Qed.

(** The loop of the wait. *)
Lemma wait_loop_run P D arg xid s c :
  waiting P D arg xid s -> call_args s !! arg = Some c -> complete c = false ->
  wpf R (while_fuel call_rounds (fun time_out =>
      if 0 <=? time_out then
        _usleep func ;;;
        c <- call_arg arg ;;
        if complete c then ret (inr 0)
        else rpc_timeout CALL_TIMEOUT_MS ;;; ret (inl (time_out - CALL_TIMEOUT_MS))
      else abandon xid) (RETRANSMIT_DELAY_MS * (CALL_RETRIES + 1)))
    (fun _ s' => over P D arg s') s.
Proof using FuncLaws0.
  intros Hw Hc Hf.
  apply (wpf_while_fuel R (fun t s' => waiting P D arg xid s' /\ (exists c, call_args s' !! arg = Some c /\ complete c = false) /\ -10 <= t)
    (fun t _ => Z.to_nat ((t + 10) / 10))).
  - split; [done|]. split; [eauto | done].
  - apply Nat.ltb_lt. by vm_compute.
  - clear s c Hw Hc Hf. intros t s (Hw & (c & Hc & Hf) & Ht). destruct (Z.leb_spec 0 t).
    + wpf_steps. eapply wpf_mono; [by apply (usleep_run P D arg xid)|]. intros [] s1 Hw1. wpf_steps. unfold call_arg. wpf_steps.
      pose proof Hw1 as (l & Hwf & HD & HP & c1 & Hc1 & Hpend). rewrite Hc1. wpf_steps. destruct (complete c1) eqn:Ec.
      * wpf_steps. destruct Hpend as [(? & _)|[_ Hr]]; [done|]. by exists l.
      * wpf_steps. eapply wpf_mono; [by apply (timeout_run P D arg xid)|]. intros [] s2 [Hw2 E2]. wpf_steps.
        split; [split; [done|]; split; [rewrite E2; eauto | unfold CALL_TIMEOUT_MS; lia]|]. unfold CALL_TIMEOUT_MS.
        Z.to_euclidean_division_equations; lia.
    + eapply wpf_mono; [by eapply (abandon_run P D arg xid c)|]. by intros r s1 [-> ?].
Qed.

(** The argument of a new call is known to no call of the queue. *)
Lemma norefs_fresh s l : wf s l -> norefs (new_ptr (call_args s)) l.
Proof.
  intros [_ (_ & _ & H3)]. eapply Forall_impl; [exact H3|]. intros ax (_ & _ & _ & _ & Hc) Hf E.
  destruct (Hc Hf) as [_ [c Hc']]. rewrite E in Hc'. by rewrite new_ptr_fresh in Hc'.
Qed.

Lemma rpc_call_run s l pbuf b xid post pcb f cb token :
  wf s l -> pbufs s !! pbuf = Some [b] -> b = xdr_longs [xid] ++ post -> is_u32 xid -> len b < 2 ^ 16 ->
  pbuf ∉ queue_pbufs l -> 0 < pbuf -> 0 < pcb -> is_Some (pcbs s !! pcb) -> Forall (fun ax => q_xid ax.2 <> xid) l ->
  wpf R (rpc_call func pbuf pcb f cb token) (fun _ s' => exists l', wf s' l' /\ norefs (new_ptr (call_args s)) l' /\
    dom (call_args s') = dom (call_args s) /\ forall k, is_Some (pcbs s !! k) -> is_Some (pcbs s' !! k)) s.
Proof using FuncLaws0.
  intros Hwf Hp Eb Hx Hlb Hnew Hp0 Hk0 [y Hy] Hxid. unfold rpc_call. wpf_steps.
  apply wpf_assert; [by apply negb_true_iff, Z.eqb_neq; lia|]. wpf_steps.
  apply wpf_assert; [by apply negb_true_iff, Z.eqb_neq; lia|]. wpf_steps.
  set (arg := new_ptr (call_args s)). set (s1 := set_call_args _ s). set (P k := is_Some (pcbs s !! k)).
  assert (arg ∉ dom (call_args s)) as Harg by apply not_elem_of_dom, new_ptr_fresh.
  assert (wf s1 l) as Hwf1.
  { apply wf_call_args; [|done]. intros k Hk. destruct (decide (k = arg)) as [->|]; [rewrite lookup_insert_eq; by eexists|].
    by rewrite lookup_insert_ne. }
  assert (norefs arg l) as Hr by by apply norefs_fresh.
  eapply wpf_extract_xid; [exact Hp | exact Eb | done | done |]. wpf_steps. unfold pbuf_bytes.
  eapply wpf_read_pbuf; [exact Hp|]. wpf_steps. split; [done|]. wpf_steps. rewrite single_tot_len.
  assert (call_args s1 !! arg = Some (RpcCallArg f token cb false)) as Hca by (cbn; apply lookup_insert_eq).
  eapply wpf_mono; [eapply (wpf_rpc_send R s1 l pbuf b xid post (len b) pcb y RpcCallCb 0 arg)|]; try done.
  { apply may_assert. }
  { rewrite Eb, length_app, Nat2Z.inj_add, length_xdr_longs. split; [simpl; lia|]. rewrite <- length_xdr_longs, <- Nat2Z.inj_add, <- length_app, <- Eb. lia. }
  { intros _. split; [subst arg; apply new_ptr_pos | by eexists]. }
  intros stat s2 [He [(Hs & Hw2 & _)|(-> & (a & Hw2) & _)]]; destruct He.
  - destruct (Z.eqb_spec stat 0); [done|]. cbn [negb]. wpf_steps. exists l. split; [by apply wf_delete_arg|]. split; [done|].
    cbn. rewrite se_call_args, se_pcbs. cbn. split; [|done]. rewrite dom_delete_L, dom_insert_L. set_solver.
  - cbn [Z.eqb negb]. wpf_steps.
    eapply wpf_mono; [apply (wait_loop_run P (dom (call_args s1)) arg xid s2 (RpcCallArg f token cb false))|].
    + exists (l ++ [(a, RpcQueue pcb pbuf xid 0 0 RpcCallCb 0 arg)]). rewrite se_call_args, se_pcbs. split; [done|]. split; [done|].
      split; [done|]. exists (RpcCallArg f token cb false). split; [done|]. left. split; [done|].
      exists l, a, (RpcQueue pcb pbuf xid 0 0 RpcCallCb 0 arg), []. by rewrite app_nil_r.
    + by rewrite se_call_args.
    + done.
    + intros r s3 (l' & Hw3 & Hr3 & HD & HP). wpf_steps. exists l'. split; [by apply wf_delete_arg|]. split; [done|].
      cbn. split; [|done]. rewrite dom_delete_L, HD. cbn. rewrite dom_insert_L. set_solver.
Qed.

(** C21: blocking calls: let the number of the call be that of no call that
    still waits, and let the functions of the clients, which run when replies
    arrive, keep the queue well formed and stop with faults of [R] only
    ([FuncLaws]).  Then a blocking call either stops at an [assert] or, in such
    a function, with a fault of [R]; or it ends, within its 302 rounds, however
    replies are lost, duplicated or reordered, and leaves a well-formed queue
    in which no call refers to its argument, which was on the stack; and all
    sockets stay open. *)
Theorem rpc_call_safe s l pbuf b xid post pcb f cb token :
  wf s l -> pbufs s !! pbuf = Some [b] -> b = xdr_longs [xid] ++ post -> is_u32 xid -> len b < 2 ^ 16 ->
  pbuf ∉ queue_pbufs l -> 0 < pbuf -> 0 < pcb -> is_Some (pcbs s !! pcb) -> Forall (fun ax => q_xid ax.2 <> xid) l ->
  wpf R (rpc_call func pbuf pcb f cb token) (fun _ s' => exists l', wf s' l' /\ norefs (new_ptr (call_args s)) l' /\
    dom (call_args s') = dom (call_args s) /\ forall k, is_Some (pcbs s !! k) -> is_Some (pcbs s' !! k)) s.
Proof using FuncLaws0. apply rpc_call_run. Qed.

(** C25: replies: a packet whose number no call waits for changes nothing but
    is freed; else the function of the first call with that number runs, once,
    with the queue without the call, and then the packets and the call are
    freed.  When the numbers of the calls are distinct, no call with the number
    is left, so a second copy of the reply is dropped. *)
Theorem my_recv_once s l p (b : list Z) xid post :
  wf s l -> pbufs s !! p = Some [b] -> b = xdr_longs [xid] ++ post -> is_u32 xid -> len b < 2 ^ 16 -> p <> 0 ->
  (Forall (fun ax => q_xid ax.2 <> xid) l /\ my_recv func p s = Ok (tt, set_pbufs (delete p (pbufs s)) s)) \/
  (exists l1 q x l2 s1, l = l1 ++ (q, x) :: l2 /\ q_xid x = xid /\ wf s1 (l1 ++ l2) /\
    Forall (fun ax => q_xid ax.2 <> xid) l1 /\ (NoDup ((fun ax => q_xid ax.2) <$> l) -> Forall (fun ax => q_xid ax.2 <> xid) (l1 ++ l2)) /\
    (exists m h, s1 = set_queue h (set_items m s)) /\
    my_recv func p s = (func_call func (q_func x) (q_callback x) (q_arg x) p ;;;
      y <- item q ;; pbuf_free (q_pbuf y) ;;; free_item q ;;; pbuf_free p) s1).
Proof using.
  intros Hwf Hp Eb Hx Hlb Hp0.
  destruct (proj1 (wp_ok _ _ _) (wpf_extract_xid (fun _ => False) p b xid post (fun r s' => r = xid /\ s' = s) s Hp Eb Hx Hlb (conj eq_refl eq_refl)))
    as (r & s' & E & -> & ->).
  destruct (proj1 (wp_ok _ _ _) (get_from_queue_run s l xid Hwf)) as (q & s1 & Eq & H).
  unfold my_recv, bind. rewrite E, Eq.
  destruct H as [(-> & -> & Hno)|(l1 & x & l2 & m & h & -> & Ex & Hno & Hq & -> & Hseg & n & Hm)].
  - left. split; [done|]. cbn [Z.eqb negb]. unfold ret.
    destruct (proj1 (wp_ok _ _ _) (wpf_pbuf_free (fun _ => False) p [b] (fun _ s' => s' = set_pbufs (delete p (pbufs s)) s) s Hp Hp0 eq_refl))
      as ([] & s' & -> & ->). done.
  - right. destruct (wf_split _ _ _ _ _ Hwf) as (_ & _ & _ & Hok).
    exists l1, q, x, l2, (set_queue h (set_items m s)). split; [done|]. split; [done|]. split; [by split|]. split; [done|].
    split; [|split; [eauto|]].
    + rewrite fmap_app, fmap_cons. simpl. intros (_ & H12 & [H2 _]%NoDup_cons)%NoDup_app. apply Forall_app. split; [done|].
      apply Forall_forall. intros ax Hax E'. apply H2. rewrite Ex, <- E'. by apply (list_elem_of_fmap_2 (fun ax => q_xid ax.2)).
    + destruct (Z.eqb_spec q 0); [done|]. cbn [negb]. unfold item at 1, bind, get. cbn [items set_queue set_items]. rewrite Hm.
      unfold ret. cbn [q_func q_callback q_arg set_next].
      destruct (func_call _ _ _ _ _ _) as [[[] s2]|]; [|done]. destruct (item q s2) as [[y s3]|]; [|done].
      destruct (pbuf_free (q_pbuf y) s3) as [[[] s4]|]; [|done]. by destruct (free_item q s4) as [[[] s5]|].
Qed.

(** ** Any use of the transport *)

(** A state with the same calls and more sockets. *)
Record opened s s' : Prop := {
  op_pbufs : pbufs s' = pbufs s;
  op_items : items s' = items s;
  op_queue : queue s' = queue s;
  op_call_args : call_args s' = call_args s;
  op_pcbs k : is_Some (pcbs s !! k) -> is_Some (pcbs s' !! k)
}.

#[export] Instance opened_preorder : PreOrder opened.
Proof. split; [by intros s |]. intros s1 s2 s3 [] []. split; [congruence.. | eauto]. Qed.

Lemma wf_opened s s' l : opened s s' -> wf s l -> wf s' l.
Proof.
  intros [E1 E2 E3 E4 H] [Hseg (H1 & H2 & H3)]. split; [by rewrite E2, E3|]. split; [done|]. split; [done|].
  eapply Forall_impl; [exact H3|]. intros ax. apply call_ok_heaps; [by rewrite E1 | apply H | by rewrite E4].
Qed.

Lemma upd_pcb_run pcb g s : is_Some (pcbs s !! pcb) ->
  wpf R (upd_pcb pcb g) (fun _ s' => opened s s') s.
Proof.
  intros [x Hx]. unfold upd_pcb, the_pcb. wpf_steps. rewrite Hx. wpf_steps. split; [done.. |]. intros k Hk. cbn.
  destruct (decide (k = pcb)) as [->|]; [rewrite lookup_insert_eq; by eexists | by rewrite lookup_insert_ne].
Qed.

Lemma rpc_new_udp_run server port kind s :
  wpf R (rpc_new_udp server port kind) (fun p s' => 0 < p /\ is_Some (pcbs s' !! p) /\ opened s s') s.
Proof using FuncLaws0.
  unfold rpc_new_udp, udp_new. wpf_steps. apply wpf_ncall. destruct (mem_ok (net s)).1; cbn [negb].
  2:{ wpf_steps. apply wpf_may_assert; [apply may_assert | done]. }
  wpf_steps. cbn [pcbs set_net]. set (p := new_ptr (pcbs s)). set (s1 := set_pcbs _ _).
  assert (0 < p) as Hp by apply new_ptr_pos. assert (is_Some (pcbs s1 !! p)) as H1 by (cbn; rewrite lookup_insert_eq; by eexists).
  assert (opened s s1) as O1.
  { split; [done.. |]. intros k Hk. cbn. destruct (decide (k = p)) as [->|]; [rewrite lookup_insert_eq; by eexists | by rewrite lookup_insert_ne]. }
  apply wpf_assert; [by apply negb_true_iff, Z.eqb_neq; lia|]. wpf_steps. unfold udp_recv.
  eapply wpf_mono; [by apply upd_pcb_run|]. intros [] s2 O2. wpf_steps.
  eapply (wpf_mono _ _ (fun _ s' => opened s2 s')).
  { destruct kind; [by wpf_steps|]. wpf_steps. apply (wpf_mono _ _ (fun _ s' => opened s2 s')).
    { destruct (_ || _); by wpf_steps. }
    intros [] s3 O3. wpf_steps. unfold udp_bind. wpf_steps. apply wpf_ncall. set (s4 := set_net _ _).
    assert (opened s2 s4) as O4 by (transitivity s3; [done | by split]).
    destruct (bind_ok _ _).1; [|by wpf_steps]. eapply wpf_mono; [apply upd_pcb_run, (op_pcbs _ _ O4), (op_pcbs _ _ O2), H1|].
    intros [] s5 O5. by etransitivity. }
  intros [] s3 O3. wpf_steps. eapply wpf_mono; [apply upd_pcb_run, (op_pcbs _ _ O3), (op_pcbs _ _ O2), H1|]. intros [] s4 O4. wpf_steps.
  split; [done|]. split; [by apply (op_pcbs _ _ O4), (op_pcbs _ _ O3), (op_pcbs _ _ O2)|]. by do 3 (etransitivity; [eassumption|]).
Qed.

(** A call with arguments that [args] encodes. *)
Definition request (pcb prog vers proc : Z) (args : Z -> M chain Z) (f : F) (cb arg : Z) : M S Z :=
  let! (pbuf, pos) := rpcpbuf_init prog vers proc in
  if pbuf =? 0 then ret RPCERR_NOBUF
  else
    pos <- on_pbuf pbuf (args pos) ;;
    rpc_send pbuf pos pcb (Direct f) cb arg.

(** The uses: a new socket, a call with some arguments on an open socket, the
    passing of time, and the arrival of any packet. *)
Inductive rpc_op :=
  | OpOpen (server port : Z) (kind : port_type)
  | OpCall (pcb prog vers proc : Z) (data : list Z) (f : F) (cb arg : Z)
  | OpTick (ms : Z)
  | OpArrive (a : Z * chain).

Definition run_op (o : rpc_op) : M S unit :=
  match o with
  | OpOpen server port kind => rpc_new_udp server port kind ;;; ret tt
  | OpCall pcb prog vers proc data f cb arg =>
      s <- get ;;
      if bool_decide (is_Some (pcbs s !! pcb)) && (0 <? pcb) && (len data <=? UDP_PAYLOAD - hdr_size) then
        request pcb prog vers proc (pb_write data (len data)) f cb arg ;;; ret tt
      else ret tt
  | OpTick ms => rpc_timeout ms
  | OpArrive a => udp_input func a
  end.

Fixpoint run_ops (ops : list rpc_op) : M S unit :=
  match ops with
  | [] => ret tt
  | o :: ops' => run_op o ;;; run_ops ops'
  end.

(** ** Requests *)

(** The call is sent, or nothing changes but the network and the numbers. *)
Definition requested s l pcb (x : udp_pcb) (pkt : list Z) f cb arg (err : Z) s' : Prop :=
  call_args s' = call_args s /\ pcbs s' = pcbs s /\ tokens s' = tokens s /\ _nfs_pcb s' = _nfs_pcb s /\
  ((err <> 0 /\ wf s' l /\ pbufs s' = pbufs s) \/
   (err = 0 /\ (exists a p, wf s' (l ++ [(a, RpcQueue pcb p (u32 (cur_xid s + 1)) 0 0 (Direct f) cb arg)]) /\
      pbufs s !! p = None /\ pbufs s' = <[p := [pkt]]> (pbufs s)) /\
    exists n0 n1, udp_output x pkt n0 = (ERR_OK, n1) /\ net s' = (mem_ok n1).2)).

(** A new packet is sent. *)
Lemma send_new s s2 l p b xid post n pcb (x : udp_pcb) f cb arg :
  wf s l -> pbufs s !! p = None -> 0 < p -> pbufs s2 = <[p := [b]]> (pbufs s) -> items s2 = items s -> queue s2 = queue s ->
  pcbs s2 = pcbs s -> call_args s2 = call_args s -> b = xdr_longs [xid] ++ post -> is_u32 xid -> len b < 2 ^ 16 -> 0 < pcb ->
  pcbs s !! pcb = Some x -> 4 <= n < 2 ^ 16 ->
  wpf R (rpc_send p n pcb (Direct f) cb arg) (fun err s' => same_env s2 s' /\
    ((err <> 0 /\ wf s' l /\ pbufs s' = pbufs s) \/
     (err = 0 /\ (exists a, wf s' (l ++ [(a, RpcQueue pcb p xid 0 0 (Direct f) cb arg)])) /\
      pbufs s' = <[p := [take (Z.to_nat n) b]]> (pbufs s) /\
      exists n0 n1, udp_output x (take (Z.to_nat n) b) n0 = (ERR_OK, n1) /\ net s' = (mem_ok n1).2))) s2.
Proof using FuncLaws0.
  intros Hwf Hp Hp0 E1 E2 E3 E4 E5 Eb Hx Hb Hk0 Hk Hn.
  assert (p ∉ queue_pbufs l) as Hpl.
  { intros ([a y] & Ep & Hin)%list_elem_of_fmap. simpl in Ep. destruct Hwf as [_ (_ & _ & Hall)].
    rewrite Forall_forall in Hall. destruct (Hall _ Hin) as (_ & _ & (b0 & post0 & Hb0 & _) & _). simpl in Hb0. rewrite <- Ep in Hb0. pose proof (eq_trans (eq_sym Hb0) Hp). done. }
  assert (wf s2 l) as Hwf2.
  { destruct Hwf as [Hseg (H1 & H2 & H3)]. split; [by rewrite E2, E3|]. split; [done|]. split; [done|]. rewrite Forall_forall in *. intros ax Hax.
    eapply call_ok_heaps; [| | |by apply H3]; [|by rewrite E4|by rewrite E5]. intros b0. rewrite E1, lookup_insert_ne; [done|].
    intros ->. apply Hpl. by apply (list_elem_of_fmap_2 (fun ax => q_pbuf ax.2)). }
  eapply wpf_mono; [eapply (wpf_rpc_send R s2 l p b xid post n pcb x (Direct f) cb arg)|]; try done.
  { apply may_assert. }
  { rewrite E1. apply lookup_insert_eq. }
  { by rewrite E4. }
  intros err s3 [Hse [(Herr & Hw3 & Hp3)|(-> & Hw3 & Hp3 & Hsent)]]; (split; [done|]).
  - left. split; [done|]. split; [done|]. by rewrite Hp3, E1, delete_insert_id.
  - right. split; [done|]. split; [done|]. split; [|done]. by rewrite Hp3, E1, insert_insert_eq.
Qed.

Lemma request_run s l pcb (x : udp_pcb) prog vers proc args bytes f cb arg :
  wf s l -> 0 < pcb -> pcbs s !! pcb = Some x -> encodes args bytes -> len bytes <= UDP_PAYLOAD - hdr_size ->
  wpf R (request pcb prog vers proc args f cb arg)
    (requested s l pcb x (rpc_hdr (u32 (cur_xid s + 1)) prog vers proc ++ bytes) f cb arg) s.
Proof using FuncLaws0.
  intros Hwf Hk0 Hk He Hl. unfold request. wpf_steps. set (xid := u32 (cur_xid s + 1)).
  apply wpf_rpcpbuf_init.
  { intros n. wpf_steps. cbn. split; [done|]. split; [done|]. split; [done|]. split; [done|]. by left. }
  intros p b post n Hp Hp0 Eb Hlb. destruct (Z.eqb_spec p 0); [lia|]. fold xid in Eb |- *. wpf_steps.
  set (s1 := set_pbufs _ _). unfold UDP_PAYLOAD, hdr_size in *.
  eapply wpf_on_pbuf; [cbn; apply lookup_insert_eq|].
  eapply wpf_mono; [apply wp_wpf, (encodes_single args bytes b (rpc_hdr xid prog vers proc) post); [done | done | done |]|].
  { rewrite length_rpc_hdr. unfold hdr_size. lia. }
  intros pos c (b' & post' & -> & Eb' & Hlb' & ->). wpf_steps. cbn [pbufs set_pbufs s1]. rewrite insert_insert_eq.
  set (s2 := set_pbufs _ s1). set (pkt := rpc_hdr xid prog vers proc ++ bytes).
  destruct (rpc_hdr_xid xid prog vers proc) as [rest Erest].
  assert (len pkt = 68 + len bytes) as Hpkt by (unfold pkt; rewrite length_app, Nat2Z.inj_add, length_rpc_hdr; done).
  eapply wpf_mono; [eapply (send_new s s2 l p b' xid ((rest ++ bytes) ++ post') (len pkt) pcb x f cb arg)|]; try done.
  { by rewrite Eb', Erest, <- !app_assoc. }
  { apply u32_range. }
  { lia. }
  { lia. }
  intros err s3 [Hse Hout]. destruct Hse. split; [done|]. split; [done|]. split; [done|]. split; [done|].
  assert (take (Z.to_nat (len pkt)) b' = pkt) as Etake by (rewrite Nat2Z.id, Eb'; apply take_app_length). rewrite Etake in *.
  destruct Hout as [Hout|(-> & (a & Hw3) & Hp3 & Hsent)]; [by left|].
  right. split; [done|]. split; [|done]. by exists a, p.
Qed.

Lemma run_op_wf o s l : wf s l -> wpf R (run_op o) (fun _ s' => exists l', wf s' l') s.
Proof using FuncLaws0.
  intros Hwf. destruct o as [server port kind|pcb prog vers proc data f cb arg|ms|a]; cbn [run_op].
  - wpf_steps. eapply wpf_mono; [apply rpc_new_udp_run|]. intros p s' (_ & _ & Ho). wpf_steps. exists l. by eapply wf_opened.
  - wpf_steps. case_bool_decide as Hk; [|cbn; wpf_steps; eauto]. destruct Hk as [x Hk]. destruct (Z.ltb_spec 0 pcb); [|cbn; wpf_steps; eauto].
    destruct (Z.leb_spec (len data) (UDP_PAYLOAD - hdr_size)) as [Hl|]; cbn [andb]; [|wpf_steps; eauto].
    wpf_steps. eapply wpf_mono; [by apply (request_run s l pcb x prog vers proc _ _ f cb arg Hwf ltac:(done) Hk (encodes_write data) Hl)|].
    intros err s' (_ & _ & _ & _ & [(_ & Hw & _)|(_ & (a & p & Hw & _) & _)]); wpf_steps; eauto.
  - eapply wpf_mono; [by apply (wpf_rpc_timeout R ms s l)|]. intros [] s' (l' & _ & Hw & _). eauto.
  - eapply wpf_mono; [by apply (udp_input_run a s l)|]. intros [] s' [(Hw & _)|(l1 & q & x & l2 & l' & new & _ & _ & Hw & _)]; eauto.
Qed.

(** C23: well-formedness: let the functions of the clients keep the queue well
    formed and stop with faults of [R] only ([FuncLaws]).  Then, whatever
    sequence of calls is sent, time passes and packets arrive, the queue stays a list of distinct calls, each with its own
    packet that starts with its number, an open socket and, for a blocking call,
    its argument.  The sequence stops early only at an [assert] (no memory, a
    packet too short) or with a fault of [R] in a function of a client; the
    transport itself makes no invalid access. *)
Theorem rpc_well_formed ops s l : wf s l -> wpf R (run_ops ops) (fun _ s' => exists l', wf s' l') s.
Proof using FuncLaws0.
  revert s l. induction ops as [|o ops IH]; intros s l Hwf; cbn [run_ops]; wpf_steps; [eauto|].
  eapply wpf_mono; [by eapply run_op_wf|]. intros [] s' [l' Hwf']. by eapply IH.
Qed.
End claims.

(** ** A network *)

(** The packets sent, and for every wait the packets that arrive. *)
Definition demo_net : Type := list (list Z) * list (list (Z * chain)).

#[export] Instance demo_Net : Net demo_net := {|
  mem_ok n := (true, n);
  garbage n _ := replicate n 0;
  length_garbage n _ := length_replicate n 0;
  udp_output _ b n := (ERR_OK, (n.1 ++ [b], n.2));
  bind_ok _ n := (true, n);
  arrivals n := match n.2 with [] => ([], n) | a :: r => (a, (n.1, r)) end
|}.

(** Functions that do nothing. *)
Definition demo_func (f : unit) (cb arg p : Z) : M (rpc unit demo_net) unit := ret tt.

#[export] Instance demo_FuncLaws : FuncLaws (eq FAssert) demo_func.
Proof.
  split; [done|]. intros f cb arg p c s l Hwf Hp Hpl. exists l, []. split; try done.
  - by rewrite app_nil_r.
  - intros a y Ha Hl. by rewrite app_nil_r.
  - intros k c' Hk Hl. by rewrite app_nil_r.
Qed.

(** A socket and a packet with number 101; the reply is lost. *)
Definition demo_packet : list Z := xdr_longs [101; 0].
Definition demo_rpc (inbox : list (list (Z * chain))) : rpc unit demo_net :=
  Rpc ([], inbox) {[1 := [demo_packet]]} ∅ 0 101 ∅ {[1 := UdpPcb MyRecv 45 0 2049]} 45 0 ∅ 1.

Lemma demo_wf inbox : wf (demo_rpc inbox) [].
Proof. split; [done|]. split; [constructor|]. split; constructor. Qed.

Lemma rpc_call_safe_witness :
  (exists s', rpc_call demo_func 1 1 tt 0 0 (demo_rpc []) = Ok (RPCERR_COMM, s')) /\
  wpf (eq FAssert) (rpc_call demo_func 1 1 tt 0 0) (fun _ s' => exists l', wf s' l' /\ norefs 1 l' /\
    dom (call_args s') = dom (∅ : gmap Z (rpc_call_arg unit)) /\ forall k, is_Some (pcbs (demo_rpc []) !! k) -> is_Some (pcbs s' !! k)) (demo_rpc []).
Proof.
  split; [eexists; vm_compute; reflexivity|].
  apply (rpc_call_safe (eq FAssert) demo_func (demo_rpc []) [] 1 demo_packet 101 (xdr_longs [0]) 1 tt 0 0).
  - apply demo_wf.
  - reflexivity.
  - reflexivity.
  - unfold is_u32. lia.
  - reflexivity.
  - apply not_elem_of_nil.
  - lia.
  - lia.
  - by eexists.
  - constructor.
Defined.

(** The same with one call in the queue, and its reply. *)
Definition demo_waiting : rpc unit demo_net :=
  Rpc ([], []) {[1 := [demo_packet]; 2 := [xdr_longs [101; 1]]]}
    {[7 := RpcQueue 1 1 101 0 0 (Direct tt) 5 6]} 7 101 ∅ {[1 := UdpPcb MyRecv 45 0 2049]} 45 0 ∅ 1.

Lemma demo_waiting_wf : wf demo_waiting [(7, RpcQueue 1 1 101 0 0 (Direct tt) 5 6)].
Proof.
  split; [split; [done|]; split; [done|]; exists 0; done|]. split; [apply NoDup_singleton|]. split; [apply NoDup_singleton|].
  constructor; [|constructor]. split; [unfold is_u32; simpl; lia|]. split; [done|]. split; [by exists demo_packet, (xdr_longs [0])|].
  split; [by eexists | done].
Qed.

Lemma my_recv_once_witness :
  exists s', my_recv demo_func 2 demo_waiting = Ok (tt, s') /\ queue s' = 0 /\ pbufs s' = ∅.
Proof.
  destruct (my_recv_once demo_func demo_waiting _ 2 (xdr_longs [101; 1]) 101 (xdr_longs [1]) demo_waiting_wf eq_refl eq_refl)
    as [(Hno & _)|_].
  - unfold is_u32. lia.
  - reflexivity.
  - lia.
  - exfalso. apply Forall_cons in Hno as [Hno _]. by apply Hno.
  - eexists. split; [vm_compute; reflexivity|]. split; reflexivity.
Defined.

Lemma rpc_well_formed_witness :
  wpf (eq FAssert) (run_ops demo_func [OpOpen 9 111 PORT_ANY; OpCall 1 100000 2 3 [0; 0; 0; 1] tt 0 0; OpTick 600; OpArrive (1, [[0; 0; 0; 102]])])
    (fun _ s' => exists l', wf s' l') (demo_rpc []).
Proof. apply (rpc_well_formed (eq FAssert) demo_func _ (demo_rpc []) []). apply demo_wf. Defined.
