(* ===== verification/NfsLib.v ===== *)
(** * NfsLib: the client of the network file system

    Models libs/libnfs/src/nfs.c, mountd.c and portmapper.c: the requests that
    are encoded into packets and sent, and the functions that decode the
    replies and hand the results to the client.  What the client does with a
    result is a parameter. *)

From S2P Require Import Prelude Pbuf Rpc.

Definition FHSIZE : Z := 32.
(** The longs of a [fattr_t] and of a [sattr_t]. *)
Definition FATTR_LONGS : Z := 17.
Definition SATTR_LONGS : Z := 8.

Definition NFS_OK : Z := 0.
Definition NFSERR_COMM : Z := 200.

Definition NFS_READ_MAX : Z := 1024.
Definition NFS_NUMBER : Z := 100003.
Definition NFS_VERSION : Z := 2.
Definition NFSPROC_GETATTR : Z := 1.
Definition NFSPROC_LOOKUP : Z := 4.
Definition NFSPROC_READ : Z := 6.
Definition NFSPROC_WRITE : Z := 8.
Definition NFSPROC_CREATE : Z := 9.
Definition NFSPROC_REMOVE : Z := 10.
Definition NFSPROC_READDIR : Z := 16.
Definition READDIR_BUF_SIZE : Z := 1024.

Definition MNT_NUMBER : Z := 100005.
Definition MNT_VERSION : Z := 1.
Definition MNTPROC_EXPORT : Z := 5.
Definition MNTPROC_MNT : Z := 1.

Definition PMAP_PORT : Z := 111.
Definition PMAP_NUMBER : Z := 100000.
Definition PMAP_VERSION : Z := 2.
Definition IPPROTO_UDP : Z := 17.
Definition PMAPPROC_GETPORT : Z := 3.

(** The functions given to [rpc_send] and [rpc_call]. *)
Inductive nfs_fn :=
  | NfsGetattrCb | NfsLookupCb | NfsReadCb | NfsWriteCb | NfsCreateCb | NfsRemoveCb | NfsReaddirCb
  | GetportCb | MountdPrintExportsCb | MountdMountCb.

(** The arguments of the callbacks of the client after the token; [None] is an
    object that is not set. *)
Inductive nfs_result :=
  | Getattr (status : Z) (fattr : option (list Z))
  | Lookup (status : Z) (fh fattr : option (list Z))
  | Read (status : Z) (fattr : option (list Z)) (count : Z) (data : option (list Z))
  | Write (status : Z) (fattr : option (list Z)) (count : Z)
  | Create (status : Z) (fh fattr : option (list Z))
  | Remove (status : Z)
  | Readdir (status : Z) (file_names : list (list Z)) (nfscookie : Z).

Section nfs.
Context {N : Type} `{!Net N}.
Local Abbreviation S := (rpc nfs_fn N).

(** [cb(token, ...)]: the callback at address [cb] of the client. *)
Context (deliver : Z -> Z -> nfs_result -> M S unit).

Definition the_token (t : Z) : M S token_obj :=
  s <- get ;; match tokens s !! t with None => fail FNull | Some x => ret x end.
Definition new_token (x : token_obj) : M S Z :=
  s <- get ;;
  let t := new_ptr (tokens s) in
  put (set_tokens (<[t := x]> (tokens s)) s) ;;; ret t.
Definition put_token (t : Z) (x : token_obj) : M S unit :=
  _x <- the_token t ;; modify (fun s => set_tokens (<[t := x]> (tokens s)) s).
Definition drop_token (t : Z) : M S unit :=
  _x <- the_token t ;; modify (fun s => set_tokens (delete t (tokens s)) s).

(** ** Replies of the file server *)

(** The status of the reply and the position after it. *)
Definition reply_status : M chain (Z * Z) :=
  let! (err, pos) := rpc_read_hdr in
  if err =? RPCERR_OK then pb_readl pos else ret (NFSERR_COMM, pos).

Definition read_fattr (pos : Z) : M chain (list Z * Z) := pb_read_arrl FATTR_LONGS pos.
Definition read_fh (pos : Z) : M chain (list Z * Z) := pb_read FHSIZE FHSIZE pos.

(** The parts of a reply that is a status and attributes, or a status, a handle
    and attributes. *)
Definition parse_attrstat : M chain (Z * option (list Z)) :=
  let! (status, pos) := reply_status in
  if status =? NFS_OK then let! (a, _) := read_fattr pos in ret (status, Some a)
  else ret (status, None).
Definition parse_diropres : M chain (Z * option (list Z) * option (list Z)) :=
  let! (status, pos) := reply_status in
  if status =? NFS_OK then
    let! (fh, pos) := read_fh pos in
    let! (a, _) := read_fattr pos in
    ret (status, Some fh, Some a)
  else ret (status, None, None).

Definition _nfs_getattr_cb (callback token pbuf : Z) : M S unit :=
  c_assert (negb (callback =? 0)) ;;;
  let! (status, a) := on_pbuf pbuf parse_attrstat in
  deliver callback token (Getattr status a).

Definition _nfs_lookup_cb (callback token pbuf : Z) : M S unit :=
  c_assert (negb (callback =? 0)) ;;;
  let! (status, fh, a) := on_pbuf pbuf parse_diropres in
  deliver callback token (Lookup status fh a).

Definition _nfs_read_cb (callback token pbuf : Z) : M S unit :=
  c_assert (negb (callback =? 0)) ;;;
  let! (status, pos) := on_pbuf pbuf reply_status in
  if status =? NFS_OK then
    let! (a, pos) := on_pbuf pbuf (read_fattr pos) in
    let! (size, pos) := on_pbuf pbuf (pb_readl pos) in
    ok <- ncall mem_ok ;;
    c_assert ok ;;;
    let! (data, _) := on_pbuf pbuf (pb_read size (i32 size) pos) in
    deliver callback token (Read status (Some a) (i32 size) (Some data))
  else deliver callback token (Read status None 0 None).

Definition _nfs_write_cb (callback token pbuf : Z) : M S unit :=
  c_assert (negb (callback =? 0)) ;;;
  let! (status, a) := on_pbuf pbuf parse_attrstat in
  t <- the_token token ;;
  match t with
  | WriteToken token' count => deliver callback token' (Write status a count) ;;; drop_token token
  | _ => fail FNull
  end.

Definition _nfs_create_cb (callback token pbuf : Z) : M S unit :=
  c_assert (negb (callback =? 0)) ;;;
  let! (status, fh, a) := on_pbuf pbuf parse_diropres in
  deliver callback token (Create status fh a).

Definition _nfs_remove_cb (callback token pbuf : Z) : M S unit :=
  c_assert (negb (callback =? 0)) ;;;
  let! (status, _) := on_pbuf pbuf reply_status in
  deliver callback token (Remove status).

(** One entry of a directory: its name and its cookie.  The name is read into
    a buffer of [size + 1] bytes whose allocation is not checked: with the null
    pointer the [LWIP_ERROR] of [pbuf_copy_partial], which asserts that its
    buffer is not null, stops the program.  The record of the name, allocated
    last, is written to without a check, hence [FNull]. *)
Definition readdir_entry (pbuf pos : Z) : M S (list Z * Z * Z) :=
  let! (_, pos) := on_pbuf pbuf (pb_readl pos) in
  let! (size, pos) := on_pbuf pbuf (pb_readl pos) in
  ok <- ncall mem_ok ;;
  c_assert ok ;;;
  let! (name, pos) := on_pbuf pbuf (pb_read (u32 (size + 1)) (i32 size) pos) in
  let! (cookie, pos) := on_pbuf pbuf (pb_readl (pb_alignl pos)) in
  ok <- ncall mem_ok ;;
  if ok then ret (name, cookie, pos) else fail FNull.

(** Every entry takes at least 16 bytes of the packet. *)
Definition readdir_entries (pbuf pos : Z) : M S (list (list Z) * Z) :=
  c <- pbuf_bytes pbuf ;;
  while_fuel (Datatypes.S (Z.to_nat (tot_len c))) (fun v =>
    let '(names, next_cookie, pos) := v in
    let! (more, pos) := on_pbuf pbuf (pb_readl pos) in
    if more =? 0 then ret (inr (names, next_cookie))
    else
      let! (name, cookie, pos) := readdir_entry pbuf pos in
      ret (inl (names ++ [name], cookie, pos))) ([], 0, pos).

Definition _nfs_readdir_cb (callback token pbuf : Z) : M S unit :=
  c_assert (negb (callback =? 0)) ;;;
  let! (status, pos) := on_pbuf pbuf reply_status in
  if status =? NFS_OK then
    let! (names, next_cookie) := readdir_entries pbuf pos in
    ok <- ncall mem_ok ;;
    c_assert ok ;;;
    deliver callback token (Readdir status names next_cookie)
  else deliver callback token (Readdir status [] 0).

(** ** Replies of the port mapper and the mount server *)

Definition getport_cb (token pbuf : Z) : M S unit :=
  let! (err, pos) := on_pbuf pbuf rpc_read_hdr in
  if negb (err =? 0) then put_token token (PortToken (Some 0))
  else let! (port, _) := on_pbuf pbuf (pb_readl pos) in put_token token (PortToken (Some port)).

(** The size of the buffer the names are read to. *)
Definition export_str : Z := 100.

Fixpoint export_groups (fuel : nat) (pos : Z) : M chain Z :=
  match fuel with
  | O => fail FFuel
  | Datatypes.S fuel' =>
      let! (opt, pos) := pb_readl pos in
      if opt =? 0 then ret pos
      else let! (_, pos) := pb_read_str export_str pos in export_groups fuel' pos
  end.
Fixpoint exports (fuel : nat) (pos : Z) : M chain unit :=
  match fuel with
  | O => fail FFuel
  | Datatypes.S fuel' =>
      let! (opt, pos) := pb_readl pos in
      if opt =? 0 then ret tt
      else
        let! (_, pos) := pb_read_str export_str pos in
        pos <- export_groups fuel' pos ;;
        exports fuel' pos
  end.

Definition mountd_print_exports_cb (token pbuf : Z) : M S unit :=
  let! (err, pos) := on_pbuf pbuf rpc_read_hdr in
  put_token token (ExportsToken (Some err)) ;;;
  if err =? RPCERR_OK then
    c <- pbuf_bytes pbuf ;;
    on_pbuf pbuf (exports (Datatypes.S (Z.to_nat (tot_len c))) pos)
  else ret tt.

Definition mountd_mount_cb (token pbuf : Z) : M S unit :=
  let! (err, pos) := on_pbuf pbuf rpc_read_hdr in
  t <- the_token token ;;
  match t with
  | MountToken _ old =>
      if err =? RPCERR_OK then
        let! (status, pos) := on_pbuf pbuf (pb_readl pos) in
        if status =? 0 then
          let! (fh, _) := on_pbuf pbuf (read_fh pos) in put_token token (MountToken RPC_OK fh)
        else put_token token (MountToken RPCERR_NOSUP old)
      else put_token token (MountToken RPCERR_NOSUP old)
  | _ => fail FNull
  end.

Definition nfs_func (f : nfs_fn) (callback token pbuf : Z) : M S unit :=
  match f with
  | NfsGetattrCb => _nfs_getattr_cb callback token pbuf
  | NfsLookupCb => _nfs_lookup_cb callback token pbuf
  | NfsReadCb => _nfs_read_cb callback token pbuf
  | NfsWriteCb => _nfs_write_cb callback token pbuf
  | NfsCreateCb => _nfs_create_cb callback token pbuf
  | NfsRemoveCb => _nfs_remove_cb callback token pbuf
  | NfsReaddirCb => _nfs_readdir_cb callback token pbuf
  | GetportCb => getport_cb token pbuf
  | MountdPrintExportsCb => mountd_print_exports_cb token pbuf
  | MountdMountCb => mountd_mount_cb token pbuf
  end.

(** ** Requests to the file server *)

(** Encodes the arguments after the header and sends the call. *)
Definition nfs_request (proc : Z) (args : Z -> M chain Z) (f : nfs_fn) (callback token : Z) : M S Z :=
  let! (pbuf, pos) := rpcpbuf_init NFS_NUMBER NFS_VERSION proc in
  if pbuf =? 0 then ret RPCERR_NOBUF
  else
    pos <- on_pbuf pbuf (args pos) ;;
    s <- get ;;
    rpc_send pbuf pos (_nfs_pcb s) (Direct f) callback token.

Definition nfs_getattr (fh : list Z) (callback token : Z) : M S Z :=
  nfs_request NFSPROC_GETATTR (fun pos => pb_write fh FHSIZE pos) NfsGetattrCb callback token.

Definition write_diropargs (fh name : list Z) (pos : Z) : M chain Z :=
  pos <- pb_write fh FHSIZE pos ;; pb_write_str name (len name) pos.

(** [name] is the string without its terminator. *)
Definition nfs_lookup (cwd name : list Z) (callback token : Z) : M S Z :=
  nfs_request NFSPROC_LOOKUP (write_diropargs cwd name) NfsLookupCb callback token.

Definition nfs_read (fh : list Z) (offset count callback token : Z) : M S Z :=
  nfs_request NFSPROC_READ (fun pos =>
    pos <- pb_write fh FHSIZE pos ;;
    pos <- pb_writel (u32 offset) pos ;;
    pos <- pb_writel (u32 (if NFS_READ_MAX <? count then NFS_READ_MAX else count)) pos ;;
    pb_writel 0 pos) NfsReadCb callback token.

(** The count that is sent and the position after the data. *)
Definition write_args (fh : list Z) (offset count : Z) (data : list Z) (pos : Z) : M chain (Z * Z) :=
  pos <- pb_write fh FHSIZE pos ;;
  pos <- pb_writel 0 pos ;;
  pos <- pb_writel (u32 offset) pos ;;
  pos <- pb_writel 0 pos ;;
  c <- get ;;
  let limit := tot_len c - pos - 4 in
  let count := if limit <? count then limit else count in
  pos <- pb_writel (u32 count) pos ;;
  pos <- pb_write data count pos ;;
  ret (count, pb_alignl pos).

Definition nfs_write (fh : list Z) (offset count : Z) (data : list Z) (callback token : Z) : M S Z :=
  ok <- ncall mem_ok ;;
  if negb ok then ret RPCERR_NOMEM
  else
    let! (pbuf, pos) := rpcpbuf_init NFS_NUMBER NFS_VERSION NFSPROC_WRITE in
    if pbuf =? 0 then ret RPCERR_NOBUF
    else
      let! (count, pos) := on_pbuf pbuf (write_args fh offset count data pos) in
      t <- new_token (WriteToken token count) ;;
      s <- get ;;
      err <- rpc_send pbuf pos (_nfs_pcb s) (Direct NfsWriteCb) callback t ;;
      (if negb (err =? 0) then drop_token t else ret tt) ;;;
      ret err.

Definition nfs_create (fh name sat : list Z) (callback token : Z) : M S Z :=
  nfs_request NFSPROC_CREATE (fun pos => pos <- write_diropargs fh name pos ;; pb_write_arrl sat pos)
    NfsCreateCb callback token.

Definition nfs_remove (fh name : list Z) (callback token : Z) : M S Z :=
  nfs_request NFSPROC_REMOVE (write_diropargs fh name) NfsRemoveCb callback token.

Definition nfs_readdir (pfh : list Z) (cookie callback token : Z) : M S Z :=
  nfs_request NFSPROC_READDIR (fun pos =>
    pos <- pb_write pfh FHSIZE pos ;;
    pos <- pb_writel cookie pos ;;
    pb_writel READDIR_BUF_SIZE pos) NfsReaddirCb callback token.

Definition nfs_timeout : M S unit := rpc_timeout 100.

(** ** The port mapper, mounting and initialisation *)

Definition portmapper_getport (server prog vers : Z) : M S Z :=
  rpc_pcb <- rpc_new_udp server PMAP_PORT PORT_ANY ;;
  c_assert (negb (rpc_pcb =? 0)) ;;;
  let! (pbuf, pos) := rpcpbuf_init PMAP_NUMBER PMAP_VERSION PMAPPROC_GETPORT in
  c_assert (negb (pbuf =? 0)) ;;;
  on_pbuf pbuf (
    pos <- pb_writel prog pos ;;
    pos <- pb_writel vers pos ;;
    pos <- pb_writel IPPROTO_UDP pos ;;
    pb_writel 0 pos) ;;;
  port <- new_token (PortToken None) ;;
  err <- rpc_call nfs_func pbuf rpc_pcb GetportCb 0 port ;;
  udp_remove rpc_pcb ;;;
  t <- the_token port ;;
  drop_token port ;;;
  if negb (err =? 0) then ret (-1)
  else
    match t with
    | PortToken (Some p) => ret (if p =? 0 then -2 else i32 p)
    | _ => fail FBounds
    end.

Definition mnt_new_udp (server : Z) : M S Z :=
  port <- portmapper_getport server MNT_NUMBER MNT_VERSION ;;
  rpc_new_udp server port PORT_ROOT.

Definition mountd_print_exports (server : Z) : M S Z :=
  mnt_pcb <- mnt_new_udp server ;;
  c_assert (negb (mnt_pcb =? 0)) ;;;
  let! (pbuf, _) := rpcpbuf_init MNT_NUMBER MNT_VERSION MNTPROC_EXPORT in
  c_assert (negb (pbuf =? 0)) ;;;
  token <- new_token (ExportsToken None) ;;
  err <- rpc_call nfs_func pbuf mnt_pcb MountdPrintExportsCb 0 token ;;
  udp_remove mnt_pcb ;;;
  t <- the_token token ;;
  drop_token token ;;;
  if negb (err =? 0) then ret err
  else
    match t with
    | ExportsToken (Some e) => ret (if negb (e =? 0) then RPCERR_NOSUP else RPC_OK)
    | _ => fail FBounds
    end.

(** [pfh] is the handle to fill in; the result has its new value. *)
Definition mountd_mount (server : Z) (dir pfh : list Z) : M S (Z * list Z) :=
  mnt_pcb <- mnt_new_udp server ;;
  c_assert (negb (mnt_pcb =? 0)) ;;;
  let! (pbuf, pos) := rpcpbuf_init MNT_NUMBER MNT_VERSION MNTPROC_MNT in
  if pbuf =? 0 then udp_remove mnt_pcb ;;; ret (RPCERR_NOBUF, pfh)
  else
    on_pbuf pbuf (pb_write_str dir (len dir) pos) ;;;
    token <- new_token (MountToken RPC_OK pfh) ;;
    stat <- rpc_call nfs_func pbuf mnt_pcb MountdMountCb 0 token ;;
    udp_remove mnt_pcb ;;;
    t <- the_token token ;;
    drop_token token ;;;
    match t with
    | MountToken st fh => ret ((if negb (stat =? RPC_OK) then stat else if negb (st =? RPC_OK) then st else RPC_OK), fh)
    | _ => fail FNull
    end.

Definition nfs_pcb_ip : M S Z :=
  s <- get ;;
  c_assert (negb (_nfs_pcb s =? 0)) ;;;
  x <- the_pcb (_nfs_pcb s) ;;
  ret (remote_ip x).
Definition nfs_mount (dir pfh : list Z) : M S (Z * list Z) := ip <- nfs_pcb_ip ;; mountd_mount ip dir pfh.
Definition nfs_print_exports : M S Z := ip <- nfs_pcb_ip ;; mountd_print_exports ip.

Definition nfs_init (server : Z) : M S Z :=
  failed <- init_rpc nfs_func server ;;
  if failed : bool then ret RPCERR_NOSUP
  else
    port <- portmapper_getport server NFS_NUMBER NFS_VERSION ;;
    if port =? -1 then ret RPCERR_COMM
    else if (port =? 0) || (port =? -2) then ret RPCERR_NOSUP
    else
      pcb <- rpc_new_udp server port PORT_ROOT ;;
      modify (set_nfs_pcb pcb) ;;;
      c_assert (negb (pcb =? 0)) ;;;
      ret RPC_OK.
End nfs.
