(* ===== verification/NfsClaims.v ===== *)
(** * NfsClaims: requests and replies of the file system client

    The functions of file NfsLib are lawful clients of the transport, the
    requests are encoded as their arguments say, and replies are decoded to the
    values that were encoded, however the packet is split into buffers. *)

From S2P Require Import Prelude Partial Pbuf Rpc RpcProofs RpcClaims NfsLib.

(** ** Reading moves forward *)

(** A read that returns a position at or after [pos] and within the packet. *)
Definition forward {A} (k pos : Z) (m : M chain (A * Z)) (c : chain) : Prop :=
  match m c with
  | Ok ((_, pos'), c') => c' = c /\ pos + k <= pos' <= tot_len c
  | Err f => f <> FFuel
  end.

Lemma forward_read cap n pos c : 0 <= n -> forward n pos (pb_read cap n pos) c.
Proof.
  intros Hn. unfold forward, pb_read, bind, get, c_assert, ret, fail.
  destruct (Z.leb_spec pos (tot_len c)); [|done]. destruct (Z.leb_spec (pos + n) (tot_len c)); [|done].
  destruct (_ <=? cap); [|done]. destruct (Z.eqb_spec n (len (pbuf_copy_partial c (u16 n) (u16 pos)))); [|done]. split; [done | lia].
Qed.

(** A negative count never passes the last check. *)
Lemma forward_read_any cap n pos c : forward 0 pos (pb_read cap n pos) c.
Proof.
  unfold forward, pb_read, bind, get, c_assert, ret, fail.
  destruct (Z.leb_spec pos (tot_len c)); [|done]. destruct (Z.leb_spec (pos + n) (tot_len c)); [|done].
  destruct (_ <=? cap); [|done]. destruct (Z.eqb_spec n (len (pbuf_copy_partial c (u16 n) (u16 pos)))); [|done]. split; [done | lia].
Qed.

Lemma forward_bind {A B} k1 k2 pos (m : M chain (A * Z)) (h : A -> Z -> M chain (B * Z)) c :
  forward k1 pos m c -> (forall a pos', pos + k1 <= pos' -> forward k2 pos' (h a pos') c) ->
  0 <= k2 -> forward (k1 + k2) pos (let! (a, p) := m in h a p) c.
Proof.
  intros Hm Hh Hk. unfold forward, bind in *. destruct (m c) as [[[a p] c']|]; [|done]. destruct Hm as [-> Hp].
  specialize (Hh a p ltac:(lia)). destruct (h a p c) as [[[b p'] c'']|]; [|done]. destruct Hh as [-> ?]. split; [done | lia].
Qed.

Lemma forward_readl pos c : forward 4 pos (pb_readl pos) c.
Proof.
  unfold pb_readl. change 4 with (4 + 0) at 1. unfold forward, bind. pose proof (forward_read 4 4 pos c ltac:(lia)) as H.
  unfold forward in H. destruct (pb_read 4 4 pos c) as [[[a p] c']|]; [|done]. cbn. split; [apply H | lia].
Qed.

Lemma pb_alignl_ge pos : 0 <= pos -> pos <= pb_alignl pos < pos + 4.
Proof. intros H. unfold pb_alignl. rewrite ROUNDUP_spec by done. pose proof (Z.mod_pos_bound (- pos) 4). lia. Qed.

Lemma forward_mono {A} k k' pos (m : M chain (A * Z)) c : k' <= k -> forward k pos m c -> forward k' pos m c.
Proof. intros Hk. unfold forward. destruct (m c) as [[[a p] c']|]; [|done]. intros [-> ?]. split; [done | lia]. Qed.

Lemma forward_ret {A} k pos pos' (a : A) c : pos + k <= pos' <= tot_len c -> forward k pos (ret (a, pos')) c.
Proof. done. Qed.

Lemma forward_rd {A B} k pos (l : list B) i (h : B -> M chain (A * Z)) c :
  (forall b, forward k pos (h b) c) -> forward k pos (b <- rd l i ;; h b) c.
Proof. intros H. unfold forward, bind, rd in *. destruct (l !z i) as [b|]; [apply H | done]. Qed.

Lemma forward_assert {A} k pos b (m : M chain (A * Z)) c : forward k pos m c -> forward k pos (c_assert b ;;; m) c.
Proof. intros H. unfold forward, bind, c_assert. by destruct b. Qed.

(** The bound of a position that has been read to. *)
Lemma forward_pair {A B} k pos (m : M chain (A * Z)) (h : A -> Z -> M chain (B * Z)) c :
  forward k pos m c -> (forall a pos', pos + k <= pos' <= tot_len c -> forward 0 pos' (h a pos') c) ->
  forward k pos (let! (a, p) := m in h a p) c.
Proof.
  intros Hm Hh. unfold forward, bind in *. destruct (m c) as [[[a p] c']|]; [|done]. destruct Hm as [-> Hp].
  specialize (Hh a p Hp). destruct (h a p c) as [[[b p'] c'']|]; [|done]. destruct Hh as [-> ?]. split; [done | lia].
Qed.

Lemma forward_arrl n pos c : 0 <= n -> forward (4 * n) pos (pb_read_arrl n pos) c.
Proof. intros Hn. apply forward_pair; [apply forward_read; lia|]. intros a p Hp. apply forward_ret. lia. Qed.

Lemma forward_readl0 pos c : forward 0 pos (pb_readl pos) c.
Proof. apply (forward_mono 4); [lia | apply forward_readl]. Qed.

Lemma forward_hdr c : forward 12 0 rpc_read_hdr c.
Proof.
  apply forward_pair; [by apply (forward_arrl 3)|]. intros hdr p Hp. apply forward_rd. intros mt. apply forward_rd. intros st.
  destruct (negb (mt =? MSG_REPLY)); [apply forward_ret; lia|]. destruct (negb (st =? MSG_ACCEPTED)).
  - apply forward_pair; [apply forward_readl0|]. intros e p1 H1. destruct (e =? 1); [|apply forward_ret; lia].
    apply forward_pair; [apply forward_readl0|]. intros e' p2 H2. apply forward_ret. lia.
  - apply forward_pair; [apply (forward_mono (4 * 2)); [lia | by apply forward_arrl]|]. intros auth p1 H1. apply forward_rd. intros fl.
    apply forward_assert. apply forward_pair; [apply forward_readl0|]. intros e p2 H2. apply forward_ret. lia.
Qed.

Lemma forward_status c : forward 12 0 reply_status c.
Proof.
  apply forward_pair; [apply forward_hdr|]. intros e p Hp. destruct (e =? RPCERR_OK); [apply forward_readl0 | apply forward_ret; lia].
Qed.

Lemma forward_fattr pos c : forward 0 pos (read_fattr pos) c.
Proof. apply (forward_mono (4 * FATTR_LONGS)); [done | by apply forward_arrl]. Qed.

Lemma forward_fh pos c : forward 0 pos (read_fh pos) c.
Proof. apply forward_read_any. Qed.

(** A parser whose result has no position. *)
Definition parses {A} (m : M chain A) (c : chain) : Prop :=
  match m c with Ok (_, c') => c' = c | Err f => f <> FFuel end.

Lemma parses_pair {A B} k pos (m : M chain (A * Z)) (h : A -> Z -> M chain B) c :
  forward k pos m c -> (forall a pos', pos + k <= pos' <= tot_len c -> parses (h a pos') c) -> parses (let! (a, p) := m in h a p) c.
Proof.
  intros Hm Hh. unfold parses, forward, bind in *. destruct (m c) as [[[a p] c']|]; [|done]. destruct Hm as [-> Hp]. by apply Hh.
Qed.

Lemma parses_attrstat c : parses parse_attrstat c.
Proof.
  eapply parses_pair; [apply forward_status|]. intros st p Hp. destruct (st =? NFS_OK); [|done].
  by eapply parses_pair; [apply forward_fattr|].
Qed.

Lemma parses_diropres c : parses parse_diropres c.
Proof.
  eapply parses_pair; [apply forward_status|]. intros st p Hp. destruct (st =? NFS_OK); [|done].
  eapply parses_pair; [apply forward_fh|]. intros fh p1 H1. by eapply parses_pair; [apply forward_fattr|].
Qed.

(** The list of exports ends: every string takes at least four bytes. *)
Lemma read_str_pos pos c : 0 <= pos ->
  match pb_read_str export_str pos c with Ok ((_, p), c') => c' = c /\ pos + 4 <= p <= tot_len c + 3 | Err f => f <> FFuel end.
Proof.
  intros H0. unfold pb_read_str, bind. pose proof (forward_readl pos c) as H. unfold forward in H.
  destruct (pb_readl pos c) as [[[n p] c']|]; [|done]. destruct H as [-> Hp]. unfold c_assert. destruct (_ <? _); [|done]. cbn [ret].
  unfold ret. pose proof (forward_read_any export_str n p c) as H. unfold forward in H.
  destruct (pb_read export_str n p c) as [[[str p'] c']|]; [|done]. destruct H as [-> Hp']. split; [done|].
  pose proof (pb_alignl_ge p'). lia.
Qed.

Lemma export_groups_ends fuel pos c : 4 <= pos -> tot_len c + 4 <= pos + 4 * Z.of_nat fuel -> (0 < fuel)%nat ->
  match export_groups fuel pos c with Ok (p, c') => c' = c /\ pos + 4 <= p <= tot_len c | Err f => f <> FFuel end.
Proof.
  revert pos. induction fuel as [|fuel IH]; intros pos Hp Hf H0; [lia|]. cbn [export_groups]. unfold bind.
  pose proof (forward_readl pos c) as H. unfold forward in H. destruct (pb_readl pos c) as [[[n p] c']|]; [|done]. destruct H as [-> H].
  destruct (n =? 0); [split; [done | lia]|]. pose proof (read_str_pos p c ltac:(lia)) as H1.
  destruct (pb_read_str export_str p c) as [[[str p1] c1]|]; [|done]. destruct H1 as [-> H1].
  specialize (IH p1 ltac:(lia) ltac:(lia)). destruct fuel as [|fuel]; [lia|]. specialize (IH ltac:(lia)).
  destruct (export_groups (S fuel) p1 c) as [[p2 c2]|]; [|done]. destruct IH as [-> IH]. split; [done | lia].
Qed.

Lemma exports_ends fuel pos c : 4 <= pos -> tot_len c + 4 <= pos + 4 * Z.of_nat fuel -> (0 < fuel)%nat -> parses (exports fuel pos) c.
Proof.
  unfold parses. revert pos. induction fuel as [|fuel IH]; intros pos Hp Hf H0; [lia|]. cbn [exports]. unfold bind.
  pose proof (forward_readl pos c) as H. unfold forward in H. destruct (pb_readl pos c) as [[[n p] c']|]; [|done]. destruct H as [-> H].
  destruct (n =? 0); [done|]. pose proof (read_str_pos p c ltac:(lia)) as H1.
  destruct (pb_read_str export_str p c) as [[[str p1] c1]|]; [|done]. destruct H1 as [-> H1].
  destruct fuel as [|fuel]; [lia|]. pose proof (export_groups_ends (S fuel) p1 c ltac:(lia) ltac:(lia) ltac:(lia)) as H2.
  destruct (export_groups (S fuel) p1 c) as [[p2 c2]|]; [|done]. destruct H2 as [-> H2]. apply IH; lia.
Qed.

(** ** Lawful clients *)

(** Every fault but that of a loop that does not end. *)
Definition stops (f : fault) : Prop := f <> FFuel.

(** The transport is not touched. *)
Record same_rpc {F N} (s s' : rpc F N) : Prop := {
  sr_pbufs : pbufs s' = pbufs s;
  sr_items : items s' = items s;
  sr_queue : queue s' = queue s;
  sr_pcbs : pcbs s' = pcbs s;
  sr_call_args : call_args s' = call_args s
}.

#[export] Instance same_rpc_preorder {F N} : PreOrder (@same_rpc F N).
Proof. split; [by intros s |]. intros s1 s2 s3 [] []. split; congruence. Qed.

Section laws.
Context {N : Type} `{!Net N}.
Local Abbreviation S := (rpc nfs_fn N).
Implicit Types (s : rpc nfs_fn N) (l : list (Z * rpc_queue nfs_fn)).

Lemma wf_same_rpc s s' l : same_rpc s s' -> wf s l -> wf s' l.
Proof.
  intros [E1 E2 E3 E4 E5] [Hseg Hok]. split; [by rewrite E2, E3|]. by apply (wf_heaps s).
Qed.

Lemma evolves_same s1 s s2 s2' l ca l' new :
  same_rpc s1 s -> same_rpc s2 s2' -> evolves s l s2 ca l' new -> evolves s1 l s2' ca l' new.
Proof.
  intros [E1 E2 E3 E4 E5] Hs [H1 H2 H3 H4 H5 H6 H7]. pose proof Hs as [D1 D2 D3 D4 D5]. split.
  - done.
  - by eapply wf_same_rpc.
  - done.
  - intros a y. rewrite D2, <- E2. apply H4.
  - intros p c. rewrite D1, <- E1. apply H5.
  - intros k. rewrite D4, <- E4. apply H6.
  - by rewrite D5.
Qed.

Lemma evolves_self s s' l : same_rpc s s' -> wf s l -> evolves s l s' (call_args s) l [].
Proof.
  intros Hs Hwf. pose proof Hs as [E1 E2 E3 E4 E5]. split.
  - reflexivity.
  - rewrite app_nil_r. by eapply wf_same_rpc.
  - constructor.
  - intros a y Ha Hl. by rewrite E2, app_nil_r.
  - intros p c Hp Hl. by rewrite E1, app_nil_r.
  - intros k. by rewrite E4.
  - done.
Qed.

(** What the client does with a result is a lawful use of the transport. *)
Class DeliverLaws (deliver : Z -> Z -> nfs_result -> M S unit) : Prop :=
  deliver_law cb token r s l :
    wf s l -> wpf stops (deliver cb token r) (fun _ s' => exists l' new, evolves s l s' (call_args s) l' new) s.

Context (deliver : Z -> Z -> nfs_result -> M S unit) `{!DeliverLaws deliver}.

Lemma wpf_parses {A} (m : M chain A) p (c : chain) (Q : A -> S -> Prop) s :
  pbufs s !! p = Some c -> parses m c -> (forall a, Q a s) -> wpf stops (on_pbuf p m) Q s.
Proof.
  intros Hp Hm HQ. eapply wpf_read_pbuf; [exact Hp|]. unfold wpf, parses in *. destruct (m c) as [[a c']|]; [|done]. by split.
Qed.

Lemma wpf_forward {A} k pos (m : M chain (A * Z)) p (c : chain) (Q : A * Z -> S -> Prop) s :
  pbufs s !! p = Some c -> forward k pos m c -> (forall a pos', pos + k <= pos' <= tot_len c -> Q (a, pos') s) ->
  wpf stops (on_pbuf p m) Q s.
Proof.
  intros Hp Hm HQ. eapply wpf_read_pbuf; [exact Hp|]. unfold wpf, forward in *. destruct (m c) as [[[a pos'] c']|]; [|done].
  destruct Hm as [-> Hm]. split; [done|]. by apply HQ.
Qed.

(** The end of a function: the result is delivered. *)
Definition fine s l s' : Prop := exists l' new, evolves s l s' (call_args s) l' new.

Lemma deliver_after cb token r s s1 l : same_rpc s s1 -> wf s l -> wpf stops (deliver cb token r) (fun _ s' => fine s l s') s1.
Proof using DeliverLaws0.
  intros Hs Hwf. eapply wpf_mono; [apply deliver_law; by eapply wf_same_rpc|]. intros [] s' (l' & new & He). exists l', new.
  rewrite <- (sr_call_args _ _ Hs). by eapply evolves_same; [exact Hs | reflexivity | exact He].
Qed.

Lemma set_net_same s n : same_rpc s (set_net n s).
Proof. by split. Qed.

Lemma wpf_assert_stops b (Q : unit -> S -> Prop) s : (b = true -> Q tt s) -> wpf stops (c_assert b) Q s.
Proof. by apply wpf_may_assert. Qed.

Lemma put_token_run t y s l s1 : same_rpc s s1 -> wf s l -> wpf stops (put_token t y) (fun _ s' => fine s l s') s1.
Proof.
  intros Hs Hwf. unfold put_token, the_token. wpf_steps. destruct (tokens s1 !! t); [|done]. wpf_steps. exists l, [].
  apply evolves_self; [|done]. etransitivity; [exact Hs|]. by split.
Qed.

(** The entries of a directory: the loop ends. *)
Lemma readdir_entry_run pbuf (c : chain) pos s1 s :
  same_rpc s s1 -> pbufs s !! pbuf = Some c -> 0 <= pos ->
  wpf stops (readdir_entry pbuf pos) (fun r s' => same_rpc s s' /\ pos + 12 <= r.2 <= tot_len c) s1.
Proof.
  intros Hs Hp H0. assert (forall s2, same_rpc s s2 -> pbufs s2 !! pbuf = Some c) as Hany by (intros s2 []; congruence).
  unfold readdir_entry. wpf_steps. eapply wpf_forward; [by apply Hany | apply forward_readl |]. intros fid p1 H1. wpf_steps.
  eapply wpf_forward; [by apply Hany | apply forward_readl |]. intros size p2 H2. wpf_steps. apply wpf_ncall. wpf_steps.
  set (s2 := set_net _ _). assert (same_rpc s s2) as Hs2 by (etransitivity; [exact Hs | by split]).
  apply wpf_assert_stops. intros _. wpf_steps.
  eapply wpf_forward; [by apply Hany | apply forward_read_any |]. intros name p3 H3. wpf_steps. pose proof (pb_alignl_ge p3 ltac:(lia)).
  eapply wpf_forward; [by apply Hany | apply forward_readl |]. intros cookie p4 H4. wpf_steps. apply wpf_ncall.
  destruct (mem_ok _).1; [|done]. wpf_steps. split; [|simpl; lia]. etransitivity; [exact Hs2 | by split].
Qed.

Lemma readdir_entries_run pbuf (c : chain) pos s :
  pbufs s !! pbuf = Some c -> 4 <= pos -> wpf stops (readdir_entries pbuf pos) (fun _ s' => same_rpc s s') s.
Proof.
  intros Hp H0. assert (forall s2, same_rpc s s2 -> pbufs s2 !! pbuf = Some c) as Hany by (intros s2 []; congruence).
  unfold readdir_entries, pbuf_bytes. wpf_steps. eapply wpf_read_pbuf; [exact Hp|]. wpf_steps. split; [done|].
  apply (wpf_while_fuel stops (fun v s' => same_rpc s s' /\ 4 <= v.2) (fun v _ => Z.to_nat (tot_len c - v.2))).
  - by split.
  - simpl. lia.
  - intros [[names ck] p] s1 [Hs Hp1]. simpl in Hp1. wpf_steps.
    eapply wpf_forward; [by apply Hany | apply forward_readl |]. intros more p1 H1. destruct (more =? 0); [by wpf_steps|].
    wpf_steps. eapply wpf_mono; [by apply (readdir_entry_run pbuf c p1 s1 s); [..|lia]|]. intros [[name ck'] p2] s2 [Hs2 H2]. wpf_steps.
    simpl in *. split; [split; [done | lia] | lia].
Qed.

Lemma getattr_cb_run cb token p (c : chain) s l :
  wf s l -> pbufs s !! p = Some c -> wpf stops (_nfs_getattr_cb deliver cb token p) (fun _ s' => fine s l s') s.
Proof using DeliverLaws0.
  intros Hwf Hp. unfold _nfs_getattr_cb. wpf_steps. apply wpf_assert_stops. intros _. wpf_steps.
  eapply wpf_parses; [exact Hp | apply parses_attrstat |]. intros [st a]. by apply deliver_after.
Qed.

Lemma diropres_cb_run (r : Z -> option (list Z) -> option (list Z) -> nfs_result) cb token p (c : chain) s l :
  wf s l -> pbufs s !! p = Some c ->
  wpf stops (c_assert (negb (cb =? 0)) ;;; let! (status, fh, a) := on_pbuf p parse_diropres in deliver cb token (r status fh a))
    (fun _ s' => fine s l s') s.
Proof using DeliverLaws0.
  intros Hwf Hp. wpf_steps. apply wpf_assert_stops. intros _. wpf_steps.
  eapply wpf_parses; [exact Hp | apply parses_diropres |]. intros [[st fh] a]. by apply deliver_after.
Qed.

Lemma read_cb_run cb token p (c : chain) s l :
  wf s l -> pbufs s !! p = Some c -> wpf stops (_nfs_read_cb deliver cb token p) (fun _ s' => fine s l s') s.
Proof using DeliverLaws0.
  intros Hwf Hp. unfold _nfs_read_cb. wpf_steps. apply wpf_assert_stops. intros _. wpf_steps.
  eapply wpf_forward; [exact Hp | apply forward_status |]. intros st p1 H1. destruct (st =? NFS_OK); [|by apply deliver_after].
  wpf_steps. eapply wpf_forward; [exact Hp | apply forward_fattr |]. intros a p2 H2. wpf_steps.
  eapply wpf_forward; [exact Hp | apply forward_readl |]. intros size p3 H3. wpf_steps. apply wpf_ncall. wpf_steps.
  apply wpf_assert_stops. intros _. wpf_steps. eapply wpf_forward; [exact Hp | apply forward_read_any |]. intros data p4 H4.
  by apply deliver_after.
Qed.

Lemma write_cb_run cb token p (c : chain) s l :
  wf s l -> pbufs s !! p = Some c -> wpf stops (_nfs_write_cb deliver cb token p) (fun _ s' => fine s l s') s.
Proof using DeliverLaws0.
  intros Hwf Hp. unfold _nfs_write_cb. wpf_steps. apply wpf_assert_stops. intros _. wpf_steps.
  eapply wpf_parses; [exact Hp | apply parses_attrstat |]. intros [st a]. wpf_steps. unfold the_token. wpf_steps.
  destruct (tokens s !! token) as [t|]; [|done]. wpf_steps. destruct t; try done. wpf_steps.
  eapply wpf_mono; [by apply deliver_after|]. intros [] s1 (l' & new & He). unfold drop_token, the_token. wpf_steps.
  destruct (tokens s1 !! token); [|done]. wpf_steps. exists l', new. eapply evolves_same; [reflexivity | | exact He]. by split.
Qed.

Lemma remove_cb_run cb token p (c : chain) s l :
  wf s l -> pbufs s !! p = Some c -> wpf stops (_nfs_remove_cb deliver cb token p) (fun _ s' => fine s l s') s.
Proof using DeliverLaws0.
  intros Hwf Hp. unfold _nfs_remove_cb. wpf_steps. apply wpf_assert_stops. intros _. wpf_steps.
  eapply wpf_forward; [exact Hp | apply forward_status |]. intros st p1 H1. by apply deliver_after.
Qed.

Lemma readdir_cb_run cb token p (c : chain) s l :
  wf s l -> pbufs s !! p = Some c -> wpf stops (_nfs_readdir_cb deliver cb token p) (fun _ s' => fine s l s') s.
Proof using DeliverLaws0.
  intros Hwf Hp. unfold _nfs_readdir_cb. wpf_steps. apply wpf_assert_stops. intros _. wpf_steps.
  eapply wpf_forward; [exact Hp | apply forward_status |]. intros st p1 H1. destruct (st =? NFS_OK); [|by apply deliver_after].
  wpf_steps. eapply wpf_mono; [apply (readdir_entries_run p c); [done | lia]|]. intros [names ck] s1 Hs. wpf_steps. apply wpf_ncall.
  wpf_steps. apply wpf_assert_stops. intros _. apply deliver_after; [|done]. etransitivity; [exact Hs | by split].
Qed.

Lemma getport_cb_run token p (c : chain) s l :
  wf s l -> pbufs s !! p = Some c -> wpf stops (getport_cb token p) (fun _ s' => fine s l s') s.
Proof.
  intros Hwf Hp. unfold getport_cb. wpf_steps. eapply wpf_forward; [exact Hp | apply forward_hdr |]. intros e p1 H1.
  destruct (negb (e =? 0)); [by apply put_token_run|]. wpf_steps. eapply wpf_forward; [exact Hp | apply forward_readl |].
  intros port p2 H2. by apply put_token_run.
Qed.

Lemma exports_cb_run token p (c : chain) s l :
  wf s l -> pbufs s !! p = Some c -> wpf stops (mountd_print_exports_cb token p) (fun _ s' => fine s l s') s.
Proof.
  intros Hwf Hp. unfold mountd_print_exports_cb. wpf_steps. eapply wpf_forward; [exact Hp | apply forward_hdr |]. intros e p1 H1.
  wpf_steps. unfold put_token, the_token. wpf_steps. destruct (tokens s !! token); [|done]. wpf_steps. set (s1 := set_tokens _ s).
  assert (same_rpc s s1) as Hs by by split. destruct (e =? RPCERR_OK); [|wpf_steps; exists l, []; by apply evolves_self].
  wpf_steps. unfold pbuf_bytes. eapply wpf_read_pbuf; [exact Hp|]. wpf_steps. split; [done|].
  eapply wpf_parses; [exact Hp | apply exports_ends; lia |]. intros _. exists l, []. by apply evolves_self.
Qed.

Lemma mount_cb_run token p (c : chain) s l :
  wf s l -> pbufs s !! p = Some c -> wpf stops (mountd_mount_cb token p) (fun _ s' => fine s l s') s.
Proof.
  intros Hwf Hp. unfold mountd_mount_cb, the_token. wpf_steps. eapply wpf_forward; [exact Hp | apply forward_hdr |]. intros e p1 H1.
  wpf_steps. destruct (tokens s !! token) as [t|]; [|done]. wpf_steps. destruct t; try done.
  destruct (e =? RPCERR_OK); [|by apply put_token_run]. wpf_steps. eapply wpf_forward; [exact Hp | apply forward_readl |].
  intros st p2 H2. destruct (st =? 0); [|by apply put_token_run]. wpf_steps.
  eapply wpf_forward; [exact Hp | apply forward_fh |]. intros f p3 H3. by apply put_token_run.
Qed.

(** The functions of the file system client satisfy what the transport
    assumes, so its theorems hold of them. *)
#[export] Instance nfs_FuncLaws : FuncLaws stops (nfs_func deliver).
Proof using DeliverLaws0.
  split; [done|]. intros f cb arg p c s l Hwf Hp _. destruct f; cbn [nfs_func].
  - by eapply getattr_cb_run.
  - by eapply (diropres_cb_run Lookup).
  - by eapply read_cb_run.
  - by eapply write_cb_run.
  - by eapply (diropres_cb_run Create).
  - by eapply remove_cb_run.
  - by eapply readdir_cb_run.
  - by eapply getport_cb_run.
  - by eapply exports_cb_run.
  - by eapply mount_cb_run.
Qed.
End laws.

(** ** Decoding *)

Lemma wp_to_eq {S A} (m : M S A) a s s' : wp m (fun x t => x = a /\ t = s') s -> m s = Ok (a, s').
Proof. intros H. apply wp_ok in H as (x & t & E & -> & ->). done. Qed.

Lemma readl_eq (c : chain) l v post : concat c = l ++ xdr_longs [v] ++ post -> is_u32 v -> tot_len c < 2 ^ 16 ->
  pb_readl (len l) c = Ok ((v, len (l ++ xdr_longs [v])), c).
Proof. intros. apply wp_to_eq. by eapply wp_pb_readl. Qed.

Lemma arrl_eq (c : chain) l arr n post : concat c = l ++ xdr_longs arr ++ post -> n = len arr -> Forall is_u32 arr -> tot_len c < 2 ^ 16 ->
  pb_read_arrl n (len l) c = Ok ((arr, len (l ++ xdr_longs arr)), c).
Proof. intros. apply wp_to_eq. by eapply wp_pb_read_arrl. Qed.

Lemma bytes_eq (c : chain) l d n cap post : concat c = l ++ d ++ post -> n = len d -> tot_len c < 2 ^ 16 -> len d <= cap ->
  pb_read cap n (len l) c = Ok ((d, len (l ++ d)), c).
Proof. intros. apply wp_to_eq. by eapply wp_pb_read_bytes. Qed.

(** A reply that is accepted, with the status [st]. *)
Definition reply_hdr (xid : Z) : list Z := xdr_longs [xid; MSG_REPLY; MSG_ACCEPTED] ++ xdr_longs [AUTH_NULL; 0] ++ xdr_longs [SUCCESS].
Definition reply_start (xid st : Z) : list Z := reply_hdr xid ++ xdr_longs [st].

Lemma small_u32 v : 0 <= v < 65536 -> is_u32 v.
Proof. unfold is_u32. lia. Qed.

Lemma reply_status_eq (c : chain) xid st post :
  concat c = reply_start xid st ++ post -> is_u32 xid -> is_u32 st -> tot_len c < 2 ^ 16 ->
  reply_status c = Ok ((st, len (reply_start xid st)), c).
Proof.
  intros E Hx Hst Ht. assert (forall v, 0 <= v < 2 -> is_u32 v) as Hu by (unfold is_u32; lia).
  unfold reply_start, reply_hdr in *. rewrite <- !app_assoc in E.
  apply wp_to_eq. unfold reply_status, rpc_read_hdr. wp_steps. change 0 with (len ([] : list Z)) at 1.
  eapply wp_pb_read_arrl; [exact E | done | rewrite !Forall_cons, Forall_nil; split_and!; done || by apply Hu | done |]. intros E1. wp_steps.
  eapply wp_rd; [reflexivity|]. wp_steps. eapply wp_rd; [reflexivity|].
  change (negb (MSG_REPLY =? MSG_REPLY)) with false. change (negb (MSG_ACCEPTED =? MSG_ACCEPTED)) with false. cbv iota. wp_steps.
  eapply wp_pb_read_arrl; [exact E1 | done | rewrite !Forall_cons, Forall_nil; split_and!; done || by apply Hu | done |]. intros E2. wp_steps.
  eapply wp_rd; [reflexivity|]. wp_steps. apply wp_assert; [done|]. wp_steps.
  eapply wp_pb_readl; [exact E2 | by apply Hu | done |]. intros E3. wp_steps. change (SUCCESS =? SUCCESS) with true. cbv iota.
  change (RPCERR_OK =? RPCERR_OK) with true. cbv iota. eapply wp_pb_readl; [exact E3 | done | done |]. intros E4. by split.
Qed.

Lemma length_reply_start xid st : len (reply_start xid st) = 28.
Proof. done. Qed.

(** Attributes, a handle and attributes. *)
Lemma attrstat_eq (c : chain) xid a post :
  concat c = reply_start xid NFS_OK ++ xdr_longs a ++ post -> is_u32 xid -> len a = FATTR_LONGS -> Forall is_u32 a -> tot_len c < 2 ^ 16 ->
  parse_attrstat c = Ok ((NFS_OK, Some a), c).
Proof.
  intros E Hx Hl Ha Ht. unfold parse_attrstat, bind. rewrite (reply_status_eq c xid NFS_OK _ E) by (done || by apply small_u32).
  change (NFS_OK =? NFS_OK) with true. cbv iota beta. unfold read_fattr. by rewrite (arrl_eq c _ a FATTR_LONGS _ E).
Qed.

Lemma diropres_eq (c : chain) xid fh a post :
  concat c = reply_start xid NFS_OK ++ fh ++ xdr_longs a ++ post -> is_u32 xid -> len fh = FHSIZE -> len a = FATTR_LONGS ->
  Forall is_u32 a -> tot_len c < 2 ^ 16 -> parse_diropres c = Ok ((NFS_OK, Some fh, Some a), c).
Proof.
  intros E Hx Hf Hl Ha Ht. unfold parse_diropres, bind. rewrite (reply_status_eq c xid NFS_OK _ E) by (done || by apply small_u32).
  change (NFS_OK =? NFS_OK) with true. cbv iota beta. unfold read_fh, read_fattr. rewrite (bytes_eq c _ fh FHSIZE FHSIZE _ E) by (done || lia).
  rewrite app_assoc in E. by rewrite (arrl_eq c _ a FATTR_LONGS _ E).
Qed.

(** An entry of a directory: file id, name and cookie. *)
Definition dir_entry : Type := Z * list Z * Z.
Definition entry_ok (e : dir_entry) : Prop := is_u32 e.1.1 /\ is_u32 e.2.
Definition entry_bytes (e : dir_entry) : list Z := xdr_longs [1] ++ xdr_longs [e.1.1] ++ xdr_str e.1.2 ++ xdr_longs [e.2].
Definition dir_bytes (es : list dir_entry) : list Z := concat (entry_bytes <$> es) ++ xdr_longs [0].
Definition last_cookie (ck : Z) (es : list dir_entry) : Z := foldl (fun _ e => e.2) ck es.

Lemma length_xdr_long v : len (xdr_longs [v]) = 4.
Proof. done. Qed.

Lemma len_app {A} (l k : list A) : len (l ++ k) = len l + len k.
Proof. rewrite length_app. lia. Qed.

Section decode.
Context {N : Type} `{!Net N}.
Local Abbreviation S := (rpc nfs_fn N).
Hypothesis memory : forall n : N, (mem_ok n).1 = true.

Lemma wpf_pbuf_eq {A} R p (m : M chain A) (c : chain) a (Q : A -> S -> Prop) s :
  pbufs s !! p = Some c -> m c = Ok (a, c) -> Q a s -> wpf R (on_pbuf p m) Q s.
Proof. intros Hp Hm HQ. eapply wpf_read_pbuf; [exact Hp|]. unfold wpf. by rewrite Hm. Qed.

Lemma readdir_entry_eq R p (c : chain) l e post s :
  pbufs s !! p = Some c -> concat c = (l ++ xdr_longs [1]) ++ xdr_longs [e.1.1] ++ xdr_str e.1.2 ++ xdr_longs [e.2] ++ post ->
  entry_ok e -> len l mod 4 = 0 -> tot_len c < 2 ^ 16 ->
  wpf R (readdir_entry p (len (l ++ xdr_longs [1]))) (fun r s' => r = (e.1.2, e.2, len (l ++ entry_bytes e)) /\ exists n, s' = set_net n s) s.
Proof using memory.
  destruct e as [[fid name] ck]. intros Hp E [Hf Hc] Hl Ht. cbn [fst snd] in *. unfold readdir_entry.
  assert (len name < 2 ^ 16) as Hname.
  { unfold tot_len in Ht. rewrite E, !len_app, length_xdr_str in Ht. pose proof (Z.mod_pos_bound (- len name) 4). lia. }
  cbv beta iota. wpf_steps. eapply wpf_pbuf_eq; [exact Hp | by eapply readl_eq |]. rewrite app_assoc in E. unfold xdr_str in E. rewrite <- (app_assoc (xdr_longs [len name])) in E.
  cbv beta iota. wpf_steps. eapply wpf_pbuf_eq; [exact Hp | eapply readl_eq; [exact E | apply small_u32; lia | done] |].
  rewrite app_assoc, <- (app_assoc name) in E. cbv beta iota. wpf_steps. apply wpf_ncall. rewrite memory. cbv beta iota. wpf_steps. apply wpf_assert; [done|]. cbv beta iota. wpf_steps.
  rewrite i32_small by lia.
  eapply wpf_pbuf_eq; [exact Hp | eapply bytes_eq; [exact E | done | done |] |].
  { rewrite u32_small by (unfold is_u32; lia). lia. }
  cbv beta iota. wpf_steps. rewrite pb_alignl_pad.
  2:{ rewrite !len_app, !length_xdr_long. Z.to_euclidean_division_equations; lia. }
  rewrite (app_assoc name), app_assoc in E.
  eapply wpf_pbuf_eq; [exact Hp | eapply readl_eq; [exact E | done | done] |]. cbv beta iota. wpf_steps. apply wpf_ncall.
  cbn [net set_net]. rewrite memory. cbv beta iota. wpf_steps. split; [|by eexists]. unfold entry_bytes, xdr_str. simpl. by rewrite <- !app_assoc.
Qed.

Lemma length_entry_bytes e : len (entry_bytes e) mod 4 = 0 /\ 16 <= len (entry_bytes e).
Proof.
  unfold entry_bytes. rewrite !len_app, !length_xdr_long, length_xdr_str. Z.to_euclidean_division_equations; lia.
Qed.

Definition readdir_round (p : Z) (v : list (list Z) * Z * Z) : M S ((list (list Z) * Z * Z) + (list (list Z) * Z)) :=
  let '(names, next_cookie, pos) := v in
  let! (more, pos) := on_pbuf p (pb_readl pos) in
  if more =? 0 then ret (inr (names, next_cookie))
  else let! (name, cookie, pos) := readdir_entry p pos in ret (inl (names ++ [name], cookie, pos)).

Lemma readdir_loop_eq R p (c : chain) es names ck l post fuel s :
  pbufs s !! p = Some c -> concat c = l ++ dir_bytes es ++ post -> Forall entry_ok es -> len l mod 4 = 0 -> tot_len c < 2 ^ 16 ->
  (length es < fuel)%nat ->
  wpf R (while_fuel fuel (readdir_round p) (names, ck, len l))
    (fun r s' => r = (names ++ ((fun e => e.1.2) <$> es), last_cookie ck es) /\ exists n, s' = set_net n s) s.
Proof using memory.
  revert names ck l fuel s. induction es as [|e es IH]; intros names ck l [|fuel] s Hp E He Hl Ht Hf; try (simpl in Hf; lia);
    cbn [while_fuel]; unfold readdir_round at 1; wpf_steps.
  - unfold dir_bytes in E. cbn [fmap list_fmap concat app] in E.
    eapply wpf_pbuf_eq; [exact Hp | eapply readl_eq; [exact E | by apply small_u32 | done] |].
    cbv beta iota. change (0 =? 0) with true. cbv iota. wpf_steps. cbn [fmap list_fmap]. rewrite app_nil_r. split; [done|].
    exists (net s). by destruct s.
  - apply Forall_cons in He as [He Hes]. unfold dir_bytes in E. rewrite fmap_cons in E. cbn [concat] in E. rewrite <- !app_assoc in E.
    pose proof E as E1. unfold entry_bytes in E1 at 1. rewrite <- !app_assoc in E1.
    eapply wpf_pbuf_eq; [exact Hp | eapply readl_eq; [exact E1 | by apply small_u32 | done] |].
    cbv beta iota. change (1 =? 0) with false. cbv iota. wpf_steps. rewrite app_assoc in E1.
    eapply wpf_mono; [eapply readdir_entry_eq; [exact Hp | exact E1 | done | done | done]|].
    intros r s1 (-> & n & ->). cbv beta iota. wpf_steps. destruct (length_entry_bytes e).
    eapply wpf_mono; [apply (IH (names ++ [e.1.2]) e.2 (l ++ entry_bytes e) fuel (set_net n s))|].
    + exact Hp.
    + unfold dir_bytes. by rewrite <- !app_assoc.
    + done.
    + rewrite len_app. Z.to_euclidean_division_equations; lia.
    + done.
    + simpl in Hf. lia.
    + intros r s2 (-> & n2 & ->). split; [|by exists n2]. by rewrite fmap_cons, <- app_assoc.
Qed.

Lemma readdir_entries_eq p (c : chain) es l post s :
  pbufs s !! p = Some c -> concat c = l ++ dir_bytes es ++ post -> Forall entry_ok es -> len l mod 4 = 0 -> tot_len c < 2 ^ 16 ->
  exists n, readdir_entries p (len l) s = Ok (((fun e => e.1.2) <$> es, last_cookie 0 es), set_net n s).
Proof using memory.
  intros Hp E He Hl Ht.
  enough (wp (readdir_entries p (len l)) (fun r s' => r = ((fun e => e.1.2) <$> es, last_cookie 0 es) /\ exists n, s' = set_net n s) s) as H.
  { apply wp_ok in H as (r & s' & Er & -> & n & ->). eauto. }
  apply (proj1 (wpf_wp _ _ _)). unfold readdir_entries, pbuf_bytes. wpf_steps. eapply wpf_pbuf_eq; [exact Hp | done |].
  eapply (readdir_loop_eq _ p c es [] 0 l post); try done.
  assert (len es <= len (concat (entry_bytes <$> es))) as Hes.
  { clear E He. induction es as [|e es IH]; [done|]. rewrite fmap_cons. cbn [concat length]. rewrite len_app.
    destruct (length_entry_bytes e). lia. }
  unfold tot_len. rewrite E. unfold dir_bytes. rewrite !len_app. lia.
Qed.

Lemma on_pbuf_eq {A} p (m : M chain A) (c : chain) a (s : S) : pbufs s !! p = Some c -> m c = Ok (a, c) -> on_pbuf p m s = Ok (a, s).
Proof.
  intros Hp Hm. apply wp_to_eq, (proj1 (wpf_wp _ _ _)). by eapply wpf_pbuf_eq.
Qed.

Lemma on_pbuf_err {A} p (m : M chain A) (c : chain) f (s : S) : pbufs s !! p = Some c -> m c = Err f -> on_pbuf p m s = Err f.
Proof. intros Hp Hm. unfold on_pbuf, bind, get, run_on. rewrite Hp. by rewrite Hm. Qed.

Lemma pb_read_negative (c : chain) l rest :
  concat c = l ++ rest -> rest <> [] -> tot_len c < 2 ^ 16 -> pb_read 0 (-1) (len l) c = Err FBounds.
Proof.
  intros E Hr Ht. unfold pb_read, bind, get, c_assert. assert (tot_len c = len l + len rest) as Hl by (unfold tot_len; by rewrite E, len_app).
  destruct rest as [|b rest]; [done|]. cbn [length] in Hl.
  destruct (Z.leb_spec (len l) (tot_len c)); [|lia]. destruct (Z.leb_spec (len l + -1) (tot_len c)); [|lia]. unfold ret at 1 2.
  change (u16 (-1)) with 65535. unfold u16. rewrite Z.mod_small by lia.
  rewrite pbuf_copy_partial_flat, E, Nat2Z.id, drop_app_length by lia.
  destruct (Z.leb_spec (len (take (Z.to_nat 65535) (b :: rest))) 0) as [Hz|]; [|done].
  rewrite length_take in Hz. cbn [length] in Hz. lia.
Qed.

Lemma ncall_mem (s : S) : exists n, ncall mem_ok s = Ok (true, set_net n s).
Proof using memory. exists (mem_ok (net s)).2. unfold ncall. pose proof (memory (net s)). by destruct (mem_ok (net s)) as [[] n]. Qed.

Context (deliver : Z -> Z -> nfs_result -> M S unit).

(** C22: replies: however the packet of a reply is split into buffers, the
    client is given exactly what the server encoded: attributes, a handle with
    attributes, the bytes of a read, and all names of a directory in order with
    the last cookie; an error status is passed on with nothing else. *)
Theorem nfs_replies_decode cb token p (c : chain) xid s :
  cb <> 0 -> pbufs s !! p = Some c -> is_u32 xid -> tot_len c < 2 ^ 16 ->
  (forall a post, concat c = reply_start xid NFS_OK ++ xdr_longs a ++ post -> len a = FATTR_LONGS -> Forall is_u32 a ->
     _nfs_getattr_cb deliver cb token p s = deliver cb token (Getattr NFS_OK (Some a)) s) /\
  (forall fh a post, concat c = reply_start xid NFS_OK ++ fh ++ xdr_longs a ++ post -> len fh = FHSIZE -> len a = FATTR_LONGS ->
     Forall is_u32 a -> _nfs_lookup_cb deliver cb token p s = deliver cb token (Lookup NFS_OK (Some fh) (Some a)) s) /\
  (forall a data post, concat c = reply_start xid NFS_OK ++ xdr_longs a ++ xdr_longs [len data] ++ data ++ post -> len a = FATTR_LONGS ->
     Forall is_u32 a -> exists n, _nfs_read_cb deliver cb token p s =
       deliver cb token (Read NFS_OK (Some a) (len data) (Some data)) (set_net n s)) /\
  (forall es post, concat c = reply_start xid NFS_OK ++ dir_bytes es ++ post -> Forall entry_ok es ->
     exists n, _nfs_readdir_cb deliver cb token p s =
       deliver cb token (Readdir NFS_OK ((fun e => e.1.2) <$> es) (last_cookie 0 es)) (set_net n s)) /\
  (forall st post, concat c = reply_start xid st ++ post -> is_u32 st -> st <> NFS_OK ->
     _nfs_readdir_cb deliver cb token p s = deliver cb token (Readdir st [] 0) s).
Proof using memory.
  intros Hcb Hp Hx Ht. assert (c_assert (S := S) (negb (cb =? 0)) s = Ok (tt, s)) as Ha by (by apply Z.eqb_neq in Hcb as ->).
  split_and!.
  - intros a post E Hl Hu. unfold _nfs_getattr_cb, bind. rewrite Ha.
    by rewrite (on_pbuf_eq p _ c _ s Hp (attrstat_eq c xid a post E Hx Hl Hu Ht)).
  - intros fh a post E Hf Hl Hu. unfold _nfs_lookup_cb, bind. rewrite Ha.
    by rewrite (on_pbuf_eq p _ c _ s Hp (diropres_eq c xid fh a post E Hx Hf Hl Hu Ht)).
  - intros a data post E Hl Hu. unfold _nfs_read_cb, bind. rewrite Ha.
    rewrite (on_pbuf_eq p _ c _ s Hp (reply_status_eq c xid NFS_OK _ E Hx ltac:(by apply small_u32) Ht)).
    change (NFS_OK =? NFS_OK) with true. cbv iota beta. unfold read_fattr.
    rewrite (on_pbuf_eq p _ c _ s Hp (arrl_eq c _ a FATTR_LONGS _ E ltac:(done) Hu Ht)). rewrite app_assoc in E.
    assert (len data < 2 ^ 16) as Hd by (unfold tot_len in Ht; rewrite E, !len_app in Ht; lia).
    rewrite (on_pbuf_eq p _ c _ s Hp (readl_eq c _ (len data) _ E ltac:(apply small_u32; lia) Ht)). rewrite app_assoc in E.
    destruct (ncall_mem s) as [n ->]. cbn [c_assert]. unfold ret at 1. exists n. rewrite i32_small by lia.
    by rewrite (on_pbuf_eq p _ c _ (set_net n s) Hp (bytes_eq c _ data (len data) (len data) _ E eq_refl Ht ltac:(lia))).
  - intros es post E He. unfold _nfs_readdir_cb, bind. rewrite Ha.
    rewrite (on_pbuf_eq p _ c _ s Hp (reply_status_eq c xid NFS_OK _ E Hx ltac:(by apply small_u32) Ht)).
    change (NFS_OK =? NFS_OK) with true. cbv iota beta.
    destruct (readdir_entries_eq p c es _ post s Hp E He eq_refl Ht) as [n ->].
    destruct (ncall_mem (set_net n s)) as [n' ->]. by exists n'.
  - intros st post E Hst Hne. unfold _nfs_readdir_cb, bind. rewrite Ha.
    rewrite (on_pbuf_eq p _ c _ s Hp (reply_status_eq c xid st _ E Hx Hst Ht)). by apply Z.eqb_neq in Hne as ->.
Qed.

(** C37: a directory entry whose name claims to be 0xFFFFFFFF bytes long is
    read into a buffer of 0 bytes: the length is -1 as an [int] and passes the
    assertions of [pb_read], and all the rest of the packet is copied before the
    last assertion is reached. *)
Theorem readdir_name_overflow cb token p (c : chain) xid fid rest s :
  cb <> 0 -> pbufs s !! p = Some c -> is_u32 xid -> is_u32 fid -> tot_len c < 2 ^ 16 ->
  concat c = reply_start xid NFS_OK ++ xdr_longs [1] ++ xdr_longs [fid] ++ xdr_longs [2 ^ 32 - 1] ++ rest -> rest <> [] ->
  _nfs_readdir_cb deliver cb token p s = Err FBounds.
Proof using memory.
  intros Hcb Hp Hx Hf Ht E Hr. unfold _nfs_readdir_cb, bind. assert (c_assert (S := S) (negb (cb =? 0)) s = Ok (tt, s)) as -> by (by apply Z.eqb_neq in Hcb as ->).
  rewrite (on_pbuf_eq p _ c _ s Hp (reply_status_eq c xid NFS_OK _ E Hx ltac:(by apply small_u32) Ht)).
  change (NFS_OK =? NFS_OK) with true. cbv iota beta.
  enough (readdir_entries p (len (reply_start xid NFS_OK)) s = Err FBounds) as -> by done.
  unfold readdir_entries, bind, pbuf_bytes. rewrite (on_pbuf_eq p get c c s Hp eq_refl). cbn [while_fuel]. unfold bind at 1.
  rewrite (on_pbuf_eq p _ c _ s Hp (readl_eq c _ 1 _ E ltac:(by apply small_u32) Ht)). change (1 =? 0) with false. cbv iota beta.
  rewrite app_assoc in E. unfold readdir_entry, bind.
  rewrite (on_pbuf_eq p _ c _ s Hp (readl_eq c _ fid _ E Hf Ht)). rewrite app_assoc in E.
  rewrite (on_pbuf_eq p _ c _ s Hp (readl_eq c _ (2 ^ 32 - 1) _ E ltac:(done) Ht)). rewrite app_assoc in E.
  destruct (ncall_mem s) as [n ->]. cbn [c_assert]. unfold ret at 1. change (u32 (2 ^ 32 - 1 + 1)) with 0. change (i32 (2 ^ 32 - 1)) with (-1).
  by rewrite (on_pbuf_err p _ c FBounds (set_net n s) Hp (pb_read_negative c _ rest E Hr Ht)).
Qed.
End decode.

(** ** Requests *)

Section requests.
Context {N : Type} `{!Net N}.
Local Abbreviation S := (rpc nfs_fn N).
Implicit Types (s : rpc nfs_fn N) (l : list (Z * rpc_queue nfs_fn)).
Context (deliver : Z -> Z -> nfs_result -> M S unit) `{!DeliverLaws deliver}.

Lemma encodes_fh fh : len fh = FHSIZE -> encodes (pb_write fh FHSIZE) fh.
Proof. intros <-. apply encodes_write. Qed.

Lemma encodes_writel v : encodes (pb_writel v) (xdr_longs [v]).
Proof. apply encodes_arrl. Qed.

Lemma encodes_diropargs fh name : len fh = FHSIZE -> encodes (write_diropargs fh name) (fh ++ xdr_str name).
Proof. intros Hf. apply encodes_bind; [by rewrite Hf | by apply encodes_fh | apply encodes_str]. Qed.

Lemma length_xdr_str4 d : len (xdr_str d) mod 4 = 0 /\ len d + 4 <= len (xdr_str d) <= len d + 7.
Proof. rewrite length_xdr_str. Z.to_euclidean_division_equations; lia. Qed.

Lemma nfs_request_eq proc args f cb token s : nfs_request proc args f cb token s = request (_nfs_pcb s) NFS_NUMBER NFS_VERSION proc args f cb token s.
Proof.
  assert (wpf (fun _ => True) (rpcpbuf_init NFS_NUMBER NFS_VERSION proc) (fun _ s' => _nfs_pcb s' = _nfs_pcb s) s) as H.
  { apply wpf_rpcpbuf_init; [done|]. by intros. }
  unfold nfs_request, request, bind, wpf in *. destruct (rpcpbuf_init _ _ _ s) as [[[p pos] s1]|]; [|done].
  destruct (p =? 0); [done|]. unfold on_pbuf, get, bind. destruct (pbufs s1 !! p) as [c|]; [|done]. unfold run_on.
  destruct (args pos c) as [[pos' c']|]; [|done]. cbn. by rewrite H.
Qed.

Lemma nfs_request_run s l (x : udp_pcb) proc args bytes f cb token :
  wf s l -> 0 < _nfs_pcb s -> pcbs s !! _nfs_pcb s = Some x -> encodes args bytes -> len bytes <= UDP_PAYLOAD - hdr_size ->
  wpf stops (nfs_request proc args f cb token)
    (requested s l (_nfs_pcb s) x (rpc_hdr (u32 (cur_xid s + 1)) NFS_NUMBER NFS_VERSION proc ++ bytes) f cb token) s.
Proof using DeliverLaws0.
  intros Hwf Hk0 Hk He Hl. unfold wpf. rewrite nfs_request_eq. by apply (request_run stops (nfs_func deliver)).
Qed.

(** C24: requests: the packet that a call puts in the queue and on the wire is
    the header of a new call to the file server followed by its arguments as
    the protocol has them; a call that fails changes nothing of the queue. *)
Theorem nfs_requests_sent s l (x : udp_pcb) fh name sat offset count cookie cb token :
  wf s l -> 0 < _nfs_pcb s -> pcbs s !! _nfs_pcb s = Some x -> len fh = FHSIZE -> len name <= 1261 -> len sat = SATTR_LONGS ->
  let call proc bytes := requested s l (_nfs_pcb s) x (rpc_hdr (u32 (cur_xid s + 1)) NFS_NUMBER NFS_VERSION proc ++ bytes) in
  wpf stops (nfs_getattr fh cb token) (call NFSPROC_GETATTR fh NfsGetattrCb cb token) s /\
  wpf stops (nfs_lookup fh name cb token) (call NFSPROC_LOOKUP (fh ++ xdr_str name) NfsLookupCb cb token) s /\
  wpf stops (nfs_read fh offset count cb token)
    (call NFSPROC_READ (fh ++ xdr_longs [u32 offset; u32 (Z.min count NFS_READ_MAX); 0]) NfsReadCb cb token) s /\
  wpf stops (nfs_create fh name sat cb token) (call NFSPROC_CREATE ((fh ++ xdr_str name) ++ xdr_longs sat) NfsCreateCb cb token) s /\
  wpf stops (nfs_remove fh name cb token) (call NFSPROC_REMOVE (fh ++ xdr_str name) NfsRemoveCb cb token) s /\
  wpf stops (nfs_readdir fh cookie cb token)
    (call NFSPROC_READDIR (fh ++ xdr_longs [cookie; READDIR_BUF_SIZE]) NfsReaddirCb cb token) s.
Proof using DeliverLaws0.
  intros Hwf Hk0 Hk Hf Hn Hs call. destruct (length_xdr_str4 name) as [H4 Hstr]. unfold UDP_PAYLOAD, hdr_size, FHSIZE, SATTR_LONGS in *.
  assert (forall l1 : list Z, len (fh ++ l1) = 32 + len l1) as Hlen by (intros l1; rewrite len_app; lia).
  split_and!; apply nfs_request_run; try done; rewrite ?len_app, ?length_xdr_longs; cbn [length]; try (unfold UDP_PAYLOAD, hdr_size; lia).
  - by apply encodes_fh.
  - by apply encodes_diropargs.
  - replace (if _ <? _ then _ else _) with (Z.min count NFS_READ_MAX) by (case_bool; lia).
    apply encodes_bind; [by rewrite Hf | by apply encodes_fh |].
    apply (encodes_bind _ _ (xdr_longs [_])); [done | apply encodes_writel |].
    apply (encodes_bind _ _ (xdr_longs [_])); [done | apply encodes_writel | apply encodes_writel].
  - apply encodes_bind; [rewrite Hlen; Z.to_euclidean_division_equations; lia | by apply encodes_diropargs | apply encodes_arrl].
  - by apply encodes_diropargs.
  - apply encodes_bind; [by rewrite Hf | by apply encodes_fh |].
    apply (encodes_bind _ _ (xdr_longs [_])); [done | apply encodes_writel | apply encodes_writel].
Qed.

Definition write_start (fh : list Z) (offset pos : Z) : M chain Z :=
  pos <- pb_write fh FHSIZE pos ;; pos <- pb_writel 0 pos ;; pos <- pb_writel (u32 offset) pos ;; pb_writel 0 pos.
Definition write_data (data : list Z) (n pos : Z) : M chain Z := pos <- pb_writel (u32 n) pos ;; pb_write data n pos.

Lemma write_args_eq fh offset count data pos c :
  write_args fh offset count data pos c =
  (pos <- write_start fh offset pos ;;
   c <- get ;;
   let limit := tot_len c - pos - 4 in
   let n := if limit <? count then limit else count in
   pos <- write_data data n pos ;; ret (n, pb_alignl pos)) c.
Proof.
  unfold write_args, write_start, write_data, bind. repeat (case_match; try done); congruence.
Qed.

Lemma encodes_write_start fh offset : len fh = FHSIZE -> encodes (write_start fh offset) (fh ++ xdr_longs [0; u32 offset; 0]).
Proof.
  intros Hf. apply encodes_bind; [by rewrite Hf | by apply encodes_fh |].
  apply (encodes_bind _ _ (xdr_longs [_])); [done | apply encodes_writel |].
  apply (encodes_bind _ _ (xdr_longs [_])); [done | apply encodes_writel | apply encodes_writel].
Qed.

Lemma encodes_write_data data n : 0 <= n <= len data -> encodes (write_data data n) (xdr_longs [u32 n] ++ take (Z.to_nat n) data).
Proof. intros Hn. apply encodes_bind; [done | apply encodes_writel | by apply encodes_take]. Qed.

Lemma wp_same {A} (m m' : M chain A) Q c : m c = m' c -> wp m' Q c -> wp m Q c.
Proof. unfold wp. by intros ->. Qed.

(** The most that fits: 1400 bytes less the header, a handle and four words. *)
Definition write_max : Z := UDP_PAYLOAD - hdr_size - FHSIZE - 16.

Lemma write_args_run fh offset count data b (l post : list Z) :
  b = l ++ post -> len l = hdr_size -> len b = UDP_PAYLOAD -> len fh = FHSIZE -> 0 <= count <= len data ->
  let n := Z.min count write_max in
  let bytes := (fh ++ xdr_longs [0; u32 offset; 0; u32 n]) ++ take (Z.to_nat n) data in
  wp (write_args fh offset count data hdr_size)
    (fun r c => exists b' post', c = [b'] /\ b' = (l ++ bytes) ++ post' /\ len b' = len b /\ r = (n, pb_alignl (len (l ++ bytes)))) [b].
Proof.
  intros Eb Hl Hb Hf Hc n bytes. set (start := fh ++ xdr_longs [0; u32 offset; 0]).
  assert (len start = 44) as Hst by (unfold start; rewrite len_app, Hf; done).
  unfold UDP_PAYLOAD, hdr_size in *. rewrite <- Hl. eapply wp_same; [apply write_args_eq|]. wp_steps.
  eapply wp_mono; [apply (encodes_single _ start b l post); [by apply encodes_write_start | done | by rewrite Hl | lia]|].
  intros pos c (b1 & post1 & -> & Eb1 & Hb1 & ->). wp_steps.
  assert (tot_len [b1] = 1400) as -> by (unfold tot_len; simpl; rewrite app_nil_r; lia).
  assert (len (l ++ start) = 112) as H112 by (rewrite len_app; lia). rewrite H112. cbv zeta.
  assert ((if 1400 - 112 - 4 <? count then 1400 - 112 - 4 else count) = n) as -> by (unfold n; case_bool; unfold write_max, FHSIZE, UDP_PAYLOAD, hdr_size; lia).
  rewrite <- H112. wp_steps.
  assert (0 <= n <= 1284 /\ n <= len data) as Hn by (unfold n, write_max, FHSIZE, UDP_PAYLOAD, hdr_size; lia).
  eapply wp_mono; [apply (encodes_single _ (xdr_longs [u32 n] ++ take (Z.to_nat n) data) b1 (l ++ start) post1); [apply encodes_write_data; lia | done | |]|].
  { by rewrite H112. }
  { rewrite H112, !len_app, length_take, length_xdr_long. lia. }
  intros pos c (b2 & post2 & -> & Eb2 & Hb2 & ->). wp_steps.
  replace ((l ++ start) ++ xdr_longs [u32 n] ++ take (Z.to_nat n) data) with (l ++ bytes) in *.
  2:{ unfold bytes, start. change (xdr_longs [0; u32 offset; 0; u32 n]) with (xdr_longs [0; u32 offset; 0] ++ xdr_longs [u32 n]). by rewrite <- !app_assoc. }
  exists b2, post2. split_and!; done || lia.
Qed.
Lemma packet_size xid fh offset count data :
  len fh = FHSIZE -> 0 <= count <= len data ->
  let n := Z.min count write_max in
  let bytes := (fh ++ xdr_longs [0; u32 offset; 0; u32 n]) ++ take (Z.to_nat n) data in
  let size := len (rpc_hdr xid NFS_NUMBER NFS_VERSION NFSPROC_WRITE ++ bytes) in
  4 <= size <= pb_alignl size /\ pb_alignl size <= Z.min (size + 3) UDP_PAYLOAD.
Proof.
  intros Hf Hc n bytes size. assert (size = 116 + n) as ->.
  { unfold size, bytes. rewrite !len_app, length_rpc_hdr, Hf, length_xdr_longs, length_take. unfold hdr_size, FHSIZE. cbn [length].
    unfold n, write_max, UDP_PAYLOAD, FHSIZE, hdr_size. lia. }
  assert (0 <= n <= 1284) by (unfold n, write_max, UDP_PAYLOAD, FHSIZE, hdr_size; lia).
  unfold pb_alignl. rewrite ROUNDUP_spec by lia. unfold UDP_PAYLOAD. Z.to_euclidean_division_equations; lia.
Qed.

Lemma take_pad (b l post : list Z) m :
  b = l ++ post -> len l <= m -> m <= len b -> exists pad, take (Z.to_nat m) b = l ++ pad /\ len pad = m - len l.
Proof.
  intros -> H1 H2. rewrite len_app in H2. exists (take (Z.to_nat m - length l) post). rewrite take_app, take_ge by lia. split; [done|].
  rewrite length_take. lia.
Qed.

(** C26: bounds of a write: the data is cut to what the packet can hold, the
    packet has exactly the bytes that are left after at most 3 bytes of padding
    and never exceeds the payload of a datagram, and the token that the reply
    will find has the count that was sent; a write that fails leaves no packet,
    token or call behind. *)
Theorem nfs_write_sent s l (x : udp_pcb) fh offset count data cb token :
  wf s l -> 0 < _nfs_pcb s -> pcbs s !! _nfs_pcb s = Some x -> len fh = FHSIZE -> 0 <= count <= len data ->
  let xid := u32 (cur_xid s + 1) in
  let n := Z.min count write_max in
  let t := new_ptr (tokens s) in
  wpf stops (nfs_write fh offset count data cb token) (fun err s' =>
    (err <> 0 /\ wf s' l /\ pbufs s' = pbufs s /\ tokens s' = tokens s) \/
    (err = 0 /\ tokens s' = <[t := WriteToken token n]> (tokens s) /\
     exists a p pad n0 n1, wf s' (l ++ [(a, RpcQueue (_nfs_pcb s) p xid 0 0 (Direct NfsWriteCb) cb t)]) /\
       let pkt := (rpc_hdr xid NFS_NUMBER NFS_VERSION NFSPROC_WRITE ++
                   (fh ++ xdr_longs [0; u32 offset; 0; u32 n]) ++ take (Z.to_nat n) data) ++ pad in
       len pad < 4 /\ len pkt <= UDP_PAYLOAD /\ pbufs s' = <[p := [pkt]]> (pbufs s) /\ udp_output x pkt n0 = (ERR_OK, n1))) s.
Proof using DeliverLaws0.
  intros Hwf Hk0 Hk Hf Hc xid n t. unfold nfs_write. wpf_steps. apply wpf_ncall. destruct (mem_ok (net s)).1; cbn [negb].
  2:{ wpf_steps. left. split; [done|]. by split; [|split]. }
  wpf_steps. apply wpf_rpcpbuf_init.
  { intros n2. wpf_steps. left. split; [done|]. by split; [|split]. }
  intros p b post n2 Hp Hp0 Eb Hlb. destruct (Z.eqb_spec p 0); [lia|]. cbn [cur_xid set_net pbufs] in *. fold xid in Eb |- *. wpf_steps.
  set (s1 := set_pbufs _ _). eapply wpf_on_pbuf; [cbn; apply lookup_insert_eq|].
  eapply wpf_mono; [apply wp_wpf, (write_args_run fh offset count data b (rpc_hdr xid NFS_NUMBER NFS_VERSION NFSPROC_WRITE) post); try done; apply length_rpc_hdr|].
  fold n. set (bytes := _ ++ take _ data). intros r c (b' & post' & -> & Eb' & Hlb' & ->). wpf_steps. unfold new_token. wpf_steps.
  set (s2 := set_tokens _ _). change (new_ptr (tokens (set_pbufs (<[p := [b']]> (pbufs s1)) s1))) with t. change (_nfs_pcb s2) with (_nfs_pcb s).
  set (m := pb_alignl _). destruct (rpc_hdr_xid xid NFS_NUMBER NFS_VERSION NFSPROC_WRITE) as [rest Erest].
  destruct (packet_size xid fh offset count data Hf Hc) as [Hm1 Hm2]. fold n bytes m in Hm1, Hm2.
  eapply wpf_mono; [eapply (send_new stops (nfs_func deliver) s s2 l p b' xid ((rest ++ bytes) ++ post') m (_nfs_pcb s) x NfsWriteCb cb t)|]; try done.
  { cbn. apply insert_insert_eq. }
  { by rewrite Eb', Erest, <- !app_assoc. }
  { apply u32_range. }
  { unfold UDP_PAYLOAD in *. lia. }
  { unfold UDP_PAYLOAD in *. lia. }
  intros err s3 [Hse Hout]. assert (tokens s3 = <[t := WriteToken token n]> (tokens s)) as Et by (by destruct Hse).
  destruct Hout as [(Herr & Hw3 & Hp3)|(-> & (a & Hw3) & Hp3 & n3 & n4 & Hsent & _)].
  - apply Z.eqb_neq in Herr as Hn0. rewrite Hn0. unfold drop_token, the_token. cbn [negb]. wpf_steps. rewrite Et, lookup_insert_eq. wpf_steps.
    left. split; [done|]. split; [by apply (wf_same_rpc s3)|]. split; [done|]. cbn. rewrite Et. apply delete_insert_id, new_ptr_fresh.
  - change (negb (0 =? 0)) with false. wpf_steps. right. split; [done|]. split; [done|].
    destruct (take_pad b' _ post' m Eb') as (pad & Epad & Hpad); [lia | lia |]. rewrite Epad in *. exists a, p, pad, n3, n4.
    split; [done|]. cbv zeta. fold bytes. split; [lia|]. split; [|by split]. rewrite len_app. lia.
Qed.
End requests.

(** ** Witnesses *)

(** A client that notes the number of names of a directory. *)
Definition demo_deliver (cb token : Z) (r : nfs_result) : M (rpc nfs_fn demo_net) unit :=
  match r with
  | Readdir _ names _ => modify (fun s => set_tokens (<[token := PortToken (Some (len names))]> (tokens s)) s)
  | _ => ret tt
  end.

#[export] Instance demo_DeliverLaws : DeliverLaws demo_deliver.
Proof.
  intros cb token r s l Hwf. destruct r; unfold demo_deliver; wpf_steps; exists l, []; by apply evolves_self.
Qed.

Definition demo_nfs (c : chain) : rpc nfs_fn demo_net :=
  Rpc ([], []) {[1 := c]} ∅ 0 100 ∅ {[1 := UdpPcb MyRecv 45 9 2049]} 45 0 ∅ 1.

Lemma demo_nfs_wf c : wf (demo_nfs c) [].
Proof. split; [done|]. split; [constructor|]. split; constructor. Qed.

Lemma demo_memory (n : demo_net) : (mem_ok n).1 = true.
Proof. done. Qed.

(** Two entries, in a packet of two buffers that are split in the middle of a word. *)
Definition demo_dir : list dir_entry := [(7, [97], 1); (8, [98; 99], 2)].
Definition demo_reply : list Z := reply_start 5 NFS_OK ++ dir_bytes demo_dir.
Definition demo_chain : chain := [take 30 demo_reply; drop 30 demo_reply].

Lemma nfs_replies_decode_witness :
  exists n, _nfs_readdir_cb demo_deliver 1 3 1 (demo_nfs demo_chain) =
    demo_deliver 1 3 (Readdir NFS_OK [[97]; [98; 99]] 2) (set_net n (demo_nfs demo_chain)).
Proof.
  refine (proj1 (proj2 (proj2 (proj2 (nfs_replies_decode demo_memory demo_deliver 1 3 1 demo_chain 5 (demo_nfs demo_chain) _ _ _ _)))) demo_dir [] _ _).
  - lia.
  - reflexivity.
  - unfold is_u32. lia.
  - vm_compute. reflexivity.
  - reflexivity.
  - repeat (apply Forall_cons; split); [..|apply Forall_nil; exact I]; split; unfold is_u32; simpl; lia.
Defined.

Definition demo_evil : list Z := reply_start 5 NFS_OK ++ xdr_longs [1] ++ xdr_longs [7] ++ xdr_longs [2 ^ 32 - 1] ++ [65; 65; 65; 65].

Lemma readdir_name_overflow_witness : _nfs_readdir_cb demo_deliver 1 3 1 (demo_nfs [demo_evil]) = Err FBounds.
Proof.
  apply (readdir_name_overflow demo_memory demo_deliver 1 3 1 [demo_evil] 5 7 [65; 65; 65; 65]); try done; unfold is_u32; lia.
Defined.

Lemma nfs_requests_sent_witness :
  exists s', nfs_lookup (replicate 32 1) [97] 4 5 (demo_nfs []) = Ok (0, s') /\
    (net s').1 = [rpc_hdr 101 NFS_NUMBER NFS_VERSION NFSPROC_LOOKUP ++ replicate 32 1 ++ [0; 0; 0; 1; 97; 0; 0; 0]] /\
    exists a p, wf s' [(a, RpcQueue 1 p 101 0 0 (Direct NfsLookupCb) 4 5)].
Proof.
  assert (forall s1, nfs_lookup (replicate 32 1) [97] 4 5 (demo_nfs []) = Ok (0, s1) -> exists a p, wf s1 [(a, RpcQueue 1 p 101 0 0 (Direct NfsLookupCb) 4 5)]) as H.
  { intros s1 E.
    destruct (nfs_requests_sent demo_deliver (demo_nfs []) [] (UdpPcb MyRecv 45 9 2049) (replicate 32 1) [97] (replicate 8 0) 0 0 0 4 5 (demo_nfs_wf []))
      as (_ & H & _); [done.. | simpl; lia | done |].
    unfold wpf in H. rewrite E in H. unfold requested in H.
    destruct H as (_ & _ & _ & _ & [(Hne & _)|(_ & (a & p & Hw & _) & _)]); [by destruct Hne|]. exists a, p. exact Hw. }
  eexists. split; [vm_compute; reflexivity|]. split; [reflexivity|]. apply H. vm_compute. reflexivity.
Defined.

Lemma nfs_write_sent_witness :
  exists s', nfs_write (replicate 32 1) 0 3 [65; 66; 67] 4 5 (demo_nfs []) = Ok (0, s') /\
    length <$> (net s').1 = [120%nat] /\ tokens s' = <[1 := WriteToken 5 3]> ∅.
Proof.
  assert (forall s1, nfs_write (replicate 32 1) 0 3 [65; 66; 67] 4 5 (demo_nfs []) = Ok (0, s1) -> tokens s1 = <[1 := WriteToken 5 3]> ∅) as H.
  { intros s1 E.
    pose proof (nfs_write_sent demo_deliver (demo_nfs []) [] (UdpPcb MyRecv 45 9 2049) (replicate 32 1) 0 3 [65; 66; 67] 4 5 (demo_nfs_wf [])
      ltac:(done) ltac:(done) ltac:(done) ltac:(simpl; lia)) as H.
    cbv zeta in H. unfold wpf in H. rewrite E in H. destruct H as [(Hne & _)|(_ & Ht & _)]; [by destruct Hne|]. exact Ht. }
  eexists. split; [vm_compute; reflexivity|]. split; [reflexivity|]. apply H. vm_compute. reflexivity.
Defined.
