(* ===== verification/Victim.v ===== *)
(** * Victim: the second-chance scan of the pager

    [next_victim] of vm/pager.c walks the frames from [current_page] on, takes
    the second chance from frames that still have their first, and stops at the
    first frame that had lost it.  [aged n c k i e] is the entry [e] of frame
    [i] after [k] rounds of the scan from [c]. *)

From S2P Require Import Prelude Arith Memory SosState FrameTable FrameProofs UtInterface Pager FrameClaims.

Definition aged (n c k i : Z) (e : frame_entry) : frame_entry :=
  if negb (cap e =? 0) && bool_decide (chance e = FIRST_CHANCE) && (i <? n) && ((i - c) mod n <? k)
  then set_chance SECOND_CHANCE e else e.

Lemma aged_cap n c k i e : cap (aged n c k i e) = cap e.
Proof. unfold aged. by destruct (_ && _ && _ && _). Qed.

Lemma aged_zero n c i e : 0 < n -> aged n c 0 i e = e.
Proof.
  intros Hn. unfold aged. pose proof (Z.mod_pos_bound (i - c) n Hn).
  destruct (Z.ltb_spec ((i - c) mod n) 0); [lia|]. by rewrite andb_false_r.
Qed.

(** The distance of the position the scan is at. *)
Lemma scan_dist n c k : 0 < n -> 0 <= k -> ((c + k) mod n - c) mod n = k mod n.
Proof. intros. rewrite Zminus_mod_idemp_l. f_equal. lia. Qed.

Lemma scan_pos n c i : 0 < n -> 0 <= i < n -> i = (c + (i - c) mod n) mod n.
Proof. intros. rewrite Zplus_mod_idemp_r. replace (c + (i - c)) with i by lia. by rewrite Z.mod_small. Qed.

Lemma aged_succ_ne n c k i e : 0 < n -> 0 <= k -> 0 <= i -> i <> (c + k) mod n -> aged n c (k + 1) i e = aged n c k i e.
Proof.
  intros Hn Hk Hi Hne. unfold aged. destruct (Z.ltb_spec i n) as [Hin|]; [|by rewrite !andb_false_r].
  pose proof (Z.mod_pos_bound (i - c) n Hn).
  replace ((i - c) mod n <? k + 1) with ((i - c) mod n <? k); [done|].
  destruct (Z.ltb_spec ((i - c) mod n) k), (Z.ltb_spec ((i - c) mod n) (k + 1)); try done; try lia.
  destruct Hne. replace k with ((i - c) mod n) by lia. by apply scan_pos.
Qed.

(** At the position of the scan. *)
Lemma aged_succ_eq n c k e : 0 < n -> 0 <= k -> cap e <> 0 ->
  aged n c (k + 1) ((c + k) mod n) e =
  let e' := aged n c k ((c + k) mod n) e in
  if bool_decide (chance e' = FIRST_CHANCE) then set_chance SECOND_CHANCE e' else e'.
Proof.
  intros Hn Hk Hc. cbv zeta. pose proof (Z.mod_pos_bound (c + k) n Hn). pose proof (Z.mod_le k n Hk Hn).
  unfold aged. rewrite scan_dist by done. destruct (Z.eqb_spec (cap e) 0); [done|].
  destruct (Z.ltb_spec ((c + k) mod n) n); [|lia]. destruct (Z.ltb_spec (k mod n) (k + 1)); [|lia]. cbn [negb andb].
  rewrite andb_true_r. destruct (bool_decide (chance e = FIRST_CHANCE)) eqn:E; cbn [andb].
  - destruct (k mod n <? k); [done|]. by rewrite E.
  - by rewrite E.
Qed.

Lemma aged_not_valid n c k i e : cap e = 0 -> aged n c k i e = e.
Proof. intros E. unfold aged. by rewrite E. Qed.

Section victim.
Context {U K : Type} `{!Kernel K} `{!UtAlloc U} `{!Threads K} `{!Nfs K} `{!World (sos U K)} `{!KernelLaws K} `{!UtLaws U}.
Local Abbreviation S := (sos U K).

Lemma ft_inv_pgr (s : S) t L own p : ft_inv s t L own -> ft_inv (set_pgr p s) t L own.
Proof. by intros []. Qed.

Lemma wp_get_capability_any (s : S) t L own id Q :
  ft_inv s t L own -> 0 <= id -> Q (match t !z id with Some e => cap e | None => 0 end) s ->
  wp (on_ft (frame_table_get_capability id)) Q s.
Proof.
  intros Hinv Hid HQ. pose proof Hinv as [Hg Ht [Hl Hc _] _ _ _ _ _ _ _ _].
  assert (set_ft (ft s) s = s) as Es by (by destruct s).
  apply wp_zoom. unfold frame_table_get_capability. wp_steps. rewrite Ht.
  unfold frame_in_range. rewrite top_index by done. destruct (ISINRANGE 0 id (n_frames (ft s))) eqn:E; cbn [negb].
  - pose proof Hg as [? [? _]]. assert (0 <= n_frames (ft s)) by (apply Z.div_pos; lia).
    apply ISINRANGE_spec in E; [|done]. destruct (lookupZ_in_range t id) as [e He]; [lia|].
    wp_steps. eapply wp_entry; [done..|]. wp_steps. by rewrite Es, He in *.
  - wp_steps. rewrite Es. destruct (t !z id) as [e|] eqn:He; [|done].
    destruct (Z.eq_dec (cap e) 0) as [E0|Hne]; [by rewrite E0 in HQ|].
    destruct (Hc id e He Hne) as [Hr _]. exfalso. apply not_true_iff_false in E. apply E.
    apply ISINRANGE_spec; lia.
Qed.

Context (s : S) (t : list frame_entry) (L : gset (Z * Z)) (own : gset Z).
Local Abbreviation n := (frame_table_max (ft s)).
Local Abbreviation c := (current_page (pgr s)).
Hypothesis Hinv : ft_inv s t L own.
Hypothesis Hn : 0 < n < 2 ^ 31.
Hypothesis Hcur : 0 <= c < n.

Definition scan_at (cur : Z) (t' : list frame_entry) : S :=
  set_pgr (set_current_page cur (pgr s)) (set_ft (set_frame_table (Some t') (ft s)) s).

Definition aged_table (k : Z) (t' : list frame_entry) : Prop :=
  length t' = length t /\ forall i e, t !z i = Some e -> t' !z i = Some (aged n c k i e).

(** After [k] rounds that found no victim. *)
Definition scan_state (k : Z) (s' : S) : Prop :=
  exists t', s' = scan_at ((c + k) mod n) t' /\ ft_inv s' t' L own /\ aged_table k t'.

(** The frame at the position of round [k] had no second chance left. *)
Definition lost_chance (k : Z) (e : frame_entry) : Prop :=
  t !z ((c + k) mod n) = Some e /\ cap e <> 0 /\ chance (aged n c k ((c + k) mod n) e) = SECOND_CHANCE.

Lemma scan_start : scan_state 0 s.
Proof using All.
  exists t. rewrite Z.add_0_r, Z.mod_small by lia.
  assert (s = scan_at c t) as E.
  { unfold scan_at. pose proof (fi_table _ _ _ _ Hinv) as Et. destruct s as [? ? ? [] [] ? ? ? ? ? ? ? ? ? ?].
    simpl in *. by rewrite <- Et. }
  split; [done|]. split; [done|]. split; [done|]. intros i e He. by rewrite aged_zero by lia.
Qed.

Lemma wp_advance k t' Q : 0 <= k -> Q tt (scan_at ((c + (k + 1)) mod n) t') ->
  wp (advance 0 n) Q (scan_at ((c + k) mod n) t').
Proof using All.
  intros Hk HQ. unfold advance, on_pgr. apply wp_modify. cbn [scan_at pgr set_pgr current_page set_current_page].
  pose proof (Z.mod_pos_bound (c + k) n ltac:(lia)).
  rewrite (u32_small ((c + k) mod n + 1)) by (unfold is_u32; lia).
  rewrite Z.sub_0_r, Z.add_0_r, Zplus_mod_idemp_l. replace (c + k + 1) with (c + (k + 1)) by lia.
  pose proof (Z.mod_pos_bound (c + (k + 1)) n ltac:(lia)). by rewrite u32_small by (unfold is_u32; lia).
Qed.

Lemma wp_victim_next k t' v Q : 0 <= k -> v.1.1 = false -> Q (inl v) (scan_at ((c + (k + 1)) mod n) t') ->
  wp (victim_next 0 n v) Q (scan_at ((c + k) mod n) t').
Proof using All.
  intros Hk Hv HQ. destruct v as [[f sp] l]. simpl in Hv. subst f. unfold victim_next. sos_steps. cbn [andb].
  sos_steps. apply wp_advance; [done|]. by sos_steps.
Qed.

Lemma aged_table_next k t' : 0 <= k -> aged_table k t' ->
  (forall e, t !z ((c + k) mod n) = Some e -> cap e = 0 \/ chance (aged n c k ((c + k) mod n) e) <> FIRST_CHANCE) ->
  aged_table (k + 1) t'.
Proof using All.
  intros Hk [Hl Ha] Hx. split; [done|]. intros i e He. rewrite (Ha i e He). f_equal.
  pose proof (lookupZ_lt _ _ _ He). destruct (Z.eq_dec i ((c + k) mod n)) as [->|Hne]; [|rewrite aged_succ_ne; (done || lia)].
  destruct (Z.eq_dec (cap e) 0) as [E0|Hc]; [by rewrite !aged_not_valid|].
  rewrite aged_succ_eq by (done || lia). cbv zeta. destruct (Hx e He); [done|]. by rewrite bool_decide_eq_false_2.
Qed.

Lemma aged_table_mark k t' e : 0 <= k -> aged_table k t' ->
  t !z ((c + k) mod n) = Some e -> cap e <> 0 -> chance (aged n c k ((c + k) mod n) e) = FIRST_CHANCE ->
  aged_table (k + 1) (insertZ ((c + k) mod n) (set_chance SECOND_CHANCE (aged n c k ((c + k) mod n) e)) t').
Proof using All.
  intros Hk [Hl Ha] He Hc Hf. pose proof (lookupZ_lt _ _ _ He) as Hlt. split; [by rewrite length_insertZ|]. intros i e' He'.
  rewrite lookupZ_insertZ by lia. destruct (decide ((c + k) mod n = i)) as [<-|Hne].
  - rewrite He in He'. injection He' as <-. rewrite aged_succ_eq by (done || lia). cbv zeta.
    by rewrite bool_decide_eq_true_2.
  - rewrite (Ha i e' He'). pose proof (lookupZ_lt _ _ _ He'). by rewrite aged_succ_ne by (done || lia).
Qed.

Lemma victim_round_spec k s' v : 0 <= k -> scan_state k s' -> v.1.1 = false ->
  wp (victim_round 0 n v) (fun r s'' =>
    match r with
    | inl v' => v'.1.1 = false /\ scan_state (k + 1) s'' /\ (forall e, ~ lost_chance k e)
    | inr r => r = (c + k) mod n /\ (exists e, lost_chance k e) /\
        exists t', s'' = scan_at ((c + (k + 1)) mod n) t' /\ ft_inv s'' t' L own /\ aged_table k t'
    end) s'.
Proof using All.
  intros Hk (t' & -> & Hi & Ha) Hv. unfold victim_round. sos_steps. cbn [scan_at pgr set_pgr set_current_page current_page].
  set (x := (c + k) mod n) in *. assert (0 <= x < n) as Hx by (apply Z.mod_pos_bound; lia).
  eapply wp_get_capability_any; [done | lia|].
  assert (forall e', t' !z x = Some e' -> exists e, t !z x = Some e /\ e' = aged n c k x e) as Hback.
  { intros e' He'. apply lookupZ_lt in He' as Hlt. rewrite (proj1 Ha) in Hlt. destruct (lookupZ_in_range t x Hlt) as [e He].
    exists e. split; [done|]. pose proof (proj2 Ha x e He). congruence. }
  assert (forall t'' , aged_table (k + 1) t'' -> ft_inv (scan_at x t'') t'' L own -> scan_state (k + 1) (scan_at ((c + (k + 1)) mod n) t'')) as Hnext.
  { intros t'' Ha'' Hi''. exists t''. split; [done|]. split; [|done]. by destruct Hi''. }
  destruct (Z.eqb_spec (match t' !z x with Some e => cap e | None => 0 end) 0) as [E0|E0].
  { apply wp_victim_next; [done..|]. split; [done|].
    assert (forall e, t !z x = Some e -> cap e = 0) as H0.
    { intros e He. pose proof (proj2 Ha x e He) as E. rewrite E in E0. by rewrite aged_cap in E0. }
    split; [|intros e (He & Hc & _); by apply Hc, H0]. apply Hnext; [|done].
    apply aged_table_next; [done..|]. intros e He. left. by apply H0. }
  destruct (t' !z x) as [e'|] eqn:He'; [|done]. destruct (Hback e' eq_refl) as (e & He & ->). rewrite aged_cap in E0.
  destruct v as [[f sp] l]. simpl in Hv. subst f. cbn [negb]. sos_steps.
  eapply wp_get_chance; [done | done | by rewrite aged_cap|].
  destruct (chance (aged n c k x e)) eqn:Ech.
  - sos_steps. eapply wp_set_chance; [done | done | by rewrite aged_cap|].
    assert (ft_inv (with_entry (scan_at x t') t' x (set_chance SECOND_CHANCE (aged n c k x e)))
      (insertZ x (set_chance SECOND_CHANCE (aged n c k x e)) t') L own) as Hi'.
    { eapply ft_inv_entry; [done | done | by rewrite aged_cap | done]. }
    apply (wp_victim_next k (insertZ x (set_chance SECOND_CHANCE (aged n c k x e)) t')); [done | done|].
    split; [done|]. split; [|intros e2 (He2 & _ & H2); fold x in He2, H2; congruence]. apply Hnext; [|done]. by apply aged_table_mark.
  - sos_steps. apply wp_advance; [done|]. sos_steps. split; [by rewrite i32_small by lia|]. split; [by exists e|].
    exists t'. split; [done|]. split; [by destruct Hi | done].
  - apply wp_victim_next; [done..|]. split; [done|]. split; [|intros e2 (He2 & _ & H2); fold x in He2, H2; congruence].
    apply Hnext; [|done]. apply aged_table_next; [done..|]. intros e2 He2. fold x in He2 |- *. right. congruence.
Qed.

Definition passed (k : Z) : Prop := forall j e, 0 <= j < k -> ~ lost_chance j e.

(** A frame the pager may evict. *)
Definition evictable (e : frame_entry) : Prop := cap e <> 0 /\ chance e <> PINNED.

(** In the second round over the frames an evictable frame has no chance left. *)
Lemma passed_bound k i e : t !z i = Some e -> i < n -> evictable e -> passed k -> k < 2 * n.
Proof using All.
  intros He Hi [Hc Hp] Hpass. destruct (Z.lt_ge_cases k (2 * n)) as [|Hge]; [done|]. exfalso.
  pose proof (lookupZ_lt _ _ _ He) as Hlt. pose proof (Z.mod_pos_bound (i - c) n ltac:(lia)) as Hd.
  assert ((c + (n + (i - c) mod n)) mod n = i) as Ex.
  { replace (c + (n + (i - c) mod n)) with (c + (i - c) mod n + 1 * n) by lia. rewrite Z_mod_plus_full.
    symmetry. apply scan_pos; lia. }
  apply (Hpass (n + (i - c) mod n) e); [lia|]. unfold lost_chance. rewrite Ex. split; [done|]. split; [done|].
  unfold aged. destruct (Z.eqb_spec (cap e) 0) as [|Hz]; [done|]. destruct (Z.ltb_spec i n); [|lia].
  destruct (Z.ltb_spec ((i - c) mod n) (n + (i - c) mod n)); [|lia]. cbn [negb andb]. rewrite !andb_true_r.
  case_bool_decide as Hf; [done|]. by destruct (chance e).
Qed.

(** What the scan found: the frame of round [k]. *)
Definition found (k : Z) (r : Z) (s' : S) : Prop :=
  r = (c + k) mod n /\ passed k /\ (exists e, lost_chance k e) /\
  exists t', s' = scan_at ((c + (k + 1)) mod n) t' /\ ft_inv s' t' L own /\ aged_table k t'.

Lemma victim_loop fuel k s' v i e :
  t !z i = Some e -> i < n -> evictable e ->
  0 <= k -> scan_state k s' -> v.1.1 = false -> passed k -> 2 * n - k < Z.of_nat fuel ->
  wp (while_fuel fuel (victim_round 0 n) v) (fun r s'' => exists k', k <= k' < 2 * n /\ found k' r s'') s'.
Proof using All.
  intros He Hi Hev. revert k s' v. induction fuel as [|fuel IH]; intros k s' v Hk Hs Hv Hp Hf.
  { pose proof (passed_bound k i e He Hi Hev Hp). lia. }
  pose proof (passed_bound k i e He Hi Hev Hp). cbn [while_fuel]. sos_steps. eapply wp_mono; [by apply (victim_round_spec k)|].
  intros [v'|r] s2.
  - intros (Hv' & Hs' & Hno). eapply wp_mono; [apply (IH (k + 1)); try done; try lia|].
    + intros j x Hj. destruct (Z.eq_dec j k) as [->|]; [apply Hno | apply Hp; lia].
    + intros r s3 (k' & Hk' & Hfound). exists k'. split; [lia | done].
  - intros (-> & He' & Ht'). sos_steps. exists k. split; [lia|]. by split.
Qed.

Lemma next_victim_run fuel i e :
  t !z i = Some e -> i < n -> evictable e -> 2 * n < Z.of_nat fuel ->
  wp (next_victim fuel) (fun r s' => exists k, 0 <= k < 2 * n /\ found k r s') s.
Proof using All.
  intros He Hi Hev Hf. unfold next_victim, frame_table_get_limits, on_ft. sos_steps. rewrite (fi_table _ _ _ _ Hinv).
  replace (set_ft (ft s) s) with s by (by destruct s). eapply victim_loop; try done; try lia.
  - apply scan_start.
  - intros j x Hj. lia.
Qed.

(** The frame of round [k] can be evicted; in the first round over the frames
    it is the first one whose chances are used up. *)
Lemma found_frame k r s' : 0 <= k -> found k r s' ->
  exists e, t !z r = Some e /\ evictable e /\ 0 <= r < n /\ (k < n -> chance e = SECOND_CHANCE).
Proof using All.
  intros Hk (-> & _ & (e & He & Hc & Hch) & _). exists e. split; [done|]. pose proof (Z.mod_pos_bound (c + k) n ltac:(lia)).
  unfold aged in Hch. rewrite scan_dist in Hch by lia. split.
  - split; [done|]. intros E. rewrite E in Hch. rewrite bool_decide_eq_false_2 in Hch by done.
    rewrite andb_false_r in Hch. simpl in Hch. congruence.
  - split; [done|]. intros Hkn. rewrite (Z.mod_small k) in Hch by lia. rewrite Z.ltb_irrefl, andb_false_r in Hch. done.
Qed.

(** C5: When some frame of the scanned range is evictable, the second-chance
    scan ends within two rounds over the frames.  It returns an evictable
    frame; every frame it passed was free, pinned, or had its first chance,
    which it loses; the next scan starts behind the victim. *)
Theorem next_victim_spec fuel i e :
  t !z i = Some e -> i < n -> evictable e -> 2 * n < Z.of_nat fuel ->
  exists v s' t' k ev, next_victim fuel s = Ok (v, s') /\ t !z v = Some ev /\ evictable ev /\
    0 <= k < 2 * n /\ v = (c + k) mod n /\ current_page (pgr s') = (v + 1) mod n /\
    ft_inv s' t' L own /\ (forall j x, t !z j = Some x -> t' !z j = Some (aged n c k j x)) /\
    (k < n -> chance ev = SECOND_CHANCE) /\
    (forall j x, 0 <= j < k -> j < n -> t !z ((c + j) mod n) = Some x -> evictable x -> chance x = FIRST_CHANCE).
Proof using All.
  intros He Hi Hev Hf. destruct (proj1 (wp_ok _ _ _) (next_victim_run fuel i e He Hi Hev Hf)) as (v & s' & E & k & Hk & Hfound).
  destruct (found_frame k v s' ltac:(lia) Hfound) as (ev & Hv & Hvev & _ & Hsec).
  destruct Hfound as (-> & Hp & _ & t' & -> & Hinv' & Hl & Ha).
  exists ((c + k) mod n), (scan_at ((c + (k + 1)) mod n) t'), t', k, ev. split_and!; try done; try lia.
  - cbn [scan_at pgr set_pgr current_page set_current_page]. rewrite Zplus_mod_idemp_l. f_equal. lia.
  - intros j x Hj Hjn Hx [Hxc Hxp]. destruct (chance x) eqn:Ex; [done | | done]. exfalso.
    apply (Hp j x Hj). split; [done|]. split; [done|]. unfold aged. rewrite scan_dist, (Z.mod_small j) by lia.
    by rewrite Z.ltb_irrefl, andb_false_r.
Qed.

(** C32: When every frame of the scanned range is free or pinned the scan never
    returns: no number of rounds is enough. *)
Theorem next_victim_livelock fuel :
  (forall i e, t !z i = Some e -> i < n -> cap e <> 0 -> chance e = PINNED) -> next_victim fuel s = Err FFuel.
Proof using All.
  intros Hpin.
  assert (forall f k s' v, 0 <= k -> scan_state k s' -> v.1.1 = false ->
    while_fuel f (victim_round 0 n) v s' = Err FFuel) as Hloop.
  { induction f as [|f IH]; intros k s' v Hk Hs Hv; [done|]. cbn [while_fuel].
    destruct (proj1 (wp_ok _ _ _) (victim_round_spec k s' v Hk Hs Hv)) as (r & s2 & E & Hr). unfold bind. rewrite E.
    destruct r as [v'|r]; [destruct Hr as (? & ? & _); by apply (IH (k + 1)); [lia|..]|].
    destruct Hr as (_ & (e & He & Hc & Hch) & _). pose proof (Z.mod_pos_bound (c + k) n ltac:(lia)).
    pose proof (Hpin _ e He ltac:(lia) Hc) as Ep. unfold aged in Hch. rewrite Ep in Hch.
    rewrite bool_decide_eq_false_2 in Hch by done. rewrite andb_false_r in Hch. simpl in Hch. congruence. }
  unfold next_victim, frame_table_get_limits, on_ft, zoom, bind, get, ret. rewrite (fi_table _ _ _ _ Hinv).
  replace (set_ft (ft s) s) with s by (by destruct s). apply (Hloop fuel 0); [lia | apply scan_start | done].
Qed.
End victim.

(** ** Example: one frame, which has its first chance; then the same pinned *)

Lemma next_victim_spec_witness :
  exists L v s' t' k ev, next_victim 5000 one_frame = Ok (v, s') /\ one_frame_table !z v = Some ev /\ evictable ev /\
    0 <= k < 2 * 2048 /\ v = (0 + k) mod 2048 /\ current_page (pgr s') = (v + 1) mod 2048 /\
    ft_inv s' t' L {[0]} /\ (forall j x, one_frame_table !z j = Some x -> t' !z j = Some (aged 2048 0 k j x)) /\
    (k < 2048 -> chance ev = SECOND_CHANCE) /\
    (forall j x, 0 <= j < k -> j < 2048 -> one_frame_table !z ((0 + j) mod 2048) = Some x -> evictable x -> chance x = FIRST_CHANCE).
Proof.
  destruct one_frame_inv as (L & Hinv & _). exists L.
  assert (frame_table_max (ft one_frame) = 2048) as En by (by vm_compute).
  assert (current_page (pgr one_frame) = 0) as Ec by (by vm_compute).
  pose proof (next_victim_spec one_frame one_frame_table L {[0]} Hinv) as H. rewrite En, Ec in H.
  apply (H ltac:(lia) ltac:(lia) 5000%nat 0 (FrameEntry 1 FIRST_CHANCE 0 0)); [done | lia | done | lia].
Defined.

Definition pinned_frame : sos UtAllocator.ut_state toy_kernel :=
  with_entry one_frame one_frame_table 0 (FrameEntry 1 PINNED 0 0).
Definition pinned_table : list frame_entry := insertZ 0 (FrameEntry 1 PINNED 0 0) one_frame_table.

Lemma next_victim_livelock_witness : next_victim 5000 pinned_frame = Err FFuel.
Proof.
  destruct one_frame_inv as (L & Hinv & _).
  assert (ft_inv pinned_frame pinned_table L {[0]}) as Hp by (by eapply ft_inv_entry).
  assert (frame_table_max (ft pinned_frame) = 2048) as En by (by vm_compute).
  assert (current_page (pgr pinned_frame) = 0) as Ec by (by vm_compute).
  apply (next_victim_livelock pinned_frame pinned_table L {[0]} Hp); rewrite ?En, ?Ec; [lia | lia |].
  intros i e He _ Hc. unfold pinned_table in He.
  rewrite lookupZ_insertZ in He by done. destruct (decide (0 = i)); [by injection He as <-|].
  pose proof (lookupZ_lt _ _ _ He) as Hlt. change (Z.of_nat (length one_frame_table)) with 9 in Hlt.
  assert (i = 1 \/ i = 2 \/ i = 3 \/ i = 4 \/ i = 5 \/ i = 6 \/ i = 7 \/ i = 8) as Hi by lia.
  destruct Hi as [->|[->|[->|[->|[->|[->|[->| ->]]]]]]]; injection He as <-; done.
Defined.
