(* ===== verification/Vm.v ===== *)
(** * Vm: virtual memory of processes

    Models the rest of apps/sos/src/vm/vm.c (creation, destruction and growth
    of page tables, translation of addresses, copies between a process and
    SOS), [page_in] of apps/sos/src/vm/pager.c, [sos_map_page] and
    [map_device] of apps/sos/src/mapping.c, and [as_create] and [as_destroy] of
    apps/sos/src/vm/addrspace.c.  ([vm_fault], which also deletes processes,
    is in file Syscalls.) *)

From S2P Require Import Prelude Arith Memory SosState FrameTable UtInterface PageTable AddrSpace Nfs Pager.

Definition ACCESS_TYPE_BIT : Z := 11.
Definition ACCESS_TYPE_MASK : Z := BIT ACCESS_TYPE_BIT.
Definition ACCESS_TYPE (x : Z) : Z := Z.shiftr (Z.land x ACCESS_TYPE_MASK) ACCESS_TYPE_BIT.
Definition PERMISSION_FAULT_PAGE : Z := 15.

Definition get_fault_status (fault_cause : Z) : Z :=
  let bit_12 := Z.land fault_cause (BIT 12) in
  let bit_10 := Z.land fault_cause (BIT 10) in
  let lower_bits := Z.land fault_cause (Z.lor (Z.lor (Z.lor (BIT 3) (BIT 2)) (BIT 1)) (BIT 0)) in
  Z.lor (Z.lor (u32 (Z.shiftl bit_12 5)) (u32 (Z.shiftl bit_10 4))) lower_bits.

Definition set_as_directory x (a : addrspace) :=
  Addrspace (region_list a) (region_stack a) (region_heap a) (vspace_addr a) (vspace a) x.
Definition set_vspace x (a : addrspace) :=
  Addrspace (region_list a) (region_stack a) (region_heap a) (vspace_addr a) x (as_directory a).
Definition set_vspace_addr x (a : addrspace) :=
  Addrspace (region_list a) (region_stack a) (region_heap a) x (vspace a) (as_directory a).

Section vm.
Context {U K : Type} `{!Kernel K} `{!UtAlloc U} `{!Threads K} `{!Nfs K} `{!World (sos U K)}.
Local Abbreviation S := (sos U K).

(** [assert(frame_table_set_chance(frame_id, c) == 0)] *)
Definition set_chance_ok (frame_id : Z) (c : chance_type) : M S unit :=
  r <- on_ft (frame_table_set_chance frame_id c) ;; c_assert (r =? 0).

(** *** Page tables *)

Definition page_directory_create : M S Z :=
  top_level <- malloc h_dirs (PageDirectory 0 0) ;;
  if top_level =? 0 then ret 0
  else
    r <- frame_alloc ;;
    match r with
    | None => free h_dirs top_level ;;; ret 0
    | Some (frame_id, directory_vaddr) =>
        set_chance_ok frame_id PINNED ;;;
        let nframes := BIT (seL4_PageDirBits - seL4_PageBits) in
        r <- multi_frame_alloc nframes ;;
        match r with
        | None => frame_free (u32 (-1)) ;;; free h_dirs top_level ;;; ret 0
        | Some (frame_id, kernel_cap_table_vaddr) =>
            for_up 0 nframes (fun i => set_chance_ok (u32 (frame_id + i)) PINNED) ;;;
            store h_dirs top_level (PageDirectory directory_vaddr kernel_cap_table_vaddr) ;;;
            ret top_level
        end
    end.

Definition free_frame_of (sos_vaddr : Z) : M S unit :=
  f <- gets ft ;; frame_free (frame_table_sos_vaddr_to_index f sos_vaddr).

Definition page_destroy (page_cap : Z) : M S Z :=
  if IS_EVICTED page_cap then pagefile_free_add (Z.ldiff page_cap EVICTED_BIT) ;;; ret 0
  else
    e <- kcall (seL4_ARM_Page_Unmap page_cap) ;;
    if negb (e =? 0) then ret 1
    else
      paddr <- kcall (seL4_ARM_Page_GetAddress page_cap) ;;
      e <- kcall (cspace_delete_cap page_cap) ;;
      if negb (e =? CSPACE_NOERROR) then ret 1
      else free_frame_of (frame_table_paddr_to_sos_vaddr paddr) ;;; ret 0.

Definition page_table_destroy (table : Z) : M S Z :=
  r <- for_find 0 TABLE_WORDS (fun i =>
    page <- read_word (table + 4 * i) ;;
    if page =? 0 then ret None
    else e <- page_destroy page ;; ret (if negb (e =? 0) then Some 1 else None)) ;;
  match r with
  | Some e => ret e
  | None => free_frame_of table ;;; ret 0
  end.

Definition page_directory_destroy (dir : Z) : M S Z :=
  if dir =? 0 then ret 1
  else
    d <- load h_dirs dir ;;
    if kernel_page_table_caps d =? 0 then ret 1
    else if directory d =? 0 then ret 1
    else
      r <- for_find 0 TABLE_WORDS (fun second_level =>
        table <- read_word (directory d + 4 * second_level) ;;
        if table =? 0 then ret None
        else e <- page_table_destroy table ;; ret (if negb (e =? 0) then Some 1 else None)) ;;
      match r with
      | Some e => ret e
      | None =>
          free_frame_of (directory d) ;;;
          let nframes := BIT (seL4_PageDirBits - seL4_PageBits) in
          r <- for_find 0 (PAGE_SIZE_4K * nframes / 4) (fun i =>
            c <- read_word (kernel_page_table_caps d + 4 * i) ;;
            if c =? 0 then ret None
            else e <- kcall (seL4_ARM_PageTable_Unmap c) ;; ret (if negb (e =? 0) then Some 1 else None)) ;;
          match r with
          | Some e => ret e
          | None =>
              f <- gets ft ;;
              for_up (frame_table_sos_vaddr_to_index f (kernel_page_table_caps d)) nframes (fun id => frame_free id) ;;;
              free h_dirs dir ;;;
              ret 0
          end
      end.

(** The second-level table of the page, made if there is none: [false] when no
    frame could be had. *)
Definition make_second_level (d : page_directory) (page_id : Z) : M S bool :=
  second_level <- read_word (directory d + 4 * DIRECTORY_INDEX page_id) ;;
  if second_level =? 0 then
    r <- frame_alloc ;;
    match r with
    | None => ret false
    | Some (frame_id, page_table_vaddr) =>
        set_chance_ok frame_id PINNED ;;;
        write_word (directory d + 4 * DIRECTORY_INDEX page_id) page_table_vaddr ;;;
        ret true
    end
  else ret true.

Definition page_directory_insert (dir page_id cap_ kernel_cap : Z) : M S Z :=
  with_directory dir page_id 1 (fun d =>
    ok <- make_second_level d page_id ;;
    if negb ok then ret 1
    else
      second_level <- read_word (directory d + 4 * DIRECTORY_INDEX page_id) ;;
      if IS_EVICTED cap_ then ret 1
      else
        write_word (second_level + 4 * TABLE_INDEX page_id) cap_ ;;;
        (if kernel_cap =? 0 then ret tt
         else
           let index := CAP_INDEX page_id in
           c <- read_word (kernel_page_table_caps d + 4 * index) ;;
           c_assert (c =? 0) ;;;
           write_word (kernel_page_table_caps d + 4 * index) kernel_cap) ;;;
        ret 0).

(** *** addrspace.c *)

Definition as_create : M S Z :=
  as_ <- malloc h_spaces (Addrspace 0 0 0 0 0 0) ;;
  if as_ =? 0 then ret 0
  else
    addr <- on_ut (ut_alloc seL4_PageDirBits) ;;
    update h_spaces as_ (set_vspace_addr addr) ;;;
    if addr =? 0 then free h_spaces as_ ;;; ret 0
    else
      r <- kcall (cspace_ut_retype_addr addr seL4_ARM_PageDirectoryObject seL4_PageDirBits) ;;
      let '(err, vs) := r in
      update h_spaces as_ (set_vspace vs) ;;;
      if negb (err =? 0) then on_ut (ut_free addr seL4_PageDirBits) ;;; free h_spaces as_ ;;; ret 0
      else
        d <- page_directory_create ;;
        update h_spaces as_ (set_as_directory d) ;;;
        if d =? 0 then
          kcall (cspace_delete_cap vs) ;;;
          on_ut (ut_free addr seL4_PageBits) ;;;
          free h_spaces as_ ;;;
          ret 0
        else ret as_.

(** The loop over the regions reads the link of a region after freeing it;
    [stale r] is what the freed region [r] holds then, or nothing when the
    access traps. *)
Fixpoint destroy_regions (stale : region -> option region) (fuel : nat) (curr : Z) : M S Z :=
  match fuel with
  | O => fail FFuel
  | Datatypes.S n =>
      if curr =? 0 then ret 0
      else
        r <- load h_regions curr ;;
        e <- as_destroy_region curr ;;
        if negb (e =? 0) then ret 1
        else
          match stale r with
          | None => fail FBounds
          | Some r => destroy_regions stale n (next_region r)
          end
  end.

Definition as_destroy (stale : region -> option region) (as_ : Z) : M S Z :=
  a <- load h_spaces as_ ;;
  e <- page_directory_destroy (as_directory a) ;;
  if negb (e =? 0) then ret 1
  else
    update h_spaces as_ (set_as_directory 0) ;;;
    e <- kcall (cspace_delete_cap (vspace a)) ;;
    if e =? CSPACE_ERROR then ret 1
    else
      update h_spaces as_ (set_vspace 0) ;;;
      on_ut (ut_free (vspace_addr a) seL4_PageDirBits) ;;;
      update h_spaces as_ (set_vspace_addr 0) ;;;
      fuel <- region_fuel ;;
      e <- destroy_regions stale fuel (region_list a) ;;
      if negb (e =? 0) then ret 1
      else
        update h_spaces as_ (set_region_list 0) ;;;
        free h_spaces as_ ;;;
        ret 0.

(** *** mapping.c *)

(** [None] is the failure of the function; else the address in SOS of the
    frame, stored through [kvaddr]. *)
Definition sos_map_page (curproc page_id_ permissions_ : Z) : M S (option Z) :=
  c_assert (IS_ALIGNED_4K page_id_) ;;;
  r <- frame_alloc ;;
  match r with
  | None => ret None
  | Some (frame_id, kvaddr) =>
      frame_cap <- on_ft (frame_table_get_capability frame_id) ;;
      c_assert (negb (frame_cap =? 0)) ;;;
      new_frame_cap <- kcall (cspace_copy_cap frame_cap seL4_AllRights) ;;
      if new_frame_cap =? 0 then frame_free frame_id ;;; ret None
      else
        p <- load h_procs curproc ;;
        a <- load h_spaces (p_addrspace p) ;;
        r <- map_page new_frame_cap (vspace a) page_id_ permissions_ seL4_ARM_Default_VMAttributes ;;
        let '(err, pt_cap) := r in
        if negb (err =? 0) then
          kcall (cspace_delete_cap new_frame_cap) ;;; frame_free frame_id ;;; ret None
        else
          e <- page_directory_insert (as_directory a) page_id_ new_frame_cap pt_cap ;;
          if negb (e =? 0) then
            kcall (seL4_ARM_Page_Unmap new_frame_cap) ;;;
            kcall (cspace_delete_cap new_frame_cap) ;;;
            frame_free frame_id ;;;
            ret None
          else
            r <- on_ft (frame_table_set_page_id frame_id (pid p) page_id_) ;;
            c_assert (r =? 0) ;;;
            set_chance_ok frame_id FIRST_CHANCE ;;;
            ret (Some kvaddr)
  end.

(** [virt] is the static variable of the function: its value before and, in
    the result, after the call. *)
Fixpoint map_device_pages (n : nat) (phys virt : Z) : M S Z :=
  match n with
  | O => ret virt
  | Datatypes.S n' =>
      r <- kcall (cspace_ut_retype_addr phys seL4_ARM_SmallPageObject seL4_PageBits) ;;
      let '(err, frame_cap) := r in
      c_assert (err =? 0) ;;;
      r <- map_page frame_cap seL4_CapInitThreadPD virt seL4_AllRights 0 ;;
      let '(err, _) := r in
      c_assert (err =? 0) ;;;
      map_device_pages n' (u32 (phys + BIT seL4_PageBits)) (u32 (virt + BIT seL4_PageBits))
  end.

(** The loop runs while [virt - vstart < size]: once for each begun page. *)
Definition map_device (virt paddr size_ : Z) : M S (Z * Z) :=
  virt' <- map_device_pages (Z.to_nat (BYTES_TO_4K_PAGES size_)) paddr virt ;;
  ret (virt, virt').

(** *** vm.c *)

(** The part of [vm_map] that tries to grow the stack down to the address:
    [false] when the function fails. *)
Definition extend_stack (as_ vaddr : Z) : M S bool :=
  a <- load h_spaces as_ ;;
  st <- load h_regions (region_stack a) ;;
  c <- as_region_collision_check as_ (region_stack a) (PAGE_ALIGN_4K vaddr) (end_ st) ;;
  if c =? 0 then
    if end_ st <=? PAGE_ALIGN_4K vaddr then ret true
    else if RLIMIT_STACK_SZ <? u32 (end_ st - PAGE_ALIGN_4K vaddr) then ret false
    else update h_regions (region_stack a) (set_start (PAGE_ALIGN_4K vaddr)) ;;; ret true
  else ret true.

(** The region of the address, if it allows the access. *)
Definition permitted_region (as_ vaddr access_type : Z) : M S (option region) :=
  r <- as_find_region as_ vaddr ;;
  match r with
  | None => ret None
  | Some q => reg <- load h_regions q ;; ret (if as_region_permission_check reg access_type then Some reg else None)
  end.

Definition vm_map (curproc vaddr access_type : Z) : M S (option Z) :=
  p <- load h_procs curproc ;;
  let as_ := p_addrspace p in
  r <- as_find_region as_ vaddr ;;
  ok <- (match r with None => extend_stack as_ vaddr | Some _ => ret true end) ;;
  if negb ok then ret None
  else
    reg <- permitted_region as_ vaddr access_type ;;
    match reg with
    | None => ret None
    | Some reg => sos_map_page curproc (PAGE_ALIGN_4K vaddr) (permissions reg)
    end.

(** *** pager.c *)

(** [page_in] between the gate and the epilogue. *)
Definition page_in_body (curproc page_id_ access_type : Z) : M S Z :=
  dir <- proc_directory curproc ;;
  e <- page_directory_lookup dir (PAGE_ALIGN_4K page_id_) ;;
  match e with
  | None => ret 1
  | Some pagefile_id =>
      c_assert (IS_EVICTED pagefile_id) ;;;
      let pagefile_id := Z.ldiff pagefile_id EVICTED_BIT in
      cur <- coro_getcur ;;
      on_pgr (set_global_page_lock false) ;;;
      on_pgr (set_lock_free_coro cur) ;;;
      r <- vm_map curproc page_id_ access_type ;;
      on_pgr (set_global_page_lock true) ;;;
      on_pgr (set_lock_free_coro 0) ;;;
      match r with
      | None => ret 1
      | Some sos_vaddr =>
          s <- get ;;
          n <- sos_nfs_read (pagefile_handle (pgr s)) (Uiovec sos_vaddr PAGE_SIZE_4K (u32 (pagefile_id * PAGE_SIZE_4K))) ;;
          if n =? -1 then ret 1
          else
            pagefile_free_add pagefile_id ;;;
            f <- gets ft ;;
            c <- on_ft (frame_table_get_capability (frame_table_sos_vaddr_to_index f sos_vaddr)) ;;
            kcall (seL4_ARM_Page_Unify_Instruction c 0 PAGE_SIZE_4K) ;;;
            ret 0
      end
  end.

Definition page_in (curproc page_id_ access_type : Z) : M S Z :=
  g <- page_gate_open ;;
  if negb (g =? 0) then ret 1
  else
    result <- page_in_body curproc page_id_ access_type ;;
    page_gate_close ;;;
    ret result.

(** *** vm.c *)

Definition vm_translate (curproc vaddr access_type : Z) : M S (option Z) :=
  let offset := Z.land vaddr PAGE_MASK_4K in
  let page_id_ := PAGE_ALIGN_4K vaddr in
  ev <- page_table_is_evicted curproc page_id_ ;;
  r <- (if (ev : bool) then page_in curproc page_id_ access_type else ret 0) ;;
  if negb (r =? 0) then ret None
  else
    dir <- proc_directory curproc ;;
    e <- page_directory_lookup dir page_id_ ;;
    match e with
    | None => ret None
    | Some page_cap =>
        paddr <- kcall (seL4_ARM_Page_GetAddress page_cap) ;;
        ret (Some (frame_table_paddr_to_sos_vaddr (u32 (paddr + offset))))
    end.

(** The null address is the failure of the function. *)
Definition vaddr_to_sos_vaddr (curproc vaddr access_type : Z) : M S Z :=
  let offset := Z.land vaddr PAGE_MASK_4K in
  let page_id_ := PAGE_ALIGN_4K vaddr in
  t <- vm_translate curproc vaddr access_type ;;
  sos_vaddr <-
    (match t with
     | None =>
         m <- vm_map curproc page_id_ access_type ;;
         match m with
         | None => ret None
         | Some _ =>
             t <- vm_translate curproc vaddr access_type ;;
             match t with Some v => ret (Some v) | None => fail FAssert end
         end
     | Some v =>
         p <- load h_procs curproc ;;
         reg <- permitted_region (p_addrspace p) vaddr access_type ;;
         ret (match reg with Some _ => Some v | None => None end)
     end) ;;
  match sos_vaddr with
  | None => ret 0
  | Some v =>
      f <- gets ft ;;
      frame_cap <- on_ft (frame_table_get_capability (frame_table_sos_vaddr_to_index f v)) ;;
      paddr <- kcall (seL4_ARM_Page_GetAddress frame_cap) ;;
      ret (frame_table_paddr_to_sos_vaddr (u32 (paddr + offset)))
  end.

(** The bytes up to the end of the page, or those that remain. *)
Definition bytes_this_round (vaddr remaining : Z) : Z := MIN (u32 (PAGE_ALIGN_4K vaddr + PAGE_SIZE_4K - vaddr)) remaining.

(** Every round but the first starts at the beginning of a page. *)
Definition copy_fuel (nbytes : Z) : nat := (3 + Z.to_nat (nbytes / PAGE_SIZE_4K))%nat.

(** The loop variables: the bytes copied, the source, the bytes that remain. *)
Definition copy_in_round (curproc : Z) (v : list Z * Z * Z) : M S (list Z * Z * Z + option (list Z)) :=
  let '(dst, vaddr_src, bytes_remaining) := v in
  if bytes_remaining <=? 0 then ret (inr (Some dst))
  else
    let n := bytes_this_round vaddr_src bytes_remaining in
    sos_vaddr <- vaddr_to_sos_vaddr curproc vaddr_src ACCESS_READ ;;
    if sos_vaddr =? 0 then ret (inr None)
    else
      bs <- gets (fun s => peeks (mem s) sos_vaddr n) ;;
      ret (inl (dst ++ bs, u32 (vaddr_src + n), u32 (bytes_remaining - n))).

(** [None] is the failure of the function; else the bytes of the buffer. *)
Definition copy_in (curproc vaddr_src nbytes : Z) : M S (option (list Z)) :=
  while_fuel (copy_fuel nbytes) (copy_in_round curproc) ([], vaddr_src, nbytes).

Definition copy_out_round (curproc : Z) (v : list Z * Z) : M S (list Z * Z + Z) :=
  let '(src, dst) := v in
  let bytes_remaining := Z.of_nat (length src) in
  if bytes_remaining <=? 0 then ret (inr 0)
  else
    let n := bytes_this_round dst bytes_remaining in
    sos_vaddr <- vaddr_to_sos_vaddr curproc dst ACCESS_WRITE ;;
    if sos_vaddr =? 0 then ret (inr 1)
    else
      modify (fun s => set_mem (pokes sos_vaddr (take (Z.to_nat n) src) (mem s)) s) ;;;
      ret (inl (drop (Z.to_nat n) src, u32 (dst + n))).

Definition copy_out (curproc dst : Z) (src : list Z) : M S Z :=
  while_fuel (copy_fuel (Z.of_nat (length src))) (copy_out_round curproc) (src, dst).
End vm.
