(* ===== verification/Serial.v ===== *)
(** * Serial: devices and the console

    Models apps/sos/src/vfs/device.c (the list of devices) and
    apps/sos/src/dev/sos_serial.c (the console: one reader at a time, input
    delivered to the waiting reader or buffered in the ring buffer). *)

From S2P Require Import Prelude Arith RingBuf Memory SosState UtInterface Nfs.

Definition ST_SPECIAL : Z := 2.
Definition FM_WRITE : Z := 2.
Definition FM_READ : Z := 4.

(** "console" and the newline character. *)
Definition console_name : list Z := [99; 111; 110; 115; 111; 108; 101].
Definition newline : Z := 10.

Definition set_st_atime x (st : sos_stat_t) := SosStat (st_type st) (st_fmode st) (st_size st) (st_ctime st) x.

Section serial.
Context {U K : Type} `{!Kernel K} `{!UtAlloc U} `{!Threads K} `{!Nfs K} `{!World (sos U K)}.
Local Abbreviation S := (sos U K).

(** *** device.c *)

(** [devices] is the linked list of names and nodes, last registered first. *)
Definition device_register (name : list Z) (vn_ : Z) : M S Z :=
  ok <- kcall malloc_ok ;;
  if negb ok then ret 1
  else on_fs (fun f => set_devices ((name, vn_) :: devices f) f) ;;; ret 0.

Fixpoint find_device (name : list Z) (l : list (list Z * Z)) : option Z :=
  match l with
  | [] => None
  | (n, v) :: l => if bool_decide (name = n) then Some v else find_device name l
  end.

Definition device_lookup (name : list Z) (create_file : bool) : M S (option Z) :=
  f <- gets fs ;; ret (find_device name (devices f)).

(** The array of names and the new value of [*nfiles].  Every entry is the name
    of the first device. *)
Definition device_list (nfiles : Z) : M S (option (list (list Z) * Z)) :=
  f <- gets fs ;;
  ok <- kcall malloc_ok ;;
  if negb ok then ret None
  else
    let n := length (devices f) in
    ret (Some (match devices f with [] => [] | (name, _) :: _ => replicate n name end, u32 (nfiles + Z.of_nat n))).

(** *** sos_serial.c *)

Definition on_input {A} (m : M ring_buffer_t A) : M S A :=
  f <- gets fs ;;
  match input_buffer f with
  | None => fail FNull
  | Some rb =>
      let! (a, rb') := run_on m rb in
      on_fs (set_input_buffer (Some rb')) ;;; ret a
  end.

(** The interrupt handler for a received character. *)
Definition handler (c : Z) : M S unit :=
  f <- gets fs ;;
  match global_uio f with
  | Some u =>
      modify (fun s => set_mem (poke (uiov_base u + nbytes_read f) c (mem s)) s) ;;;
      on_fs (set_nbytes_read (nbytes_read f + 1)) ;;;
      if (c =? newline) || (uiov_len u <=? nbytes_read f + 1) then resume (serial_routine f) 0 ;;; ret tt
      else ret tt
  | None =>
      full <- on_input ring_buffer_is_full ;;
      if negb full then on_input (ring_buffer_queue c) else ret tt
  end.

(** [port] is the result of [serial_init]. *)
Definition sos_serial_init (port : Z) : M S Z :=
  if port =? 0 then ret 1
  else
    node <- vnode_create port serial_vnode_ops 0 0 ;;
    if node =? 0 then ret 1
    else
      r <- device_register console_name node ;;
      if negb (r =? 0) then free h_vnodes node ;;; ret 1
      else
        ok <- kcall malloc_ok ;;
        if negb ok then on_fs (set_input_buffer None) ;;; free h_vnodes node ;;; ret 1
        else
          on_fs (set_input_buffer (Some (RingBuffer (replicate (Z.to_nat RING_BUFFER_SIZE) 0) 0 0))) ;;;
          on_input ring_buffer_init ;;;
          ok <- kcall malloc_ok ;;
          if negb ok then on_fs (set_serial_stat None) ;;; ret 1
          else on_fs (set_serial_stat (Some (SosStat ST_SPECIAL (Z.lor FM_READ FM_WRITE) 0 0 0))) ;;; ret 0.

Definition sos_serial_open (vnode_ mode_ : Z) : M S Z :=
  v <- load h_vnodes vnode_ ;;
  if ((mode_ =? O_RDONLY) || (mode_ =? O_RDWR)) && (0 <? readcount v) then ret 1
  else
    (if (mode_ =? O_RDONLY) || (mode_ =? O_RDWR) then
       update h_vnodes vnode_ (fun v => set_readcount (u32 (readcount v + 1)) v)
     else ret tt) ;;;
    if mode_ =? O_RDONLY then ret 0
    else
      update h_vnodes vnode_ (fun v => set_writecount (u32 (writecount v + 1)) v) ;;;
      now <- kcall time_stamp ;;
      f <- gets fs ;;
      match serial_stat f with
      | None => fail FNull
      | Some st => on_fs (set_serial_stat (Some (set_st_atime (i32 (U_TO_MS now)) st))) ;;; ret 0
      end.

Definition sos_serial_write (iov : uiovec) : M S Z :=
  s <- get ;; kcall (serial_send (peeks (mem s) (uiov_base iov) (uiov_len iov))).

(** The loop that empties the buffer: [Some k] when byte [k - 1] is a newline. *)
Fixpoint drain_input (n : nat) (i user_buf : Z) : M S (option Z) :=
  match n with
  | O => ret None
  | Datatypes.S n' =>
      r <- on_input ring_buffer_dequeue ;;
      match r with
      | (1, Some c) =>
          modify (fun s => set_mem (poke (user_buf + i) c (mem s)) s) ;;;
          if c =? newline then ret (Some (i + 1)) else drain_input n' (i + 1) user_buf
      | _ => fail FAssert
      end
  end.

Definition sos_serial_read (iov : uiovec) : M S Z :=
  f <- gets fs ;;
  match global_uio f with
  | Some _ => ret (-1)
  | None =>
      n <- on_input ring_buffer_num_items ;;
      let bytes_read := MIN n (uiov_len iov) in
      r <- drain_input (Z.to_nat bytes_read) 0 (uiov_base iov) ;;
      match r with
      | Some k => ret k
      | None =>
          if bytes_read =? uiov_len iov then ret bytes_read
          else
            on_fs (set_nbytes_read bytes_read) ;;;
            on_fs (set_global_uio (Some iov)) ;;;
            cur <- coro_getcur ;;
            on_fs (set_serial_routine cur) ;;;
            yield 0 ;;;
            on_fs (set_global_uio None) ;;;
            f <- gets fs ;;
            on_fs (set_nbytes_read 0) ;;;
            ret (nbytes_read f)
      end
  end.

Definition sos_serial_close (node mode_ : Z) : M S Z :=
  if mode_ =? O_RDONLY then
    update h_vnodes node (fun v => set_readcount (u32 (readcount v - 1)) v) ;;; ret 0
  else if mode_ =? O_RDWR then
    update h_vnodes node (fun v => set_readcount (u32 (readcount v - 1)) v) ;;;
    update h_vnodes node (fun v => set_writecount (u32 (writecount v - 1)) v) ;;; ret 0
  else if mode_ =? O_WRONLY then
    update h_vnodes node (fun v => set_writecount (u32 (writecount v - 1)) v) ;;; ret 0
  else ret 1.

Definition sos_serial_stat : M S (option stat_ptr) := ret (Some StatConsole).
End serial.
