(* ===== verification/Vfs.v ===== *)
(** * Vfs: the virtual file system and the files of processes

    Models apps/sos/src/vfs/vfs.c (mounts, lookup, dispatch to the operations
    of a node) and apps/sos/src/vfs/file.c (open files and descriptor tables).
    An operation a node does not have is a null function pointer. *)

From S2P Require Import Prelude Arith Memory SosState UtInterface Nfs Serial.

Definition set_file_vn x (f : file) := File (fp f) x (mode f).
Definition set_file_fp x (f : file) := File x (vn f) (mode f).

Section vfs.
Context {U K : Type} `{!Kernel K} `{!UtAlloc U} `{!Threads K} `{!Nfs K} `{!World (sos U K)}.
Local Abbreviation S := (sos U K).

(** *** The operations of a node *)

Definition vop_lookup (ops : vnode_ops) (name : list Z) (create_file : bool) : M S (option Z) :=
  match ops with
  | device_vnode_ops => device_lookup name create_file
  | nfs_dir_ops => sos_nfs_lookup name create_file
  | serial_vnode_ops | nfs_vnode_ops => fail FNull
  end.

(** [nfiles] is the value of the counter before; the network file system resets
    it. *)
Definition vop_list (fuel : nat) (ops : vnode_ops) (nfiles : Z) : M S (option (list (list Z) * Z)) :=
  match ops with
  | device_vnode_ops => device_list nfiles
  | nfs_dir_ops =>
      l <- sos_nfs_list fuel ;;
      ret (option_map (fun l => (l, Z.of_nat (length l))) l)
  | serial_vnode_ops | nfs_vnode_ops => fail FNull
  end.

Definition vop_open (vn_ mode_ : Z) : M S Z :=
  v <- load h_vnodes vn_ ;;
  match vn_ops v with
  | serial_vnode_ops => sos_serial_open vn_ mode_
  | nfs_vnode_ops => sos_nfs_open vn_ mode_
  | device_vnode_ops | nfs_dir_ops => fail FNull
  end.

Definition vop_close (vn_ mode_ : Z) : M S Z :=
  v <- load h_vnodes vn_ ;;
  match vn_ops v with
  | serial_vnode_ops => sos_serial_close vn_ mode_
  | nfs_vnode_ops => sos_nfs_close vn_ mode_
  | device_vnode_ops | nfs_dir_ops => fail FNull
  end.

Definition vop_read (vn_ : Z) (iov : uiovec) : M S Z :=
  v <- load h_vnodes vn_ ;;
  match vn_ops v with
  | serial_vnode_ops => sos_serial_read iov
  | nfs_vnode_ops => sos_nfs_read (vn_data v) iov
  | device_vnode_ops | nfs_dir_ops => fail FNull
  end.

Definition vop_write (vn_ : Z) (iov : uiovec) : M S Z :=
  v <- load h_vnodes vn_ ;;
  match vn_ops v with
  | serial_vnode_ops => sos_serial_write iov
  | nfs_vnode_ops => sos_nfs_write (vn_data v) iov
  | device_vnode_ops | nfs_dir_ops => fail FNull
  end.

Definition vop_stat (vn_ : Z) : M S (option stat_ptr) :=
  v <- load h_vnodes vn_ ;;
  match vn_ops v with
  | serial_vnode_ops => sos_serial_stat
  | nfs_vnode_ops => sos_nfs_stat (vn_data v)
  | device_vnode_ops | nfs_dir_ops => fail FNull
  end.

(** *** vfs.c *)

Definition vfs_init : M S Z :=
  device_mount <- malloc h_vnodes (Vnode 0 device_vnode_ops 0 0) ;;
  if device_mount =? 0 then ret 1
  else r <- vfs_mount device_mount ;; ret (if negb (r =? 0) then 1 else 0).

Fixpoint lookup_mounts (l : list Z) (name : list Z) (create_file : bool) : M S (option Z) :=
  match l with
  | [] => ret None
  | node :: l =>
      v <- load h_vnodes node ;;
      r <- vop_lookup (vn_ops v) name create_file ;;
      match r with
      | Some x => ret (Some x)
      | None => lookup_mounts l name create_file
      end
  end.

Definition vfs_lookup (name : list Z) (create_file : bool) : M S (option Z) :=
  f <- gets fs ;; lookup_mounts (mount_points f) name create_file.

(** [None] is the failure of the function. *)
Definition vfs_open (name : list Z) (mode_ : Z) : M S (option Z) :=
  if negb (mode_ =? O_RDONLY) && negb (mode_ =? O_WRONLY) && negb (mode_ =? O_RDWR) then ret None
  else
    let create_file := (mode_ =? O_WRONLY) || (mode_ =? O_RDWR) in
    r <- vfs_lookup name create_file ;;
    match r with
    | None => ret None
    | Some vn_ =>
        e <- vop_open vn_ mode_ ;;
        ret (if negb (e =? 0) then None else Some vn_)
    end.

Definition vfs_close (vn_ mode_ : Z) : M S unit := vop_close vn_ mode_ ;;; ret tt.

Definition vfs_stat (name : list Z) : M S (option stat_ptr) :=
  r <- vfs_lookup name false ;;
  match r with
  | None => ret None
  | Some vn_ => vop_stat vn_
  end.

(** The entries of one namespace are copied behind those so far; an entry
    beyond the array has no defined value. *)
Fixpoint list_mounts (fuel : nat) (l : list Z) (master_list : list (list Z)) (num_files : Z) : M S (option (list (list Z))) :=
  match l with
  | [] => ret (Some master_list)
  | node :: l =>
      v <- load h_vnodes node ;;
      r <- vop_list fuel (vn_ops v) num_files ;;
      match r with
      | None => ret None
      | Some (names, num_files) =>
          ok <- kcall malloc_ok ;;
          if negb ok && (0 <? num_files) then fail FNull
          else if Z.of_nat (length names) <? num_files then fail FBounds
          else list_mounts fuel l (master_list ++ take (Z.to_nat num_files) names) num_files
      end
  end.

Definition vfs_list (fuel : nat) : M S (option (list (list Z))) :=
  ok <- kcall malloc_ok ;;
  if negb ok then ret None
  else f <- gets fs ;; list_mounts fuel (mount_points f) [] 0.

(** *** file.c *)

Definition file_open (filename : list Z) (mode_ : Z) : M S (option Z) :=
  r <- vfs_open filename mode_ ;;
  match r with
  | None => ret None
  | Some node =>
      f <- malloc h_files (File 0 node mode_) ;;
      ret (if f =? 0 then None else Some f)
  end.

Definition file_close (f : Z) : M S unit :=
  x <- load h_files f ;;
  vfs_close (vn x) (mode x) ;;;
  update h_files f (set_file_vn 0) ;;;
  free h_files f.

Definition fdtable_create : M S Z := malloc h_fdtables (replicate (Z.to_nat PROCESS_MAX_FILES) 0).

(** [None] is the failure of the function. *)
Definition fdtable_get (fdt fd : Z) : M S (option Z) :=
  if negb (ISINRANGE 0 fd PROCESS_MAX_FILES) then ret None
  else
    t <- load h_fdtables fdt ;;
    f <- rd t fd ;;
    ret (if f =? 0 then None else Some f).

Definition fdtable_insert (fdt fd open_file : Z) : M S unit :=
  c_assert ((0 <=? fd) && negb (open_file =? 0)) ;;;
  t <- load h_fdtables fdt ;;
  f <- rd t fd ;;
  c_assert (f =? 0) ;;;
  store h_fdtables fdt (insertZ fd open_file t).

Definition fdtable_next_unused_index (table : list Z) : M S Z :=
  r <- for_find 0 PROCESS_MAX_FILES (fun i => f <- rd table i ;; ret (if f =? 0 then Some i else None)) ;;
  ret (match r with Some i => i | None => -1 end).

Definition fdtable_get_unused_fd (fdt : Z) : M S (option Z) :=
  t <- load h_fdtables fdt ;;
  fd <- fdtable_next_unused_index t ;;
  ret (if fd =? -1 then None else Some fd).

Definition fdtable_close_fd (fdt fd : Z) : M S (option Z) :=
  if negb (ISINRANGE 0 fd PROCESS_MAX_FILES) then ret None
  else
    t <- load h_fdtables fdt ;;
    f <- rd t fd ;;
    if f =? 0 then ret None
    else store h_fdtables fdt (insertZ fd 0 t) ;;; ret (Some f).

Definition fdtable_destroy (table : Z) : M S Z :=
  for_up 0 PROCESS_MAX_FILES (fun fd =>
    r <- fdtable_close_fd table fd ;;
    match r with Some f => file_close f | None => ret tt end) ;;;
  free h_fdtables table ;;;
  ret 0.
End vfs.
