(* ===== verification/ElfFile.v ===== *)
(** * ElfFile: the ELF library

    Models the accessors of libs/libelf (elf.c, elf32.c, elf64.c and the
    headers): a file is memory at the address [f]; the fields of its headers
    are little-endian integers at the offsets of the structs. *)

From S2P Require Import Prelude Arith Memory.

Definition PF_X : Z := 1.
Definition PF_W : Z := 2.
Definition PF_R : Z := 4.
Definition EI_CLASS : Z := 4.
Definition ELFCLASS32 : Z := 1.
Definition ELFCLASS64 : Z := 2.
Definition PT_LOAD : Z := 1.

(** [uint16_t], [uint32_t] and [uint64_t] fields. *)
Definition load_half (m : memory) (a : Z) : Z := peek m a + 256 * peek m (a + 1).
Definition load_long (m : memory) (a : Z) : Z := load_word m a + 2 ^ 32 * load_word m (a + 4).

(** The four bytes 0x7f, E, L, F. *)
Definition elf_magic (m : memory) (f : Z) : bool :=
  (peek m f =? 127) && (peek m (f + 1) =? 69) && (peek m (f + 2) =? 76) && (peek m (f + 3) =? 70).

Section elf32.
Context (m : memory) (f : Z).

(** struct Elf32_Header *)
Definition e32_entry : Z := load_word m (f + 24).
Definition e32_phoff : Z := load_word m (f + 28).
Definition e32_shoff : Z := load_word m (f + 32).
Definition e32_phnum : Z := load_half m (f + 44).
Definition e32_shnum : Z := load_half m (f + 48).

Definition elf32_checkFile : Z :=
  if negb (elf_magic m f) then -1
  else if negb (peek m (f + EI_CLASS) =? ELFCLASS32) then -2
  else 0.

Definition elf32_getNumProgramHeaders : Z := e32_phnum.
Definition elf32_getNumSections : Z := e32_shnum.
Definition elf32_getEntryPoint : Z := e32_entry.
Definition elf32_getProgramHeaderTable : Z := u32 (f + e32_phoff).
Definition elf32_getSectionTable : Z := u32 (f + e32_shoff).

(** struct Elf32_Phdr, 32 bytes *)
Definition p32 (ph : Z) : Z := elf32_getProgramHeaderTable + 32 * ph.
Definition elf32_getProgramHeaderType (ph : Z) : Z := load_word m (p32 ph).
Definition elf32_getProgramHeaderOffset (ph : Z) : Z := load_word m (p32 ph + 4).
Definition elf32_getProgramHeaderVaddr (ph : Z) : Z := load_word m (p32 ph + 8).
Definition elf32_getProgramHeaderPaddr (ph : Z) : Z := load_word m (p32 ph + 12).
Definition elf32_getProgramHeaderFileSize (ph : Z) : Z := load_word m (p32 ph + 16).
Definition elf32_getProgramHeaderMemorySize (ph : Z) : Z := load_word m (p32 ph + 20).
Definition elf32_getProgramHeaderFlags (ph : Z) : Z := load_word m (p32 ph + 24).

(** struct Elf32_Shdr, 40 bytes *)
Definition s32 (i : Z) : Z := elf32_getSectionTable + 40 * i.
Definition elf32_getSectionType (i : Z) : Z := load_word m (s32 i + 4).
Definition elf32_getSectionFlags (i : Z) : Z := load_word m (s32 i + 8).
Definition elf32_getSectionAddr (i : Z) : Z := load_word m (s32 i + 12).
Definition elf32_getSection (i : Z) : Z := u32 (f + load_word m (s32 i + 16)).
Definition elf32_getSectionSize (i : Z) : Z := load_word m (s32 i + 20).
End elf32.

Section elf64.
Context (m : memory) (f : Z).

(** struct Elf64_Header *)
Definition e64_entry : Z := load_long m (f + 24).
Definition e64_phoff : Z := load_long m (f + 32).
Definition e64_phnum : Z := load_half m (f + 56).

Definition elf64_checkFile : Z :=
  if negb (elf_magic m f) then -1
  else if negb (peek m (f + EI_CLASS) =? ELFCLASS64) then -2
  else 0.

Definition elf64_getNumProgramHeaders : Z := e64_phnum.
Definition elf64_getEntryPoint : Z := e64_entry.
Definition elf64_getProgramHeaderTable : Z := u32 (f + e64_phoff).

(** struct Elf64_Phdr, 56 bytes *)
Definition p64 (ph : Z) : Z := elf64_getProgramHeaderTable + 56 * ph.
Definition elf64_getProgramHeaderType (ph : Z) : Z := load_word m (p64 ph).
Definition elf64_getProgramHeaderFlags (ph : Z) : Z := load_word m (p64 ph + 4).
Definition elf64_getProgramHeaderOffset (ph : Z) : Z := load_long m (p64 ph + 8).
Definition elf64_getProgramHeaderVaddr (ph : Z) : Z := load_long m (p64 ph + 16).
Definition elf64_getProgramHeaderPaddr (ph : Z) : Z := load_long m (p64 ph + 24).
Definition elf64_getProgramHeaderFileSize (ph : Z) : Z := load_long m (p64 ph + 32).
Definition elf64_getProgramHeaderMemorySize (ph : Z) : Z := load_long m (p64 ph + 40).
End elf64.

Section elf.
Context (m : memory) (f : Z).

Definition ISELF32 : bool := peek m (f + EI_CLASS) =? ELFCLASS32.

Definition elf_checkFile : Z := if ISELF32 then elf32_checkFile m f else elf64_checkFile m f.

Definition elf_getNumProgramHeaders : Z :=
  if ISELF32 then elf32_getNumProgramHeaders m f else elf64_getNumProgramHeaders m f.
Definition elf_getProgramHeaderFlags (ph : Z) : Z :=
  if ISELF32 then elf32_getProgramHeaderFlags m f ph else elf64_getProgramHeaderFlags m f ph.
Definition elf_getProgramHeaderType (ph : Z) : Z :=
  if ISELF32 then elf32_getProgramHeaderType m f ph else elf64_getProgramHeaderType m f ph.
Definition elf_getProgramHeaderPaddr (ph : Z) : Z :=
  if ISELF32 then elf32_getProgramHeaderPaddr m f ph else elf64_getProgramHeaderPaddr m f ph.
Definition elf_getProgramHeaderVaddr (ph : Z) : Z :=
  if ISELF32 then elf32_getProgramHeaderVaddr m f ph else elf64_getProgramHeaderVaddr m f ph.
Definition elf_getProgramHeaderMemorySize (ph : Z) : Z :=
  if ISELF32 then elf32_getProgramHeaderMemorySize m f ph else elf64_getProgramHeaderMemorySize m f ph.
Definition elf_getProgramHeaderFileSize (ph : Z) : Z :=
  if ISELF32 then elf32_getProgramHeaderFileSize m f ph else elf64_getProgramHeaderFileSize m f ph.
Definition elf_getProgramHeaderOffset (ph : Z) : Z :=
  if ISELF32 then elf32_getProgramHeaderOffset m f ph else elf64_getProgramHeaderOffset m f ph.
Definition elf_getEntryPoint : Z :=
  if ISELF32 then elf32_getEntryPoint m f else elf64_getEntryPoint m f.

(** The five values the function stores: virtual and physical address, size in
    the file, offset, size in memory. *)
Definition elf_getProgramHeaderInfo (ph : Z) : Z * Z * Z * Z * Z :=
  (elf_getProgramHeaderVaddr ph, elf_getProgramHeaderPaddr ph, elf_getProgramHeaderFileSize ph,
   elf_getProgramHeaderOffset ph, elf_getProgramHeaderMemorySize ph).

(** One round of the loop of [elf_getMemoryBounds]. *)
Definition bounds_round (phys : bool) (b : Z * Z) (i : Z) : Z * Z :=
  let '(mem_min, mem_max) := b in
  if elf_getProgramHeaderMemorySize i =? 0 then b
  else
    let sect_min := if phys then elf_getProgramHeaderPaddr i else elf_getProgramHeaderVaddr i in
    let sect_max := u64 (sect_min + elf_getProgramHeaderMemorySize i) in
    (if sect_min <? mem_min then sect_min else mem_min, if mem_max <? sect_max then sect_max else mem_max).

Definition headers : list Z := Z.of_nat <$> seq 0 (Z.to_nat elf_getNumProgramHeaders).

(** [None] is the result 0. *)
Definition elf_getMemoryBounds (phys : bool) : option (Z * Z) :=
  if negb (elf_checkFile =? 0) then None
  else Some (fold_left (bounds_round phys) headers (2 ^ 64 - 1, 0)).

Definition elf_vaddrInProgramHeader (ph vaddr : Z) : bool :=
  let min := elf_getProgramHeaderVaddr ph in
  let max := u64 (min + elf_getProgramHeaderMemorySize ph) in
  (min <=? vaddr) && (vaddr <? max).

Definition elf_vtopProgramHeader (ph vaddr : Z) : Z :=
  u64 (vaddr - elf_getProgramHeaderVaddr ph + elf_getProgramHeaderPaddr ph).
End elf.
