(* ===== verification/Elf.v ===== *)
(** * Elf: loading a program

    Models apps/sos/src/proc/elf.c: the header of the file is read into a
    buffer on the stack, at the address [elf_header]; each loadable segment
    becomes a region of the address space and is read page by page into new
    frames. *)

From S2P Require Import Prelude Arith Memory SosState FrameTable UtInterface AddrSpace Nfs Pager Vm ElfFile.

Definition get_sel4_rights_from_elf (permissions_ : Z) : Z :=
  let result := 0 in
  let result := if negb (Z.land permissions_ PF_R =? 0) then Z.lor result seL4_CanRead else result in
  let result := if negb (Z.land permissions_ PF_X =? 0) then Z.lor result seL4_CanRead else result in
  if negb (Z.land permissions_ PF_W =? 0) then Z.lor result seL4_CanWrite else result.

Section elf.
Context {U K : Type} `{!Kernel K} `{!UtAlloc U} `{!Threads K} `{!Nfs K} `{!World (sos U K)}.
Local Abbreviation S := (sos U K).

(** Reads the part of the file that belongs on the page at [dst] into the frame
    at [kdst], which is pinned meanwhile: [false] on failure. *)
Definition read_segment_page (fh offset file_size pos dst kdst nbytes : Z) : M S bool :=
  f <- gets ft ;;
  let frame_id := frame_table_sos_vaddr_to_index f kdst in
  ch <- on_ft (frame_table_get_chance frame_id) ;;
  match ch with
  | None => fail FAssert
  | Some original_chance =>
      set_chance_ok frame_id PINNED ;;;
      let len := MIN nbytes (u32 (file_size - pos)) in
      n <- sos_nfs_read fh (Uiovec (u32 (kdst + Z.land dst PAGE_MASK_4K)) len offset) ;;
      set_chance_ok frame_id original_chance ;;;
      ret (n =? len)
  end.

(** The loop variables: [pos], [dst], [offset]. *)
Definition segment_round (curproc fh segment_size file_size permissions_ : Z) (v : Z * Z * Z) : M S (Z * Z * Z + Z) :=
  let '(pos, dst, offset) := v in
  if segment_size <=? pos then ret (inr 0)
  else
    r <- sos_map_page curproc (PAGE_ALIGN_4K dst) permissions_ ;;
    match r with
    | None => ret (inr 1)
    | Some kdst =>
        let nbytes := PAGE_SIZE_4K - Z.land dst PAGE_MASK_4K in
        ok <- (if pos <? file_size then read_segment_page fh offset file_size pos dst kdst nbytes else ret true) ;;
        if negb ok then ret (inr 1)
        else
          f <- gets ft ;;
          frame_cap <- on_ft (frame_table_get_capability (frame_table_sos_vaddr_to_index f kdst)) ;;
          kcall (seL4_ARM_Page_Unify_Instruction frame_cap 0 PAGE_SIZE_4K) ;;;
          ret (inl (u32 (pos + nbytes), u32 (dst + nbytes), u64 (offset + nbytes)))
    end.

(** One round for each page of the segment. *)
Definition load_segment_into_vspace (curproc fh offset segment_size file_size dst permissions_ : Z) : M S Z :=
  c_assert (file_size <=? segment_size) ;;;
  p <- load h_procs curproc ;;
  e <- as_define_region (p_addrspace p) dst segment_size permissions_ ;;
  if negb (e =? 0) then ret 1
  else
    while_fuel (3 + Z.to_nat (segment_size / PAGE_SIZE_4K))%nat
      (segment_round curproc fh segment_size file_size permissions_) (0, dst, offset).

(** The segments from [i] on; [vaddr] and [segment_size] are those of the last
    one loaded.  [None] is the failure of the function. *)
Fixpoint load_segments (n : nat) (curproc fh elf_header i vaddr segment_size : Z) : M S (option (Z * Z)) :=
  match n with
  | O => ret (Some (vaddr, segment_size))
  | Datatypes.S n' =>
      m <- gets mem ;;
      if negb (elf_getProgramHeaderType m elf_header i =? PT_LOAD) then
        load_segments n' curproc fh elf_header (i + 1) vaddr segment_size
      else
        let offset := elf_getProgramHeaderOffset m elf_header i in
        let file_size := u32 (elf_getProgramHeaderFileSize m elf_header i) in
        let segment_size := u32 (elf_getProgramHeaderMemorySize m elf_header i) in
        let vaddr := u32 (elf_getProgramHeaderVaddr m elf_header i) in
        let flags := elf_getProgramHeaderFlags m elf_header i in
        e <- load_segment_into_vspace curproc fh offset segment_size file_size vaddr (get_sel4_rights_from_elf flags) ;;
        if negb (e =? 0) then ret None
        else load_segments n' curproc fh elf_header (i + 1) vaddr segment_size
  end.

(** The result: the error, the entry point and the end of the last segment. *)
Definition elf_load (curproc : Z) (app_name : list Z) (elf_header : Z) : M S (Z * Z * Z) :=
  r <- sos_nfs_lookup app_name false ;;
  match r with
  | None => ret (1, 0, 0)
  | Some file_ =>
      v <- load h_vnodes file_ ;;
      let fh := vn_data v in
      n <- sos_nfs_read fh (Uiovec elf_header PAGE_SIZE_4K 0) ;;
      if negb (n =? PAGE_SIZE_4K) then free h_vnodes file_ ;;; ret (1, 0, 0)
      else
        m <- gets mem ;;
        if negb (elf_checkFile m elf_header =? 0) then free h_vnodes file_ ;;; ret (seL4_InvalidArgument, 0, 0)
        else
          r <- load_segments (Z.to_nat (elf_getNumProgramHeaders m elf_header)) curproc fh elf_header 0 0 0 ;;
          match r with
          | None => free h_vnodes file_ ;;; ret (1, 0, 0)
          | Some (vaddr, segment_size) =>
              c_assert (negb (vaddr =? 0)) ;;;
              m <- gets mem ;;
              let elf_pc := elf_getEntryPoint m elf_header in
              free h_vnodes file_ ;;;
              ret (0, elf_pc, u32 (vaddr + segment_size))
          end
  end.
End elf.
