(* ===== verification/Proc.v ===== *)
(** * Proc: processes

    Models apps/sos/src/proc/proc.c: the table of processes, the choice of a
    pid, the creation and start of a process, its deletion and the two-stage
    release of its resources ([_proc_delete] makes it a zombie,
    [proc_destroy] removes it), and the moves of children between parents.
    ([get_proc] is in file Pager, which needs it.) *)

From S2P Require Import Prelude Arith ListLib Memory SosState FrameTable UtInterface AddrSpace Nfs Pager Vm Serial Vfs Elf.

(** The capability space of SOS itself. *)
Definition cur_cspace : Z := 0.

Definition STDOUT_FILENO : Z := 1.
Definition STDERR_FILENO : Z := 2.
Definition NEW_EP_BADGE_PRIORITY : Z := 0.
Definition NEW_EP_BADGE : Z := 101.
Definition SET_PROCID_BADGE (b pid_ : Z) : Z := u32 (Z.lor (Z.land b 0x7FFFFFF) (Z.shiftl pid_ 21)).
Definition SOS_name : list Z := [83; 79; 83].

Definition set_tcb_addr x (p : proc) := Proc x (tcb_cap p) (ipc_buffer_cap p) (croot p) (p_addrspace p) (file_table p) (children p) (waiting_on p) (waiting_coro p) (ppid p) (pid p) (proc_name p) (stime p) (p_state p) (blocked_ref p) (kill_flag p) (protected p).
Definition set_tcb_cap x (p : proc) := Proc (tcb_addr p) x (ipc_buffer_cap p) (croot p) (p_addrspace p) (file_table p) (children p) (waiting_on p) (waiting_coro p) (ppid p) (pid p) (proc_name p) (stime p) (p_state p) (blocked_ref p) (kill_flag p) (protected p).
Definition set_ipc_buffer_cap x (p : proc) := Proc (tcb_addr p) (tcb_cap p) x (croot p) (p_addrspace p) (file_table p) (children p) (waiting_on p) (waiting_coro p) (ppid p) (pid p) (proc_name p) (stime p) (p_state p) (blocked_ref p) (kill_flag p) (protected p).
Definition set_croot x (p : proc) := Proc (tcb_addr p) (tcb_cap p) (ipc_buffer_cap p) x (p_addrspace p) (file_table p) (children p) (waiting_on p) (waiting_coro p) (ppid p) (pid p) (proc_name p) (stime p) (p_state p) (blocked_ref p) (kill_flag p) (protected p).
Definition set_p_addrspace x (p : proc) := Proc (tcb_addr p) (tcb_cap p) (ipc_buffer_cap p) (croot p) x (file_table p) (children p) (waiting_on p) (waiting_coro p) (ppid p) (pid p) (proc_name p) (stime p) (p_state p) (blocked_ref p) (kill_flag p) (protected p).
Definition set_file_table x (p : proc) := Proc (tcb_addr p) (tcb_cap p) (ipc_buffer_cap p) (croot p) (p_addrspace p) x (children p) (waiting_on p) (waiting_coro p) (ppid p) (pid p) (proc_name p) (stime p) (p_state p) (blocked_ref p) (kill_flag p) (protected p).
Definition set_children x (p : proc) := Proc (tcb_addr p) (tcb_cap p) (ipc_buffer_cap p) (croot p) (p_addrspace p) (file_table p) x (waiting_on p) (waiting_coro p) (ppid p) (pid p) (proc_name p) (stime p) (p_state p) (blocked_ref p) (kill_flag p) (protected p).
Definition set_waiting_on x (p : proc) := Proc (tcb_addr p) (tcb_cap p) (ipc_buffer_cap p) (croot p) (p_addrspace p) (file_table p) (children p) x (waiting_coro p) (ppid p) (pid p) (proc_name p) (stime p) (p_state p) (blocked_ref p) (kill_flag p) (protected p).
Definition set_waiting_coro x (p : proc) := Proc (tcb_addr p) (tcb_cap p) (ipc_buffer_cap p) (croot p) (p_addrspace p) (file_table p) (children p) (waiting_on p) x (ppid p) (pid p) (proc_name p) (stime p) (p_state p) (blocked_ref p) (kill_flag p) (protected p).
Definition set_ppid x (p : proc) := Proc (tcb_addr p) (tcb_cap p) (ipc_buffer_cap p) (croot p) (p_addrspace p) (file_table p) (children p) (waiting_on p) (waiting_coro p) x (pid p) (proc_name p) (stime p) (p_state p) (blocked_ref p) (kill_flag p) (protected p).
Definition set_pid x (p : proc) := Proc (tcb_addr p) (tcb_cap p) (ipc_buffer_cap p) (croot p) (p_addrspace p) (file_table p) (children p) (waiting_on p) (waiting_coro p) (ppid p) x (proc_name p) (stime p) (p_state p) (blocked_ref p) (kill_flag p) (protected p).
Definition set_proc_name x (p : proc) := Proc (tcb_addr p) (tcb_cap p) (ipc_buffer_cap p) (croot p) (p_addrspace p) (file_table p) (children p) (waiting_on p) (waiting_coro p) (ppid p) (pid p) x (stime p) (p_state p) (blocked_ref p) (kill_flag p) (protected p).
Definition set_stime x (p : proc) := Proc (tcb_addr p) (tcb_cap p) (ipc_buffer_cap p) (croot p) (p_addrspace p) (file_table p) (children p) (waiting_on p) (waiting_coro p) (ppid p) (pid p) (proc_name p) x (p_state p) (blocked_ref p) (kill_flag p) (protected p).
Definition set_p_state x (p : proc) := Proc (tcb_addr p) (tcb_cap p) (ipc_buffer_cap p) (croot p) (p_addrspace p) (file_table p) (children p) (waiting_on p) (waiting_coro p) (ppid p) (pid p) (proc_name p) (stime p) x (blocked_ref p) (kill_flag p) (protected p).
Definition set_blocked_ref x (p : proc) := Proc (tcb_addr p) (tcb_cap p) (ipc_buffer_cap p) (croot p) (p_addrspace p) (file_table p) (children p) (waiting_on p) (waiting_coro p) (ppid p) (pid p) (proc_name p) (stime p) (p_state p) x (kill_flag p) (protected p).
Definition set_kill_flag x (p : proc) := Proc (tcb_addr p) (tcb_cap p) (ipc_buffer_cap p) (croot p) (p_addrspace p) (file_table p) (children p) (waiting_on p) (waiting_coro p) (ppid p) (pid p) (proc_name p) (stime p) (p_state p) (blocked_ref p) x (protected p).
Definition set_protected x (p : proc) := Proc (tcb_addr p) (tcb_cap p) (ipc_buffer_cap p) (croot p) (p_addrspace p) (file_table p) (children p) (waiting_on p) (waiting_coro p) (ppid p) (pid p) (proc_name p) (stime p) (p_state p) (blocked_ref p) (kill_flag p) x.

Section proc.
Context {U K : Type} `{!Kernel K} `{!UtAlloc U} `{!Threads K} `{!Nfs K} `{!World (sos U K)}.
Context (stale : region -> option region).
Local Abbreviation S := (sos U K).

(** [malloc] of a list object and of a list node: its address, or null. *)
Definition malloc_list : M S Z :=
  ok <- kcall malloc_ok ;;
  if (ok : bool) then gets (fun s => new_ptr (lists (lists_ s))) else ret 0.
Definition malloc_node : M S Z :=
  ok <- kcall malloc_ok ;;
  if (ok : bool) then gets (fun s => new_ptr (nodes (lists_ s))) else ret 0.

(** [sos_procs[i] = x] *)
Definition set_sos_proc (i x : Z) : M S unit :=
  s <- get ;; in_bounds (sos_procs s) i ;;; modify (set_sos_procs (insertZ i x (sos_procs s))).

(** [None] is the failure of the function. *)
Definition proc_next_pid : M S (option Z) :=
  start_pid <- gets curr_pid ;;
  s <- get ;;
  p <- rd (sos_procs s) start_pid ;;
  found <- (if p =? 0 then ret true
            else while_fuel (1 + Z.to_nat MAX_PROCS)%nat (fun _ =>
              modify (fun s => set_curr_pid ((curr_pid s + 1) mod MAX_PROCS) s) ;;;
              s <- get ;;
              p <- rd (sos_procs s) (curr_pid s) ;;
              ret (if p =? 0 then inr true
                   else if negb (curr_pid s =? start_pid) then inl tt else inr false)) tt) ;;
  if negb (found : bool) then ret None
  else
    new_pid <- gets curr_pid ;;
    modify (fun s => set_curr_pid ((curr_pid s + 1) mod MAX_PROCS) s) ;;;
    ret (Some new_pid).

(** The fields the function sets last are set at once. *)
Definition proc_create : M S Z :=
  new_proc <- malloc h_procs (Proc 0 0 0 0 0 0 0 (-1) 0 (-1) (-1) None (-1) CREATED 0 false false) ;;
  if new_proc =? 0 then ret 0
  else
    as_ <- as_create ;;
    update h_procs new_proc (set_p_addrspace as_) ;;;
    if as_ =? 0 then ret 0
    else
      ftab <- fdtable_create ;;
      update h_procs new_proc (set_file_table ftab) ;;;
      if ftab =? 0 then ret 0
      else
        l <- malloc_list ;;
        update h_procs new_proc (set_children l) ;;;
        if l =? 0 then ret 0
        else
          on_lists (list_init l) ;;;
          c <- kcall (cspace_create 1) ;;
          update h_procs new_proc (set_croot c) ;;;
          if c =? 0 then ret 0 else ret new_proc.

Definition proc_bootstrap : M S Z :=
  r <- proc_next_pid ;;
  match r with
  | None => ret (-1)
  | Some pid_ =>
      init <- proc_create ;;
      if init =? 0 then ret (-1)
      else
        update h_procs init (fun p =>
          set_protected true (set_p_state RUNNING (set_stime 0 (set_proc_name (Some SOS_name) (set_pid pid_ p))))) ;;;
        set_sos_proc pid_ init ;;;
        ret pid_
  end.

Definition proc_is_child (curproc pid_ : Z) : M S bool :=
  p <- load h_procs curproc ;;
  on_lists (list_exists (children p) pid_ list_cmp_equality).

Definition proc_mark (curproc : Z) (state : proc_states) : M S unit := update h_procs curproc (set_p_state state).

(** The children from the node [curr] on. *)
Fixpoint reparent_nodes (fuel : nat) (new_parent curr : Z) : M S Z :=
  match fuel with
  | O => fail FFuel
  | Datatypes.S fuel' =>
      if curr =? 0 then ret 0
      else
        n <- on_lists (deref curr) ;;
        child <- get_proc (data n) ;;
        if child =? 0 then ret 1
        else
          np <- load h_procs new_parent ;;
          update h_procs child (set_ppid (pid np)) ;;;
          np <- load h_procs new_parent ;;
          a <- malloc_node ;;
          on_lists (list_prepend (children np) (data n) a) ;;;
          n <- on_lists (deref curr) ;;
          reparent_nodes fuel' new_parent (next n)
  end.

Definition proc_reparent_children (cur_parent new_parent : Z) : M S Z :=
  new_parent_proc <- get_proc new_parent ;;
  if new_parent_proc =? 0 then ret 1
  else
    p <- load h_procs cur_parent ;;
    head <- on_lists (get_head (children p)) ;;
    fuel <- on_lists walk_fuel ;;
    e <- reparent_nodes fuel new_parent_proc head ;;
    if negb (e =? 0) then ret 1
    else
      p <- load h_procs cur_parent ;;
      on_lists (list_remove_all (children p)) ;;;
      ret 0.

(** [parent] and [child] are the contents of the two structures. *)
Definition proc_is_waiting (parent child : proc) : bool :=
  ((waiting_on parent =? -1) || (waiting_on parent =? pid child)) && negb (waiting_coro parent =? 0).

(** [if (x && f(x) != 0) return 1; ...] *)
Definition release (x : Z) (f : Z -> M S Z) (rest : M S Z) : M S Z :=
  e <- (if x =? 0 then ret 0 else f x) ;;
  if negb (e =? 0) then ret 1 else rest.

Definition _proc_delete (victim : Z) : M S Z :=
  v <- load h_procs victim ;;
  if protected v then ret 1
  else if decide (p_state v = ZOMBIE) then ret 1
  else
    update h_procs victim (set_p_state ZOMBIE) ;;;
    release (tcb_cap v) (fun c => kcall (seL4_TCB_Suspend c)) (
    release (tcb_cap v) (fun c => kcall (cspace_delete_cap c)) (
    update h_procs victim (set_tcb_cap 0) ;;;
    (if tcb_addr v =? 0 then ret tt else on_ut (ut_free (tcb_addr v) seL4_TCBBits)) ;;;
    update h_procs victim (set_tcb_addr 0) ;;;
    release (ipc_buffer_cap v) (fun c => kcall (seL4_ARM_Page_Unmap c)) (
    release (ipc_buffer_cap v) (fun c => kcall (cspace_delete_cap c)) (
    update h_procs victim (set_ipc_buffer_cap 0) ;;;
    release (croot v) (fun c => kcall (cspace_destroy c)) (
    update h_procs victim (set_croot 0) ;;;
    release (p_addrspace v) (as_destroy stale) (
    update h_procs victim (set_p_addrspace 0) ;;;
    release (file_table v) fdtable_destroy (
    update h_procs victim (set_file_table 0) ;;;
    release (children v) (fun _ => proc_reparent_children victim 0) (
    ret 0)))))))).

Definition proc_delete (victim : Z) : M S Z :=
  e <- _proc_delete victim ;;
  if negb (e =? 0) then ret 1
  else
    v <- load h_procs victim ;;
    parent <- get_proc (ppid v) ;;
    if parent =? 0 then ret 1
    else
      pp <- load h_procs parent ;;
      (if proc_is_waiting pp v then resume (waiting_coro pp) (pid v) else ret 0) ;;;
      ret 0.

Definition proc_destroy (victim : Z) : M S unit :=
  v <- load h_procs victim ;;
  parent <- get_proc (ppid v) ;;
  c_assert (negb (parent =? 0)) ;;;
  pp <- load h_procs parent ;;
  on_lists (list_remove (children pp) (pid v) list_cmp_equality) ;;;
  empty <- on_lists (list_is_empty (children v)) ;;
  c_assert empty ;;;
  on_lists (list_destroy (children v)) ;;;
  update h_procs victim (fun p => set_proc_name None (set_children 0 p)) ;;;
  set_sos_proc (pid v) 0 ;;;
  free h_procs victim.

(** What [proc_start] does on each failure after the process is stored. *)
Definition abandon (new_proc : Z) : M S Z := _proc_delete new_proc ;;; proc_destroy new_proc ;;; ret (-1).

(** Opens the console as the descriptor [fd] of the process. *)
Definition open_std (new_proc fd : Z) : M S bool :=
  r <- file_open console_name O_WRONLY ;;
  match r with
  | None => ret false
  | Some open_file => p <- load h_procs new_proc ;; fdtable_insert (file_table p) fd open_file ;;; ret true
  end.

(** [proc_start] from the TCB on: [elf_header] is the stack buffer of [elf_load]. *)
Definition proc_start_program (new_proc new_pid parent_pid elf_header : Z) (app_name : list Z) : M S Z :=
  ok <- open_std new_proc STDOUT_FILENO ;;
  if negb ok then abandon new_proc else
  ok <- open_std new_proc STDERR_FILENO ;;
  if negb ok then abandon new_proc else
  t <- kcall time_stamp ;;
  update h_procs new_proc (set_stime t) ;;;
  dup <- kcall malloc_ok ;;
  update h_procs new_proc (set_proc_name (if (dup : bool) then Some app_name else None)) ;;;
  parent <- get_proc parent_pid ;;
  c_assert (negb (parent =? 0)) ;;;
  pp <- load h_procs parent ;;
  a <- malloc_node ;;
  e <- on_lists (list_prepend (children pp) new_pid a) ;;
  if negb (e =? 0) then abandon new_proc else
  r <- elf_load new_proc app_name elf_header ;;
  let '(e, elf_pc, last_section) := r in
  if negb (e =? 0) then abandon new_proc else
  p <- load h_procs new_proc ;;
  e <- as_define_stack (p_addrspace p) ;;
  if negb (e =? 0) then abandon new_proc else
  p <- load h_procs new_proc ;;
  e <- as_define_heap (p_addrspace p) (PAGE_ALIGN_4K (u32 (last_section + PAGE_SIZE_4K))) ;;
  if negb (e =? 0) then abandon new_proc else
  p <- load h_procs new_proc ;;
  kcall (seL4_TCB_WriteRegisters (tcb_cap p) (u32 elf_pc) PROCESS_STACK_TOP) ;;;
  update h_procs new_proc (set_p_state RUNNING) ;;;
  ret new_pid.

(** [proc_start] from the IPC buffer on. *)
Definition proc_start_thread (new_proc new_pid fault_ep parent_pid elf_header : Z) (app_name : list Z) : M S Z :=
  paddr <- on_ut (ut_alloc seL4_PageBits) ;;
  if paddr =? 0 then abandon new_proc else
  r <- kcall (cspace_ut_retype_addr paddr seL4_ARM_SmallPageObject seL4_PageBits) ;;
  let '(e, c) := r in
  update h_procs new_proc (set_ipc_buffer_cap c) ;;;
  if negb (e =? 0) then abandon new_proc else
  p <- load h_procs new_proc ;;
  user_ep_cap <- kcall (cspace_mint_cap (croot p) cur_cspace fault_ep seL4_AllRights
                          (SET_PROCID_BADGE NEW_EP_BADGE new_pid)) ;;
  c_assert (user_ep_cap =? 1) ;;;
  addr <- on_ut (ut_alloc seL4_TCBBits) ;;
  update h_procs new_proc (set_tcb_addr addr) ;;;
  if addr =? 0 then abandon new_proc else
  r <- kcall (cspace_ut_retype_addr addr seL4_TCBObject seL4_TCBBits) ;;
  let '(e, c) := r in
  update h_procs new_proc (set_tcb_cap c) ;;;
  if negb (e =? 0) then abandon new_proc else
  p <- load h_procs new_proc ;;
  root <- kcall (cspace_root_cnode (croot p)) ;;
  a <- load h_spaces (p_addrspace p) ;;
  e <- kcall (seL4_TCB_Configure (tcb_cap p) user_ep_cap NEW_EP_BADGE_PRIORITY root (vspace a)
                PROCESS_IPC_BUFFER (ipc_buffer_cap p)) ;;
  if negb (e =? 0) then abandon new_proc else
  r <- map_page (ipc_buffer_cap p) (vspace a) PROCESS_IPC_BUFFER seL4_AllRights seL4_ARM_Default_VMAttributes ;;
  if negb (r.1 =? 0) then abandon new_proc else
  e <- as_define_region (p_addrspace p) PROCESS_IPC_BUFFER PAGE_SIZE_4K (Z.lor seL4_CanRead seL4_CanWrite) ;;
  if negb (e =? 0) then abandon new_proc else
  proc_start_program new_proc new_pid parent_pid elf_header app_name.

Definition proc_start (app_name : list Z) (fault_ep parent_pid elf_header : Z) : M S Z :=
  last_pid <- gets curr_pid ;;
  r <- proc_next_pid ;;
  match r with
  | None => modify (set_curr_pid last_pid) ;;; ret (-1)
  | Some new_pid =>
      new_proc <- proc_create ;;
      if new_proc =? 0 then modify (set_curr_pid last_pid) ;;; ret (-1)
      else
        update h_procs new_proc (fun p => set_ppid parent_pid (set_pid new_pid p)) ;;;
        set_sos_proc new_pid new_proc ;;;
        proc_start_thread new_proc new_pid fault_ep parent_pid elf_header app_name
  end.
End proc.
