(* ===== verification/Syscalls.v ===== *)
(** * Syscalls: the system calls, faults and the event loop

    Models apps/sos/src/syscall/ (sys_file.c, sys_proc.c, sys_time.c and the
    jump table of syscall.c; [syscall_brk] of sys_vm.c is in file AddrSpace),
    [vm_fault] of apps/sos/src/vm/vm.c and apps/sos/src/event.c.  A handler
    reads its arguments from the message registers, leaves its results there
    and returns how many words to reply with, or -1 for no reply. *)

From S2P Require Import Prelude Arith ListLib Memory SosState FrameTable UtInterface PageTable AddrSpace Nfs Pager Vm Serial Vfs Elf Proc.

Definition N_NAME : Z := 32.
Definition seL4_NoFault : Z := 0.
Definition seL4_VMFault : Z := 2.
Definition seL4_BadgeBits : Z := 28.
Definition IRQ_EP_BADGE : Z := BIT (seL4_BadgeBits - 1).
Definition IRQ_BADGE_NETWORK : Z := BIT 0.
Definition IRQ_BADGE_TIMER : Z := BIT 1.
Definition GET_PROCID_BADGE (x : Z) : Z := Z.shiftr x 21.

(** The characters of a C string: those before the terminator. *)
Fixpoint c_string (l : list Z) : list Z :=
  match l with
  | [] => []
  | c :: l => if c =? 0 then [] else c :: c_string l
  end.

(** The name in the buffer [kname], terminated at its last byte. *)
Definition kernel_name (kname : list Z) : list Z := c_string (take (Z.to_nat (NAME_MAX - 1)) kname).

(** The bytes of a [sos_stat_t] and of a [sos_process_t]. *)
Definition stat_bytes (st : sos_stat_t) : list Z :=
  word_bytes (u32 (st_type st)) ++ word_bytes (u32 (st_fmode st)) ++ word_bytes (u32 (st_size st)) ++
  word_bytes (u32 (st_ctime st)) ++ word_bytes (u32 (st_atime st)).
Definition process_bytes (pid_ size_ stime_ : Z) (command : list Z) : list Z :=
  word_bytes (u32 pid_) ++ word_bytes (u32 size_) ++ word_bytes (u32 stime_) ++
  command ++ replicate (Z.to_nat N_NAME - length command) 0.

Section syscalls.
Context {U K : Type} `{!Kernel K} `{!UtAlloc U} `{!Threads K} `{!Nfs K} `{!World (sos U K)}.

(** What a freed region holds, the address of the stack buffer of [elf_load],
    the endpoint [_sos_ipc_ep_cap] and a bound on the replies that make up a
    directory. *)
Context (stale : region -> option region) (elf_header _sos_ipc_ep_cap : Z) (list_fuel : nat).
Local Abbreviation S := (sos U K).

(** [seL4_SetMR(0, result); return 1;] *)
Definition reply_with (result : Z) : M S Z := seL4_SetMR 0 (u32 result) ;;; ret 1.

(** *** sys_file.c *)

(** Copies the name at the user address [name] into the kernel. *)
Definition copy_name (curproc name : Z) : M S (option (list Z)) :=
  r <- copy_in curproc name NAME_MAX ;; ret (option_map kernel_name r).

Definition syscall_open (curproc : Z) : M S Z :=
  name <- seL4_GetMR 1 ;;
  mode_ <- seL4_GetMR 2 ;;
  r <- copy_name curproc name ;;
  match r with
  | None => reply_with (-1)
  | Some kname =>
      p <- load h_procs curproc ;;
      r <- fdtable_get_unused_fd (file_table p) ;;
      match r with
      | None => reply_with (-1)
      | Some fd =>
          r <- file_open kname (i32 mode_) ;;
          match r with
          | None => reply_with (-1)
          | Some open_file =>
              p <- load h_procs curproc ;;
              fdtable_insert (file_table p) fd open_file ;;;
              reply_with fd
          end
      end
  end.

Definition syscall_close (curproc : Z) : M S Z :=
  fd <- seL4_GetMR 1 ;;
  p <- load h_procs curproc ;;
  r <- fdtable_close_fd (file_table p) (i32 fd) ;;
  match r with
  | None => reply_with (-1)
  | Some open_file => file_close open_file ;;; reply_with 0
  end.

(** The structure the pointer points to; [free] of the console's leaves the
    static pointer dangling, which is [None]. *)
Definition load_stat (k : stat_ptr) : M S sos_stat_t :=
  match k with
  | StatHeap st => ret st
  | StatConsole => f <- gets fs ;; match serial_stat f with Some st => ret st | None => fail FNull end
  end.
Definition free_stat (k : stat_ptr) : M S unit :=
  match k with StatHeap _ => ret tt | StatConsole => on_fs (set_serial_stat None) end.

Definition syscall_stat (curproc : Z) : M S Z :=
  name <- seL4_GetMR 1 ;;
  stat_buf <- seL4_GetMR 2 ;;
  r <- copy_name curproc name ;;
  match r with
  | None => reply_with (-1)
  | Some kname =>
      r <- vfs_stat kname ;;
      match r with
      | None => reply_with (-1)
      | Some kstat =>
          st <- load_stat kstat ;;
          e <- copy_out curproc stat_buf (stat_bytes st) ;;
          free_stat kstat ;;;
          reply_with (if negb (e =? 0) then -1 else 0)
      end
  end.

Definition syscall_listdir (curproc : Z) : M S Z :=
  pos <- seL4_GetMR 1 ;;
  uname <- seL4_GetMR 2 ;;
  nbytes <- seL4_GetMR 3 ;;
  let pos := i32 pos in
  let nbytes := i32 nbytes in
  if nbytes <=? 0 then reply_with (-1)
  else
    r <- vfs_list list_fuel ;;
    match r with
    | None => reply_with (-1)
    | Some dir =>
        let nfiles := Z.of_nat (length dir) in
        if u32 pos =? nfiles then reply_with 0
        else if negb (ISINRANGE 0 pos (u32 (nfiles - 1))) then reply_with (-1)
        else
          name <- rd dir pos ;;
          let bytes_returned := MIN nbytes (Z.of_nat (length name)) + 1 in
          e <- copy_out curproc uname (take (Z.to_nat bytes_returned) (name ++ [0])) ;;
          reply_with (if negb (e =? 0) then -1 else bytes_returned)
    end.

(** The access does not fit the mode the file was opened in. *)
Definition wrong_mode (access_mode mode_ : Z) : bool :=
  ((access_mode =? ACCESS_WRITE) && (mode_ =? O_RDONLY)) || ((access_mode =? ACCESS_READ) && (mode_ =? O_WRONLY)).

(** One round of the transfer: the loop variables are the user address and the
    bytes that remain; [inr None] is a failure, [inr (Some n)] the end with [n]
    bytes remaining.  A short read ends the loop before the chance of the
    frame is restored. *)
Definition read_write_round (access_mode curproc open_file vn_ : Z) (v : Z * Z) : M S (Z * Z + option Z) :=
  let '(buf, remaining) := v in
  if remaining <=? 0 then ret (inr (Some remaining))
  else
    kvaddr <- vaddr_to_sos_vaddr curproc buf (if access_mode =? 0 then 1 else 0) ;;
    if kvaddr =? 0 then ret (inr None)
    else
      f <- gets ft ;;
      let frame_id := frame_table_sos_vaddr_to_index f kvaddr in
      ch <- on_ft (frame_table_get_chance frame_id) ;;
      match ch with
      | None => fail FAssert
      | Some original_chance =>
          set_chance_ok frame_id PINNED ;;;
          let n := bytes_this_round buf remaining in
          o <- load h_files open_file ;;
          let iov := Uiovec kvaddr n (fp o) in
          result <- (if access_mode =? ACCESS_READ then vop_read vn_ iov else vop_write vn_ iov) ;;
          if result =? -1 then set_chance_ok frame_id original_chance ;;; ret (inr None)
          else if (access_mode =? ACCESS_READ) && negb (u32 result =? n) then
            update h_files open_file (fun o => set_file_fp (fp o + result) o) ;;;
            ret (inr (Some (u32 (remaining - result))))
          else
            set_chance_ok frame_id original_chance ;;;
            update h_files open_file (fun o => set_file_fp (fp o + result) o) ;;;
            ret (inl (u32 (buf + result), u32 (remaining - result)))
      end.

(** A round that transfers nothing would be repeated for ever; every other
    round transfers at least one byte. *)
Definition syscall_do_read_write (access_mode curproc : Z) : M S Z :=
  fd <- seL4_GetMR 1 ;;
  buf <- seL4_GetMR 2 ;;
  nbytes <- seL4_GetMR 3 ;;
  p <- load h_procs curproc ;;
  r <- fdtable_get (file_table p) (i32 fd) ;;
  match r with
  | None => reply_with (-1)
  | Some open_file =>
      o <- load h_files open_file ;;
      if wrong_mode access_mode (mode o) then reply_with (-1)
      else
        r <- while_fuel (Datatypes.S (Z.to_nat nbytes)) (read_write_round access_mode curproc open_file (vn o)) (buf, nbytes) ;;
        match r with
        | None => reply_with (-1)
        | Some remaining => reply_with (nbytes - remaining)
        end
  end.

Definition syscall_write (curproc : Z) : M S Z := syscall_do_read_write ACCESS_WRITE curproc.
Definition syscall_read (curproc : Z) : M S Z := syscall_do_read_write ACCESS_READ curproc.

(** *** sys_proc.c *)

Definition syscall_proc_create (curproc : Z) : M S Z :=
  name <- seL4_GetMR 1 ;;
  r <- copy_name curproc name ;;
  match r with
  | None => reply_with (-1)
  | Some kname =>
      p <- load h_procs curproc ;;
      result <- proc_start stale kname _sos_ipc_ep_cap (pid p) elf_header ;;
      reply_with result
  end.

Definition proc_delete_async_check (victim_pid : Z) : M S Z :=
  victim <- get_proc victim_pid ;;
  if victim =? 0 then ret 1
  else
    v <- load h_procs victim ;;
    if decide (p_state v = BLOCKED) then update h_procs victim (set_kill_flag true) ;;; ret 0
    else e <- proc_delete stale victim ;; ret (if negb (e =? 0) then 1 else 0).

Definition syscall_proc_delete (curproc : Z) : M S Z :=
  victim_pid <- seL4_GetMR 1 ;;
  let victim_pid := i32 victim_pid in
  e <- proc_delete_async_check victim_pid ;;
  if negb (e =? 0) then reply_with (-1)
  else
    p <- load h_procs curproc ;;
    if pid p =? victim_pid then ret (-1) else reply_with 0.

Definition syscall_proc_id (curproc : Z) : M S Z := p <- load h_procs curproc ;; reply_with (pid p).

(** One process: [strcpy] needs a name, and room for it in the structure. *)
Definition status_entry (curproc addr c_proc : Z) : M S Z :=
  p <- load h_procs c_proc ;;
  size_ <- page_directory_count c_proc ;;
  match proc_name p with
  | None => fail FNull
  | Some name =>
      if N_NAME <=? Z.of_nat (length name) then fail FBounds
      else copy_out curproc addr (process_bytes (pid p) size_ (stime p) name)
  end.

(** The loop from [c_id] on; the result is the number of entries copied out. *)
Fixpoint status_entries (n : nat) (curproc addr procs_max num_found c_id : Z) : M S Z :=
  match n with
  | O => ret num_found
  | Datatypes.S n' =>
      if procs_max <=? num_found then ret num_found
      else
        c_proc <- get_proc c_id ;;
        if c_proc =? 0 then status_entries n' curproc addr procs_max num_found (c_id + 1)
        else
          e <- status_entry curproc addr c_proc ;;
          if negb (e =? 0) then ret num_found
          else status_entries n' curproc (u32 (addr + 12 + N_NAME)) procs_max (num_found + 1) (c_id + 1)
  end.

Definition syscall_proc_status (curproc : Z) : M S Z :=
  sos_procs_addr <- seL4_GetMR 1 ;;
  procs_max <- seL4_GetMR 2 ;;
  n <- status_entries (Z.to_nat MAX_PROCS) curproc sos_procs_addr procs_max 0 0 ;;
  reply_with n.

(** The first child from the node [curr] on that has exited. *)
Fixpoint zombie_child (fuel : nat) (curr : Z) : M S (option Z) :=
  match fuel with
  | O => fail FFuel
  | Datatypes.S fuel' =>
      if curr =? 0 then ret None
      else
        n <- on_lists (deref curr) ;;
        child <- get_proc (data n) ;;
        if child =? 0 then zombie_child fuel' (next n)
        else
          c <- load h_procs child ;;
          if decide (p_state c = ZOMBIE) then ret (Some (pid c)) else zombie_child fuel' (next n)
  end.

(** The labels [destroy] and [wait] of the function. *)
Definition wait_destroy (result : Z) : M S Z :=
  child <- get_proc result ;; proc_destroy child ;;; reply_with result.
Definition wait_block (curproc pid_ : Z) : M S Z :=
  cur <- coro_getcur ;;
  update h_procs curproc (fun p => set_waiting_on pid_ (set_waiting_coro cur p)) ;;;
  result <- yield 0 ;;
  update h_procs curproc (fun p => set_waiting_on (-1) (set_waiting_coro 0 p)) ;;;
  wait_destroy (i32 result).

Definition syscall_proc_wait (curproc : Z) : M S Z :=
  pid_ <- seL4_GetMR 1 ;;
  let pid_ := i32 pid_ in
  if pid_ =? -1 then
    p <- load h_procs curproc ;;
    head <- on_lists (get_head (children p)) ;;
    fuel <- on_lists walk_fuel ;;
    r <- zombie_child fuel head ;;
    match r with
    | Some result => wait_destroy result
    | None => wait_block curproc pid_
    end
  else
    b <- proc_is_child curproc pid_ ;;
    if negb b then reply_with (-1)
    else
      child <- get_proc pid_ ;;
      c_assert (negb (child =? 0)) ;;;
      c <- load h_procs child ;;
      if decide (p_state c = ZOMBIE) then wait_destroy pid_ else wait_block curproc pid_.

Definition syscall_exit (curproc : Z) : M S Z :=
  p <- load h_procs curproc ;; proc_delete_async_check (pid p) ;;; ret (-1).

(** *** sys_time.c *)

(** The callback may run inside [register_timer]. *)
Definition syscall_usleep (curproc : Z) : M S Z :=
  ms_delay <- seL4_GetMR 1 ;;
  let ms_delay := i32 ms_delay in
  if ms_delay <=? 0 then ret 0
  else
    on_fs (set_timer_fired false) ;;;
    r <- kcall (register_timer (MILLISECONDS ms_delay)) ;;
    meanwhile ;;;
    if r =? 0 then ret 0
    else
      f <- gets fs ;;
      (if negb (timer_fired f) then yield 0 else ret 0) ;;;
      ret 0.

Definition syscall_time_stamp (curproc : Z) : M S Z :=
  ts <- kcall time_stamp ;;
  seL4_SetMR 0 (UPPER32BITS ts) ;;;
  seL4_SetMR 1 (LOWER32BITS ts) ;;;
  ret 2.

Definition callback_sys_usleep (data_ : Z) : M S unit :=
  on_fs (set_timer_fired true) ;;;
  b <- resumable data_ ;;
  if (b : bool) then resume data_ 0 ;;; ret tt else ret tt.

(** *** syscall.c *)

Definition syscall_table : list (Z -> M S Z) :=
  [syscall_write; syscall_read; syscall_open; syscall_close; syscall_brk; syscall_usleep; syscall_time_stamp;
   syscall_stat; syscall_listdir; syscall_proc_create; syscall_proc_delete; syscall_proc_id; syscall_proc_status;
   syscall_proc_wait; syscall_exit].

(** Sends the first [nwords] message registers. *)
Definition send_reply (reply_cap nwords : Z) : M S unit :=
  s <- get ;; kcall (seL4_Send reply_cap (take (Z.to_nat nwords) (mrs s))).

(** [proc_mark(curproc, RUNNING); curproc->blocked_ref -= 1;]: whether the
    process was marked for death meanwhile and nothing else blocks it. *)
Definition unblock (curproc : Z) : M S bool :=
  proc_mark curproc RUNNING ;;;
  update h_procs curproc (fun p => set_blocked_ref (u32 (blocked_ref p - 1)) p) ;;;
  p <- load h_procs curproc ;;
  ret (kill_flag p && (blocked_ref p =? 0)).
Definition block (curproc : Z) : M S unit :=
  proc_mark curproc BLOCKED ;;;
  update h_procs curproc (fun p => set_blocked_ref (u32 (blocked_ref p + 1)) p).

Definition handle_syscall (pid_ : Z) : M S unit :=
  syscall_number <- seL4_GetMR 0 ;;
  curproc <- get_proc pid_ ;;
  c_assert (negb (curproc =? 0)) ;;;
  reply_cap <- kcall cspace_save_reply_cap ;;
  c_assert (negb (reply_cap =? 0)) ;;;
  (if ISINRANGE 0 syscall_number (Z.of_nat (length syscall_table) - 1) then
     f <- rd syscall_table syscall_number ;;
     block curproc ;;;
     nwords <- f curproc ;;
     dead <- unblock curproc ;;
     nwords <- (if (dead : bool) then proc_delete stale curproc ;;; ret (-1) else ret nwords) ;;
     if 0 <=? nwords then send_reply reply_cap nwords else ret tt
   else
     seL4_SetMR 0 (u32 (-1)) ;;;
     send_reply reply_cap 1) ;;;
  kcall (cspace_free_slot reply_cap) ;;;
  ret tt.

(** *** vm.c *)

(** The labels [thread_restart] and [fault_error] of the function. *)
Definition thread_restart (curproc reply_cap : Z) : M S unit :=
  dead <- unblock curproc ;;
  if (dead : bool) then proc_delete stale curproc ;;; ret tt
  else send_reply reply_cap 0 ;;; kcall (cspace_free_slot reply_cap) ;;; ret tt.
Definition fault_error (curproc reply_cap : Z) : M S unit :=
  unblock curproc ;;;
  kcall (cspace_free_slot reply_cap) ;;;
  proc_delete stale curproc ;;;
  ret tt.

Definition vm_fault (pid_ : Z) : M S unit :=
  curproc <- get_proc pid_ ;;
  c_assert (negb (curproc =? 0)) ;;;
  block curproc ;;;
  fault_addr <- seL4_GetMR 1 ;;
  fault_cause <- seL4_GetMR 3 ;;
  reply_cap <- kcall cspace_save_reply_cap ;;
  c_assert (negb (reply_cap =? 0)) ;;;
  let access_type := ACCESS_TYPE fault_cause in
  if get_fault_status fault_cause =? PERMISSION_FAULT_PAGE then fault_error curproc reply_cap
  else
    ev <- page_table_is_evicted curproc fault_addr ;;
    if (ev : bool) then
      e <- page_in curproc fault_addr access_type ;;
      if negb (e =? 0) then fault_error curproc reply_cap else thread_restart curproc reply_cap
    else
      r <- vm_map curproc (PAGE_ALIGN_4K fault_addr) access_type ;;
      match r with
      | None => fault_error curproc reply_cap
      | Some _ => thread_restart curproc reply_cap
      end.

(** *** event.c *)

(** The first zombie child of init from the node [curr] on is destroyed. *)
Fixpoint reap_nodes (fuel : nat) (curr : Z) : M S unit :=
  match fuel with
  | O => fail FFuel
  | Datatypes.S fuel' =>
      if curr =? 0 then ret tt
      else
        n <- on_lists (deref curr) ;;
        child <- get_proc (data n) ;;
        c_assert (negb (child =? 0)) ;;;
        c <- load h_procs child ;;
        if decide (p_state c = ZOMBIE) then proc_destroy child else reap_nodes fuel' (next n)
  end.

Definition reap_dead_orphans (init : Z) : M S unit :=
  p <- load h_procs init ;;
  head <- on_lists (get_head (children p)) ;;
  fuel <- on_lists walk_fuel ;;
  reap_nodes fuel head.

(** [app] is the name in the configuration. *)
Definition start_first_proc (app : list Z) : M S unit :=
  r <- proc_start stale app _sos_ipc_ep_cap 0 elf_header ;; c_assert (negb (r =? -1)).

(** The loop body for a message with the given badge and label.  [spawn f x]
    is [resume(coroutine(f), x)]: [f x] runs until it first yields. *)
Definition handle_message (spawn : (Z -> M S unit) -> Z -> M S unit) (network_irq timer_interrupt : M S unit)
    (badge label : Z) : M S unit :=
  if negb (Z.land badge IRQ_EP_BADGE =? 0) then
    (if negb (Z.land badge IRQ_BADGE_NETWORK =? 0) then network_irq else ret tt) ;;;
    (if negb (Z.land badge IRQ_BADGE_TIMER =? 0) then timer_interrupt else ret tt)
  else if label =? seL4_VMFault then spawn vm_fault (GET_PROCID_BADGE badge)
  else if label =? seL4_NoFault then spawn handle_syscall (GET_PROCID_BADGE badge)
  else ret tt.

(** The event loop on the messages [seL4_Wait] returns, each with the contents
    of the message registers. *)
Fixpoint serve (spawn : (Z -> M S unit) -> Z -> M S unit) (network_irq timer_interrupt : M S unit)
    (init : Z) (messages : list (Z * Z * list Z)) : M S unit :=
  reap_dead_orphans init ;;;
  match messages with
  | [] => ret tt
  | (badge, label, words) :: messages' =>
      modify (set_mrs words) ;;;
      handle_message spawn network_irq timer_interrupt badge label ;;;
      serve spawn network_irq timer_interrupt init messages'
  end.

Definition event_loop (spawn : (Z -> M S unit) -> Z -> M S unit) (network_irq timer_interrupt : M S unit)
    (app : list Z) (messages : list (Z * Z * list Z)) : M S unit :=
  spawn (fun _ => start_first_proc app) 0 ;;;
  init <- get_proc 0 ;;
  c_assert (negb (init =? 0)) ;;;
  serve spawn network_irq timer_interrupt init messages.
End syscalls.
