(* ===== verification/VmClaims.v ===== *)
(** * VmClaims: theorems about the memory of processes

    Growth of the stack, places of the page file, and the copies between a
    process and SOS. *)

From S2P Require Import Prelude Arith ListLib Memory SosState FrameTable FrameProofs UtInterface PageTable AddrSpace Nfs Pager FrameClaims Vm.

Section stack.
Context {U K : Type} `{!Kernel K} `{!UtAlloc U}.
Local Abbreviation S := (sos U K).
Implicit Types s : S.

(** The state with the stack starting at [b]. *)
Definition stack_state s (q : Z) (st : region) (b : Z) : S := set_regions (<[q := set_start b st]> (regions s)) s.

Lemma stack_state_same s q st : regions s !! q = Some st -> stack_state s q st (start st) = s.
Proof. intros Hq. unfold stack_state. rewrite insert_id; [by destruct s|]. by destruct st. Qed.

Lemma stack_state_inv s as_ a l st b :
  as_inv s as_ a l -> region_stack a ∈ l -> regions s !! region_stack a = Some st -> 0 <= b <= end_ st ->
  (forall q r, q ∈ l -> q <> region_stack a -> regions s !! q = Some r -> no_collision r b (end_ st)) ->
  as_inv (stack_state s (region_stack a) st b) as_ a l.
Proof.
  intros [Hn Ha Hc Hok] Hl Hst Hb Hno. destruct (ro_wf _ _ Hok _ _ Hl Hst) as [Hw1 Hw2]. split; try done.
  - apply rchain_ext with (regions s); [|done]. intros q Hq. simpl. destruct (decide (q = region_stack a)) as [->|].
    + by rewrite lookup_insert_eq, Hst.
    + by rewrite lookup_insert_ne.
  - apply regions_ok_insert; [done | simpl; lia | done |]. intros q r Hq Hne Hr.
    destruct (ro_wf _ _ Hok _ _ Hq Hr). apply no_collision_apart; [by apply (Hno q) | lia | lia].
Qed.

(** C13: A fault below the stack extends it to the page of the address only if it
    stays within its limit and apart from every other region; otherwise the
    regions are unchanged. *)
Theorem extend_stack_spec s as_ a l st v :
  as_inv s as_ a l -> region_stack a ∈ l -> regions s !! region_stack a = Some st -> is_u32 v ->
  exists r b, extend_stack as_ v s = Ok (r, stack_state s (region_stack a) st b) /\
    as_inv (stack_state s (region_stack a) st b) as_ a l /\
    (b = start st \/ (r = true /\ b = PAGE_ALIGN_4K v /\ b < end_ st /\ end_ st - b <= RLIMIT_STACK_SZ)).
Proof.
  intros Hinv Hl Hst Hv. pose proof Hinv as [Hn Ha Hc Hok]. destruct (rchain_lookup _ _ _ _ Hc Hl) as [Hq0 _].
  destruct (ro_wf _ _ Hok _ _ Hl Hst) as [Hw1 Hw2]. pose proof (PAGE_ALIGN_4K_range v Hv) as Hpv. unfold is_u32 in Hpv.
  assert (wp (extend_stack as_ v) (fun r s' => exists b, s' = stack_state s (region_stack a) st b /\
    as_inv s' as_ a l /\ (b = start st \/ (r = true /\ b = PAGE_ALIGN_4K v /\ b < end_ st /\ end_ st - b <= RLIMIT_STACK_SZ))) s) as Hwp.
  { assert (forall r, exists b, s = stack_state s (region_stack a) st b /\ as_inv s as_ a l /\
      (b = start st \/ (r = true /\ b = PAGE_ALIGN_4K v /\ b < end_ st /\ end_ st - b <= RLIMIT_STACK_SZ))) as Hsame.
    { intros r. exists (start st). rewrite stack_state_same by done. auto. }
    unfold extend_stack. sos_steps. eapply wp_load; [done..|]. sos_steps. eapply wp_load; [done..|]. sos_steps.
    eapply collision_check_run; [done|]. intros c _ Hiff. destruct (Z.eqb_spec c 0) as [Ec|Ec]; [|sos_steps; apply Hsame].
    apply Hiff in Ec as [Hle Hno]. destruct (Z.leb_spec (end_ st) (PAGE_ALIGN_4K v)); [sos_steps; apply Hsame|].
    rewrite u32_small by (unfold is_u32; lia).
    destruct (Z.ltb_spec RLIMIT_STACK_SZ (end_ st - PAGE_ALIGN_4K v)); [sos_steps; apply Hsame|].
    sos_steps. eapply wp_update; [done..|]. sos_steps. exists (PAGE_ALIGN_4K v). split; [done|].
    split; [by apply stack_state_inv; [..|lia|]|]. right. split_and!; [done | done | lia | lia]. }
  apply wp_ok in Hwp as (r & s' & E & b & -> & Hinv' & Hb). eauto.
Qed.
End stack.

Lemma extend_stack_spec_witness :
  let st := Region 0x8ffff000 0x90000000 3 0 in
  exists r b, extend_stack 1 0x8fff8123 demo_procs = Ok (r, stack_state demo_procs 3 st b) /\
    as_inv (stack_state demo_procs 3 st b) 1 demo_space [1; 2; 3] /\
    (b = start st \/ (r = true /\ b = PAGE_ALIGN_4K 0x8fff8123 /\ b < end_ st /\ end_ st - b <= RLIMIT_STACK_SZ)).
Proof.
  intros st. apply (extend_stack_spec demo_procs 1 demo_space [1; 2; 3]); [apply demo_as_inv | | done | done].
  simpl. right. right. left.
Defined.

Section slots.
Context {U K : Type} `{!Kernel K} `{!UtAlloc U} `{!Threads K} `{!Nfs K} `{!World (sos U K)}.
Local Abbreviation S := (sos U K).
Implicit Types s : S.

(** The bit of page [j] of the page file. *)
Definition slot_used s (j : Z) : bool :=
  match pagefile_metatable (pgr s) !z (j / 32) with Some w => Z.testbit w (j mod 32) | None => false end.

Lemma slot_bit_spec i k : 0 <= k -> Z.testbit (slot_bit i) k = (k =? i mod 32).
Proof.
  intros Hk. unfold slot_bit. pose proof (Z.mod_pos_bound i 32 ltac:(lia)).
  rewrite Z.shiftl_1_l, Z.pow2_bits_eqb by lia. apply Z.eqb_sym.
Qed.

Lemma slot_bit_free w i : (Z.land w (slot_bit i) =? 0) = negb (Z.testbit w (i mod 32)).
Proof.
  pose proof (Z.mod_pos_bound i 32 ltac:(lia)). destruct (Z.eqb_spec (Z.land w (slot_bit i)) 0) as [E|E].
  - apply (f_equal (fun x => Z.testbit x (i mod 32))) in E. rewrite Z.land_spec, slot_bit_spec, Z.eqb_refl, andb_true_r, Z.bits_0 in E by lia.
    by rewrite E.
  - destruct (Z.testbit w (i mod 32)) eqn:T; [done|]. destruct E. apply Z.bits_inj'. intros k Hk.
    rewrite Z.land_spec, slot_bit_spec, Z.bits_0 by done. destruct (Z.eqb_spec k (i mod 32)) as [->|]; [by rewrite T|by rewrite andb_false_r].
Qed.

Lemma slot_take_give w i : Z.testbit w (i mod 32) = false -> Z.ldiff (Z.lor w (slot_bit i)) (slot_bit i) = w.
Proof.
  intros T. apply Z.bits_inj'. intros k Hk. rewrite Z.ldiff_spec, Z.lor_spec, slot_bit_spec by done.
  destruct (Z.eqb_spec k (i mod 32)) as [->|]; [by rewrite T | by rewrite orb_false_r, andb_true_r].
Qed.

(** The state after page [i], with the word [w] in the table, is marked. *)
Definition marked s (i w : Z) : S :=
  set_pgr (set_pagefile_metatable (insertZ (i / 32) (Z.lor w (slot_bit i)) (pagefile_metatable (pgr s))) (pgr s)) s.

Lemma marked_used s i w j : 0 <= i -> 0 <= j -> pagefile_metatable (pgr s) !z (i / 32) = Some w ->
  slot_used (marked s i w) j = slot_used s j || (j =? i).
Proof.
  intros Hi Hj Hw. pose proof (lookupZ_lt _ _ _ Hw). unfold slot_used, marked. cbn [pgr set_pgr pagefile_metatable set_pagefile_metatable].
  pose proof (Z.mod_pos_bound j 32 ltac:(lia)). pose proof (Z.div_mod i 32 ltac:(lia)). pose proof (Z.div_mod j 32 ltac:(lia)).
  destruct (Z.eq_dec (j / 32) (i / 32)) as [E|E].
  - rewrite E, lookupZ_insertZ_eq by lia. rewrite Hw, Z.lor_spec, slot_bit_spec by lia. f_equal.
    destruct (Z.eqb_spec (j mod 32) (i mod 32)), (Z.eqb_spec j i); try done; subst; lia.
  - rewrite lookupZ_insertZ_ne by lia. destruct (Z.eqb_spec j i) as [->|]; [done|]. by rewrite orb_false_r.
Qed.

Lemma marked_back s i w : pagefile_metatable (pgr s) !z (i / 32) = Some w -> Z.testbit w (i mod 32) = false ->
  wp (pagefile_free_add i) (fun _ s' => s' = s) (marked s i w).
Proof.
  intros Hw T. pose proof (lookupZ_lt _ _ _ Hw). unfold pagefile_free_add, on_pgr. sos_steps.
  unfold marked. cbn [pgr set_pgr pagefile_metatable set_pagefile_metatable].
  eapply wp_rd; [by apply lookupZ_insertZ_eq|]. sos_steps. cbn [pgr set_pgr pagefile_metatable set_pagefile_metatable].
  rewrite slot_take_give, insertZ_insertZ, insertZ_id by done. destruct s as [? ? ? ? []]. done.
Qed.

(** [take_slot] finds the first free place of the page file and marks only
    that one; giving it back with [pagefile_free_add] restores the state.  It
    fails, and changes nothing, exactly when every place is in use. *)
Theorem take_slot_spec s : PAGEFILE_MAX_PAGES <= 32 * Z.of_nat (length (pagefile_metatable (pgr s))) ->
  (exists i s1, 0 <= i < PAGEFILE_MAX_PAGES /\ slot_used s i = false /\ (forall j, 0 <= j < i -> slot_used s j = true) /\
     take_slot s = Ok (Some i, s1) /\ (forall j, 0 <= j -> slot_used s1 j = slot_used s j || (j =? i)) /\
     pagefile_free_add i s1 = Ok (tt, s)) \/
  ((forall j, 0 <= j < PAGEFILE_MAX_PAGES -> slot_used s j = true) /\ take_slot s = Ok (None, s)).
Proof.
  intros Hlen. pose (Q := fun (r : option Z) (s' : S) =>
    match r with
    | Some i => 0 <= i < PAGEFILE_MAX_PAGES /\ slot_used s i = false /\ (forall j, 0 <= j < i -> slot_used s j = true) /\
        exists w, pagefile_metatable (pgr s) !z (i / 32) = Some w /\ s' = marked s i w
    | None => (forall j, 0 <= j < PAGEFILE_MAX_PAGES -> slot_used s j = true) /\ s' = s
    end).
  assert (wp take_slot Q s) as Hwp.
  { unfold take_slot. apply (wp_for_find (fun i s' => s' = s /\ forall j, 0 <= j < i -> slot_used s j = true)); [done | |  |].
    - split; [done|]. lia.
    - intros i s' Hi [-> Hprev]. sos_steps. destruct (lookupZ_in_range (pagefile_metatable (pgr s)) (i / 32)) as [w Hw].
      { Z.to_euclidean_division_equations. lia. }
      eapply wp_rd; [done|]. rewrite slot_bit_free. assert (slot_used s i = Z.testbit w (i mod 32)) as Hu by (unfold slot_used; by rewrite Hw).
      destruct (Z.testbit w (i mod 32)); bred; unfold on_pgr; sos_steps.
      + split; [done|]. intros j Hj. destruct (Z.eq_dec j i) as [->|]; [done|]. apply Hprev. lia.
      + split; [done|]. split; [done|]. split; [done|]. exists w. done.
    - intros s' [-> H]. done. }
  apply wp_ok in Hwp as ([i|] & s' & E & H).
  - left. destruct H as (Hi & Hu & Hp & w & Hw & ->). exists i, (marked s i w). repeat (split; [done|]). split.
    + intros j Hj. apply marked_used; [lia | done | done].
    + unfold slot_used in Hu. rewrite Hw in Hu. destruct (proj1 (wp_ok _ _ _) (marked_back s i w Hw Hu)) as ([] & s1 & E1 & ->). done.
  - right. by destruct H as [H ->].
Qed.
End slots.

Lemma take_slot_spec_witness :
  (exists i s1, 0 <= i < PAGEFILE_MAX_PAGES /\ slot_used boot_state i = false /\ (forall j, 0 <= j < i -> slot_used boot_state j = true) /\
     take_slot boot_state = Ok (Some i, s1) /\ (forall j, 0 <= j -> slot_used s1 j = slot_used boot_state j || (j =? i)) /\
     pagefile_free_add i s1 = Ok (tt, boot_state)) \/
  ((forall j, 0 <= j < PAGEFILE_MAX_PAGES -> slot_used boot_state j = true) /\ take_slot boot_state = Ok (None, boot_state)).
Proof. apply (take_slot_spec boot_state). done. Defined.
