(* ===== verification/CopyClaims.v ===== *)
(** * CopyClaims: copies between a process and SOS

    [copy_in] and [copy_out] of vm/vm.c, on pages that are resident: the
    addresses of the process are translated through its page tables, the
    capabilities of the pages and the frame table, page by page.  [uspace]
    is the invariant of a process, [user_map] says which frame each page of a
    range is mapped to. *)

From S2P Require Import Prelude Arith ListLib Memory SosState FrameTable FrameProofs UtInterface PageTable AddrSpace Nfs Pager FrameClaims Vm.

Section copies.
Context {U K : Type} `{!Kernel K} `{!KernelLaws K} `{!UtAlloc U} `{!UtLaws U} `{!Threads K} `{!Nfs K} `{!World (sos U K)}.
Local Abbreviation S := (sos U K).
Implicit Types s : S.

(** The process, its address space and page tables, its regions, and the frame
    table. *)
Context (curproc : Z) (p : proc) (a : addrspace) (d : page_directory) (l : list Z).
Context (t : list frame_entry) (L : gset (Z * Z)) (own : gset Z).

Record uspace s : Prop := {
  us_proc : curproc <> 0 /\ procs s !! curproc = Some p;
  us_space : as_inv s (p_addrspace p) a l;
  us_dir : as_directory a <> 0 /\ dirs s !! as_directory a = Some d;
  us_wf : pt_wf (mem s) (directory d);
  us_ft : ft_inv s t L own
}.

(** The page of [va] is resident in frame [id] and may be read and written. *)
Record resident s (va id : Z) : Prop := {
  rs_view : exists c, pt_view (mem s) (directory d) (PAGE_ALIGN_4K va) = Some c /\ 0 <= c < 2 ^ 31 /\
    cap_paddr (kern s) c = Some (frame_addr (ft s) id);
  rs_frame : exists e, t !z id = Some e /\ cap e <> 0;
  rs_rights : exists q r, first_region (regions s) l va = Some q /\ regions s !! q = Some r /\
    as_region_permission_check r ACCESS_READ = true /\ as_region_permission_check r ACCESS_WRITE = true
}.

(** Where SOS finds the byte at [va], in frame [id]. *)
Definition byte_addr s (id va : Z) : Z := PHYSICAL_VSTART + frame_addr (ft s) id + va mod 4096.

Lemma set_kern_same s : set_kern (kern s) s = s.
Proof. by destruct s. Qed.

Lemma wp_proc_directory Q s : uspace s -> Q (as_directory a) s -> wp (proc_directory curproc) Q s.
Proof.
  intros [[Hc Hp] [Hn Ha _ _] _ _ _] HQ. unfold proc_directory. sos_steps. eapply wp_load; [done..|].
  sos_steps. eapply wp_load; [done..|]. by sos_steps.
Qed.

Lemma page_aligned va : is_u32 va -> is_u32 (PAGE_ALIGN_4K va) /\ PAGE_ALIGN_4K va mod 4096 = 0 /\ PAGE_ALIGN_4K (PAGE_ALIGN_4K va) = PAGE_ALIGN_4K va.
Proof.
  intros Hv. pose proof (PAGE_ALIGN_4K_range va Hv). pose proof (PAGE_ALIGN_4K_mod va Hv) as Hm.
  split_and!; [done..|]. rewrite (PAGE_ALIGN_4K_spec (PAGE_ALIGN_4K va)) by done. lia.
Qed.

Lemma frame_of_resident s va id : uspace s -> resident s va id ->
  exists e, t !z id = Some e /\ cap e <> 0 /\ 0 <= id < n_frames (ft s) /\ cap_paddr (kern s) (cap e) = Some (frame_addr (ft s) id).
Proof.
  intros [_ _ _ _ Hft] [_ (e & He & Hc) _]. exists e.
  destruct (ti_cap _ _ _ _ (fi_tinv _ _ _ _ Hft) _ _ He Hc) as (Hid & Hcap & _). done.
Qed.

(** The sum of a frame and an offset does not wrap around. *)
Lemma byte_addr_sum s va id : uspace s -> resident s va id ->
  frame_table_paddr_to_sos_vaddr (u32 (frame_addr (ft s) id + va mod 4096)) = byte_addr s id va.
Proof.
  intros Hu Hr. destruct (frame_of_resident s va id Hu Hr) as (e & _ & _ & Hid & _). destruct Hu as [_ _ _ _ Hft].
  pose proof (fi_geom _ _ _ _ Hft) as Hg. pose proof (n_frames_addr _ Hg). pose proof Hg as [Hb [Ht [Hp _]]].
  pose proof (Z.mod_pos_bound va 4096 ltac:(lia)). unfold frame_table_paddr_to_sos_vaddr, byte_addr, frame_addr, PHYSICAL_VSTART in *.
  rewrite !u32_small; unfold is_u32; [lia..|]. rewrite u32_small; unfold is_u32; lia.
Qed.

Lemma vm_translate_run s va id acc Q : uspace s -> resident s va id -> is_u32 va ->
  Q (Some (byte_addr s id va)) s -> wp (vm_translate curproc va acc) Q s.
Proof.
  intros Hu Hr Hv HQ. pose proof Hr as [(c & Hview & Hc & Hcap) _ _]. pose proof Hu as [_ _ [Hd0 Hd] Hwf _].
  destruct (page_aligned va Hv) as (Ha1 & Ha2 & Ha3).
  assert (forall Q', Q' (Some c) s -> wp (page_directory_lookup (as_directory a) (PAGE_ALIGN_4K va)) Q' s) as Hlook.
  { intros Q' HQ'. eapply page_directory_lookup_run; [done..|]. by rewrite Hview. }
  unfold vm_translate, page_table_is_evicted. sos_steps. apply wp_proc_directory; [done|]. sos_steps. rewrite Ha3.
  apply Hlook. sos_steps. rewrite IS_EVICTED_spec by lia. destruct (Z.leb_spec (2 ^ 31) c); [lia|]. sos_steps.
  sos_steps. change (0 =? 0) with true. bred. sos_steps. apply wp_proc_directory; [done|]. sos_steps. apply Hlook. sos_steps.
  rewrite (get_address_law _ _ _ Hcap). cbn [fst snd]. by rewrite set_kern_same, page_offset_spec, byte_addr_sum.
Qed.

Lemma vaddr_to_sos_vaddr_run s va id acc Q : uspace s -> resident s va id -> is_u32 va -> acc = ACCESS_READ \/ acc = ACCESS_WRITE ->
  Q (byte_addr s id va) s -> wp (vaddr_to_sos_vaddr curproc va acc) Q s.
Proof.
  intros Hu Hr Hv Hacc HQ. pose proof Hr as [_ _ (q & r & Hq & Hqr & Hrd & Hwr)].
  destruct (frame_of_resident s va id Hu Hr) as (e & He & Hce & Hid & Hcap).
  pose proof Hu as [[Hc0 Hp] Has _ _ Hft]. pose proof (Z.mod_pos_bound va 4096 ltac:(lia)).
  destruct (rchain_lookup _ _ _ q (ai_chain _ _ _ _ Has)) as [Hq0 _].
  { pose proof (first_region_spec s _ _ _ va Has) as Hf. rewrite Hq in Hf. apply Hf. }
  unfold vaddr_to_sos_vaddr. sos_steps. eapply vm_translate_run; [done..|]. sos_steps. eapply wp_load; [done..|]. sos_steps.
  unfold permitted_region. sos_steps. eapply as_find_region_run; [done|]. rewrite Hq. sos_steps. eapply wp_load; [done..|]. sos_steps.
  assert (as_region_permission_check r acc = true) as -> by (by destruct Hacc as [->| ->]). sos_steps.
  unfold byte_addr at 1. rewrite vaddr_frame by (done || apply Hft). eapply wp_get_capability; [done..|]. sos_steps.
  rewrite (get_address_law _ _ _ Hcap). cbn [fst snd]. by rewrite set_kern_same, page_offset_spec, byte_addr_sum.
Qed.

(** ** A range of pages *)

(** The frame of each page, by its number. *)
Context (fr : Z -> Z).

Definition byte_at s (va : Z) : Z := byte_addr s (fr (va / 4096)) va.

(** The pages of the range are resident, each in a frame of its own that is not
    one of the tables. *)
Record user_map s (lo hi : Z) : Prop := {
  um_range : 0 <= lo /\ hi < 2 ^ 32;
  um_resident : forall va, lo <= va < hi -> resident s va (fr (va / 4096));
  um_inj : forall va vb, lo <= va < hi -> lo <= vb < hi -> fr (va / 4096) = fr (vb / 4096) -> va / 4096 = vb / 4096;
  um_apart : forall va, lo <= va < hi -> let f := PHYSICAL_VSTART + frame_addr (ft s) (fr (va / 4096)) in
    f <> directory d /\ forall i, 0 <= i < 1024 -> load_word (mem s) (directory d + 4 * i) <> f
}.

Lemma byte_at_inj s lo hi va vb : user_map s lo hi -> lo <= va < hi -> lo <= vb < hi -> byte_at s va = byte_at s vb -> va = vb.
Proof.
  intros Hm Ha Hb. unfold byte_at, byte_addr, frame_addr. intros E.
  pose proof (Z.div_mod va 4096 ltac:(lia)). pose proof (Z.div_mod vb 4096 ltac:(lia)).
  pose proof (Z.mod_pos_bound va 4096 ltac:(lia)). pose proof (Z.mod_pos_bound vb 4096 ltac:(lia)).
  assert (fr (va / 4096) = fr (vb / 4096)) as Ef by lia. rewrite Ef in E. apply (um_inj _ _ _ Hm) in Ef; [lia | done | done].
Qed.

(** Inside a page addresses run in parallel. *)
Lemma byte_at_run s va i : 0 <= i -> va mod 4096 + i < 4096 -> byte_at s (va + i) = byte_at s va + i.
Proof.
  intros Hi Ho. pose proof (Z.div_mod va 4096 ltac:(lia)). pose proof (Z.mod_pos_bound va 4096 ltac:(lia)).
  assert ((va + i) / 4096 = va / 4096) as E1 by (symmetry; apply (Z.div_unique _ _ _ (va mod 4096 + i)); lia).
  assert ((va + i) mod 4096 = va mod 4096 + i) as E2 by (symmetry; apply (Z.mod_unique _ _ (va / 4096)); lia).
  unfold byte_at, byte_addr. rewrite E1, E2. lia.
Qed.

Lemma user_frame_ok s lo hi va : uspace s -> user_map s lo hi -> lo <= va < hi ->
  frame_ok (PHYSICAL_VSTART + frame_addr (ft s) (fr (va / 4096))).
Proof.
  intros Hu Hm Hva. destruct (frame_of_resident _ _ _ Hu (um_resident _ _ _ Hm va Hva)) as (e & _ & _ & Hid & _).
  destruct Hu as [_ _ _ _ Hft]. pose proof (fi_geom _ _ _ _ Hft) as Hg. pose proof (n_frames_addr _ Hg).
  pose proof Hg as [[Hb Hbm] [Ht [Hp _]]]. unfold frame_ok, frame_addr, PHYSICAL_VSTART in *. split; [lia|].
  rewrite Z.add_assoc, Z.mod_add by lia. rewrite Zplus_mod, Hbm. done.
Qed.

(** Writes to the pages of the range leave the tables as they are. *)
Lemma user_map_mem s m' lo hi : uspace s -> user_map s lo hi ->
  (forall x, (forall va, lo <= va < hi -> byte_at s va <> x) -> peek m' x = peek (mem s) x) ->
  uspace (set_mem m' s) /\ user_map (set_mem m' s) lo hi.
Proof.
  intros Hu Hm Hx. assert (same_tables (mem s) m' (directory d)) as Hst.
  { assert (forall f, frame_ok f -> (forall va, lo <= va < hi -> f <> PHYSICAL_VSTART + frame_addr (ft s) (fr (va / 4096))) ->
      same_bytes (mem s) m' f 4096) as Hf.
    { intros f Hf Hne x Hxf. apply Hx. intros va Hva. pose proof (user_frame_ok s lo hi va Hu Hm Hva) as Hok.
      pose proof (Z.mod_pos_bound va 4096 ltac:(lia)). unfold byte_at, byte_addr.
      destruct (frames_disjoint _ _ Hf Hok (Hne va Hva)); lia. }
    destruct Hu as [_ _ _ Hwf _]. split; [|intros i Hi Hi0]; apply Hf.
    - apply Hwf.
    - intros va Hva. destruct (um_apart _ _ _ Hm va Hva). done.
    - by apply (pw_second _ _ Hwf).
    - intros va Hva. destruct (um_apart _ _ _ Hm va Hva) as [_ H]. by apply H. }
  destruct Hu as [Hp Has Hd Hwf Hft]. split.
  - split; [done | by destruct Has | done | by apply same_tables_wf with (mem s) | by apply ft_inv_mem].
  - destruct Hm as [Hlh Hr Hi Ha]. split; [done| |done|].
    + intros va Hva. destruct (Hr va Hva) as [(c & Hv & Hc) Hf Hrr]. split; [|done|done]. exists c. split; [|done].
      cbn [mem set_mem]. rewrite (same_tables_view (mem s)); [done | done |].
      apply page_aligned. unfold is_u32. lia.
    + intros va Hva. destruct (Ha va Hva) as [H1 H2]. split; [done|]. intros i Hi0. cbn [mem set_mem].
      rewrite (same_tables_dir (mem s)) by done. by apply H2.
Qed.

Lemma bytes_this_round_spec va n : is_u32 va -> 0 < n -> bytes_this_round va n = Z.min (4096 - va mod 4096) n.
Proof.
  intros Hv Hn. unfold bytes_this_round, PAGE_SIZE_4K. rewrite PAGE_ALIGN_4K_spec by done. unfold is_u32 in Hv.
  pose proof (Z.mod_pos_bound va 4096 ltac:(lia)). change (BIT PAGE_BITS_4K) with 4096.
  rewrite u32_small by (unfold is_u32; lia). unfold MIN. destruct (Z.ltb_spec (va - va mod 4096 + 4096 - va) n); lia.
Qed.

(** The rounds that remain: the pages the rest of the range touches. *)
Definition rounds_left (va n : Z) : nat := if n <=? 0 then 0%nat else Z.to_nat ((va mod 4096 + n + 4095) / 4096).

Lemma rounds_enough va n : 0 <= n -> (rounds_left va n < copy_fuel n)%nat.
Proof.
  intros Hn. unfold rounds_left, copy_fuel. change PAGE_SIZE_4K with 4096. destruct (Z.leb_spec n 0); [lia|].
  pose proof (Z.mod_pos_bound va 4096 ltac:(lia)). Z.to_euclidean_division_equations. lia.
Qed.

Lemma rounds_decrease va n : 0 < n -> 
  let k := Z.min (4096 - va mod 4096) n in (rounds_left (va + k) (n - k) < rounds_left va n)%nat.
Proof.
  intros Hn k. unfold rounds_left. pose proof (Z.mod_pos_bound va 4096 ltac:(lia)).
  destruct (Z.leb_spec n 0); [lia|]. destruct (Z.leb_spec (n - k) 0); [Z.to_euclidean_division_equations; lia|].
  assert (k = 4096 - va mod 4096) as -> by lia. assert ((va + (4096 - va mod 4096)) mod 4096 = 0) as ->.
  { symmetry. apply (Z.mod_unique _ _ (va / 4096 + 1)); [lia|]. pose proof (Z.div_mod va 4096 ltac:(lia)). lia. }
  Z.to_euclidean_division_equations. lia.
Qed.

(** [bs] are the bytes of the process from [va] on. *)
Definition user_bytes s (va : Z) (bs : list Z) : Prop :=
  forall i, 0 <= i < Z.of_nat (length bs) -> bs !z i = Some (peek (mem s) (byte_at s (va + i))).

Lemma user_bytes_app s va bs n : user_bytes s va bs -> 0 <= n -> (va + Z.of_nat (length bs)) mod 4096 + n <= 4096 ->
  user_bytes s va (bs ++ peeks (mem s) (byte_at s (va + Z.of_nat (length bs))) n).
Proof.
  intros Hb Hn Hp i Hi. rewrite length_app, Nat2Z.inj_add, length_peeks in Hi by done.
  destruct (Z.lt_ge_cases i (Z.of_nat (length bs))) as [Hlt|Hge].
  - rewrite lookupZ_app_l by lia. apply Hb. lia.
  - rewrite lookupZ_app_r by lia. rewrite lookup_peeks by lia. rewrite <- byte_at_run by lia. do 3 f_equal. lia.
Qed.

Lemma copy_in_run s lo hi va n Q : uspace s -> user_map s lo hi -> lo <= va -> va + n <= hi -> 0 <= n ->
  (forall bs, Z.of_nat (length bs) = n -> user_bytes s va bs -> Q (Some bs) s) -> wp (copy_in curproc va n) Q s.
Proof.
  intros Hu Hm Hva Hn H0 HQ. pose proof (um_range _ _ _ Hm) as Hr. unfold copy_in.
  apply (wp_while_fuel (fun v s' => s' = s /\ let '(dst, src, rem) := v in
      src = va + Z.of_nat (length dst) /\ rem = n - Z.of_nat (length dst) /\ 0 <= rem /\ user_bytes s va dst)
    (fun v _ => let '(dst, src, rem) := v in rounds_left src rem)).
  - split; [done|]. cbn. split_and!; [lia | lia | lia | intros i; cbn; lia].
  - by apply rounds_enough.
  - intros [[dst src] rem] s' (-> & -> & -> & Hrem & Hb). unfold copy_in_round. destruct (Z.leb_spec (n - Z.of_nat (length dst)) 0).
    { sos_steps. apply HQ; [lia | done]. }
    set (src := va + Z.of_nat (length dst)). assert (is_u32 src) as Hsrc by (unfold is_u32, src; lia).
    rewrite bytes_this_round_spec by (done || lia). pose proof (Z.mod_pos_bound src 4096 ltac:(lia)).
    set (k := Z.min (4096 - src mod 4096) (n - Z.of_nat (length dst))).
    assert (lo <= src < hi) as Hin by (unfold src; lia). sos_steps.
    eapply vaddr_to_sos_vaddr_run; [done | by apply (um_resident _ _ _ Hm) | done | by left |].
    pose proof (user_frame_ok s lo hi src Hu Hm Hin) as [Hfo _]. fold (byte_at s src).
    destruct (Z.eqb_spec (byte_at s src) 0) as [E|_]; [unfold byte_at, byte_addr in E; lia|]. sos_steps.
    pose proof (user_bytes_app s va dst k Hb ltac:(lia) ltac:(fold src; lia)) as Hb'. fold src in Hb'.
    assert (Z.of_nat (length (dst ++ peeks (mem s) (byte_at s src) k)) = Z.of_nat (length dst) + k) as Hlen
      by (rewrite length_app, Nat2Z.inj_add, length_peeks by lia; done).
    rewrite !u32_small by (unfold is_u32, src in *; lia). split.
    + split; [done|]. rewrite Hlen. unfold src. split_and!; [lia | lia | lia | done].
    + apply rounds_decrease. lia.
Qed.

(** After [k] bytes of [bs] were copied to [va]: those bytes are in place, and
    nothing outside the range changed. *)
Record copied s (lo hi va : Z) (bs : list Z) (k : Z) (m : memory) : Prop := {
  cp_in : forall i b, 0 <= i < k -> bs !z i = Some b -> peek m (byte_at s (va + i)) = b;
  cp_out : forall x, (forall i, 0 <= i < k -> byte_at s (va + i) <> x) -> peek m x = peek (mem s) x
}.

Lemma copied_step s lo hi va bs k n m : user_map s lo hi -> lo <= va -> va + Z.of_nat (length bs) <= hi ->
  copied s lo hi va bs k m -> 0 <= k -> 0 <= n -> k + n <= Z.of_nat (length bs) -> (va + k) mod 4096 + n <= 4096 ->
  copied s lo hi va bs (k + n) (pokes (byte_at s (va + k)) (take (Z.to_nat n) (drop (Z.to_nat k) bs)) m).
Proof.
  intros Hm Hlo Hhi [Hin Hout] Hk Hn Hkn Hp. set (b0 := byte_at s (va + k)).
  assert (forall i, 0 <= i < n -> byte_at s (va + (k + i)) = b0 + i) as Hrun.
  { intros i Hi. unfold b0. rewrite <- byte_at_run by lia. f_equal. lia. }
  assert (length (take (Z.to_nat n) (drop (Z.to_nat k) bs)) = Z.to_nat n) as Hlen by (rewrite length_take, length_drop; lia).
  split.
  - intros i b Hi Hb. destruct (Z.lt_ge_cases i k) as [Hlt|Hge].
    + rewrite peek_pokes_out; [apply Hin; [lia | done]|]. rewrite Hlen. intros Hc.
      assert (va + i = va + (k + (byte_at s (va + i) - b0))); [|lia].
      apply (byte_at_inj s lo hi); [done | lia | lia |]. rewrite Hrun by lia. lia.
    + replace i with (k + (i - k)) by lia. rewrite Hrun by lia. rewrite peek_pokes.
      replace (b0 + (i - k) - b0) with (i - k) by lia. rewrite lookupZ_take, lookupZ_drop by lia.
      replace (Z.of_nat (Z.to_nat k) + (i - k)) with i by lia. by rewrite Hb.
  - intros x Hx. rewrite peek_pokes_out; [apply Hout; intros i Hi; apply Hx; lia|]. rewrite Hlen. intros Hc.
    apply (Hx (k + (x - b0))); [lia|]. rewrite Hrun by lia. lia.
Qed.

Lemma copy_out_run s lo hi va bs Q : uspace s -> user_map s lo hi -> lo <= va -> va + Z.of_nat (length bs) <= hi ->
  (forall m, copied s lo hi va bs (Z.of_nat (length bs)) m -> Q 0 (set_mem m s)) -> wp (copy_out curproc va bs) Q s.
Proof.
  intros Hu Hm Hva Hn HQ. pose proof (um_range _ _ _ Hm) as Hr. unfold copy_out.
  apply (wp_while_fuel (fun v s' => exists k m, 0 <= k <= Z.of_nat (length bs) /\ s' = set_mem m s /\
      copied s lo hi va bs k m /\ v = (drop (Z.to_nat k) bs, va + k))
    (fun v _ => rounds_left v.2 (Z.of_nat (length v.1)))).
  - exists 0, (mem s). split_and!; [lia | lia | by destruct s | | by rewrite Z.add_0_r]. split; [lia | done].
  - apply rounds_enough. lia.
  - intros v s' (k & m & Hk & -> & Hc & ->). unfold copy_out_round. rewrite length_drop.
    replace (Z.of_nat (length bs - Z.to_nat k)) with (Z.of_nat (length bs) - k) by lia.
    destruct (Z.leb_spec (Z.of_nat (length bs) - k) 0).
    { sos_steps. apply HQ. by replace (Z.of_nat (length bs)) with k by lia. }
    destruct (user_map_mem s m lo hi Hu Hm) as [Hu' Hm'].
    { intros x Hx. apply (cp_out _ _ _ _ _ _ _ Hc). intros i Hi. apply Hx. lia. }
    assert (is_u32 (va + k)) as Hsrc by (unfold is_u32; lia). pose proof (Z.mod_pos_bound (va + k) 4096 ltac:(lia)).
    rewrite bytes_this_round_spec by (done || lia). set (n := Z.min (4096 - (va + k) mod 4096) (Z.of_nat (length bs) - k)).
    assert (lo <= va + k < hi) as Hin by lia. sos_steps.
    eapply vaddr_to_sos_vaddr_run; [done | by apply (um_resident _ _ _ Hm') | done | by right |].
    pose proof (user_frame_ok s lo hi (va + k) Hu Hm Hin) as [Hfo _].
    change (byte_addr (set_mem m s) (fr ((va + k) / 4096)) (va + k)) with (byte_at s (va + k)).
    destruct (Z.eqb_spec (byte_at s (va + k)) 0) as [E|_]; [unfold byte_at, byte_addr in E; lia|]. sos_steps.
    rewrite drop_drop, u32_small by (unfold is_u32; lia). split.
    + exists (k + n), (pokes (byte_at s (va + k)) (take (Z.to_nat n) (drop (Z.to_nat k) bs)) m).
      split; [lia|]. split; [done|]. split; [by apply copied_step; try lia|]. f_equal; [f_equal; lia | lia].
    + cbn [fst snd]. rewrite !length_drop. pose proof (rounds_decrease (va + k) (Z.of_nat (length bs) - k) ltac:(lia)) as Hd.
      fold n in Hd. replace (Z.of_nat (length bs - (Z.to_nat k + Z.to_nat n))) with (Z.of_nat (length bs) - k - n) by lia.
      by replace (Z.of_nat (length bs - Z.to_nat k)) with (Z.of_nat (length bs) - k) by lia.
Qed.

(** C3: In a range of addresses of the current process whose pages are all
    resident, readable and writable, and lie in different frames, none of which
    holds a page table of the process ([user_map]), bytes copied out come back when they are copied in, however many pages they
    span; [copy_out] changes no byte outside them, and [copy_in] changes
    nothing.  Pages that must first be mapped or read back from the page file
    are not covered. *)
Theorem copy_roundtrip s lo hi va bs : uspace s -> user_map s lo hi -> lo <= va -> va + Z.of_nat (length bs) <= hi ->
  exists m, copy_out curproc va bs s = Ok (0, set_mem m s) /\
    copy_in curproc va (Z.of_nat (length bs)) (set_mem m s) = Ok (Some bs, set_mem m s) /\
    forall x, (forall i, 0 <= i < Z.of_nat (length bs) -> byte_at s (va + i) <> x) -> peek m x = peek (mem s) x.
Proof.
  intros Hu Hm Hva Hn. set (n := Z.of_nat (length bs)).
  assert (wp (copy_out curproc va bs) (fun r s' => r = 0 /\ exists m, s' = set_mem m s /\ copied s lo hi va bs n m) s) as Hwp
    by (eapply copy_out_run; eauto).
  apply wp_ok in Hwp as (r & s' & Eo & -> & m & -> & Hc). exists m. split; [done|]. split; [|by apply Hc].
  destruct (user_map_mem s m lo hi Hu Hm) as [Hu' Hm'].
  { intros x Hx. apply (cp_out _ _ _ _ _ _ _ Hc). intros i Hi. apply Hx. lia. }
  assert (wp (copy_in curproc va n) (fun r s' => r = Some bs /\ s' = set_mem m s) (set_mem m s)) as Hwp.
  { eapply copy_in_run; [done..|lia|]. intros bs' Hlen Hb. split; [|done]. f_equal. apply listZ_eq; [lia|].
    intros i Hi. rewrite (Hb i Hi). destruct (lookupZ_in_range bs i ltac:(lia)) as [b Hbi]. rewrite Hbi. f_equal.
    apply (cp_in _ _ _ _ _ _ _ Hc); [lia | done]. }
  by apply wp_ok in Hwp as (r & s' & Ei & -> & ->).
Qed.
End copies.

(** ** Example: one page, at 0x400000, in frame 0 *)

Definition copy_space : addrspace := Addrspace 1 0 0 0 0 1.
Definition copy_dir : page_directory := PageDirectory 0x40005000 0x40010000.
Definition copy_state : sos UtAllocator.ut_state toy_kernel :=
  set_mem demo_tables (set_dirs {[1 := copy_dir]} (set_spaces {[1 := copy_space]}
    (set_regions {[1 := Region 0x400000 0x401000 3 0]} (set_procs {[1 := demo_proc]}
      (set_kern (Toy (<[7 := 0x4000]> {[1 := 0x4000]}) ∅) one_frame))))).

Lemma one_frame_caps : toy_caps (kern one_frame) = {[1 := 0x4000]}.
Proof. by vm_compute. Qed.

Lemma copy_state_ft : exists L, ft_inv copy_state one_frame_table L {[0]}.
Proof.
  destruct one_frame_inv as (L & Hinv & _). exists L. unfold copy_state.
  pose proof one_frame_caps as E. revert Hinv E. generalize one_frame. intros s Hinv E.
  apply (ft_inv_map_step _ (set_kern (Toy (<[7 := 0x4000]> {[1 := 0x4000]}) ∅) s) _ _ L) in Hinv; [by destruct Hinv; split|].
  apply map_step_kern; [apply Hinv|]. intros c b Hc. cbn in Hc |- *. rewrite E in Hc.
  by apply lookup_singleton_Some in Hc as [<- <-].
Qed.

Lemma copy_state_uspace L : ft_inv copy_state one_frame_table L {[0]} ->
  uspace 1 demo_proc copy_space copy_dir [1] one_frame_table L {[0]} copy_state.
Proof.
  intros Hft. split; [done | | done | apply demo_tables_wf | done]. split; [done | done | |].
  - simpl. split; [done|]. split; [done|]. exists (Region 0x400000 0x401000 3 0). done.
  - assert (forall q r, q ∈ [1] -> regions copy_state !! q = Some r -> q = 1 /\ r = Region 0x400000 0x401000 3 0) as H1.
    { intros q r Hq Hr. apply list_elem_of_singleton in Hq as ->. split; [done|]. cbn in Hr. vm_compute in Hr. by injection Hr as <-. }
    split.
    + intros q r Hq Hr. destruct (H1 q r Hq Hr) as [_ ->]. simpl. lia.
    + intros q q' r r' Hq Hq' Hne Hr Hr'. destruct (H1 q r Hq Hr) as [-> _], (H1 q' r' Hq' Hr') as [-> _]. done.
Qed.

Lemma copy_state_map : user_map copy_dir [1] one_frame_table (fun _ => 0) copy_state 0x400000 0x401000.
Proof.
  split; [done | | |].
  - intros va Hva. split.
    + exists 7. rewrite PAGE_ALIGN_4K_spec by (unfold is_u32; lia).
      replace (va - va mod 4096) with 0x400000 by (Z.to_euclidean_division_equations; lia). done.
    + exists (FrameEntry 1 FIRST_CHANCE 0 0). done.
    + exists 1, (Region 0x400000 0x401000 3 0). split_and!; [|done..]. cbn [first_region].
      change (regions copy_state !! 1) with (Some (Region 0x400000 0x401000 3 0)). unfold WITHIN_REGION. cbn [start end_].
      rewrite (proj2 (Z.leb_le _ _)), (proj2 (Z.ltb_lt _ _)) by lia. done.
  - intros va vb Ha Hb _. Z.to_euclidean_division_equations. lia.
  - intros va Hva. cbv zeta. split; [done|]. intros i Hi. change (directory copy_dir) with 0x40005000.
    change (mem copy_state) with demo_tables. rewrite demo_tables_dir by done. by destruct (Z.eqb_spec i 1).
Qed.

Lemma copy_roundtrip_witness :
  exists m, copy_out 1 0x400ff0 [1; 2; 3] copy_state = Ok (0, set_mem m copy_state) /\
    copy_in 1 0x400ff0 3 (set_mem m copy_state) = Ok (Some [1; 2; 3], set_mem m copy_state) /\
    forall x, (forall i, 0 <= i < 3 -> byte_at (fun _ => 0) copy_state (0x400ff0 + i) <> x) -> peek m x = peek (mem copy_state) x.
Proof.
  destruct copy_state_ft as [L Hft].
  apply (copy_roundtrip 1 demo_proc copy_space copy_dir [1] one_frame_table L {[0]} (fun _ => 0) copy_state 0x400000 0x401000 0x400ff0 [1; 2; 3]);
    [by apply copy_state_uspace | apply copy_state_map | done | done].
Defined.
