(* ===== verification/Picoro.v ===== *)
(** * Picoro: the coroutine library

    Models apps/sos/src/coro/picoro.c: the lists of running and idle
    coroutines, linked through [next], and the calls that move a coroutine
    between them.  The saved contexts are not modelled: [pass] gives control
    to the head of the running list, and a call returns when control comes
    back.  [forked] are the coroutines that have not yet left the first call of
    [pass] in [coroutine_main].

    The theorems are about every state that creation, resumption, yielding and
    termination of coroutines can reach: [coroutine] never fails and returns a
    coroutine nobody else holds, and [resumable] accepts exactly the suspended
    coroutines and the last idle one. *)

From S2P Require Import Prelude SosState.

Inductive which := Running | Idle.

Record coros := Coros { nexts : gmap Z Z; running : Z; idle : Z; forked : gset Z }.

Definition head (w : which) (s : coros) : Z := match w with Running => running s | Idle => idle s end.
Definition set_head (w : which) (c : Z) (s : coros) : coros :=
  match w with
  | Running => Coros (nexts s) c (idle s) (forked s)
  | Idle => Coros (nexts s) (running s) c (forked s)
  end.
Definition set_forked (f : gset Z) (s : coros) : coros := Coros (nexts s) (running s) (idle s) f.

(** [c->next] *)
Definition get_next (c : Z) : M coros Z := fun s =>
  if c =? 0 then Err FNull
  else match nexts s !! c with Some n => Ok (n, s) | None => Err FBounds end.
Definition set_next (c n : Z) : M coros unit :=
  get_next c ;;; modify (fun s => Coros (<[c := n]> (nexts s)) (running s) (idle s) (forked s)).

Definition push (w : which) (c : Z) : M coros unit :=
  h <- gets (head w) ;; set_next c h ;;; modify (set_head w c).

Definition pop (w : which) : M coros Z :=
  c <- gets (head w) ;;
  n <- get_next c ;;
  modify (set_head w n) ;;;
  set_next c 0 ;;;
  ret c.

(** Control goes to the head of the running list, which must exist. *)
Definition pass : M coros Z := r <- gets running ;; get_next r ;;; ret r.

Definition resumable (c : Z) : M coros bool :=
  if c =? 0 then ret false else n <- get_next c ;; ret (n =? 0).

Definition resume (c : Z) : M coros Z :=
  b <- resumable c ;; c_assert b ;;; push Running c ;;; pass.

Definition yield : M coros Z := c <- pop Running ;; pass ;;; ret c.

(** [coroutine_start] up to the first [pass] of [coroutine_main]: a context at
    the address [me] of the new stack frame becomes idle. *)
Definition fork (me : Z) : M coros unit :=
  modify (fun s => Coros (<[me := 0]> (nexts s)) (running s) (idle s) ({[me]} ∪ forked s)) ;;;
  push Idle me.

(** [resume(pop(&idle), fun)]: a coroutine that returns from its first [pass]
    forks the next idle one; then it yields its own address to the creator.
    [frame s] is the address of the next stack frame. *)
Definition activate (frame : coros -> Z) : M coros Z :=
  c <- pop Idle ;;
  resume c ;;;
  s <- get ;;
  (if decide (c ∈ forked s) then
     modify (set_forked (forked s ∖ {[c]})) ;;; me <- gets frame ;; fork me
   else ret tt) ;;;
  yield ;;;
  ret c.

Definition coroutine (frame : coros -> Z) : M coros Z :=
  i <- gets idle ;;
  (if i =? 0 then me <- gets frame ;; fork me else ret tt) ;;;
  activate frame.

(** The end of the function a coroutine runs. *)
Definition finish : M coros Z := c <- pop Running ;; push Idle c ;;; pass.

Definition coro_getcur : M coros Z := gets running.

(** ** The lists *)

Fixpoint on_list (ns : gmap Z Z) (p : Z) (l : list Z) : Prop :=
  match l with
  | [] => p = 0
  | c :: l => p = c /\ c <> 0 /\ exists n, ns !! c = Some n /\ on_list ns n l
  end.

(** [R] runs on top of the initial context [first], [I] is idle; all others are
    suspended. *)
Record lists_inv (first : Z) (R I : list Z) (s : coros) : Prop := {
  li_running : on_list (nexts s) (running s) (R ++ [first]);
  li_idle : on_list (nexts s) (idle s) I;
  li_disjoint : NoDup (R ++ first :: I);
  li_suspended : forall c n, nexts s !! c = Some n -> c ∉ R ++ first :: I -> n = 0
}.

(** The last idle coroutine is the one that was forked last; before the first
    fork there is no other coroutine. *)
Record coro_inv (first : Z) (R I : list Z) (s : coros) : Prop := {
  ci_lists : lists_inv first R I s;
  ci_forked : forked s = list_to_set (option_list (last I));
  ci_start : I = [] -> dom (nexts s) = {[first]}
}.

(** What the program may do: create, resume a suspended coroutine, yield and
    return from a coroutine. *)
Inductive coro_step (frame : coros -> Z) (first : Z) : coros -> coros -> Prop :=
| step_create s s' c : coroutine frame s = Ok (c, s') -> coro_step frame first s s'
| step_resume s s' c r : (forall R I, coro_inv first R I s -> c ∉ R ++ first :: I) -> resume c s = Ok (r, s') -> coro_step frame first s s'
| step_yield s s' c : running s <> first -> yield s = Ok (c, s') -> coro_step frame first s s'
| step_finish s s' c : running s <> first -> finish s = Ok (c, s') -> coro_step frame first s s'.

Definition coro_init (first : Z) : coros := Coros {[first := 0]} first 0 ∅.

Lemma on_list_frame ns ns' p l : on_list ns p l -> (forall c, c ∈ l -> ns' !! c = ns !! c) -> on_list ns' p l.
Proof.
  revert p. induction l as [|c l IH]; intros p; simpl; [done|].
  intros (-> & Hc & n & Hn & Hl) Hf. split_and!; [done..|].
  exists n. split; [rewrite Hf by constructor; done|]. apply IH; [done|]. intros. apply Hf. by constructor.
Qed.

Lemma on_list_elem ns p l c : on_list ns p l -> c ∈ l -> c <> 0 /\ is_Some (ns !! c).
Proof.
  revert p. induction l as [|x l IH]; intros p; simpl; [by intros _ ?%not_elem_of_nil|].
  intros (-> & Hc & n & Hn & Hl) [->|H]%elem_of_cons; eauto.
Qed.

(** The link of a list element is null exactly when it is the last one. *)
Lemma on_list_last ns p l c n : on_list ns p l -> NoDup l -> c ∈ l -> ns !! c = Some n -> n = 0 <-> last l = Some c.
Proof.
  revert p. induction l as [|x l IH]; intros p; [by intros _ _ ?%not_elem_of_nil|].
  intros (-> & Hc & m & Hm & Hl) [Hx Hd]%NoDup_cons [->|H]%elem_of_cons Hn.
  - assert (m = n) as -> by congruence. destruct l as [|y l]; [by rewrite (Hl : n = 0)|].
    destruct Hl as (-> & Hy & _). split; [done|]. rewrite last_cons_cons. intros E.
    exfalso. apply Hx. by apply last_Some_elem_of.
  - destruct l as [|y l]; [by apply not_elem_of_nil in H|]. rewrite last_cons_cons. by apply IH with m.
Qed.

(** The idle list [I'] of [s'] is [I], maybe with coroutines that are new since
    [s], and no context is gone. *)
Record idle_grows (I I' : list Z) (s s' : coros) : Prop := {
  ig_kept : forall x, x ∈ I -> x ∈ I';
  ig_new : forall x, x ∈ I' -> x ∈ I \/ nexts s !! x = None;
  ig_dom : dom (nexts s) ⊆ dom (nexts s')
}.

Section lists.
Context (first : Z).
Implicit Types (s : coros) (R I : list Z).

Lemma wp_follow c n Q s : c <> 0 -> nexts s !! c = Some n -> Q n s -> wp (get_next c) Q s.
Proof. intros Hc Hn HQ. unfold wp, get_next. apply Z.eqb_neq in Hc. by rewrite Hc, Hn. Qed.

Lemma wp_link c n m Q s : c <> 0 -> nexts s !! c = Some n ->
  Q tt (Coros (<[c := m]> (nexts s)) (running s) (idle s) (forked s)) -> wp (set_next c m) Q s.
Proof. intros. unfold set_next. wp_steps. eapply wp_follow; [done..|]. by wp_steps. Qed.

Lemma lists_elem R I s c : lists_inv first R I s -> c ∈ R ++ first :: I -> c <> 0 /\ is_Some (nexts s !! c).
Proof.
  intros [Hr Hi _ _] Hc. rewrite cons_middle, app_assoc in Hc. apply elem_of_app in Hc as [Hc|Hc].
  - by eapply on_list_elem in Hr.
  - by eapply on_list_elem in Hi.
Qed.

Lemma pop_running_run c R I s Q : lists_inv first (c :: R) I s ->
  (forall s', lists_inv first R I s' -> nexts s' !! c = Some 0 -> forked s' = forked s -> dom (nexts s') = dom (nexts s) -> Q c s') ->
  wp (pop Running) Q s.
Proof.
  intros Hinv HQ. pose proof Hinv as [(Hc & Hc0 & n & Hn & Hr) Hi Hd Hs]. apply NoDup_cons in Hd as [Hcd Hd].
  unfold pop. wp_steps. cbn [head]. rewrite Hc. eapply wp_follow; [done..|]. wp_steps. eapply wp_link; [done..|].
  wp_steps. apply HQ; cbn; [|apply lookup_insert_eq | done | apply dom_insert_lookup_L; eauto].
  split; cbn; [| |done|].
  - eapply on_list_frame; [done|]. intros x Hx. apply lookup_insert_ne. set_solver.
  - eapply on_list_frame; [done|]. intros x Hx. apply lookup_insert_ne. set_solver.
  - intros x m [[<- <-]|[Hne Hx]]%lookup_insert_Some Hnx; [done|]. apply (Hs x); [done|]. set_solver.
Qed.

Lemma pop_idle_run c R I s Q : lists_inv first R (c :: I) s ->
  (forall s', lists_inv first R I s' -> nexts s' !! c = Some 0 -> forked s' = forked s -> dom (nexts s') = dom (nexts s) ->
     running s' = running s -> Q c s') ->
  wp (pop Idle) Q s.
Proof.
  intros Hinv HQ. pose proof Hinv as [Hr (Hc & Hc0 & n & Hn & Hi) Hd Hs].
  assert ((c ∉ R ++ first :: I) /\ NoDup (R ++ first :: I)) as [Hcd Hd'].
  { rewrite cons_middle, app_assoc in Hd |- *. rewrite <- Permutation_middle in Hd. by apply NoDup_cons in Hd. }
  unfold pop. wp_steps. cbn [head]. rewrite Hc. eapply wp_follow; [done..|]. wp_steps. eapply wp_link; [done..|].
  wp_steps. apply HQ; cbn; [|apply lookup_insert_eq | done | apply dom_insert_lookup_L; eauto | done].
  split; cbn; [| |done|].
  - eapply on_list_frame; [done|]. intros x Hx. apply lookup_insert_ne. set_solver.
  - eapply on_list_frame; [done|]. intros x Hx. apply lookup_insert_ne. set_solver.
  - intros x m [[<- <-]|[Hne Hx]]%lookup_insert_Some Hnx; [done|]. apply (Hs x); [done|]. set_solver.
Qed.

Lemma push_running_run c n R I s Q : lists_inv first R I s -> c <> 0 -> nexts s !! c = Some n -> c ∉ R ++ first :: I ->
  (forall s', lists_inv first (c :: R) I s' -> forked s' = forked s -> dom (nexts s') = dom (nexts s) -> Q tt s') ->
  wp (push Running c) Q s.
Proof.
  intros [Hr Hi Hd Hs] Hc0 Hc Hcd HQ. unfold push. wp_steps. eapply wp_link; [done..|]. wp_steps.
  apply HQ; cbn; [|done | apply dom_insert_lookup_L; eauto]. split; cbn.
  - split_and!; [done..|]. eexists. split; [apply lookup_insert_eq|].
    eapply on_list_frame; [done|]. intros x Hx. apply lookup_insert_ne. set_solver.
  - eapply on_list_frame; [done|]. intros x Hx. apply lookup_insert_ne. set_solver.
  - by apply NoDup_cons.
  - intros x m [[<- _]|[Hne Hx]]%lookup_insert_Some Hnx; [set_solver|]. apply (Hs x); [done|]. set_solver.
Qed.

Lemma push_idle_run c n R I s Q : lists_inv first R I s -> c <> 0 -> nexts s !! c = Some n -> c ∉ R ++ first :: I ->
  (forall s', lists_inv first R (c :: I) s' -> forked s' = forked s -> dom (nexts s') = dom (nexts s) -> running s' = running s -> Q tt s') ->
  wp (push Idle c) Q s.
Proof.
  intros [Hr Hi Hd Hs] Hc0 Hc Hcd HQ. unfold push. wp_steps. eapply wp_link; [done..|]. wp_steps.
  apply HQ; cbn; [|done | apply dom_insert_lookup_L; eauto | done]. split; cbn.
  - eapply on_list_frame; [done|]. intros x Hx. apply lookup_insert_ne. set_solver.
  - split_and!; [done..|]. eexists. split; [apply lookup_insert_eq|].
    eapply on_list_frame; [done|]. intros x Hx. apply lookup_insert_ne. set_solver.
  - rewrite cons_middle, app_assoc in Hd, Hcd |- *. rewrite <- Permutation_middle. by apply NoDup_cons.
  - intros x m [[<- _]|[Hne Hx]]%lookup_insert_Some Hnx; [set_solver|]. apply (Hs x); [done|]. set_solver.
Qed.
End lists.

Section steps.
Context (first : Z) (frame : coros -> Z).
Hypothesis frame_new : forall s, frame s <> 0 /\ nexts s !! frame s = None.
Implicit Types (s : coros) (R I : list Z).

Lemma pass_run R I s Q : lists_inv first R I s -> Q (running s) s -> wp pass Q s.
Proof.
  intros Hinv HQ. assert (running s ∈ R ++ first :: I) as Hr.
  { destruct Hinv as [Hr _ _ _]. destruct R; destruct Hr as [-> _]; set_solver. }
  destruct (lists_elem _ _ _ _ _ Hinv Hr) as [H0 [n Hn]].
  unfold pass. wp_steps. eapply wp_follow; [done..|]. by wp_steps.
Qed.

Lemma resumable_run R I s c Q : lists_inv first R I s -> c <> 0 -> is_Some (nexts s !! c) ->
  Q (bool_decide ((c ∉ R) /\ ((c ∉ I) \/ last I = Some c))) s -> wp (resumable c) Q s.
Proof.
  intros Hinv H0 [n Hn] HQ. pose proof Hinv as [Hr Hi Hd Hs]. unfold resumable. rewrite (proj2 (Z.eqb_neq _ _) H0).
  wp_steps. eapply wp_follow; [done..|]. wp_steps. replace (n =? 0) with (bool_decide (n = 0)); 
    [|destruct (Z.eqb_spec n 0); [by apply bool_decide_true | by apply bool_decide_false]].
  erewrite bool_decide_ext; [done|]. pose proof Hd as (HdR & HdRI & HdFI)%NoDup_app. apply NoDup_cons in HdFI as [HdF HdI].
  assert (NoDup (R ++ [first])) as HdR'.
  { apply NoDup_app. split_and!; [done| |apply NoDup_singleton]. intros x Hx. specialize (HdRI x Hx). set_solver. }
  destruct (decide (c ∈ R ++ [first])) as [Hc|Hc].
  { rewrite (on_list_last _ _ _ _ _ Hr HdR' Hc Hn), last_snoc. apply elem_of_app in Hc as [Hc|Hc]; [|apply list_elem_of_singleton in Hc as ->].
    - specialize (HdRI c Hc). set_solver.
    - split; [|done]. intros _. split; [|by left]. intros Hc. specialize (HdRI first Hc). set_solver. }
  destruct (decide (c ∈ I)) as [Hci|Hci].
  { rewrite (on_list_last _ _ _ _ _ Hi HdI Hci Hn). set_solver. }
  split; [set_solver|]. intros _. apply (Hs c); [done|]. set_solver.
Qed.

Lemma resume_run R I s c Q : lists_inv first R I s -> c <> 0 -> is_Some (nexts s !! c) -> c ∉ R ++ first :: I ->
  (forall s', lists_inv first (c :: R) I s' -> forked s' = forked s -> dom (nexts s') = dom (nexts s) -> Q c s') ->
  wp (resume c) Q s.
Proof.
  intros Hinv H0 [n Hn] Hc HQ. unfold resume. wp_steps. eapply resumable_run; [done..|by eauto|].
  rewrite bool_decide_true by set_solver. wp_steps. apply wp_assert; [done|]. wp_steps.
  eapply push_running_run; [done..|]. intros s' Hinv' Hf Hdom. wp_steps. eapply pass_run; [done|].
  replace (running s') with c; [by apply HQ|]. by destruct Hinv' as [[-> _] _ _ _].
Qed.

Lemma yield_run c R I s Q : lists_inv first (c :: R) I s ->
  (forall s', lists_inv first R I s' -> nexts s' !! c = Some 0 -> forked s' = forked s -> dom (nexts s') = dom (nexts s) -> Q c s') ->
  wp yield Q s.
Proof.
  intros Hinv HQ. unfold yield. wp_steps. eapply pop_running_run; [done|]. intros s' Hinv' Hn Hf Hdom.
  wp_steps. eapply pass_run; [done|]. wp_steps. by apply HQ.
Qed.

Lemma running_list R I s : lists_inv first R I s -> running s <> first -> exists c R', R = c :: R'.
Proof. intros [Hr _ _ _] Hne. destruct R; [by destruct Hr|eauto]. Qed.

Lemma finish_run c R I s Q : coro_inv first (c :: R) I s ->
  (forall r s', coro_inv first R (c :: I) s' -> Q r s') -> wp finish Q s.
Proof.
  intros [Hinv Hf Hst] HQ. destruct (lists_elem first (c :: R) I s c Hinv) as [H0 Hc]; [set_solver|].
  assert (c ∉ R ++ first :: I) as Hcd by (destruct Hinv as [_ _ Hd _]; by apply NoDup_cons in Hd as [? _]).
  assert (I <> []) as HI by (intros E; specialize (Hst E); apply elem_of_dom in Hc; set_solver).
  unfold finish. wp_steps. eapply pop_running_run; [done|]. intros s1 Hinv1 Hn Hf1 _. wp_steps.
  eapply push_idle_run; [done..|]. intros s2 Hinv2 Hf2 _ _. wp_steps. eapply pass_run; [done|]. apply HQ.
  split; [done| |done]. rewrite Hf2, Hf1, Hf. by destruct I.
Qed.

Lemma fork_run R s Q : lists_inv first R [] s ->
  (forall s', lists_inv first R [frame s] s' -> forked s' = {[frame s]} ∪ forked s -> running s' = running s ->
     dom (nexts s') = {[frame s]} ∪ dom (nexts s) -> Q tt s') ->
  wp (fork (frame s)) Q s.
Proof.
  intros Hinv HQ. destruct (frame_new s) as [H0 Hn]. unfold fork. wp_steps.
  assert (frame s ∉ R ++ [first]) as Hnew.
  { intros Hin. destruct (lists_elem _ _ _ _ _ Hinv Hin) as [_ [n Hx]]. congruence. }
  eapply (push_idle_run first (frame s) 0 R []); cbn; [|done | apply lookup_insert_eq | done |].
  - destruct Hinv as [Hr Hi Hd Hs]. split; cbn; [|done | done |].
    + eapply on_list_frame; [done|]. intros x Hx. apply lookup_insert_ne. set_solver.
    + intros c m [[_ <-]|[_ Hx]]%lookup_insert_Some Hc; [done|]. by apply (Hs c).
  - intros s' Hinv' Hf Hdom Hrun. apply HQ; [done..|]. rewrite Hdom. by rewrite dom_insert_L.
Qed.

Lemma running_det R I I' s s' : lists_inv first R I s -> lists_inv first R I' s' -> running s = running s'.
Proof. intros [Hr _ _ _] [Hr' _ _ _]. by destruct R; destruct Hr as [-> _], Hr' as [-> _]. Qed.

Lemma set_forked_lists R I s f : lists_inv first R I s -> lists_inv first R I (set_forked f s).
Proof. intros []. by split. Qed.

(** The coroutine taken from the idle list is suspended afterwards, and control
    is where it was. *)
Lemma activate_run c R I s Q : lists_inv first R (c :: I) s -> forked s = list_to_set (option_list (last (c :: I))) ->
  (forall I' s', coro_inv first R I' s' -> c <> 0 -> nexts s' !! c = Some 0 -> c ∉ R ++ first :: I' -> idle_grows I I' s s' -> Q c s') ->
  wp (activate frame) Q s.
Proof.
  intros Hinv Hf HQ. destruct (lists_elem first R (c :: I) s c Hinv) as [H0 [n Hn]]; [set_solver|].
  assert (c ∉ R ++ first :: I) as Hc.
  { destruct Hinv as [_ _ Hd _]. rewrite cons_middle, app_assoc, <- Permutation_middle, <- app_assoc in Hd. apply NoDup_cons in Hd as [Hx _]. exact Hx. }
  unfold activate. wp_steps. eapply pop_idle_run; [done|]. intros s1 Hinv1 Hn1 Hf1 Hdom1 _. wp_steps.
  eapply resume_run; [done | done | by eauto | done |]. intros s2 Hinv2 Hf2 Hdom2. wp_steps.
  rewrite Hf2, Hf1, Hf. destruct I as [|d I].
  - rewrite decide_True by set_solver. wp_steps. change (option_list (last [c])) with [c].
    apply fork_run with (R := c :: R); [by apply set_forked_lists|]. set (f := frame _).
    intros s3 Hinv3 Hf3 _ Hdom3. wp_steps. eapply yield_run; [done|]. intros s4 Hinv4 Hn4 Hf4 Hdom4. wp_steps.
    apply (HQ [f]); [|done | done | |].
    + split; [done| |done]. rewrite Hf4, Hf3. cbn. set_solver.
    + destruct Hinv3 as [_ _ Hd3 _]. by apply NoDup_cons in Hd3 as [? _].
    + cbn in Hdom3. split; [set_solver | | set_solver]. intros x ->%list_elem_of_singleton. right. apply not_elem_of_dom.
      rewrite <- Hdom1, <- Hdom2. apply not_elem_of_dom. apply (frame_new (set_forked _ s2)).
  - rewrite decide_False.
    2:{ rewrite last_cons_cons. destruct (last (d :: I)) as [x|] eqn:E; [|set_solver]. apply last_Some_elem_of in E. set_solver. }
    wp_steps. eapply yield_run; [done|]. intros s3 Hinv3 Hn3 Hf3 Hdom3. wp_steps. apply (HQ (d :: I)); [|done..|].
    + split; [done | by rewrite Hf3, Hf2, Hf1, Hf | done].
    + split; [done | by left | by rewrite Hdom3, Hdom2, Hdom1].
Qed.

Lemma coroutine_run R I s Q : coro_inv first R I s ->
  (forall c I' s', coro_inv first R I' s' -> c <> 0 -> nexts s' !! c = Some 0 -> c ∉ R ++ first :: I' ->
     (exists J, I = c :: J /\ idle_grows J I' s s') \/ (nexts s !! c = None /\ I = [] /\ idle_grows [] I' s s') -> Q c s') ->
  wp (coroutine frame) Q s.
Proof.
  intros [Hinv Hf Hst] HQ. unfold coroutine. wp_steps. destruct I as [|c I].
  - assert (idle s = 0) as -> by (by destruct Hinv). change (0 =? 0) with true. cbv iota. wp_steps.
    eapply fork_run; [done|]. intros s1 Hinv1 Hf1 Hr1 Hdom1. apply activate_run with (frame s) R []; [done | by rewrite Hf1, Hf; set_solver |].
    intros I' s' Hinv' Hc0 Hn Hc [Hk Hnew Hd]. apply (HQ _ I'); [done..|]. right. split; [apply frame_new|]. split; [done|].
    split; [done | | set_solver]. intros x [?|Hx%not_elem_of_dom]%Hnew; [by left|]. right. apply not_elem_of_dom. set_solver.
  - pose proof Hinv as [_ (Hc & H0 & _) _ _]. rewrite Hc, (proj2 (Z.eqb_neq _ _) H0). wp_steps.
    apply activate_run with c R I; [done..|]. intros I' s' Hinv' Hc0 Hn Hc' HI. apply (HQ _ I'); [done..|]. left. eauto.
Qed.

Lemma resume_known c s r s' : resume c s = Ok (r, s') -> c <> 0 /\ is_Some (nexts s !! c).
Proof.
  unfold resume, resumable, get_next, bind. destruct (Z.eqb_spec c 0) as [->|H0]; [done|].
  destruct (nexts s !! c) eqn:E; [|done]. intros _. eauto.
Qed.

Definition coro_reachable : coros -> Prop := rtc (coro_step frame first) (coro_init first).

Lemma coro_step_inv R I s s' : coro_inv first R I s -> coro_step frame first s s' -> exists R' I', coro_inv first R' I' s'.
Proof.
  intros Hinv Hstep. destruct Hstep as [s s' c E|s s' c r Hc E|s s' c Hne E|s s' c Hne E]; [|apply resume_known in E as Hk|..];
    apply (wp_run _ (fun _ s' => exists R' I', coro_inv first R' I' s') _ _ _) in E; try exact E.
  - eapply coroutine_run; [done|]. eauto.
  - destruct Hk as [H0 Hk]. specialize (Hc _ _ Hinv). destruct Hinv as [Hl Hf Hst].
    eapply resume_run; [done..|]. intros s1 Hinv1 Hf1 Hdom. exists (c :: R), I.
    split; [done | by rewrite Hf1 | intros E'; rewrite Hdom; auto].
  - destruct (running_list R I s) as (d & R' & ->); [by destruct Hinv | done |].
    destruct Hinv as [Hl Hf Hst]. eapply yield_run; [done|]. intros s1 Hinv1 Hn Hf1 Hdom. exists R', I.
    split; [done | by rewrite Hf1 | intros E'; rewrite Hdom; auto].
  - destruct (running_list R I s) as (d & R' & ->); [by destruct Hinv | done |].
    eapply finish_run; [done|]. eauto.
Qed.

Lemma coro_reachable_inv s : first <> 0 -> coro_reachable s -> exists R I, coro_inv first R I s.
Proof.
  intros H0. revert s. unfold coro_reachable. apply rtc_ind_r; [|intros s s' _ Hs (R & I & Hinv); by eapply coro_step_inv].
  exists [], []. split; [split|..]; cbn.
  - split_and!; [done..|]. exists 0. by rewrite lookup_singleton_eq.
  - done.
  - apply NoDup_singleton.
  - intros c n [_ <-]%lookup_singleton_Some _. done.
  - done.
  - intros _. by rewrite dom_singleton_L.
Qed.

(** C8: Let no stack frame be at the address of a live context.  In every
    reachable state [coroutine] returns a coroutine that nobody else holds.  It
    was idle or is new; afterwards it is on neither list and has left the first
    [pass] of [coroutine_main], and it can be resumed.  The running list is
    unchanged, so control is with the caller; every coroutine that was suspended
    still is and is another one; and the other idle ones stay idle. *)
Theorem coroutine_spec s : first <> 0 -> coro_reachable s ->
  exists c s' R I I', coroutine frame s = Ok (c, s') /\ coro_inv first R I s /\ coro_inv first R I' s' /\
    ((c ∈ I) \/ nexts s !! c = None) /\ (c ∉ R ++ first :: I') /\ (c ∉ forked s') /\ resumable c s' = Ok (true, s') /\
    running s' = running s /\
    (forall x, is_Some (nexts s !! x) -> x ∉ R ++ first :: I -> is_Some (nexts s' !! x) /\ (x ∉ R ++ first :: I') /\ x <> c) /\
    (forall x, x ∈ I -> x <> c -> x ∈ I') /\ coro_reachable s'.
Proof.
  intros H0 Hr. destruct (coro_reachable_inv s H0 Hr) as (R & I & Hinv).
  assert (wp (coroutine frame) (fun c s' => exists I', coro_inv first R I' s' /\ wp (resumable c) (fun b s2 => b = true /\ s2 = s') s' /\
    (c ∉ R ++ first :: I') /\
    ((exists J, I = c :: J /\ idle_grows J I' s s') \/ (nexts s !! c = None /\ I = [] /\ idle_grows [] I' s s'))) s) as Hwp.
  { eapply coroutine_run; [done|]. intros c I' s' Hinv' Hc0 Hn Hc Hnew. exists I'. split_and!; [done | | done | done].
    eapply resumable_run; [apply Hinv' | done | by eauto |]. split; [|done]. apply bool_decide_true. set_solver. }
  apply wp_ok in Hwp as (c & s' & E & I' & Hinv' & Hres & Hc & Hnew). apply wp_ok in Hres as (b & s2 & Er & -> & ->).
  exists c, s', R, I, I'. split_and!; [done..| | done | | done | | | |].
  - destruct Hnew as [(J & -> & _)|(? & _)]; [left; by constructor | by right].
  - rewrite (ci_forked _ _ _ _ Hinv'). destruct (last I') as [x|] eqn:El; [|set_solver]. apply last_Some_elem_of in El. set_solver.
  - eapply running_det; [apply Hinv'|apply Hinv].
  - intros x Hx Hxl. assert (exists J, (forall y, y ∈ J -> y ∈ I) /\ idle_grows J I' s s' /\ x <> c) as (J & HJ & [_ Hig Hdom] & Hne).
    { destruct Hnew as [(J & -> & Hg)|(Hn & -> & Hg)]; [exists J | exists []]; split_and!; try done; [set_solver | set_solver |].
      intros ->. rewrite Hn in Hx. by destruct Hx. }
    apply elem_of_dom in Hx as Hd. split_and!; [apply elem_of_dom; set_solver | | done].
    intros [?|[->|Hi]%elem_of_cons]%elem_of_app; [set_solver | set_solver |]. destruct (Hig x Hi) as [?|Hn]; [set_solver|].
    rewrite Hn in Hx. by destruct Hx.
  - intros x Hx Hne. destruct Hnew as [(J & -> & [Hk _ _])|(_ & -> & _)]; [|by apply not_elem_of_nil in Hx].
    apply Hk. set_solver.
  - eapply rtc_r; [done|]. by eapply step_create.
Qed.

(** In every reachable state [resumable] holds of the suspended
    coroutines, of the initial context and of the last idle coroutine, and of
    no other. *)
Theorem resumable_spec s : first <> 0 -> coro_reachable s ->
  exists R I, coro_inv first R I s /\ forall c, is_Some (nexts s !! c) -> c <> 0 ->
    resumable c s = Ok (bool_decide ((c ∉ R) /\ ((c ∉ I) \/ last I = Some c)), s).
Proof.
  intros H0 Hr. destruct (coro_reachable_inv s H0 Hr) as (R & I & Hinv). exists R, I. split; [done|].
  intros c Hc Hc0. assert (wp (resumable c) (fun b s' => b = bool_decide ((c ∉ R) /\ ((c ∉ I) \/ last I = Some c)) /\ s' = s) s) as Hwp.
  { eapply resumable_run; [apply Hinv|done..]. }
  by apply wp_ok in Hwp as (b & s' & -> & -> & ->).
Qed.
End steps.

(** ** Example: a coroutine is created and suspended, another one is idle *)

Definition demo_frame (s : coros) : Z := new_ptr (nexts s).

Lemma demo_frame_new s : demo_frame s <> 0 /\ nexts s !! demo_frame s = None.
Proof. unfold demo_frame. split; [pose proof (new_ptr_pos (nexts s)); lia | apply new_ptr_fresh]. Qed.

Definition run_coro {A} (m : M coros A) (s : coros) : coros := match m s with Ok (_, s') => s' | Err _ => s end.

Definition demo_coros : coros := run_coro (coroutine demo_frame) (coro_init 1).

Lemma demo_coros_reachable : coro_reachable 1 demo_frame demo_coros.
Proof. apply rtc_once. apply step_create with 2. by vm_compute. Qed.

Lemma coroutine_spec_witness :
  exists c s' R I I', coroutine demo_frame demo_coros = Ok (c, s') /\ coro_inv 1 R I demo_coros /\ coro_inv 1 R I' s' /\
    ((c ∈ I) \/ nexts demo_coros !! c = None) /\ (c ∉ R ++ 1 :: I') /\ (c ∉ forked s') /\ resumable c s' = Ok (true, s') /\
    running s' = running demo_coros /\
    (forall x, is_Some (nexts demo_coros !! x) -> x ∉ R ++ 1 :: I -> is_Some (nexts s' !! x) /\ (x ∉ R ++ 1 :: I') /\ x <> c) /\
    (forall x, x ∈ I -> x <> c -> x ∈ I') /\ coro_reachable 1 demo_frame s'.
Proof. apply (coroutine_spec 1 demo_frame demo_frame_new); [done | apply demo_coros_reachable]. Defined.

Lemma resumable_spec_witness :
  exists R I, coro_inv 1 R I demo_coros /\ forall c, is_Some (nexts demo_coros !! c) -> c <> 0 ->
    resumable c demo_coros = Ok (bool_decide ((c ∉ R) /\ ((c ∉ I) \/ last I = Some c)), demo_coros).
Proof. apply (resumable_spec 1 demo_frame demo_frame_new); [done | apply demo_coros_reachable]. Defined.
