(* ===== verification/ProcClaims.v ===== *)
(** * ProcClaims: theorems about processes and system calls

    The choice of a pid, the way of a message from a process to its handler,
    the end of a process that exits, and the descriptor one past the table. *)

From S2P Require Import Prelude Arith ListLib Memory SosState FrameTable UtInterface PageTable AddrSpace Nfs Pager Vm Serial Vfs Elf Proc Syscalls.

Section pids.
Context {U K : Type} `{!Kernel K} `{!UtAlloc U} `{!Threads K} `{!Nfs K} `{!World (sos U K)}.
Local Abbreviation S := (sos U K).
Implicit Types s : S.

(** The pid [k] places after [curr_pid], in cyclic order. *)
Definition pid_at s (k : Z) : Z := (curr_pid s + k) mod MAX_PROCS.

Definition pid_free s (p : Z) : Prop := sos_procs s !z p = Some 0.

Lemma pid_at_range s k : 0 <= pid_at s k < MAX_PROCS.
Proof. apply Z.mod_pos_bound. done. Qed.

Lemma pid_at_next s k : (pid_at s k + 1) mod MAX_PROCS = pid_at s (k + 1).
Proof. unfold pid_at. rewrite Zplus_mod_idemp_l. f_equal. lia. Qed.

Lemma set_curr_pid_twice s a b : set_curr_pid a (set_curr_pid b s) = set_curr_pid a s.
Proof. by destruct s. Qed.

Lemma pid_slot s p : Z.of_nat (length (sos_procs s)) = MAX_PROCS -> 0 <= p < MAX_PROCS -> exists x, sos_procs s !z p = Some x.
Proof. intros Hl Hp. apply lookupZ_is_Some. lia. Qed.

Lemma set_curr_pid_wrap s : 0 <= curr_pid s < MAX_PROCS -> set_curr_pid (pid_at s MAX_PROCS) s = s.
Proof.
  intros Hc. assert (pid_at s MAX_PROCS = curr_pid s) as ->; [|by destruct s].
  unfold pid_at, MAX_PROCS in *. Z.to_euclidean_division_equations. lia.
Qed.

Lemma pid_at_wrap s k : 0 < k <= MAX_PROCS -> 0 <= curr_pid s < MAX_PROCS -> pid_at s k = curr_pid s <-> k = MAX_PROCS.
Proof. intros Hk Hc. unfold pid_at, MAX_PROCS in *. Z.to_euclidean_division_equations. lia. Qed.

Lemma pid_at_dist s j : 0 <= j < MAX_PROCS -> (curr_pid s - 1 - pid_at s j) mod MAX_PROCS = MAX_PROCS - 1 - j.
Proof.
  intros Hj. unfold pid_at. rewrite Zminus_mod_idemp_r. unfold MAX_PROCS in *. Z.to_euclidean_division_equations. lia.
Qed.

(** The loop: after [j] rounds the pids up to the [j]-th are in use. *)
Lemma next_pid_loop s Q :
  Z.of_nat (length (sos_procs s)) = MAX_PROCS -> 0 <= curr_pid s < MAX_PROCS -> ~ pid_free s (curr_pid s) ->
  (forall k, 0 < k < MAX_PROCS -> pid_free s (pid_at s k) -> (forall j, 0 <= j < k -> ~ pid_free s (pid_at s j)) ->
     Q true (set_curr_pid (pid_at s k) s)) ->
  ((forall j, 0 <= j < MAX_PROCS -> ~ pid_free s (pid_at s j)) -> Q false s) ->
  wp (while_fuel (1 + Z.to_nat MAX_PROCS)%nat (fun _ =>
        modify (fun s => set_curr_pid ((curr_pid s + 1) mod MAX_PROCS) s) ;;;
        s' <- get ;;
        p <- rd (sos_procs s') (curr_pid s') ;;
        ret (if p =? 0 then inr true
             else if negb (curr_pid s' =? curr_pid s) then inl tt else inr false)) tt) Q s.
Proof.
  intros Hl Hc Hbusy HQ1 HQ2.
  apply (wp_while_fuel (fun _ s' => exists j, 0 <= j < MAX_PROCS /\ s' = set_curr_pid (pid_at s j) s /\
     forall i, 0 <= i <= j -> ~ pid_free s (pid_at s i))
    (fun _ s' => Z.to_nat ((curr_pid s - 1 - curr_pid s') mod MAX_PROCS))).
  - assert (pid_at s 0 = curr_pid s) as E0 by (unfold pid_at; rewrite Z.add_0_r, Z.mod_small by done; done).
    exists 0. split; [done|]. split; [rewrite E0; by destruct s|]. intros i Hi. replace i with 0 by lia. by rewrite E0.
  - pose proof (Z.mod_pos_bound (curr_pid s - 1 - curr_pid s) MAX_PROCS ltac:(done)). lia.
  - intros [] s' (j & Hj & -> & Hprev). wp_steps. cbn [curr_pid set_curr_pid sos_procs]. rewrite pid_at_next, set_curr_pid_twice.
    destruct (pid_slot s (pid_at s (j + 1)) Hl (pid_at_range _ _)) as [x Hx]. eapply wp_rd; [done|]. wp_steps.
    destruct (Z.eqb_spec x 0) as [->|Hx0].
    { destruct (Z.eq_dec j (MAX_PROCS - 1)) as [->|Hj']; [|apply HQ1; [lia | done |]; intros; apply Hprev; lia].
      exfalso. apply Hbusy. unfold pid_free. rewrite <- Hx. f_equal. unfold pid_at.
      replace (curr_pid s + (MAX_PROCS - 1 + 1)) with (curr_pid s + 1 * MAX_PROCS) by lia.
      rewrite Z.mod_add, Z.mod_small by done. done. }
    assert (~ pid_free s (pid_at s (j + 1))) as Hn by (unfold pid_free; congruence).
    destruct (Z.eqb_spec (pid_at s (j + 1)) (curr_pid s)) as [E|E]; bred.
    + apply pid_at_wrap in E; [|lia|done]. rewrite E, set_curr_pid_wrap by done. apply HQ2. intros i Hi. apply Hprev. lia.
    + assert (j + 1 < MAX_PROCS) as Hj1.
      { destruct (Z.eq_dec (j + 1) MAX_PROCS) as [E1|]; [|lia]. destruct E. rewrite E1. by apply pid_at_wrap. }
      split.
      * exists (j + 1). split; [lia|]. split; [done|]. intros i Hi. destruct (Z.eq_dec i (j + 1)) as [->|]; [done|]. apply Hprev. lia.
      * cbn [curr_pid set_curr_pid]. rewrite !pid_at_dist by lia. lia.
Qed.

(** C33: [proc_next_pid] ends and returns the first free pid from [curr_pid] on,
    in cyclic order, and advances [curr_pid] past it; it fails, and changes
    nothing, exactly when every pid is in use. *)
Theorem proc_next_pid_spec s :
  Z.of_nat (length (sos_procs s)) = MAX_PROCS -> 0 <= curr_pid s < MAX_PROCS ->
  (exists k, 0 <= k < MAX_PROCS /\ pid_free s (pid_at s k) /\ (forall j, 0 <= j < k -> ~ pid_free s (pid_at s j)) /\
     proc_next_pid s = Ok (Some (pid_at s k), set_curr_pid (pid_at s (k + 1)) s)) \/
  ((forall j, 0 <= j < MAX_PROCS -> ~ pid_free s (pid_at s j)) /\ proc_next_pid s = Ok (None, s)).
Proof.
  intros Hl Hc. pose (Q := fun r s' =>
    (exists k, 0 <= k < MAX_PROCS /\ pid_free s (pid_at s k) /\ (forall j, 0 <= j < k -> ~ pid_free s (pid_at s j)) /\
       r = Some (pid_at s k) /\ s' = set_curr_pid (pid_at s (k + 1)) s) \/
    ((forall j, 0 <= j < MAX_PROCS -> ~ pid_free s (pid_at s j)) /\ r = None /\ s' = s)).
  assert (wp proc_next_pid Q s) as Hwp.
  { unfold proc_next_pid. wp_steps. destruct (pid_slot s (curr_pid s) Hl Hc) as [x Hx]. eapply wp_rd; [done|].
    assert (pid_at s 0 = curr_pid s) as E0 by (unfold pid_at; rewrite Z.add_0_r, Z.mod_small by done; done).
    wp_steps. destruct (Z.eqb_spec x 0) as [->|Hx0].
    - wp_steps. bred. wp_steps. left. exists 0. rewrite !E0. split; [done|]. split; [done|]. split; [lia|]. split; [done|].
      by rewrite <- (pid_at_next s 0), E0.
    - apply next_pid_loop; [done | done | unfold pid_free; congruence | |].
      + intros k Hk Hf Hbusy. bred. wp_steps. left. exists k. split; [lia|]. split; [done|]. split; [done|]. split; [done|].
        cbn [curr_pid set_curr_pid]. by rewrite set_curr_pid_twice, pid_at_next.
      + intros Hbusy. bred. wp_steps. by right. }
  apply wp_ok in Hwp as (r & s' & E & [(k & Hk & Hf & Hb & -> & ->)|(Hb & -> & ->)]); [left; eauto 6 | by right].
Qed.
End pids.

Section syscalls.
Context {U K : Type} `{!Kernel K} `{!UtAlloc U} `{!Threads K} `{!Nfs K} `{!World (sos U K)}.
Context (stale : region -> option region) (elf_header ep : Z) (list_fuel : nat).
Local Abbreviation S := (sos U K).
Implicit Types s : S.

Lemma bind_ok {A B} (m : M S A) (k : A -> M S B) s a s' : m s = Ok (a, s') -> bind m k s = k a s'.
Proof. unfold bind. by intros ->. Qed.

Lemma getmr_run s i v : mrs s !z i = Some v -> seL4_GetMR i s = Ok (v, s).
Proof. unfold seL4_GetMR, bind, get, rd. by intros ->. Qed.

Lemma load_run {A} (h : heap S A) s p x : p <> 0 -> hget h s !! p = Some x -> load h p s = Ok (x, s).
Proof. intros H0%Z.eqb_neq Hx. unfold load. by rewrite H0, Hx. Qed.

Lemma update_run {A} (h : heap S A) s p x f : p <> 0 -> hget h s !! p = Some x ->
  update h p f s = Ok (tt, hset h (<[p := f x]> (hget h s)) s).
Proof. intros H0 Hx. unfold update. by rewrite (bind_ok _ _ _ _ _ (load_run h s p x H0 Hx)). Qed.

Lemma get_proc_run s p x : 0 <= p < MAX_PROCS -> sos_procs s !z p = Some x -> get_proc p s = Ok (x, s).
Proof.
  intros Hp Hx. unfold get_proc. rewrite (proj2 (ISINRANGE_spec 0 p MAX_PROCS ltac:(done))) by lia.
  unfold bind, get, rd. cbn [negb]. by rewrite Hx.
Qed.

(** The badge of a process is not that of an interrupt and gives back the pid. *)
Lemma badge_pid p : 0 <= p < MAX_PROCS ->
  Z.land (SET_PROCID_BADGE NEW_EP_BADGE p) IRQ_EP_BADGE = 0 /\ GET_PROCID_BADGE (SET_PROCID_BADGE NEW_EP_BADGE p) = p.
Proof.
  intros Hp. assert (p ∈ (Z.of_nat <$> seq 0 16)) as Hin.
  { apply list_elem_of_fmap. exists (Z.to_nat p). unfold MAX_PROCS in Hp. rewrite elem_of_seq. lia. }
  cbn in Hin. repeat (apply elem_of_cons in Hin as [->|Hin]; [by vm_compute|]). by apply not_elem_of_nil in Hin.
Qed.

(** A message through the endpoint [proc_start] minted for a process
    reaches the handler of that process: a system call [handle_syscall], a
    fault [vm_fault]. *)
Theorem message_routing spawn network_irq timer_interrupt p s : 0 <= p < MAX_PROCS ->
  let badge := SET_PROCID_BADGE NEW_EP_BADGE p in
  handle_message stale elf_header ep list_fuel spawn network_irq timer_interrupt badge seL4_NoFault s =
    spawn (handle_syscall stale elf_header ep list_fuel) p s /\
  handle_message stale elf_header ep list_fuel spawn network_irq timer_interrupt badge seL4_VMFault s = spawn (vm_fault stale) p s.
Proof. intros Hp badge. destruct (badge_pid p Hp) as [H1 H2]. unfold handle_message, badge. by rewrite H1, H2. Qed.

(** C34: Closing the descriptor one past the table reads outside the table: the
    range check of [fdtable_close_fd] admits it. *)
Theorem syscall_close_past_table s curproc p t :
  curproc <> 0 -> procs s !! curproc = Some p -> file_table p <> 0 -> fdtables (fs s) !! file_table p = Some t ->
  Z.of_nat (length t) = PROCESS_MAX_FILES -> mrs s !z 1 = Some PROCESS_MAX_FILES ->
  syscall_close curproc s = Err FBounds.
Proof.
  intros Hc Hp Hf Ht Hl Hm. unfold syscall_close. rewrite (bind_ok _ _ _ _ _ (getmr_run s 1 _ Hm)).
  rewrite (bind_ok _ _ _ _ _ (load_run h_procs s curproc p Hc Hp)). unfold fdtable_close_fd, bind at 1.
  change (negb (ISINRANGE 0 (i32 PROCESS_MAX_FILES) PROCESS_MAX_FILES)) with false. cbv iota.
  rewrite (bind_ok _ _ _ _ _ (load_run h_fdtables s (file_table p) t Hf Ht)). unfold bind at 1, rd.
  assert (t !z i32 PROCESS_MAX_FILES = None) as -> by (apply lookupZ_None; rewrite Hl; by intros [_ ?]). done.
Qed.

Definition with_proc s (c : Z) (p : proc) : S := set_procs (<[c := p]> (procs s)) s.

Lemma with_proc_twice s c p q : with_proc (with_proc s c p) c q = with_proc s c q.
Proof. unfold with_proc. cbn. by rewrite insert_insert_eq. Qed.

Lemma with_proc_lookup s c p : procs (with_proc s c p) !! c = Some p.
Proof. apply lookup_insert_eq. Qed.

Lemma block_run s c p : c <> 0 -> procs s !! c = Some p ->
  block c s = Ok (tt, with_proc s c (set_blocked_ref (u32 (blocked_ref p + 1)) (set_p_state BLOCKED p))).
Proof.
  intros H0 Hp. unfold block, proc_mark. rewrite (bind_ok _ _ _ _ _ (update_run h_procs s c p _ H0 Hp)).
  change (hset h_procs _ s) with (with_proc s c (set_p_state BLOCKED p)).
  rewrite (update_run h_procs _ c _ _ H0 (with_proc_lookup _ _ _)). change (hset h_procs (<[c := ?x]> _) ?s) with (with_proc s c x).
  by rewrite with_proc_twice.
Qed.

Lemma unblock_run s c p : c <> 0 -> procs s !! c = Some p ->
  unblock c s = Ok (kill_flag p && (u32 (blocked_ref p - 1) =? 0), with_proc s c (set_blocked_ref (u32 (blocked_ref p - 1)) (set_p_state RUNNING p))).
Proof.
  intros H0 Hp. unfold unblock, proc_mark. rewrite (bind_ok _ _ _ _ _ (update_run h_procs s c p _ H0 Hp)).
  change (hset h_procs _ s) with (with_proc s c (set_p_state RUNNING p)).
  rewrite (bind_ok _ _ _ _ _ (update_run h_procs _ c _ _ H0 (with_proc_lookup _ _ _))).
  change (hset h_procs (<[c := ?x]> _) ?s) with (with_proc s c x). rewrite with_proc_twice.
  by rewrite (bind_ok _ _ _ _ _ (load_run h_procs _ c _ H0 (with_proc_lookup _ _ _))).
Qed.

Lemma syscall_exit_run s c p : c <> 0 -> procs s !! c = Some p -> p_state p = BLOCKED ->
  0 <= pid p < MAX_PROCS -> sos_procs s !z pid p = Some c ->
  syscall_exit stale c s = Ok (-1, with_proc s c (set_kill_flag true p)).
Proof.
  intros H0 Hp Hb Hr Hs. unfold syscall_exit, proc_delete_async_check.
  rewrite (bind_ok _ _ _ _ _ (load_run h_procs s c p H0 Hp)). erewrite bind_ok; [done|].
  rewrite (bind_ok _ _ _ _ _ (get_proc_run s _ _ Hr Hs)), (proj2 (Z.eqb_neq _ _) H0).
  rewrite (bind_ok _ _ _ _ _ (load_run h_procs s c p H0 Hp)), decide_True by done.
  by rewrite (bind_ok _ _ _ _ _ (update_run h_procs s c p _ H0 Hp)).
Qed.

(** The number of the call in the jump table. *)
Definition SYS_exit : Z := 14.

(** The process after the system call: running, with nothing blocking it. *)
Definition exiting (p : proc) : proc := set_kill_flag true (set_p_state RUNNING p).

(** C9: A process that exits is marked while its own system call blocks it, and
    deleted once, when the call is over and it is unblocked; it gets no reply. *)
Theorem handle_exit s curproc p reply_cap k :
  0 <= pid p < MAX_PROCS -> sos_procs s !z pid p = Some curproc -> curproc <> 0 -> procs s !! curproc = Some p ->
  blocked_ref p = 0 -> mrs s !z 0 = Some SYS_exit -> cspace_save_reply_cap (kern s) = (reply_cap, k) -> reply_cap <> 0 ->
  handle_syscall stale elf_header ep list_fuel (pid p) s =
    (proc_delete stale curproc ;;; kcall (cspace_free_slot reply_cap) ;;; ret tt)
      (set_procs (<[curproc := exiting p]> (procs s)) (set_kern k s)).
Proof.
  intros Hr Hs Hc0 Hp Hb Hm Hk Hrc. unfold handle_syscall.
  rewrite (bind_ok _ _ _ _ _ (getmr_run s 0 _ Hm)), (bind_ok _ _ _ _ _ (get_proc_run s _ _ Hr Hs)).
  rewrite (proj2 (Z.eqb_neq _ _) Hc0). cbn [negb].
  erewrite bind_ok by done. erewrite bind_ok by (unfold kcall; by rewrite Hk).
  rewrite (proj2 (Z.eqb_neq _ _) Hrc). cbn [negb]. erewrite bind_ok by done.
  change (ISINRANGE 0 SYS_exit (Z.of_nat (length (syscall_table stale elf_header ep list_fuel)) - 1)) with true. cbv iota.
  match goal with |- bind ?m _ _ = _ =>
    assert (m (set_kern k s) = (proc_delete stale curproc ;;; ret tt) (with_proc (set_kern k s) curproc (exiting p))) as E end.
  { erewrite bind_ok by done. rewrite (bind_ok _ _ _ _ _ (block_run (set_kern k s) curproc p Hc0 Hp)).
    erewrite bind_ok by (apply syscall_exit_run; [done | apply with_proc_lookup | done..]). rewrite with_proc_twice.
    erewrite bind_ok by (apply unblock_run; [done | apply with_proc_lookup]). rewrite with_proc_twice.
    cbn [kill_flag blocked_ref set_kill_flag set_p_state set_blocked_ref]. rewrite Hb.
    change (true && (u32 (u32 (0 + 1) - 1) =? 0)) with true. cbv iota.
    match goal with |- context [with_proc _ _ ?q] => assert (q = exiting p) as -> by (destruct p; cbn in Hb; by subst) end.
    unfold bind, ret. by destruct (proc_delete _ _ _) as [[]|]. }
  unfold bind at 1. rewrite E. unfold bind, ret. by destruct (proc_delete _ _ _) as [[]|].
Qed.

End syscalls.

(** ** Example: process 1 runs, with an empty table of descriptors *)

Definition exit_proc : proc := Proc 0 0 0 0 0 1 0 (-1) 0 0 1 None 0 RUNNING 0 false false.

(** The message registers hold the given words. *)
Definition demo_sys (words : list Z) : sos UtAllocator.ut_state toy_kernel :=
  set_mrs words (set_procs {[7 := exit_proc]} (set_sos_procs (insertZ 1 7 (replicate 16 0)) (set_curr_pid 1
    (set_fs (set_fdtables {[1 := replicate 16 0]} (fs boot_state)) boot_state)))).

Definition no_region (r : region) : option region := None.

Lemma proc_next_pid_spec_witness :
  let s := demo_sys [] in
  (exists k, 0 <= k < MAX_PROCS /\ pid_free s (pid_at s k) /\ (forall j, 0 <= j < k -> ~ pid_free s (pid_at s j)) /\
     proc_next_pid s = Ok (Some (pid_at s k), set_curr_pid (pid_at s (k + 1)) s)) \/
  ((forall j, 0 <= j < MAX_PROCS -> ~ pid_free s (pid_at s j)) /\ proc_next_pid s = Ok (None, s)).
Proof. apply (proc_next_pid_spec (demo_sys [])); done. Defined.

Lemma message_routing_witness :
  let badge := SET_PROCID_BADGE NEW_EP_BADGE 1 in
  let spawn f x := f x : M (sos UtAllocator.ut_state toy_kernel) unit in
  let s := demo_sys [SYS_exit] in
  handle_message no_region 0 1 1 spawn (ret tt) (ret tt) badge seL4_NoFault s = spawn (handle_syscall no_region 0 1 1) 1 s /\
  handle_message no_region 0 1 1 spawn (ret tt) (ret tt) badge seL4_VMFault s = spawn (vm_fault no_region) 1 s.
Proof. apply (message_routing no_region 0 1 1 (fun f x => f x) (ret tt) (ret tt) 1); done. Defined.

Lemma syscall_close_past_table_witness : syscall_close 7 (demo_sys [3; 16]) = Err FBounds.
Proof. apply (syscall_close_past_table (demo_sys [3; 16]) 7 exit_proc (replicate 16 0)); done. Defined.

Lemma handle_exit_witness :
  handle_syscall no_region 0 1 1 1 (demo_sys [SYS_exit]) =
    (proc_delete no_region 7 ;;; kcall (cspace_free_slot 1) ;;; ret tt)
      (set_procs (<[7 := exiting exit_proc]> (procs (demo_sys [SYS_exit]))) (set_kern (kern (demo_sys [SYS_exit])) (demo_sys [SYS_exit]))).
Proof. apply (handle_exit no_region 0 1 1 (demo_sys [SYS_exit]) 7 exit_proc 1); done. Defined.
