(* ===== verification/Sync.v ===== *)
(** * Sync: mutexes and counting semaphores

    libs/libsel4sync builds a mutex from an asynchronous endpoint of seL4
    (mutex.c), and a counting semaphore from two mutexes and a counter (sem.c).
    Threads that use one semaphore run concurrently: a function of the library
    is a program of atomic actions ([act]), and [sem_step] interleaves the
    actions of all threads.  The endpoints follow the kernel
    (kernel/src/object/asyncendpoint.c): a notification wakes the first waiting
    thread, or is remembered, once, until a thread waits. *)

From S2P Require Import Prelude.

(** ** Asynchronous endpoints *)

Inductive aep_state := AEPState_Idle | AEPState_Waiting (queue : list nat) | AEPState_Active (badge : Z).

(** An endpoint that is not bound to a thread.  Returns the thread to resume. *)
Definition sendAsyncIPC (a : aep_state) (badge : Z) : aep_state * option nat :=
  match a with
  | AEPState_Idle => (AEPState_Active badge, None)
  | AEPState_Waiting (dest :: q) =>
      (match q with [] => AEPState_Idle | _ => AEPState_Waiting q end, Some dest)
  | AEPState_Waiting [] => (a, None)
  | AEPState_Active badge2 => (AEPState_Active (Z.lor badge2 badge), None)
  end.

(** Returns the badge, or [None] when the thread is blocked. *)
Definition receiveAsyncIPC (t : nat) (a : aep_state) (isBlocking : bool) : aep_state * option Z :=
  match a with
  | AEPState_Idle => if isBlocking then (AEPState_Waiting [t], None) else (a, Some 0)
  | AEPState_Waiting q => if isBlocking then (AEPState_Waiting (q ++ [t]), None) else (a, Some 0)
  | AEPState_Active badge => (AEPState_Idle, Some badge)
  end.

(** ** Programs *)

Definition MUTEX_MAGIC : Z := 0x5EED.

(** The two mutexes of a semaphore. *)
Inductive sel := mutex | delay.

#[export] Instance sel_eq_dec : EqDecision sel.
Proof. solve_decision. Defined.

(** The actions of a thread: system calls on the endpoint of a mutex, and
    accesses to [sem->value]. *)
Inductive act :=
| Ret (r : Z)
| Wait (m : sel) (k : Z -> act)
| Poll (m : sel) (k : Z -> act)
| Notify (m : sel) (k : act)
| Load (k : Z -> act)
| Store (v : Z) (k : act).

(** The assertion of the source is an assignment of [MUTEX_MAGIC], which is not
    zero: it cannot fail. *)
Definition sync_acquire (m : sel) (k : act) : act := Wait m (fun _ => k).
Definition sync_release (m : sel) (k : act) : act := Notify m k.
Definition sync_try_acquire (m : sel) (k : Z -> act) : act :=
  Poll m (fun badge => k (if badge =? MUTEX_MAGIC then 1 else 0)).

(** [sem->value += d] *)
Definition add_value (d : Z) (k : act) : act := Load (fun v => Store (i32 (v + d)) k).

Definition sync_wait : act :=
  sync_acquire mutex (add_value (-1) (Load (fun value =>
    if value <? 0 then sync_release mutex (sync_acquire delay (sync_release mutex (Ret 0)))
    else sync_release mutex (Ret 0)))).

Definition sync_signal : act :=
  sync_acquire mutex (add_value 1 (Load (fun value =>
    if value <=? 0 then sync_release delay (Ret 0)
    else sync_release mutex (Ret 0)))).

Definition sync_try_wait : act :=
  sync_acquire mutex (Load (fun value =>
    if value <=? 0 then sync_release mutex (Ret 0)
    else add_value (-1) (sync_release mutex (Ret 1)))).

Definition sync_sem_value : act := Load (fun value => Ret value).

(** ** Threads *)

Inductive call := CWait | CSignal | CTryWait | CValue.

Definition body (c : call) : act :=
  match c with
  | CWait => sync_wait
  | CSignal => sync_signal
  | CTryWait => sync_try_wait
  | CValue => sync_sem_value
  end.

Inductive thread := Idle | Running (c : call) (a : act) | Blocked (c : call) (m : sel) (k : Z -> act).

(** The semaphore, the threads, and what has been seen of them: the waits that
    have returned (and the successful [sync_try_wait]s), the signals called
    and those that have returned. *)
Record sem := Sem {
  ep_mutex : aep_state;
  ep_delay : aep_state;
  value : Z;
  threads : list thread;
  waits_done : Z;
  signals_called : Z;
  signals_done : Z
}.

Definition ep (m : sel) (s : sem) : aep_state := match m with mutex => ep_mutex s | delay => ep_delay s end.
Definition set_ep (m : sel) (a : aep_state) (s : sem) : sem :=
  match m with
  | mutex => Sem a (ep_delay s) (value s) (threads s) (waits_done s) (signals_called s) (signals_done s)
  | delay => Sem (ep_mutex s) a (value s) (threads s) (waits_done s) (signals_called s) (signals_done s)
  end.
Definition set_value (v : Z) (s : sem) : sem :=
  Sem (ep_mutex s) (ep_delay s) v (threads s) (waits_done s) (signals_called s) (signals_done s).
Definition set_thread (t : nat) (x : thread) (s : sem) : sem :=
  Sem (ep_mutex s) (ep_delay s) (value s) (<[t := x]> (threads s)) (waits_done s) (signals_called s) (signals_done s).

Definition is_wait (c : call) (r : Z) : bool :=
  match c with CWait => true | CTryWait => r =? 1 | _ => false end.
Definition is_signal (c : call) : bool := match c with CSignal => true | _ => false end.

(** A thread that waits for a notification gets it. *)
Definition resume_thread (t : nat) (s : sem) : sem :=
  match threads s !! t with
  | Some (Blocked c _ k) => set_thread t (Running c (k MUTEX_MAGIC)) s
  | _ => s
  end.

Definition start_call (t : nat) (c : call) (s : sem) : sem :=
  let s := set_thread t (Running c (body c)) s in
  Sem (ep_mutex s) (ep_delay s) (value s) (threads s) (waits_done s)
    (signals_called s + Z.b2z (is_signal c)) (signals_done s).

Definition end_call (t : nat) (c : call) (r : Z) (s : sem) : sem :=
  let s := set_thread t Idle s in
  Sem (ep_mutex s) (ep_delay s) (value s) (threads s) (waits_done s + Z.b2z (is_wait c r))
    (signals_called s) (signals_done s + Z.b2z (is_signal c)).

(** One action of a thread. *)
Definition run_thread (t : nat) (s : sem) : option sem :=
  match threads s !! t with
  | Some (Running c a) =>
      Some match a with
      | Ret r => end_call t c r s
      | Load k => set_thread t (Running c (k (value s))) s
      | Store v k => set_thread t (Running c k) (set_value v s)
      | Notify m k =>
          let '(a, dest) := sendAsyncIPC (ep m s) MUTEX_MAGIC in
          let s := set_thread t (Running c k) (set_ep m a s) in
          match dest with Some d => resume_thread d s | None => s end
      | Wait m k =>
          let '(a, r) := receiveAsyncIPC t (ep m s) true in
          set_thread t (match r with Some badge => Running c (k badge) | None => Blocked c m k end) (set_ep m a s)
      | Poll m k =>
          let '(a, r) := receiveAsyncIPC t (ep m s) false in
          set_thread t (match r with Some badge => Running c (k badge) | None => Blocked c m k end) (set_ep m a s)
      end
  | _ => None
  end.

Inductive sem_step : sem -> sem -> Prop :=
| step_call t c s : threads s !! t = Some Idle -> sem_step s (start_call t c s)
| step_run t s s' : run_thread t s = Some s' -> sem_step s s'.

(** A new semaphore used by [n] threads. *)
Definition sem_init (v : Z) (n : nat) : sem :=
  Sem (AEPState_Active MUTEX_MAGIC) AEPState_Idle v (replicate n Idle) 0 0 0.

(** ** Creation and destruction *)

Record sync_mutex_ := SyncMutex { m_ep : Z; m_mapping : Z }.
Record sync_sem_ := SyncSem { sm_mutex : Z; sm_delay : Z; sm_value : Z }.

(** [malloc], and the functions the application provides: a new endpoint with
    a badged capability to it ([None] is the null pointer), and its release. *)
Class SyncEnv (E : Type) := {
  sync_malloc : E -> bool * E;
  sync_new_ep : Z -> E -> option (Z * Z) * E;
  sync_free_ep : Z -> E -> unit * E
}.

(** The objects of the library and the endpoints behind the capabilities; a
    new endpoint is idle. *)
Record sync_state (E : Type) := SyncState {
  mutexes : gmap Z sync_mutex_;
  sems : gmap Z sync_sem_;
  eps : gmap Z aep_state;
  sync_env : E
}.
Arguments SyncState {E} _ _ _ _.
Arguments mutexes {E} _.
Arguments sems {E} _.
Arguments eps {E} _.
Arguments sync_env {E} _.

Section creation.
Context {E : Type} `{!SyncEnv E}.
Local Abbreviation S := (sync_state E).

Definition env_call {A} (f : E -> A * E) : M S A := fun s =>
  let '(a, e) := f (sync_env s) in Ok (a, SyncState (mutexes s) (sems s) (eps s) e).
Definition set_mutexes x : M S unit := modify (fun s => SyncState x (sems s) (eps s) (sync_env s)).
Definition set_sems x : M S unit := modify (fun s => SyncState (mutexes s) x (eps s) (sync_env s)).

Definition load_mutex (p : Z) : M S sync_mutex_ := fun s =>
  if p =? 0 then Err FNull else match mutexes s !! p with Some x => Ok (x, s) | None => Err FBounds end.
Definition load_sem (p : Z) : M S sync_sem_ := fun s =>
  if p =? 0 then Err FNull else match sems s !! p with Some x => Ok (x, s) | None => Err FBounds end.

Definition ep_state (c : Z) (s : S) : aep_state := default AEPState_Idle (eps s !! c).

(** [seL4_Notify] and [seL4_Wait] by a thread that no other thread waits with:
    a wait on an idle endpoint would not return. *)
Definition seL4_Notify (c : Z) : M S unit :=
  modify (fun s => SyncState (mutexes s) (sems s) (<[c := (sendAsyncIPC (ep_state c s) MUTEX_MAGIC).1]> (eps s)) (sync_env s)).
Definition seL4_Wait (c : Z) : M S Z := fun s =>
  match receiveAsyncIPC 0 (ep_state c s) true with
  | (a, Some badge) => Ok (badge, SyncState (mutexes s) (sems s) (<[c := a]> (eps s)) (sync_env s))
  | (_, None) => Err FFuel
  end.

Definition sync_create_mutex : M S Z :=
  ok <- env_call sync_malloc ;;
  if (ok : bool) then
    s <- get ;;
    let p := 1 + map_fold (fun k _ acc => Z.max k acc) 0 (mutexes s) in
    r <- env_call (sync_new_ep MUTEX_MAGIC) ;;
    match r with
    | None => ret 0
    | Some (e, mapping) =>
        set_mutexes (<[p := SyncMutex e mapping]> (mutexes s)) ;;;
        seL4_Notify mapping ;;;
        ret p
    end
  else ret 0.

Definition sync_destroy_mutex (p : Z) : M S unit :=
  m <- load_mutex p ;;
  env_call (sync_free_ep (m_ep m)) ;;;
  s <- get ;; set_mutexes (delete p (mutexes s)).

Definition sync_create_sem (v : Z) : M S Z :=
  ok <- env_call sync_malloc ;;
  if (ok : bool) then
    s <- get ;;
    let p := 1 + map_fold (fun k _ acc => Z.max k acc) 0 (sems s) in
    m <- sync_create_mutex ;;
    if m =? 0 then ret 0
    else
      d <- sync_create_mutex ;;
      if d =? 0 then sync_destroy_mutex m ;;; ret 0
      else
        dm <- load_mutex d ;;
        seL4_Wait (m_mapping dm) ;;;
        s <- get ;;
        set_sems (<[p := SyncSem m d v]> (sems s)) ;;;
        ret p
  else ret 0.

Definition sync_destroy_sem (p : Z) : M S unit :=
  x <- load_sem p ;;
  sync_destroy_mutex (sm_mutex x) ;;;
  sync_destroy_mutex (sm_delay x) ;;;
  s <- get ;; set_sems (delete p (sems s)).
End creation.
