(* ===== verification/SyncClaims.v ===== *)
(** * SyncClaims: the semaphore under every interleaving

    The positions of a thread in its call ([pos]) give an invariant over all
    reachable states: exactly one token, which is the free mutex, the thread
    that holds it, or a wake-up on its way to a waiting thread.  From it follow
    mutual exclusion, the contract of the counting semaphore, and that no
    wake-up is lost. *)

From S2P Require Import Prelude Sync.

(** ** Positions *)

(** Where a thread is: before it has the mutex, at an access to the value with
    the mutex held, at a release, waiting for the other mutex, returning. *)
Inductive pos :=
| PIdle
| PStart (c : call)
| PBlockM (c : call)
| PLoad (c : call)
| PStore (c : call) (v : Z)
| PTest (c : call)
| PRelM (c : call) (r : Z)
| PWRel
| PPend
| PBlockD
| PSRel
| PRet (c : call) (r : Z)
| PValue.

Definition delta (c : call) : Z := match c with CSignal => 1 | _ => -1 end.

(** What a thread does after the test of the value. *)
Definition after_wait (v : Z) : act :=
  if v <? 0 then sync_release mutex (sync_acquire delay (sync_release mutex (Ret 0))) else sync_release mutex (Ret 0).
Definition after_signal (v : Z) : act :=
  if v <=? 0 then sync_release delay (Ret 0) else sync_release mutex (Ret 0).
Definition after_try (v : Z) : act :=
  if v <=? 0 then sync_release mutex (Ret 0) else add_value (-1) (sync_release mutex (Ret 1)).

(** The rest of a call after the update of the value, and after the mutex is
    acquired. *)
Definition rest_store (c : call) : act :=
  match c with
  | CWait => Load after_wait
  | CSignal => Load after_signal
  | _ => sync_release mutex (Ret 1)
  end.
Definition rest_acquired (c : call) : act :=
  match c with
  | CTryWait => Load after_try
  | _ => add_value (delta c) (rest_store c)
  end.

Definition code (p : pos) : thread :=
  match p with
  | PIdle => Idle
  | PStart c => Running c (body c)
  | PBlockM c => Blocked c mutex (fun _ => rest_acquired c)
  | PLoad c => Running c (add_value (delta c) (rest_store c))
  | PStore c v => Running c (Store (i32 (v + delta c)) (rest_store c))
  | PTest c => Running c (match c with CWait => Load after_wait | CSignal => Load after_signal | _ => Load after_try end)
  | PRelM c r => Running c (sync_release mutex (Ret r))
  | PWRel => Running CWait (sync_release mutex (sync_acquire delay (sync_release mutex (Ret 0))))
  | PPend => Running CWait (sync_acquire delay (sync_release mutex (Ret 0)))
  | PBlockD => Blocked CWait delay (fun _ => sync_release mutex (Ret 0))
  | PSRel => Running CSignal (sync_release delay (Ret 0))
  | PRet c r => Running c (Ret r)
  | PValue => Running CValue sync_sem_value
  end.

(** ** Weights *)

(** The mutex is held. *)
Definition hold (p : pos) : Z :=
  match p with PLoad _ | PStore _ _ | PTest _ | PRelM _ _ | PWRel | PSRel => 1 | _ => 0 end.
(** Waiting for a wake-up. *)
Definition pend (p : pos) : Z := match p with PPend | PBlockD => 1 | _ => 0 end.
(** The value is ahead of the number of waiting threads by this much. *)
Definition off (p : pos) : Z :=
  match p with PTest CWait | PWRel => 1 | PTest CSignal | PSRel => -1 | _ => 0 end.
(** A wait that has taken its unit and not returned. *)
Definition taken (p : pos) : Z :=
  match p with
  | PTest CWait | PWRel | PPend | PBlockD => 1
  | PRelM c r | PRet c r => Z.b2z (is_wait c r)
  | _ => 0
  end.
(** A signal that has added its unit and not returned, and one that has not. *)
Definition added (p : pos) : Z :=
  match p with
  | PTest CSignal | PSRel => 1
  | PRelM c _ | PRet c _ => Z.b2z (is_signal c)
  | _ => 0
  end.
Definition early (p : pos) : Z :=
  match p with PStart c | PBlockM c | PLoad c | PStore c _ => Z.b2z (is_signal c) | _ => 0 end.

Definition total (f : pos -> Z) (ps : list pos) : Z := foldr (fun p n => f p + n) 0 ps.

Lemma total_update f ps t p q : ps !! t = Some p -> total f (<[t := q]> ps) = total f ps - f p + f q.
Proof.
  revert t. induction ps as [|r ps IH]; intros [|t] H; simplify_eq/=; [lia|]. rewrite (IH t) by done. lia.
Qed.

Lemma total_nonneg f ps : (forall p, 0 <= f p) -> 0 <= total f ps.
Proof. intros Hf. induction ps as [|p ps IH]; simpl; [lia|]. specialize (Hf p). lia. Qed.

Lemma total_ge f ps t p : (forall p, 0 <= f p) -> ps !! t = Some p -> f p <= total f ps.
Proof.
  intros Hf. revert t. induction ps as [|q ps IH]; intros [|t] H; simplify_eq/=.
  - pose proof (total_nonneg f ps Hf). lia.
  - specialize (IH t H). specialize (Hf q). lia.
Qed.

Lemma total_zero f ps : (forall t p, ps !! t = Some p -> f p = 0) -> total f ps = 0.
Proof.
  induction ps as [|p ps IH]; intros H; simpl; [done|]. rewrite (H 0%nat p), IH; [done| |done].
  intros t q. apply (H (S t)).
Qed.

Lemma hold_nonneg p : 0 <= hold p.
Proof. destruct p; simpl; lia. Qed.

Lemma pend_nonneg p : 0 <= pend p.
Proof. destruct p; simpl; lia. Qed.

Lemma off_hold p : hold p = 0 -> off p = 0.
Proof. by destruct p. Qed.

(** At most one thread holds the mutex. *)
Lemma one_holder ps t u p q :
  total hold ps <= 1 -> ps !! t = Some p -> hold p = 1 -> ps !! u = Some q -> t <> u -> hold q = 0.
Proof.
  intros Hle Ht Hp Hu Htu.
  pose proof (total_update hold ps t p PIdle Ht). pose proof (total_ge hold (<[t := PIdle]> ps) u q hold_nonneg) as Hge.
  rewrite list_lookup_insert_ne in Hge by done. specialize (Hge Hu). pose proof (hold_nonneg q).
  change (hold PIdle) with 0 in *. lia.
Qed.

Lemma off_holder ps t p : total hold ps <= 1 -> ps !! t = Some p -> hold p = 1 -> total off ps = off p.
Proof.
  intros Hle Ht Hp. pose proof (total_update off ps t p PIdle Ht) as Hu. change (off PIdle) with 0 in Hu.
  rewrite (total_zero off (<[t := PIdle]> ps)) in Hu; [lia|]. intros u q Hq.
  destruct (decide (t = u)) as [->|Hne].
  - rewrite list_lookup_insert_eq in Hq by (by eapply lookup_lt_Some). by simplify_eq.
  - rewrite list_lookup_insert_ne in Hq by done. by apply off_hold, (one_holder ps t u p q).
Qed.

Lemma off_free ps : total hold ps = 0 -> total off ps = 0.
Proof.
  intros H. apply total_zero. intros t p Ht. apply off_hold.
  pose proof (total_ge hold ps t p hold_nonneg Ht). pose proof (hold_nonneg p). lia.
Qed.

(** ** Queues *)

Definition blocked_on (m : sel) (p : pos) : bool :=
  match m, p with mutex, PBlockM _ | delay, PBlockD => true | _, _ => false end.

Definition queue_ok (m : sel) (a : aep_state) (ps : list pos) : Prop :=
  match a with
  | AEPState_Waiting q => q <> [] /\ NoDup q /\
      forall t, t ∈ q <-> exists p, ps !! t = Some p /\ blocked_on m p = true
  | _ => forall t p, ps !! t = Some p -> blocked_on m p = false
  end.

Lemma queue_keep m a ps t p q :
  queue_ok m a ps -> ps !! t = Some p -> blocked_on m p = false -> blocked_on m q = false ->
  queue_ok m a (<[t := q]> ps).
Proof.
  intros Hq Ht Hp Hp'. pose proof (lookup_lt_Some _ _ _ Ht) as Hlt.
  assert (forall u r, <[t := q]> ps !! u = Some r -> blocked_on m r = true -> ps !! u = Some r) as Hold.
  { intros u r Hu Hr. destruct (decide (t = u)) as [->|]; [|by rewrite list_lookup_insert_ne in Hu by done].
    rewrite list_lookup_insert_eq in Hu by done. simplify_eq. congruence. }
  destruct a as [|w|b]; simpl in *; [| |].
  1, 3: intros u r Hu; destruct (blocked_on m r) eqn:E; [|done]; rewrite <- E; eapply Hq; by apply Hold.
  destruct Hq as (Hne & Hnd & Hq). split; [done|]. split; [done|]. intros u. rewrite Hq. split; intros (r & Hu & Hr).
  - exists r. split; [|done]. rewrite list_lookup_insert_ne; [done|]. intros ->. congruence.
  - exists r. split; [by apply Hold | done].
Qed.

Lemma queue_block m a ps t p q a' :
  queue_ok m a ps -> ps !! t = Some p -> blocked_on m p = false -> blocked_on m q = true ->
  receiveAsyncIPC t a true = (a', None) -> queue_ok m a' (<[t := q]> ps).
Proof.
  intros Hq Ht Hp Hp' Ha. pose proof (lookup_lt_Some _ _ _ Ht) as Hlt.
  assert (exists w, a' = AEPState_Waiting (w ++ [t]) /\ NoDup w /\
    forall u, u ∈ w <-> exists p, ps !! u = Some p /\ blocked_on m p = true) as (w & -> & Hnd & Hw).
  { destruct a as [|w|b]; simpl in *; simplify_eq.
    - exists []. split; [done|]. split; [constructor|]. intros u. split; [set_solver|]. intros (r & Hu & Hr).
      rewrite (Hq u r Hu) in Hr. done.
    - exists w. destruct Hq as (_ & Hnd & Hq). done. }
  assert (t ∉ w) as Htw by (rewrite Hw; intros (r & Hr & Hb); simplify_eq; congruence).
  simpl. split; [by destruct w|]. split.
  { apply NoDup_app. split; [done|]. split; [set_solver|]. apply NoDup_singleton. }
  intros u. rewrite elem_of_app, list_elem_of_singleton, Hw. destruct (decide (t = u)) as [<-|Hne].
  - rewrite list_lookup_insert_eq by done. split; [eauto | by right].
  - rewrite list_lookup_insert_ne by done. split; [intros [?|?]; [done | congruence] | by left].
Qed.

Lemma queue_wake m d w ps q :
  queue_ok m (AEPState_Waiting (d :: w)) ps -> blocked_on m q = false ->
  (exists p, ps !! d = Some p /\ blocked_on m p = true) /\
  queue_ok m (match w with [] => AEPState_Idle | _ => AEPState_Waiting w end) (<[d := q]> ps).
Proof.
  intros (_ & Hnd & Hq) Hb. assert (exists p, ps !! d = Some p /\ blocked_on m p = true) as Hd by (apply Hq; set_solver).
  split; [done|]. destruct Hd as (p & Hp & _). pose proof (lookup_lt_Some _ _ _ Hp) as Hlt.
  apply NoDup_cons in Hnd as [Hdw Hnd].
  assert (forall u, u ∈ w <-> exists r, <[d := q]> ps !! u = Some r /\ blocked_on m r = true) as Hw.
  { intros u. destruct (decide (d = u)) as [<-|Hne].
    - rewrite list_lookup_insert_eq by done. split; [done|]. intros (r & Hr & Hbr). simplify_eq. congruence.
    - rewrite list_lookup_insert_ne by done. rewrite <- Hq. set_solver. }
  destruct w as [|e w]; simpl.
  - intros u r Hu. destruct (blocked_on m r) eqn:E; [|done]. assert (u ∈ []) by (apply Hw; eauto). set_solver.
  - by split; [|split].
Qed.

(** ** The invariant *)

Definition active (a : aep_state) : Z := match a with AEPState_Active _ => 1 | _ => 0 end.

(** What a thread knows of the value at its position. *)
Definition facts (v : Z) (p : pos) : Prop :=
  match p with
  | PStart c | PBlockM c | PTest c => c <> CValue
  | PLoad c => c <> CValue /\ (c = CTryWait -> 0 < v)
  | PStore c x => c <> CValue /\ x = v /\ (c = CTryWait -> 0 < v)
  | PWRel => v < 0
  | PSRel => v <= 0
  | _ => True
  end.

Lemma facts_free v w p : hold p = 0 -> facts v p -> facts w p.
Proof. by destruct p. Qed.

Section invariant.
Context (init : Z) (n : nat) (Hinit : 0 <= init).

Record inv (s : sem) (ps : list pos) : Prop := {
  inv_threads : threads s = code <$> ps;
  inv_length : length ps = n;
  inv_token : total hold ps + active (ep_mutex s) + active (ep_delay s) = 1;
  inv_pending : Z.max 0 (- (value s + total off ps)) = total pend ps - active (ep_delay s);
  inv_facts : forall t p, ps !! t = Some p -> facts (value s) p;
  inv_value : value s = init + signals_done s + total added ps - waits_done s - total taken ps;
  inv_waits : 0 <= waits_done s;
  inv_called : signals_called s = signals_done s + total added ps + total early ps;
  inv_mutex : queue_ok mutex (ep_mutex s) ps;
  inv_delay : queue_ok delay (ep_delay s) ps
}.

Lemma inv_init : inv (sem_init init n) (replicate n PIdle).
Proof using Hinit.
  assert (forall f, f PIdle = 0 -> total f (replicate n PIdle) = 0) as H0.
  { intros f Hf. apply total_zero. intros t p Hp. apply lookup_replicate in Hp as [-> _]. done. }
  split; simpl; rewrite ?fmap_replicate, ?length_replicate, ?H0 by done; try done; try lia.
  all: intros t p Hp; by apply lookup_replicate in Hp as [-> _].
Qed.

Lemma inv_thread s ps t x : inv s ps -> threads s !! t = Some x -> exists p, ps !! t = Some p /\ x = code p.
Proof. intros [-> _ _ _ _ _ _ _ _ _]. rewrite list_lookup_fmap. intros H. destruct (ps !! t) as [p|]; simplify_eq/=. eauto. Qed.

(** A thread moves from [p] to [q]; the endpoints and the value may change. *)
Lemma inv_move s ps t p q s' :
  inv s ps -> ps !! t = Some p ->
  threads s' = <[t := code q]> (threads s) ->
  hold q + active (ep_mutex s') + active (ep_delay s') = hold p + active (ep_mutex s) + active (ep_delay s) ->
  Z.max 0 (- (value s' + (total off ps - off p + off q))) = total pend ps - pend p + pend q - active (ep_delay s') ->
  (value s' = value s \/ hold p = 1) -> facts (value s') q -> waits_done s <= waits_done s' ->
  value s' - signals_done s' + waits_done s' - added q + taken q =
    value s - signals_done s + waits_done s - added p + taken p ->
  signals_called s' - signals_done s' - added q - early q = signals_called s - signals_done s - added p - early p ->
  queue_ok mutex (ep_mutex s') (<[t := q]> ps) -> queue_ok delay (ep_delay s') (<[t := q]> ps) ->
  inv s' (<[t := q]> ps).
Proof.
  intros [Hth Hlen Htok Hpe Hf Hv Hw Hc Hm Hd] Ht Hth' Htok' Hpe' Hval Hf' Hw' Hv' Hc' Hm' Hd'.
  split; try done; rewrite ?(total_update _ ps t p q Ht); try lia.
  - by rewrite Hth', Hth, list_fmap_insert.
  - by rewrite length_insert.
  - intros u r Hu. destruct (decide (t = u)) as [->|Hne].
    + rewrite list_lookup_insert_eq in Hu by (by eapply lookup_lt_Some). by simplify_eq.
    + rewrite list_lookup_insert_ne in Hu by done. destruct Hval as [->|Hhold]; [by eapply Hf|].
      apply (facts_free (value s)); [|by eapply Hf]. apply (one_holder ps t u p r); try done.
      assert (0 <= active (ep_mutex s)) by (destruct (ep_mutex s); simpl; lia).
      assert (0 <= active (ep_delay s)) by (destruct (ep_delay s); simpl; lia). lia.
Qed.

(** A holder at [p] gives the mutex [m] to the first waiting thread. *)
Lemma inv_hand s ps t p q m d w p2 q2 s' :
  inv s ps -> ps !! t = Some p -> hold p = 1 -> ep m s = AEPState_Waiting (d :: w) ->
  ps !! d = Some p2 -> blocked_on m p2 = true -> hold q2 = 1 -> (forall v, facts v q2) ->
  pend q2 = 0 -> off q2 = 0 -> early q2 = early p2 -> added q2 = added p2 -> taken q2 = taken p2 ->
  hold q = 0 -> facts (value s) q -> (forall m', blocked_on m' q = false) ->
  added q = added p -> early q = early p -> taken q = taken p ->
  Z.max 0 (- value s) = total pend ps - pend p + pend q - pend p2 ->
  s' = set_thread d (code q2) (set_thread t (code q)
         (set_ep m (match w with [] => AEPState_Idle | _ => AEPState_Waiting w end) s)) ->
  inv s' (<[d := q2]> (<[t := q]> ps)).
Proof.
  intros Hinv Ht Hhp Hep Hd Hb2 Hh2 Hf2 Hpe2 Ho2 He2 Ha2 Hta2 Hhq Hfq Hbq Ha He Hta Hpend ->.
  destruct Hinv as [Hth Hlen Htok Hpe Hf Hv Hw Hc Hm Hdl].
  assert (forall a, 0 <= active a) as Hact by (intros []; simpl; lia).
  pose proof (Hact (ep_mutex s)). pose proof (Hact (ep_delay s)). pose proof (total_ge hold ps t p hold_nonneg Ht).
  assert (hold p2 = 0 /\ off p2 = 0 /\ forall m', blocked_on m' q2 = false) as (Hh2' & Ho2' & Hbq2).
  { destruct m, p2; try done; (split; [done|]; split; [done|]); intros []; by destruct q2. }
  assert (t <> d) as Htd by (intros ->; simplify_eq; lia).
  assert (active (ep m s) = 0) as Hm0 by by rewrite Hep.
  assert (<[t := q]> ps !! d = Some p2) as Hd' by by rewrite list_lookup_insert_ne.
  assert (total off ps = off p) as Hoff by (apply (off_holder ps t p); [lia | done | done]).
  assert (forall m', blocked_on m' p = false) as Hbp by (destruct p; try done; by intros []).
  assert (forall m', m' <> m -> blocked_on m' p2 = false) as Hbp2 by (destruct m, p2; try done; by intros []).
  assert (queue_ok m (ep m s) ps) as Hq by by destruct m.
  rewrite Hep in Hq. apply (queue_keep m _ ps t p q) in Hq; [|done..].
  apply (queue_wake m d w _ q2) in Hq as [_ Hq]; [|done].
  assert (forall m' a, m' <> m -> queue_ok m' a ps -> queue_ok m' a (<[d := q2]> (<[t := q]> ps))) as Hother.
  { intros m' a Hne Hqa. eapply queue_keep; [|done|by apply Hbp2|done]. by eapply queue_keep. }
  split; rewrite ?(total_update _ (<[t := q]> ps) d p2 q2 Hd'), ?(total_update _ ps t p q Ht).
  - simpl. destruct m; simpl; by rewrite Hth, !list_fmap_insert.
  - by rewrite !length_insert.
  - destruct m, w; simpl in *; lia.
  - assert (off q = 0) by by apply off_hold.
    assert (active (ep_delay s) = 0) by lia. destruct m, w; simpl in *; lia.
  - intros u r Hu. replace (value _) with (value s) by by destruct m.
    destruct (decide (d = u)) as [->|Hdu].
    { rewrite list_lookup_insert_eq in Hu by (rewrite length_insert; by eapply lookup_lt_Some). by simplify_eq. }
    rewrite list_lookup_insert_ne in Hu by done. destruct (decide (t = u)) as [->|Htu].
    { rewrite list_lookup_insert_eq in Hu by (by eapply lookup_lt_Some). by simplify_eq. }
    rewrite list_lookup_insert_ne in Hu by done. by eapply Hf.
  - destruct m; simpl; lia.
  - by destruct m.
  - destruct m; simpl; lia.
  - destruct m; simpl; [done | by apply Hother].
  - destruct m; simpl; [by apply Hother | done].
Qed.

(** *** The steps *)

(** The position after the mutex is acquired. *)
Definition acquired (c : call) : pos := match c with CTryWait => PTest CTryWait | _ => PLoad c end.

Lemma code_acquired c : Running c (rest_acquired c) = code (acquired c).
Proof. by destruct c. Qed.

Lemma holder_inactive s ps t p :
  inv s ps -> ps !! t = Some p -> hold p = 1 ->
  active (ep_mutex s) = 0 /\ active (ep_delay s) = 0 /\ total off ps = off p.
Proof.
  intros [_ _ Htok _ _ _ _ _ _ _] Ht Hp. pose proof (total_ge hold ps t p hold_nonneg Ht).
  assert (forall a, 0 <= active a) as Hact by (intros []; simpl; lia).
  pose proof (Hact (ep_mutex s)). pose proof (Hact (ep_delay s)).
  split; [lia|]. split; [lia|]. apply (off_holder ps t p); [lia | done | done].
Qed.

(** Where a blocked thread continues. *)
Lemma woken m v p2 :
  blocked_on m p2 = true -> facts v p2 ->
  exists c k q2, code p2 = Blocked c m k /\ code q2 = Running c (k MUTEX_MAGIC) /\
    hold q2 = 1 /\ (forall w, facts w q2) /\ pend q2 = 0 /\ off q2 = 0 /\ early q2 = early p2 /\
    added q2 = added p2 /\ taken q2 = taken p2 /\ pend p2 = match m with delay => 1 | _ => 0 end.
Proof using.
  intros Hb Hf. destruct m, p2 as [|c|c|c|c x|c|c r| | | | |c r|]; try done.
  - exists c, (fun _ => rest_acquired c), (acquired c). split; [done|]. split; [by rewrite code_acquired|].
    by destruct c.
  - exists CWait, (fun _ => sync_release mutex (Ret 0)), (PRelM CWait 0). by split_and!.
Qed.

(** The release of a mutex by its holder. *)
Lemma inv_release s ps t m p q c k :
  inv s ps -> ps !! t = Some p -> code p = Running c (Notify m k) -> code q = Running c k ->
  hold p = 1 -> hold q = 0 -> facts (value s) q -> (forall m', blocked_on m' q = false) ->
  added q = added p -> early q = early p -> taken q = taken p ->
  Z.max 0 (- value s) = total pend ps - pend p + pend q - (match m with delay => 1 | _ => 0 end) ->
  exists s' ps', run_thread t s = Some s' /\ inv s' ps'.
Proof using.
  intros Hinv Ht Hcp Hcq Hhp Hhq Hfq Hbq Ha He Hta Hpe.
  destruct (holder_inactive s ps t p Hinv Ht Hhp) as (Hm0 & Hd0 & Hoff).
  assert (threads s !! t = Some (code p)) as Hth by (rewrite (inv_threads _ _ Hinv), list_lookup_fmap, Ht; done).
  assert (forall m', blocked_on m' p = false) as Hbp by (destruct p; try done; by intros []).
  assert (off q = 0) as Hoq by by apply off_hold.
  assert (queue_ok m (ep m s) ps) as Hq by (destruct m; apply Hinv).
  unfold run_thread. rewrite Hth, Hcp. destruct (ep m s) as [|[|d w]|b] eqn:Hep; simpl.
  - eexists _, (<[t := q]> ps). split; [reflexivity|]. eapply inv_move; try done.
    + destruct m; simpl in *; by rewrite Hcq.
    + destruct m; simpl in *; rewrite ?Hep in *; simpl in *; lia.
    + destruct m; simpl in *; rewrite ?Hep in *; simpl in *; lia.
    + by right.
    + by destruct m.
    + destruct m; simpl; lia.
    + destruct m; simpl; lia.
    + destruct m; simpl; lia.
    + eapply queue_keep; [|done..]. pose proof (inv_mutex _ _ Hinv) as Hmu. destruct m; simpl in *; [by rewrite Hep in Hmu | done].
    + eapply queue_keep; [|done..]. pose proof (inv_delay _ _ Hinv) as Hmu. destruct m; simpl in *; [done | by rewrite Hep in Hmu].
  - by destruct Hq as [? _].
  - destruct (queue_wake m d w ps PIdle Hq) as [(p2 & Hd & Hb2) _]; [by destruct m|].
    pose proof (inv_facts _ _ Hinv d p2 Hd) as Hf2.
    assert (t <> d) as Htd by (intros ->; simplify_eq; specialize (Hbp m); congruence).
    destruct (woken m (value s) p2 Hb2 Hf2) as (c2 & k2 & q2 & Hc2 & Hcq2 & Hh2 & Hfq2 & Hpq2 & Hoq2 & He2 & Ha2 & Ht2 & Hpp2).
    eexists _, _. split; [reflexivity|]. eapply (inv_hand s ps t p q m d w p2 q2); try done; [lia|].
    unfold resume_thread. replace (threads _ !! d) with (Some (code p2)).
    + rewrite Hc2, <- Hcq, <- Hcq2. done.
    + destruct m; simpl; rewrite list_lookup_insert_ne by done; rewrite (inv_threads _ _ Hinv), list_lookup_fmap, Hd; done.
  - destruct m; simpl in Hep; rewrite Hep in *; simpl in *; lia.
Qed.

(** A thread waits for a mutex: it gets it, or is blocked. *)
Lemma inv_acquire s ps t m p q b c k :
  inv s ps -> ps !! t = Some p -> code p = Running c (Wait m k) ->
  (forall badge, code q = Running c (k badge)) -> code b = Blocked c m k ->
  hold p = 0 -> hold q = 1 -> hold b = 0 -> off q = 0 ->
  pend q = pend p - (match m with delay => 1 | _ => 0 end) -> pend b = pend p ->
  (forall v, facts v q) -> facts (value s) b -> added q = added p -> early q = early p -> taken q = taken p ->
  added b = added p -> early b = early p -> taken b = taken p ->
  blocked_on m b = true -> (forall m', m' <> m -> blocked_on m' b = false) ->
  (forall m', blocked_on m' p = false) -> (forall m', blocked_on m' q = false) ->
  exists s' ps', run_thread t s = Some s' /\ inv s' ps'.
Proof using.
  intros Hinv Ht Hcp Hcq Hcb Hhp Hhq Hhb Hoq Hpq Hpb Hfq Hfb Ha He Hta Hab Heb Htb Hbm Hbo Hbp Hbq.
  assert (threads s !! t = Some (code p)) as Hth by (rewrite (inv_threads _ _ Hinv), list_lookup_fmap, Ht; done).
  assert (off p = 0 /\ off b = 0) as [Hop Hob] by (split; by apply off_hold).
  pose proof (inv_pending _ _ Hinv) as Hpe. pose proof (inv_token _ _ Hinv) as Htok.
  assert (queue_ok m (ep m s) ps) as Hq by (destruct m; apply Hinv).
  unfold run_thread. rewrite Hth, Hcp. destruct (receiveAsyncIPC t (ep m s) true) as [a r] eqn:Er.
  assert (forall m' x y, m' <> m -> queue_ok m' (ep m' s) ps -> blocked_on m' y = false -> queue_ok m' (ep m' (set_thread t x (set_ep m a s))) (<[t := y]> ps)) as Hother.
  { intros m' x y Hne Hq' Hy. destruct m, m'; try done; by eapply queue_keep. }
  destruct r as [badge|].
  - assert (exists b', ep m s = AEPState_Active b' /\ a = AEPState_Idle) as (b' & Hep & ->).
    { destruct (ep m s); simplify_eq/=. eauto. }
    eexists _, (<[t := q]> ps). split; [reflexivity|]. rewrite Hep in Hq. eapply inv_move; try done.
    + destruct m; simpl in *; by rewrite (Hcq badge).
    + destruct m; simpl in *; rewrite Hep in *; simpl in *; lia.
    + destruct m; simpl in *; rewrite Hep in *; simpl in *; lia.
    + destruct m; by left.
    + destruct m; simpl; lia.
    + destruct m; simpl; lia.
    + destruct m; simpl; lia.
    + destruct m; [simpl; by apply (queue_keep mutex AEPState_Idle ps t p q) | by apply (Hother mutex); [done | apply Hinv |]].
    + destruct m; [by apply (Hother delay); [done | apply Hinv |] | simpl; by apply (queue_keep delay AEPState_Idle ps t p q)].
  - assert (active (ep m s) = 0 /\ active a = 0) as [Hact Hact'].
    { destruct (ep m s); simplify_eq/=; done. }
    eexists _, (<[t := b]> ps). split; [reflexivity|]. eapply inv_move; try done.
    + destruct m; simpl in *; by rewrite Hcb.
    + destruct m; simpl in *; lia.
    + destruct m; simpl in *; lia.
    + destruct m; by left.
    + by destruct m.
    + destruct m; simpl; lia.
    + destruct m; simpl; lia.
    + destruct m; simpl; lia.
    + destruct m; [by eapply queue_block | by apply (Hother mutex); [done | apply Hinv | apply Hbo]].
    + destruct m; [by apply (Hother delay); [done | apply Hinv | apply Hbo] | by eapply queue_block].
Qed.

(** A step that touches neither endpoint, by a thread that is not blocked. *)
Lemma inv_local s ps t p q s' :
  inv s ps -> ps !! t = Some p -> (forall m, blocked_on m p = false) -> (forall m, blocked_on m q = false) ->
  ep_mutex s' = ep_mutex s -> ep_delay s' = ep_delay s -> threads s' = <[t := code q]> (threads s) ->
  hold q = hold p -> pend q = pend p ->
  Z.max 0 (- (value s' + (total off ps - off p + off q))) = Z.max 0 (- (value s + total off ps)) ->
  (value s' = value s \/ hold p = 1) -> facts (value s') q -> waits_done s <= waits_done s' ->
  value s' - signals_done s' + waits_done s' - added q + taken q =
    value s - signals_done s + waits_done s - added p + taken p ->
  signals_called s' - signals_done s' - added q - early q = signals_called s - signals_done s - added p - early p ->
  exists ps', inv s' ps'.
Proof using.
  intros Hinv Ht Hbp Hbq Hm Hd Hth Hh Hpe Hst Hval Hf Hw Hv Hc. exists (<[t := q]> ps).
  pose proof (inv_pending _ _ Hinv). eapply inv_move; try done; rewrite ?Hm, ?Hd; try lia.
  - eapply queue_keep; [apply Hinv | done..].
  - eapply queue_keep; [apply Hinv | done..].
Qed.

Lemma inv_bounds s ps : inv s ps -> - Z.of_nat n - 1 <= value s.
Proof using.
  intros Hinv. pose proof (inv_pending _ _ Hinv) as Hpe. pose proof (inv_token _ _ Hinv) as Htok.
  assert (total pend ps <= Z.of_nat n) as Hle.
  { rewrite <- (inv_length _ _ Hinv). clear. induction ps as [|p ps IH]; simpl; [lia|].
    assert (pend p <= 1) by (destruct p; simpl; lia). lia. }
  assert (total off ps <= 1) as Ho.
  { destruct (Z.le_gt_cases (total hold ps) 0) as [H0|H1].
    - rewrite off_free; [lia|]. pose proof (total_nonneg hold ps hold_nonneg). lia.
    - assert (total off ps <= total hold ps) as H2.
      { clear. induction ps as [|p ps IH]; simpl; [lia|]. assert (off p <= hold p) by (destruct p as [| | | | |[]| | | | | | |]; simpl; lia). lia. }
      assert (forall a, 0 <= active a) as Hact by (intros []; simpl; lia).
      pose proof (Hact (ep_mutex s)). pose proof (Hact (ep_delay s)). lia. }
  assert (forall a, 0 <= active a) as Hact by (intros []; simpl; lia). pose proof (Hact (ep_delay s)). lia.
Qed.

Lemma early_nonneg p : 0 <= early p.
Proof using. destruct p as [|[]|[]|[]|[]| | | | | | | |]; simpl; lia. Qed.

Lemma inv_value_le s ps : inv s ps -> value s <= init + signals_called s - total early ps.
Proof using.
  intros Hinv. pose proof (inv_waits _ _ Hinv). rewrite (inv_value _ _ Hinv), (inv_called _ _ Hinv).
  assert (forall p, 0 <= taken p) as Hta by (intros [| | | | |[]|[]| | | | |[]|]; simpl; try lia; destruct (_ =? _); simpl; lia).
  pose proof (total_nonneg taken ps Hta). lia.
Qed.

Lemma inv_call s ps t c :
  inv s ps -> threads s !! t = Some Idle -> exists ps', inv (start_call t c s) ps'.
Proof using.
  intros Hinv Hth. destruct (inv_thread s ps t Idle Hinv Hth) as (p & Hp & Hcode).
  assert (p = PIdle) as -> by (destruct p as [| | | | | | | | | | | |]; done).
  eapply (inv_local s ps t PIdle (match c with CValue => PValue | _ => PStart c end)); try done.
  all: try (intros []); destruct c; simpl; try done; lia.
Qed.

(** The accesses to the value by the holder of the mutex. *)
Lemma inv_access s ps t p s' :
  inv s ps -> ps !! t = Some p -> run_thread t s = Some s' -> Z.of_nat n < 2 ^ 30 ->
  init + signals_called s < 2 ^ 31 ->
  (exists c, p = PLoad c \/ p = PTest c) \/ (exists c v, p = PStore c v) -> exists ps', inv s' ps'.
Proof using.
  intros Hinv Ht Hrun Hn Hsig Hp. pose proof (inv_facts _ _ Hinv t p Ht) as Hf.
  pose proof (inv_bounds s ps Hinv) as Hlow.
  assert (hold p = 1) as Hhp by (destruct Hp as [(c & [->| ->])|(c & v & ->)]; done).
  destruct (holder_inactive s ps t p Hinv Ht Hhp) as (_ & _ & Hoff).
  unfold run_thread in Hrun. rewrite (inv_threads _ _ Hinv), list_lookup_fmap, Ht in Hrun. simpl in Hrun.
  destruct Hp as [(c & [->| ->])|(c & v & ->)]; simpl in Hrun, Hf.
  - injection Hrun as <-. apply (inv_local s ps t (PLoad c) (PStore c (value s))); simpl; try done; first [by left | tauto | lia | by intros []].
  - assert (exists q, s' = set_thread t (code q) s /\ q = match c with
      | CWait => if value s <? 0 then PWRel else PRelM CWait 0
      | CSignal => if value s <=? 0 then PSRel else PRelM CSignal 0
      | _ => if value s <=? 0 then PRelM c 0 else PLoad c end) as (q & -> & ->).
    { destruct c; try done; injection Hrun as <-; eexists; split; try done; f_equal;
        unfold after_wait, after_signal, after_try; case_bool; done. }
    destruct c; try done; case_bool; (eapply inv_local; [exact Hinv | exact Ht | by intros [] | | done | done | reflexivity | | | | by left | | | |]).
    all: simpl; rewrite ?Hoff; simpl; first [done | lia | by intros []].
  - destruct Hf as (Hc & -> & Htry). injection Hrun as <-.
    pose proof (inv_value_le s ps Hinv). pose proof (total_ge early ps t _ early_nonneg Ht) as He. simpl in He.
    assert (i32 (value s + delta c) = value s + delta c) as ->.
    { apply i32_small. destruct c; simpl in *; lia. }
    apply (inv_local s ps t (PStore c (value s)) (match c with CTryWait => PRelM CTryWait 1 | _ => PTest c end));
      destruct c; try done; simpl in *; rewrite ?Hoff; simpl;
      first [done | by right | lia | by intros [] | specialize (Htry eq_refl); lia].
Qed.

Lemma inv_step s ps s' :
  inv s ps -> sem_step s s' -> Z.of_nat n < 2 ^ 30 -> init + signals_called s < 2 ^ 31 -> exists ps', inv s' ps'.
Proof using.
  intros Hinv Hstep Hn Hsig. destruct Hstep as [t c s Hth|t s s' Hrun]; [by eapply inv_call|].
  destruct (threads s !! t) as [x|] eqn:Hth; [|by unfold run_thread in Hrun; rewrite Hth in Hrun].
  destruct (inv_thread s ps t x Hinv Hth) as (p & Ht & ->). pose proof (inv_facts _ _ Hinv t p Ht) as Hf.
  assert (forall P : Prop, (exists s1 ps1, run_thread t s = Some s1 /\ inv s1 ps1) -> (forall ps1, inv s' ps1 -> P) -> P) as Hdet.
  { intros P (s1 & ps1 & H1 & H2) HP. apply (HP ps1). congruence. }
  destruct p as [|c|c|c|c v|c|c r| | | | |c r|]; simpl in Hf.
  - by unfold run_thread in Hrun; rewrite Hth in Hrun.
  - eapply Hdet; [eapply (inv_acquire s ps t mutex (PStart c) (acquired c) (PBlockM c) c (fun _ => rest_acquired c))|eauto];
      destruct c; try done; by intros [].
  - by unfold run_thread in Hrun; rewrite Hth in Hrun.
  - eapply inv_access; eauto.
  - eapply inv_access; eauto.
  - eapply inv_access; eauto.
  - destruct (holder_inactive s ps t _ Hinv Ht eq_refl) as (_ & Hd & Hoff). pose proof (inv_pending _ _ Hinv) as Hpe.
    simpl in Hoff. eapply Hdet; [eapply (inv_release s ps t mutex (PRelM c r) (PRet c r)); try done; simpl; try lia; by intros [] | eauto].
  - destruct (holder_inactive s ps t _ Hinv Ht eq_refl) as (_ & Hd & Hoff). pose proof (inv_pending _ _ Hinv) as Hpe.
    simpl in Hoff. eapply Hdet; [eapply (inv_release s ps t mutex PWRel PPend); try done; simpl; try lia; by intros [] | eauto].
  - eapply Hdet; [eapply (inv_acquire s ps t delay PPend (PRelM CWait 0) PBlockD CWait (fun _ => sync_release mutex (Ret 0)))|eauto];
      try done; by intros [].
  - by unfold run_thread in Hrun; rewrite Hth in Hrun.
  - destruct (holder_inactive s ps t _ Hinv Ht eq_refl) as (_ & Hd & Hoff). pose proof (inv_pending _ _ Hinv) as Hpe.
    simpl in Hoff. eapply Hdet; [eapply (inv_release s ps t delay PSRel (PRet CSignal 0)); try done; simpl; try lia; by intros [] | eauto].
  - unfold run_thread in Hrun. rewrite Hth in Hrun. injection Hrun as <-. pose proof (inv_waits _ _ Hinv).
    eapply (inv_local s ps t (PRet c r) PIdle); try done; simpl; try lia; try (by intros []); try by left.
    destruct (is_wait c r); simpl; lia.
  - unfold run_thread in Hrun. rewrite Hth in Hrun. injection Hrun as <-.
    eapply (inv_local s ps t PValue (PRet CValue (value s))); try done; simpl; try lia; try (by intros []); by left.
Qed.
End invariant.

(** ** Reachable states *)

Lemma signals_called_step s s' : sem_step s s' -> signals_called s <= signals_called s'.
Proof.
  intros [t c s0 _|t s0 s1 Hrun]; [unfold start_call; simpl; destruct c; simpl; lia|].
  assert (forall d s, signals_called (resume_thread d s) = signals_called s) as Hres.
  { intros d s2. unfold resume_thread. by destruct (threads s2 !! d) as [[]|]. }
  unfold run_thread in Hrun. destruct (threads s0 !! t) as [[|c a|]|]; try done. injection Hrun as <-.
  destruct a as [r|m k|m k|m k|k|v k]; try (simpl; lia).
  - destruct (receiveAsyncIPC _ _ _) as [a r]. destruct m; simpl; lia.
  - destruct (receiveAsyncIPC _ _ _) as [a r]. destruct m; simpl; lia.
  - destruct (sendAsyncIPC _ _) as [a [d|]]; rewrite ?Hres; destruct m; simpl; lia.
Qed.

Lemma inv_reachable init n s :
  0 <= init -> Z.of_nat n < 2 ^ 30 -> init + signals_called s < 2 ^ 31 ->
  rtc sem_step (sem_init init n) s -> exists ps, inv init n s ps.
Proof.
  intros Hi Hn Hs Hr.
  assert (forall s0 s, rtc sem_step s0 s -> signals_called s0 <= signals_called s) as Hmono.
  { intros s0 s1 H. induction H as [|x y z Hxy _ IH]; [lia|]. apply signals_called_step in Hxy. lia. }
  assert (exists ps, inv init n (sem_init init n) ps) as H0 by (eexists; by apply inv_init).
  induction Hr as [|x y z Hxy Hyz IH]; [done|]. apply IH; [done|]. destruct H0 as [ps H0].
  eapply inv_step; [done | done | done |]. pose proof (Hmono _ _ Hyz). apply signals_called_step in Hxy. lia.
Qed.

(** A thread is about to access the value inside a wait or signal. *)
Definition accesses (x : thread) : bool :=
  match x with
  | Running (CWait | CSignal | CTryWait) (Load _ | Store _ _) => true
  | _ => false
  end.

Lemma accesses_hold p : accesses (code p) = true -> hold p = 1.
Proof. by destruct p as [|[]|[]|[]|[] v|[]|[] r| | | | |[] r|]. Qed.

Lemma taken_covers ps : total off ps + total pend ps <= total taken ps.
Proof.
  induction ps as [|p ps IH]; simpl; [lia|].
  assert (off p + pend p <= taken p); [|lia].
  destruct p as [| | | | |[]|[] r| | | | |[] r|]; simpl; try lia; destruct (_ =? _); simpl; lia.
Qed.

(** C16: mutual exclusion and the contract of the semaphore: whatever the
    interleaving of any number of threads, at most one of them is at an access
    to the value inside a wait or signal, and never more waits have returned
    than the initial value and the signals allow. *)
Theorem sem_safety init n s :
  0 <= init -> Z.of_nat n < 2 ^ 30 -> init + signals_called s < 2 ^ 31 ->
  rtc sem_step (sem_init init n) s ->
  (forall t u x y, threads s !! t = Some x -> threads s !! u = Some y ->
     accesses x = true -> accesses y = true -> t = u) /\
  waits_done s <= init + signals_called s.
Proof.
  intros Hi Hn Hs Hr. destruct (inv_reachable init n s Hi Hn Hs Hr) as [ps Hinv]. split.
  - intros t u x y Ht Hu Hx Hy. destruct (inv_thread _ _ s ps t x Hinv Ht) as (p & Hp & ->).
    destruct (inv_thread _ _ s ps u y Hinv Hu) as (q & Hq & ->). apply accesses_hold in Hx, Hy.
    destruct (decide (t = u)) as [|Hne]; [done|].
    rewrite (one_holder ps t u p q) in Hy; try done. pose proof (inv_token _ _ _ _ Hinv).
    assert (forall a, 0 <= active a) as Hact by (intros []; simpl; lia).
    pose proof (Hact (ep_mutex s)). pose proof (Hact (ep_delay s)). lia.
  - pose proof (inv_pending _ _ _ _ Hinv). pose proof (inv_value _ _ _ _ Hinv). pose proof (inv_called _ _ _ _ Hinv).
    pose proof (taken_covers ps). pose proof (total_nonneg early ps early_nonneg).
    assert (0 <= active (ep_delay s)) by (destruct (ep_delay s); simpl; lia). lia.
Qed.

Definition is_running (x : thread) : bool := match x with Running _ _ => true | _ => false end.

(** C17: no wake-up is lost: when no thread can run, every blocked thread is in
    [sync_wait], all signals have returned, and if there is one, as many waits have
    returned as the initial value and the signals allow. *)
Theorem sem_no_lost_wakeup init n s :
  0 <= init -> Z.of_nat n < 2 ^ 30 -> init + signals_called s < 2 ^ 31 ->
  rtc sem_step (sem_init init n) s ->
  (forall t x, threads s !! t = Some x -> is_running x = false) ->
  signals_called s = signals_done s /\
  forall t c m k, threads s !! t = Some (Blocked c m k) ->
    c = CWait /\ m = delay /\ waits_done s = init + signals_done s.
Proof.
  intros Hi Hn Hs Hr Hq. destruct (inv_reachable init n s Hi Hn Hs Hr) as [ps Hinv].
  assert (forall t p, ps !! t = Some p -> p = PIdle \/ (exists c, p = PBlockM c) \/ p = PBlockD) as Hp.
  { intros t p Hp. specialize (Hq t (code p)). rewrite (inv_threads _ _ _ _ Hinv), list_lookup_fmap, Hp in Hq.
    specialize (Hq eq_refl). destruct p; eauto; done. }
  assert (total hold ps = 0 /\ total off ps = 0 /\ total added ps = 0) as (Hh & Ho & Ha).
  { split_and!; apply total_zero; intros t p Ht; by destruct (Hp t p Ht) as [->|[[c ->]| ->]]. }
  pose proof (inv_token _ _ _ _ Hinv) as Htok. pose proof (inv_pending _ _ _ _ Hinv) as Hpe.
  assert (active (ep_delay s) = 0) as Hd.
  { destruct (ep_delay s) as [| |b] eqn:Ed; [done | done |]. exfalso. pose proof (inv_delay _ _ _ _ Hinv) as Hqd.
    rewrite Ed in Hqd. assert (total pend ps = 0) as H0; [|simpl in *; lia]. apply total_zero. intros t p Ht.
    specialize (Hqd t p Ht). by destruct (Hp t p Ht) as [->|[[c ->]| ->]]. }
  assert (forall t p, ps !! t = Some p -> p = PIdle \/ p = PBlockD) as Hp2.
  { intros t p Ht. destruct (Hp t p Ht) as [|[[c ->]|]]; [by left | | by right].
    pose proof (inv_mutex _ _ _ _ Hinv) as Hqm. destruct (ep_mutex s) as [|w|b]; simpl in *; [lia | lia |].
    by specialize (Hqm t _ Ht). }
  assert (total early ps = 0) as He by (apply total_zero; intros t p Ht; by destruct (Hp2 t p Ht) as [->| ->]).
  assert (total taken ps = total pend ps) as Htp.
  { clear -Hp2. induction ps as [|p ps IH]; simpl; [done|]. rewrite IH by (intros t; apply (Hp2 (S t))).
    by destruct (Hp2 0%nat p eq_refl) as [->| ->]. }
  pose proof (inv_called _ _ _ _ Hinv). pose proof (inv_value _ _ _ _ Hinv). split; [lia|].
  intros t c m k Ht. destruct (inv_thread _ _ s ps t _ Hinv Ht) as (p & Htp' & Hc).
  destruct (Hp2 t p Htp') as [->| ->]; [done|]. injection Hc as -> -> _. split; [done|]. split; [done|].
  pose proof (total_ge pend ps t _ pend_nonneg Htp') as Hge. simpl in Hge. lia.
Qed.

(** ** Schedules *)

(** Runs the actions of the threads in the given order; a thread may start a
    call. *)
Fixpoint schedule (l : list (nat * option call)) (s : sem) : option sem :=
  match l with
  | [] => Some s
  | (t, Some c) :: l =>
      match threads s !! t with Some Idle => schedule l (start_call t c s) | _ => None end
  | (t, None) :: l => match run_thread t s with Some s' => schedule l s' | None => None end
  end.

Lemma schedule_steps l s s' : schedule l s = Some s' -> rtc sem_step s s'.
Proof.
  revert s. induction l as [|[t [c|]] l IH]; intros s H; simpl in H; simplify_eq; [done| |].
  - destruct (threads s !! t) as [[]|] eqn:E; try done. eapply rtc_l; [by apply (step_call t c)|]. by apply IH.
  - destruct (run_thread t s) as [s1|] eqn:E; [|done]. eapply rtc_l; [by apply (step_run t)|]. by apply IH.
Qed.

(** Thread 0 waits, finds no unit and releases the mutex; thread 1 signals and
    wakes thread 0 before it is blocked. *)
Definition run_demo : list (nat * option call) :=
  [(0, Some CWait); (0, None); (0, None); (0, None); (1, Some CSignal); (0, None); (0, None);
   (1, None); (1, None); (1, None); (1, None)]%nat.

Lemma sem_safety_witness :
  exists s, schedule run_demo (sem_init 0 2) = Some s /\
  (forall t u x y, threads s !! t = Some x -> threads s !! u = Some y ->
     accesses x = true -> accesses y = true -> t = u) /\
  waits_done s <= 0 + signals_called s.
Proof.
  eexists. split; [vm_compute; reflexivity|].
  apply (sem_safety 0 2); [lia | lia | by vm_compute |]. eapply (schedule_steps run_demo). vm_compute. reflexivity.
Defined.

(** Two waits and one signal: one wait returns, the other is blocked. *)
Definition block_demo : list (nat * option call) :=
  [(0, Some CWait); (0, None); (0, None); (0, None); (0, None); (0, None); (0, None);
   (2, Some CWait); (2, None); (2, None); (2, None); (2, None); (2, None); (2, None);
   (1, Some CSignal); (1, None); (1, None); (1, None); (1, None); (1, None); (1, None); (0, None); (0, None)]%nat.

Lemma sem_no_lost_wakeup_witness :
  exists s, schedule block_demo (sem_init 0 3) = Some s /\ waits_done s = 1 /\
  (exists k, threads s !! 2%nat = Some (Blocked CWait delay k)) /\
  signals_called s = signals_done s /\
  forall t c m k, threads s !! t = Some (Blocked c m k) ->
    c = CWait /\ m = delay /\ waits_done s = 0 + signals_done s.
Proof.
  eexists. split; [vm_compute; reflexivity|]. split; [reflexivity|]. split; [eexists; reflexivity|].
  apply (sem_no_lost_wakeup 0 3); [lia | lia | by vm_compute | |].
  - eapply (schedule_steps block_demo). vm_compute. reflexivity.
  - intros [|[|[|t]]] x H; vm_compute in H; by simplify_eq.
Defined.

(** ** Creation *)

(** A new endpoint is not one of those in use, which have capabilities below
    [ep_bound]. *)
Class SyncLaws (E : Type) `{!SyncEnv E} := {
  ep_bound : E -> Z;
  new_ep_fresh b e x c : fst (sync_new_ep b e) = Some (x, c) -> ep_bound e <= c < ep_bound (snd (sync_new_ep b e));
  new_ep_grows b e : ep_bound e <= ep_bound (snd (sync_new_ep b e));
  malloc_bound e : ep_bound (snd (sync_malloc e)) = ep_bound e
}.

Section creation.
Context {E : Type} `{!SyncEnv E} `{!SyncLaws E}.
Implicit Types s : sync_state E.

Definition eps_below s : Prop := forall c a, eps s !! c = Some a -> c < ep_bound (sync_env s).

Lemma key_above {A} (h : gmap Z A) :
  let p := 1 + map_fold (fun k _ acc => Z.max k acc) 0 h in 0 < p /\ h !! p = None.
Proof using.
  assert (forall k x, h !! k = Some x -> k <= map_fold (fun k _ acc => Z.max k acc) 0 h) as Hk.
  { apply (map_fold_weak_ind (fun r h => forall k x, h !! k = Some x -> k <= r)).
    - intros k x Hk. by rewrite lookup_empty in Hk.
    - intros i x h' r Hi IH k y Hk. destruct (decide (i = k)) as [->|]; [lia|].
      rewrite lookup_insert_ne in Hk by done. specialize (IH k y Hk). lia. }
  assert (0 <= map_fold (fun k (_ : A) acc => Z.max k acc) 0 h) as H0.
  { apply (map_fold_weak_ind (fun r _ => 0 <= r)); [lia|]. intros. lia. }
  simpl. split; [lia|]. destruct (h !! _) as [x|] eqn:E1; [|done]. apply Hk in E1. lia.
Qed.

(** A new mutex is free; a failure leaves no object behind. *)
Lemma sync_create_mutex_spec s :
  eps_below s ->
  wp sync_create_mutex (fun p s' => eps_below s' /\ sems s' = sems s /\
    (p = 0 /\ mutexes s' = mutexes s /\ eps s' = eps s \/
     0 < p /\ exists e c, mutexes s !! p = None /\ mutexes s' = <[p := SyncMutex e c]> (mutexes s) /\
       eps s !! c = None /\ eps s' = <[c := AEPState_Active MUTEX_MAGIC]> (eps s))) s.
Proof using SyncLaws0.
  intros Hs. unfold sync_create_mutex, wp, bind, env_call. pose proof (malloc_bound (sync_env s)) as Hb.
  destruct (sync_malloc (sync_env s)) as [[] e1]; simpl in Hb.
  2: { unfold ret. split; [|by eauto]. intros c a Hc. simpl. rewrite Hb. by eapply Hs. }
  simpl. pose proof (new_ep_grows MUTEX_MAGIC e1) as Hg. pose proof (new_ep_fresh MUTEX_MAGIC e1) as Hf.
  destruct (sync_new_ep MUTEX_MAGIC e1) as [[[x c]|] e2]; simpl in *.
  2: { split; [|by eauto]. intros c a Hc. simpl in *. specialize (Hs c a Hc). lia. }
  specialize (Hf x c eq_refl). destruct (key_above (mutexes s)) as [Hp Hnew].
  assert (eps s !! c = None) as Hc by (destruct (eps s !! c) as [a|] eqn:Ec; [apply Hs in Ec; lia | done]).
  unfold set_mutexes, seL4_Notify, modify, ep_state. simpl. rewrite Hc. split; [|split; [done|]].
  - intros k a Hk. simpl in *. destruct (decide (c = k)) as [->|]; [lia|].
    rewrite lookup_insert_ne in Hk by done. specialize (Hs k a Hk). lia.
  - right. split; [lia|]. by exists x, c.
Qed.

(** The mutexes of a new semaphore are in the state [sem_init] starts from; a
    failure leaves no object behind. *)
Lemma sync_create_sem_spec v s :
  eps_below s ->
  wp (sync_create_sem v) (fun p s' =>
    p = 0 /\ mutexes s' = mutexes s /\ sems s' = sems s \/
    exists m d mm dm, sems s' !! p = Some (SyncSem m d v) /\ mutexes s' !! m = Some mm /\ mutexes s' !! d = Some dm /\
      forall n, ep_state (m_mapping mm) s' = ep_mutex (sem_init v n) /\ ep_state (m_mapping dm) s' = ep_delay (sem_init v n)) s.
Proof using SyncLaws0.
  intros Hs. unfold sync_create_sem, wp, bind, env_call. pose proof (malloc_bound (sync_env s)) as Hb.
  destruct (sync_malloc (sync_env s)) as [[] e1]; simpl in Hb; [|by left].
  simpl. set (s1 := SyncState (mutexes s) (sems s) (eps s) e1).
  assert (eps_below s1) as Hs1 by (intros c a Hc; simpl; rewrite Hb; by eapply Hs).
  pose proof (proj1 (wp_ok _ _ _) (sync_create_mutex_spec s1 Hs1)) as (m & s2 & E2 & Hs2 & Hsems & Hm). rewrite E2.
  destruct Hm as [(-> & Hm & _)|(Hm0 & em & cm & Hmn & Hm & Hcm & Heps)]; simpl; [left; simpl; by rewrite Hm, Hsems|].
  destruct (Z.eqb_spec m 0); [lia|].
  pose proof (proj1 (wp_ok _ _ _) (sync_create_mutex_spec s2 Hs2)) as (d & s3 & E3 & Hs3 & Hsems3 & Hd). rewrite E3.
  destruct Hd as [(-> & Hd & _)|(Hd0 & ed & cd & Hdn & Hd & Hcd & Heps3)]; simpl.
  - unfold sync_destroy_mutex, bind, load_mutex, env_call. destruct (Z.eqb_spec m 0); [lia|].
    rewrite Hd, Hm, lookup_insert_eq. simpl. destruct (sync_free_ep em (sync_env s3)) as [[] e4]. simpl. left. split; [done|]. simpl.
    rewrite Hd, Hm, delete_insert_eq. simpl in Hmn. rewrite delete_id by done. by rewrite Hsems3, Hsems.
  - destruct (Z.eqb_spec d 0); [lia|]. unfold load_mutex. destruct (Z.eqb_spec d 0); [lia|].
    rewrite Hd, lookup_insert_eq. unfold seL4_Wait, ep_state. simpl. rewrite Heps3, lookup_insert_eq. simpl. right.
    assert (m <> d) by (intros ->; rewrite Hm, lookup_insert_eq in Hdn; done).
    assert (cm <> cd) by (intros ->; rewrite Heps, lookup_insert_eq in Hcd; done).
    exists m, d, (SyncMutex em cm), (SyncMutex ed cd). rewrite lookup_insert_eq.
    split; [done|]. rewrite Hd, Hm, lookup_insert_ne, lookup_insert_eq by done. split; [done|].
    rewrite lookup_insert_eq. split; [done|]. intros threads_count. unfold ep_state. simpl. rewrite lookup_insert_eq.
    rewrite !lookup_insert_ne by done. by rewrite Heps, lookup_insert_eq.
Qed.
End creation.
